(** * Cross-Language-Code-Converter: the parsers, the generators and
      [convert_code], embedded from the Python sources.

    Text is a list of characters.  A character is one of Rocq's [ascii],
    read as a Unicode code point below 256; the character classes below
    are Python's classes on those code points ([str.isspace], and [\s],
    [\w], [\d], [.] of the [re] module on [str] patterns).  Python's
    recursion limit is not modelled. *)

From Stdlib Require Import List Ascii String Bool Arith ZArith Lia.
Import ListNotations.

Set Implicit Arguments.

Definition text := list ascii.

(** A text written as a string literal. *)
Definition txt (s : string) : text := list_ascii_of_string s.

Definition nl : ascii := "010"%char.
Definition tab : ascii := "009"%char.
Definition dq : ascii := "034"%char.
Definition sq : ascii := "039"%char.
Definition bs : ascii := "092"%char.

(** ** Python's string primitives, as far as the sources use them *)
Module Py.

Definition code (c : ascii) : nat := nat_of_ascii c.

Definition between (lo hi : nat) (c : ascii) : bool :=
  (lo <=? code c) && (code c <=? hi).

(** [str.isspace] on one character, which is also [\s]. *)
Definition is_space (c : ascii) : bool :=
  between 9 13 c || between 28 32 c || (code c =? 133) || (code c =? 160).

(** [\d]. *)
Definition is_digit (c : ascii) : bool := between 48 57 c.

Definition is_ascii_letter (c : ascii) : bool :=
  between 65 90 c || between 97 122 c.

(** [\w]: alphanumeric characters and the underscore. *)
Definition is_word (c : ascii) : bool :=
  is_digit c || is_ascii_letter c || (code c =? 95)
  || (code c =? 170) || (code c =? 178) || (code c =? 179) || (code c =? 181)
  || (code c =? 185) || (code c =? 186) || between 188 190 c
  || between 192 214 c || between 216 246 c || between 248 255 c.

(** [.] without DOTALL. *)
Definition is_dot (c : ascii) : bool := negb (Ascii.eqb c nl).

(** A negated one-character class such as [[^;]]. *)
Definition is_not (x : ascii) (c : ascii) : bool := negb (Ascii.eqb c x).

(** [str.isprintable] on one character. *)
Definition is_printable (c : ascii) : bool :=
  negb (between 0 31 c || between 127 160 c || (code c =? 173)).

Fixpoint text_eqb (a b : text) : bool :=
  match a, b with
  | [], [] => true
  | x :: a', y :: b' => Ascii.eqb x y && text_eqb a' b'
  | _, _ => false
  end.

(** [s.startswith(p)]. *)
Fixpoint startswith (p s : text) : bool :=
  match p, s with
  | [], _ => true
  | x :: p', y :: s' => Ascii.eqb x y && startswith p' s'
  | _ :: _, [] => false
  end.

(** [s.endswith(p)]. *)
Definition endswith (p s : text) : bool := startswith (rev p) (rev s).

(** [s.lstrip()]. *)
Fixpoint lstrip (s : text) : text :=
  match s with
  | c :: s' => if is_space c then lstrip s' else s
  | [] => []
  end.

(** [s.rstrip()]. *)
Definition rstrip (s : text) : text := rev (lstrip (rev s)).

(** [s.strip()]. *)
Definition strip (s : text) : text := rstrip (lstrip s).

(** [len(line) - len(line.lstrip())]. *)
Definition indent_of (line : text) : nat :=
  List.length line - List.length (lstrip line).

(** The first occurrence of a non-empty [sep] in [s]: the text before it
    and the text after it ([s.split(sep, 1)] when it has two parts). *)
Fixpoint partition (sep s : text) : option (text * text) :=
  if startswith sep s then Some ([], skipn (List.length sep) s)
  else match s with
       | [] => None
       | c :: s' =>
           match partition sep s' with
           | Some (a, b) => Some (c :: a, b)
           | None => None
           end
       end.

(** [sep in s]. *)
Definition contains (sep s : text) : bool :=
  match partition sep s with Some _ => true | None => false end.

(** [s.split(c)] for a one-character separator. *)
Fixpoint split_char (c : ascii) (s : text) : list text :=
  match s with
  | [] => [[]]
  | x :: s' =>
      if Ascii.eqb x c then [] :: split_char c s'
      else match split_char c s' with
           | l :: ls => (x :: l) :: ls
           | [] => [[x]]
           end
  end.

Fixpoint split_upto (n : nat) (sep s : text) : list text :=
  match n with
  | 0 => [s]
  | S n' =>
      match partition sep s with
      | None => [s]
      | Some (a, b) => a :: split_upto n' sep b
      end
  end.

(** [s.split(sep)] for a non-empty separator: every cut removes at least
    one character, so [length s] cuts are enough. *)
Definition split (sep s : text) : list text := split_upto (List.length s) sep s.

Fixpoint split_ws_from (cur : text) (s : text) : list text :=
  match s with
  | [] => match cur with [] => [] | _ => [rev cur] end
  | c :: s' =>
      if is_space c
      then match cur with
           | [] => split_ws_from [] s'
           | _ => rev cur :: split_ws_from [] s'
           end
      else split_ws_from (c :: cur) s'
  end.

(** [s.split()]: the runs of non-whitespace characters. *)
Definition split_ws (s : text) : list text := split_ws_from [] s.

(** [sep.join(parts)]. *)
Fixpoint join (sep : text) (parts : list text) : text :=
  match parts with
  | [] => []
  | [p] => p
  | p :: ps => p ++ sep ++ join sep ps
  end.

Fixpoint replace_upto (n : nat) (old new s : text) : text :=
  match n with
  | 0 => s
  | S n' =>
      match partition old s with
      | None => s
      | Some (a, b) => a ++ new ++ replace_upto n' old new b
      end
  end.

(** [s.replace(old, new)] for a non-empty [old]. *)
Definition replace (old new s : text) : text :=
  replace_upto (List.length s) old new s.

(** [s.count(c)] for a one-character [c]. *)
Definition count (c : ascii) (s : text) : nat :=
  List.length (filter (Ascii.eqb c) s).

(** [s[1:-1]]. *)
Definition slice_1_m1 (s : text) : text := removelast (tl s).

(** [s[6:-1]]. *)
Definition slice_6_m1 (s : text) : text := removelast (skipn 6 s).

(** [s * n] for an integer [n]: empty when [n] is not positive. *)
Definition times (s : text) (n : Z) : text :=
  List.concat (repeat s (Z.to_nat n)).

(** The text begins, or ends, with a character that is no whitespace. *)
Definition starts_solid (s : text) : Prop :=
  exists c t, s = c :: t /\ is_space c = false.

Definition ends_solid (s : text) : Prop :=
  exists t d, s = t ++ [d] /\ is_space d = false.

(** The length of the lines joined by newlines, and one more. *)
Definition weight (lines : list text) : nat :=
  list_sum (map (fun line => S (List.length line)) lines).

Definition hex_digit (n : nat) : ascii :=
  if n <? 10 then ascii_of_nat (48 + n) else ascii_of_nat (87 + n).

(** One character inside [repr] of a [str] delimited by [quote]. *)
Definition repr_char (quote : ascii) (c : ascii) : text :=
  if Ascii.eqb c quote || Ascii.eqb c bs then [bs; c]
  else if Ascii.eqb c tab then [bs; "t"%char]
  else if Ascii.eqb c nl then [bs; "n"%char]
  else if Ascii.eqb c "013"%char then [bs; "r"%char]
  else if is_printable c then [c]
  else [bs; "x"%char; hex_digit (code c / 16); hex_digit (code c mod 16)].

(** [repr(s)] of a [str]: single quotes, unless the text has a single
    quote and no double quote. *)
Definition repr_str (s : text) : text :=
  let quote :=
    if existsb (Ascii.eqb sq) s && negb (existsb (Ascii.eqb dq) s)
    then dq else sq in
  [quote] ++ flat_map (repr_char quote) s ++ [quote].

(** [repr] of a list whose elements have the given [repr]s. *)
Definition repr_list (elems : list text) : text :=
  txt "[" ++ join (txt ", ") elems ++ txt "]".

(** [repr] of a [dict] with [str] keys, given the [repr]s of its values. *)
Definition repr_dict (fields : list (text * text)) : text :=
  txt "{" ++ join (txt ", ")
               (map (fun kv => repr_str (fst kv) ++ txt ": " ++ snd kv) fields)
          ++ txt "}".

End Py.

(** The option monad, used where the model runs on fuel. *)
Notation "x <- c ;; k" :=
  (match c with Some x => k | None => None end)
  (at level 61, c at next level, right associativity).

(** ** The fragment of Python's [re] that the sources use

    A backtracking matcher in continuation-passing style: alternatives are
    tried from the left, greedy quantifiers try the longest repetition
    first and lazy ones the shortest, as Python's engine does.  Only
    one-character classes are repeated in the patterns of the sources. *)
Module Re.
Import Py.

Inductive regex : Type :=
| Lit (l : text)                 (* literal characters *)
| Cls (p : ascii -> bool)        (* one character of a class *)
| Seq (r1 r2 : regex)
| Alt (r1 r2 : regex)            (* r1|r2 *)
| Opt (r : regex)                (* r? *)
| Star (p : ascii -> bool)       (* [p]* *)
| Plus (p : ascii -> bool)       (* [p]+ *)
| StarLazy (p : ascii -> bool)   (* [p]*? *)
| PlusLazy (p : ascii -> bool)   (* [p]+? *)
| Group (n : nat) (r : regex)    (* capturing group number n *)
| Backref (n : nat).             (* \n *)

(** An alternation [r1|r2|...], tried from the left. *)
Fixpoint alts (rs : list regex) : regex :=
  match rs with
  | [] => Lit []
  | [r] => r
  | r :: rs' => Alt r (alts rs')
  end.

(** A sequence of patterns. *)
Fixpoint cat (rs : list regex) : regex :=
  match rs with
  | [] => Lit []
  | [r] => r
  | r :: rs' => Seq r (cat rs')
  end.

(** The captured groups, most recent first. *)
Definition groups := list (nat * text).

Fixpoint lookup (n : nat) (g : groups) : option text :=
  match g with
  | [] => None
  | (m, t) :: g' => if n =? m then Some t else lookup n g'
  end.

Definition orelse {A} (x y : option A) : option A :=
  match x with Some _ => x | None => y end.

Section Matcher.
Variable A : Type.

Fixpoint star_greedy (p : ascii -> bool) (s : text) (k : text -> option A)
  : option A :=
  match s with
  | c :: s' => if p c then orelse (star_greedy p s' k) (k s) else k s
  | [] => k s
  end.

Fixpoint star_lazy (p : ascii -> bool) (s : text) (k : text -> option A)
  : option A :=
  match k s with
  | Some r => Some r
  | None =>
      match s with
      | c :: s' => if p c then star_lazy p s' k else None
      | [] => None
      end
  end.

(** The text that was consumed between [s] and its suffix [s']. *)
Definition consumed (s s' : text) : text :=
  firstn (List.length s - List.length s') s.

Fixpoint rmatch (r : regex) (s : text) (g : groups)
  (k : text -> groups -> option A) : option A :=
  match r with
  | Lit l => if startswith l s then k (skipn (List.length l) s) g else None
  | Cls p =>
      match s with
      | c :: s' => if p c then k s' g else None
      | [] => None
      end
  | Seq r1 r2 => rmatch r1 s g (fun s' g' => rmatch r2 s' g' k)
  | Alt r1 r2 => orelse (rmatch r1 s g k) (rmatch r2 s g k)
  | Opt r1 => orelse (rmatch r1 s g k) (k s g)
  | Star p => star_greedy p s (fun s' => k s' g)
  | Plus p =>
      match s with
      | c :: s' => if p c then star_greedy p s' (fun s'' => k s'' g) else None
      | [] => None
      end
  | StarLazy p => star_lazy p s (fun s' => k s' g)
  | PlusLazy p =>
      match s with
      | c :: s' => if p c then star_lazy p s' (fun s'' => k s'' g) else None
      | [] => None
      end
  | Group n r1 => rmatch r1 s g (fun s' g' => k s' ((n, consumed s s') :: g'))
  | Backref n =>
      match lookup n g with
      | Some t => if startswith t s then k (skipn (List.length t) s) g else None
      | None => None
      end
  end.

End Matcher.

(** [re.match(r, s)]: a match at the start of [s]. *)
Definition re_match (r : regex) (s : text) : option groups :=
  rmatch r s [] (fun _ g => Some g).

(** [re.fullmatch(r, s)]: a match of the whole of [s]. *)
Definition re_fullmatch (r : regex) (s : text) : option groups :=
  rmatch r s [] (fun s' g => match s' with [] => Some g | _ => None end).

Definition is_none {A} (o : option A) : bool :=
  match o with Some _ => false | None => true end.

(** The truth value of a match object or [None]. *)
Definition found (m : option groups) : bool :=
  match m with Some _ => true | None => false end.

(** [m.group(n)], for a group that took part in the match. *)
Definition group (n : nat) (m : groups) : text :=
  match lookup n m with Some t => t | None => [] end.

(** What it means for a pattern to match a text exactly, taking the
    captured groups [g] to [g']; [rmatch] finds such matches only
    ([rmatch_sound]), in Python's order of preference. *)
Inductive matches : regex -> groups -> text -> groups -> Prop :=
| m_lit l g : matches (Lit l) g l g
| m_cls p c g : p c = true -> matches (Cls p) g [c] g
| m_seq r1 r2 g a g1 b g2 :
    matches r1 g a g1 -> matches r2 g1 b g2 -> matches (Seq r1 r2) g (a ++ b) g2
| m_alt_l r1 r2 g a g' : matches r1 g a g' -> matches (Alt r1 r2) g a g'
| m_alt_r r1 r2 g a g' : matches r2 g a g' -> matches (Alt r1 r2) g a g'
| m_opt_some r g a g' : matches r g a g' -> matches (Opt r) g a g'
| m_opt_none r g : matches (Opt r) g [] g
| m_star p g a : forallb p a = true -> matches (Star p) g a g
| m_plus p g c a : forallb p (c :: a) = true -> matches (Plus p) g (c :: a) g
| m_star_lazy p g a : forallb p a = true -> matches (StarLazy p) g a g
| m_plus_lazy p g c a :
    forallb p (c :: a) = true -> matches (PlusLazy p) g (c :: a) g
| m_group n r g a g' : matches r g a g' -> matches (Group n r) g a ((n, a) :: g')
| m_backref n g t : lookup n g = Some t -> matches (Backref n) g t g.

Definition sp : regex := Star is_space.     (* \s* *)
Definition sp1 : regex := Plus is_space.    (* \s+ *)
Definition word1 : regex := Plus is_word.   (* \w+ *)
Definition lit (s : string) : regex := Lit (txt s).
Definition not_ch (s : string) : ascii -> bool :=
  match s with String c _ => is_not c | EmptyString => fun _ => true end.

(** [-? \d+ ( \. \d+ )?] *)
Definition NUMBER_REGEX : regex :=
  cat [Opt (lit "-"); Plus is_digit; Opt (Group 1 (cat [lit "."; Plus is_digit]))].

(** [[a-zA-Z_] \w*] *)
Definition IDENT_REGEX : regex :=
  cat [Cls (fun c => is_ascii_letter c || Ascii.eqb c "_"%char); Star is_word].

End Re.

(** ** ast_module/universal_ast.py *)
Module Ast.
Import Py.

(** The classes of the module.  [PlainNode] is an instance of the base
    class [Node] itself, which has no fields.  A [ForLoopNode]'s [iterable]
    is a [str] when a brace-language parser built the node and a node when
    [parse_python] did: [inl] and [inr]. *)
#[warnings="-register-all"]
Inductive Node : Type :=
| ProgramNode (statements : list Node)
| FunctionNode (name : text) (args : list text) (body : list Node)
| PrintNode (expression : Node)
| MathOpNode (operator : text) (left right : Node)
| VariableNode (name : text)
| StringLiteralNode (value : text)
| NumberLiteralNode (value : text)
| PowerNode (base exponent : Node)
| ForLoopNode (iterator : text) (iterable : text + Node) (body : list Node)
| WhileLoopNode (condition : Node) (body : list Node)
| ComparisonNode (operator : text) (left right : Node)
| AssignmentNode (target value : Node)
| FunctionCallNode (name : text) (args : list Node)
| PlainNode.

(** [program.statements]. *)
Definition statements (program : Node) : list Node :=
  match program with ProgramNode l => l | _ => [] end.

(** [f"{self.__class__.__name__}({self.__dict__})"]. *)
Definition obj (cls : string) (fields : list (text * text)) : text :=
  txt cls ++ txt "(" ++ repr_dict fields ++ txt ")".

(** [Node.__repr__]: the class name and the [repr] of the instance's
    [__dict__]; [ForLoopNode] has a [__repr__] of its own. *)
Fixpoint repr (node : Node) : text :=
  let reprs := fix reprs (l : list Node) : list text :=
    match l with [] => [] | n :: l' => repr n :: reprs l' end in
  match node with
  | ProgramNode statements =>
      obj "ProgramNode" [(txt "statements", repr_list (reprs statements))]
  | FunctionNode name args body =>
      obj "FunctionNode"
        [(txt "name", repr_str name);
         (txt "args", repr_list (map repr_str args));
         (txt "body", repr_list (reprs body))]
  | PrintNode expression =>
      obj "PrintNode" [(txt "expression", repr expression)]
  | MathOpNode operator lhs rhs =>
      obj "MathOpNode"
        [(txt "operator", repr_str operator); (txt "left", repr lhs);
         (txt "right", repr rhs)]
  | VariableNode name => obj "VariableNode" [(txt "name", repr_str name)]
  | StringLiteralNode value =>
      obj "StringLiteralNode" [(txt "value", repr_str value)]
  | NumberLiteralNode value =>
      obj "NumberLiteralNode" [(txt "value", repr_str value)]
  | PowerNode base exponent =>
      obj "PowerNode" [(txt "base", repr base); (txt "exponent", repr exponent)]
  | ForLoopNode iterator iterable body =>
      txt "ForLoopNode(iterator='" ++ iterator ++ txt "', iterable='"
      ++ match iterable with inl s => s | inr n => repr n end
      ++ txt "', body=" ++ repr_list (reprs body) ++ txt ")"
  | WhileLoopNode condition body =>
      obj "WhileLoopNode"
        [(txt "condition", repr condition); (txt "body", repr_list (reprs body))]
  | ComparisonNode operator lhs rhs =>
      obj "ComparisonNode"
        [(txt "operator", repr_str operator); (txt "left", repr lhs);
         (txt "right", repr rhs)]
  | AssignmentNode target value =>
      obj "AssignmentNode" [(txt "target", repr target); (txt "value", repr value)]
  | FunctionCallNode name args =>
      obj "FunctionCallNode"
        [(txt "name", repr_str name); (txt "args", repr_list (reprs args))]
  | PlainNode => obj "Node" []
  end.

End Ast.

(** ** parsers/python_parser.py *)
Module PythonParser.
Import Py Re Ast.

(** Token by token: [def \s+ (\w+) \s* \( ( [^)]* ) \) \s* :] *)
Definition FUNC_DEF_REGEX : regex :=
  cat [lit "def"; sp1; Group 1 word1; sp; lit "(";
       Group 2 (Star (not_ch ")")); lit ")"; sp; lit ":"].

(** [print \s* \( ( .* ) \)] *)
Definition PRINT_REGEX : regex :=
  cat [lit "print"; sp; lit "("; Group 1 (Star is_dot); lit ")"].

(** [pow \s* \( ( [^,]+ ) \s* , \s* ( [^)]+ ) \)] *)
Definition POW_REGEX : regex :=
  cat [lit "pow"; sp; lit "("; Group 1 (Plus (not_ch ",")); sp; lit ","; sp;
       Group 2 (Plus (not_ch ")")); lit ")"].

(** [for \s+ (\w+) \s+ in \s+ (.+?) \s* :] *)
Definition FOR_LOOP_REGEX : regex :=
  cat [lit "for"; sp1; Group 1 word1; sp1; lit "in"; sp1;
       Group 2 (PlusLazy is_dot); sp; lit ":"].

(** [while \s+ (.+?) \s* :] *)
Definition WHILE_LOOP_REGEX : regex :=
  cat [lit "while"; sp1; Group 1 (PlusLazy is_dot); sp; lit ":"].

(** [(\w+) \s* = \s* (.+)] *)
Definition ASSIGNMENT_REGEX : regex :=
  cat [Group 1 word1; sp; lit "="; sp; Group 2 (Plus is_dot)].

(** [(\w+) \s* \( ( .*? ) \)] *)
Definition FUNCTION_CALL_REGEX : regex :=
  cat [Group 1 word1; sp; lit "("; Group 2 (StarLazy is_dot); lit ")"].

Definition comparison_ops : list text :=
  [txt "=="; txt "!="; txt "<="; txt ">="; txt "<"; txt ">"].

(** The loop over the comparison operators: the first [op] of the list for
    which it occurs in [s] with a space on either side, and the two parts
    of splitting [s] once at that occurrence. *)
Fixpoint find_comparison (ops : list text) (s : text)
  : option (text * (text * text)) :=
  match ops with
  | [] => None
  | op :: ops' =>
      match partition (txt " " ++ op ++ txt " ") s with
      | Some parts => Some (op, parts)
      | None => find_comparison ops' s
      end
  end.

(** The guard of the addition rule and the parts it splits into. *)
Definition find_addition (expr_str : text) : option (text * text) :=
  if contains (txt " + ") expr_str && negb (startswith (txt "pow(") expr_str)
  then match partition (txt " + ") expr_str with
       | Some (p0, p1) =>
           if negb (negb (count dq p0 mod 2 =? 0) || negb (count sq p0 mod 2 =? 0))
           then Some (p0, p1) else None
       | None => None
       end
  else None.

(** The rules of [_parse_expression] that do not recurse. *)
(** The test of the string-literal rule. *)
Definition quoted (expr_str : text) : bool :=
  (startswith [dq] expr_str && endswith [dq] expr_str)
  || (startswith [sq] expr_str && endswith [sq] expr_str).

Definition parse_atom (expr_str : text) : Node :=
  if quoted expr_str
  then StringLiteralNode (slice_1_m1 expr_str)
  else if found (re_fullmatch NUMBER_REGEX expr_str)
  then NumberLiteralNode expr_str
  else if found (re_fullmatch IDENT_REGEX expr_str) then VariableNode expr_str
  else VariableNode expr_str.

Fixpoint _parse_expression_fuel (fuel : nat) (expr_str : text) : option Node :=
  match fuel with
  | 0 => None
  | S fuel' =>
      let expr_str := strip expr_str in
      match find_comparison comparison_ops expr_str with
      | Some (op, (p0, p1)) =>
          lhs <- _parse_expression_fuel fuel' (strip p0) ;;
          rhs <- _parse_expression_fuel fuel' (strip p1) ;;
          Some (ComparisonNode op lhs rhs)
      | None =>
          match re_fullmatch POW_REGEX expr_str with
          | Some pow_match =>
              base <- _parse_expression_fuel fuel' (strip (group 1 pow_match)) ;;
              exponent <- _parse_expression_fuel fuel' (strip (group 2 pow_match)) ;;
              Some (PowerNode base exponent)
          | None =>
              match find_addition expr_str with
              | Some (p0, p1) =>
                  lhs <- _parse_expression_fuel fuel' (strip p0) ;;
                  rhs <- _parse_expression_fuel fuel' (strip p1) ;;
                  Some (MathOpNode (txt "+") lhs rhs)
              | None => Some (parse_atom expr_str)
              end
          end
      end
  end.

(** Every recursive call is on a strictly shorter text
    ([_parse_expression_total]). *)
(** None of the rules before the two variable rules applies to the
    stripped [expr_str]: it has no comparison, is no power call, has no
    addition, is no string literal and no number. *)
Definition no_sub_pattern (expr_str : text) : bool :=
  is_none (find_comparison comparison_ops expr_str)
  && is_none (re_fullmatch POW_REGEX expr_str)
  && is_none (find_addition expr_str)
  && negb (quoted expr_str)
  && is_none (re_fullmatch NUMBER_REGEX expr_str).

Definition expr_fuel (expr_str : text) : nat := S (List.length expr_str).

Definition _parse_expression (expr_str : text) : option Node :=
  _parse_expression_fuel (expr_fuel expr_str) expr_str.

(** [not line.strip()]. *)
Definition blank (line : text) : bool :=
  match strip line with [] => true | _ => false end.

(** The loop of [_get_indented_block] from index [i] on; [lines] is
    [lines[i:]], and [first] says that [i] is still [start_idx].  The
    second component is [lines[i':]] for the index [i'] returned. *)
Fixpoint block_from (first : bool) (lines : list text) (base_indent : nat)
  : list text * list text :=
  match lines with
  | [] => ([], [])
  | line :: lines' =>
      if blank line then block_from false lines' base_indent
      else if (indent_of line <=? base_indent) && negb first then ([], lines)
      else let '(block_lines, rest) := block_from false lines' base_indent in
           (line :: block_lines, rest)
  end.

Definition _get_indented_block (lines_from_start : list text) (base_indent : nat)
  : list text * list text :=
  block_from true lines_from_start base_indent.

(** The [while i < len(lines)] loop of [parse_python]; [lines] is
    [lines[i:]] and the result is what the loop appends to [statements]
    from there on.  [parse] is [parse_python] itself, for the bodies.
    Every turn moves [i] forward, so [n] turns are enough when [lines] has
    at most [n] elements. *)
Fixpoint parse_loop (parse : text -> option Node) (n : nat) (lines : list text)
  : option (list Node) :=
  match lines, n with
  | [], _ => Some []
  | _ :: _, 0 => None
  | raw :: rest, S n' =>
      let line := strip raw in
      if match line with [] => true | _ => false end || startswith (txt "#") line
      then parse_loop parse n' rest
      else
      match re_match FUNCTION_CALL_REGEX line with
      | Some m =>
          let func_name := group 1 m in
          let args_str := group 2 m in
          let args := match args_str with
                      | [] => []
                      | _ => map strip (split_char ","%char args_str)
                      end in
          stmts <- parse_loop parse n' rest ;;
          Some (FunctionNode func_name args [] :: stmts)
      | None =>
      match re_match ASSIGNMENT_REGEX line with
      | Some m =>
          value <- _parse_expression (group 2 m) ;;
          stmts <- parse_loop parse n' rest ;;
          Some (AssignmentNode (VariableNode (group 1 m)) value :: stmts)
      | None =>
      match re_match FUNC_DEF_REGEX line with
      | Some m =>
          let name := group 1 m in
          let args := filter (fun a => negb (blank a))
                        (split_char ","%char (group 2 m)) in
          let args := map strip args in
          let '(body_lines, rest') := _get_indented_block rest (indent_of raw) in
          body_program <- parse (join [nl] body_lines) ;;
          stmts <- parse_loop parse n' rest' ;;
          Some (FunctionNode name args (statements body_program) :: stmts)
      | None =>
      match re_match FOR_LOOP_REGEX line with
      | Some m =>
          iterable <- _parse_expression (group 2 m) ;;
          let '(body_lines, rest') := _get_indented_block rest (indent_of raw) in
          body_program <- parse (join [nl] body_lines) ;;
          stmts <- parse_loop parse n' rest' ;;
          Some (ForLoopNode (group 1 m) (inr iterable) (statements body_program)
                :: stmts)
      | None =>
      match re_match WHILE_LOOP_REGEX line with
      | Some m =>
          condition <- _parse_expression (group 1 m) ;;
          let '(body_lines, rest') := _get_indented_block rest (indent_of raw) in
          body_program <- parse (join [nl] body_lines) ;;
          stmts <- parse_loop parse n' rest' ;;
          Some (WhileLoopNode condition (statements body_program) :: stmts)
      | None =>
      match re_match PRINT_REGEX line with
      | Some m =>
          expression_node <- _parse_expression (strip (group 1 m)) ;;
          stmts <- parse_loop parse n' rest ;;
          Some (PrintNode expression_node :: stmts)
      | None => parse_loop parse n' rest
      end end end end end end
  end.

(** The statement patterns, in the order in which the loop tries them. *)
Definition statement_patterns : list regex :=
  [FUNCTION_CALL_REGEX; ASSIGNMENT_REGEX; FUNC_DEF_REGEX; FOR_LOOP_REGEX;
   WHILE_LOOP_REGEX; PRINT_REGEX].

(** The stripped [line] matches none of them. *)
Definition matches_no_statement (line : text) : bool :=
  forallb (fun r => is_none (re_match r line)) statement_patterns.

Fixpoint parse_python_fuel (fuel : nat) (code : text) : option Node :=
  match fuel with
  | 0 => None
  | S fuel' =>
      let lines := split_char nl (strip code) in
      stmts <- parse_loop (parse_python_fuel fuel') (List.length lines) lines ;;
      Some (ProgramNode stmts)
  end.

(** A body is strictly shorter than the text it is cut from
    ([parse_python_total]). *)
Definition parse_fuel (code : text) : nat := S (List.length code).

(** [parse_python(code)]; the fuel never runs out, so the last case is
    never taken. *)
Definition parse_python (code : text) : Node :=
  match parse_python_fuel (parse_fuel code) code with
  | Some program => program
  | None => ProgramNode []
  end.

End PythonParser.

(** ** parsers/cpp_parser.py

    In the parsers [None] stands for a call that does not return: the
    model ran out of fuel, or the code raised. *)
Module CppParser.
Import Py Re Ast.

(** [(?:void|int|string) \s+ (\w+) \s* \( ( [^)]* ) \) \s* \{] *)
Definition FUNC_DEF_REGEX : regex :=
  cat [alts [lit "void"; lit "int"; lit "string"]; sp1; Group 1 word1; sp;
       lit "("; Group 2 (Star (not_ch ")")); lit ")"; sp; lit "{"].

(** [(?:std::)? cout \s* << \s* ( [^;]+ ) (?: \s* << \s* endl )?] *)
Definition PRINT_REGEX : regex :=
  cat [Opt (lit "std::"); lit "cout"; sp; lit "<<"; sp;
       Group 1 (Plus (not_ch ";")); Opt (cat [sp; lit "<<"; sp; lit "endl"])].

(** [pow \s* \( ( [^,]+ ) \s* , \s* ( [^)]+ ) \)] *)
Definition POW_REGEX : regex :=
  cat [lit "pow"; sp; lit "("; Group 1 (Plus (not_ch ",")); sp; lit ","; sp;
       Group 2 (Plus (not_ch ")")); lit ")"].

(** [for \s* \( \s* (?: int \s+ )? (\w+) \s* = \s* ( [^;]+ ) ; \s* \1 \s*
     (<|<=|>|>=) \s* ( [^;]+ ) ; \s* \1 \s* (\+\+|--|\+=|-=) \s* ( [^)]* )
     \) \s* \{] *)
Definition FOR_LOOP_REGEX : regex :=
  cat [lit "for"; sp; lit "("; sp; Opt (cat [lit "int"; sp1]); Group 1 word1;
       sp; lit "="; sp; Group 2 (Plus (not_ch ";")); lit ";"; sp; Backref 1; sp;
       Group 3 (alts [lit "<"; lit "<="; lit ">"; lit ">="]); sp;
       Group 4 (Plus (not_ch ";")); lit ";"; sp; Backref 1; sp;
       Group 5 (alts [lit "++"; lit "--"; lit "+="; lit "-="]); sp;
       Group 6 (Star (not_ch ")")); lit ")"; sp; lit "{"].

(** [while \s* \( ( .*? ) \) \s* \{] *)
Definition WHILE_LOOP_REGEX : regex :=
  cat [lit "while"; sp; lit "("; Group 1 (StarLazy is_dot); lit ")"; sp; lit "{"].

(** [(?: int \s+ )? (\w+) \s* = \s* (.+)] *)
Definition ASSIGNMENT_REGEX : regex :=
  cat [Opt (cat [lit "int"; sp1]); Group 1 word1; sp; lit "="; sp;
       Group 2 (Plus is_dot)].

(** [escape_map], in the order of its items. *)
Definition escape_map : list (text * text) :=
  [([bs; dq], [dq]); ([bs; "n"%char], [nl]); ([bs; "t"%char], [tab]);
   ([bs; bs], [bs])].

Definition _parse_string_literal (expr_str : text) : text :=
  if negb (startswith [dq] expr_str && endswith [dq] expr_str) then expr_str
  else
    let content := slice_1_m1 expr_str in
    fold_left (fun content kv => replace (fst kv) (snd kv) content)
      escape_map content.

Definition comparison_ops : list text :=
  [txt "=="; txt "!="; txt "<="; txt ">="; txt "<"; txt ">"].

Fixpoint find_comparison (ops : list text) (s : text)
  : option (text * (text * text)) :=
  match ops with
  | [] => None
  | op :: ops' =>
      match partition (txt " " ++ op ++ txt " ") s with
      | Some parts => Some (op, parts)
      | None => find_comparison ops' s
      end
  end.

Definition find_addition (expr_str : text) : option (text * text) :=
  if contains (txt " + ") expr_str && negb (startswith (txt "pow(") expr_str)
  then partition (txt " + ") expr_str
  else None.

Definition quoted (expr_str : text) : bool :=
  startswith [dq] expr_str && endswith [dq] expr_str.

Definition parse_atom (expr_str : text) : Node :=
  if quoted expr_str
  then StringLiteralNode (_parse_string_literal expr_str)
  else if found (re_fullmatch NUMBER_REGEX expr_str)
  then NumberLiteralNode expr_str
  else if found (re_fullmatch IDENT_REGEX expr_str) then VariableNode expr_str
  else VariableNode expr_str.

Fixpoint _parse_expression_fuel (fuel : nat) (expr_str : text) : option Node :=
  match fuel with
  | 0 => None
  | S fuel' =>
      let expr_str := strip expr_str in
      match find_comparison comparison_ops expr_str with
      | Some (op, (p0, p1)) =>
          lhs <- _parse_expression_fuel fuel' (strip p0) ;;
          rhs <- _parse_expression_fuel fuel' (strip p1) ;;
          Some (ComparisonNode op lhs rhs)
      | None =>
          match re_fullmatch POW_REGEX expr_str with
          | Some pow_match =>
              base <- _parse_expression_fuel fuel' (strip (group 1 pow_match)) ;;
              exponent <- _parse_expression_fuel fuel' (strip (group 2 pow_match)) ;;
              Some (PowerNode base exponent)
          | None =>
              match find_addition expr_str with
              | Some (p0, p1) =>
                  lhs <- _parse_expression_fuel fuel' (strip p0) ;;
                  rhs <- _parse_expression_fuel fuel' (strip p1) ;;
                  Some (MathOpNode (txt "+") lhs rhs)
              | None => Some (parse_atom expr_str)
              end
          end
      end
  end.

(** None of the rules before the two variable rules applies to the
    stripped [expr_str]: it has no comparison, is no power call, has no
    addition, is no string literal and no number. *)
Definition no_sub_pattern (expr_str : text) : bool :=
  is_none (find_comparison comparison_ops expr_str)
  && is_none (re_fullmatch POW_REGEX expr_str)
  && is_none (find_addition expr_str)
  && negb (quoted expr_str)
  && is_none (re_fullmatch NUMBER_REGEX expr_str).

Definition expr_fuel (expr_str : text) : nat := S (List.length expr_str).

Definition _parse_expression (expr_str : text) : option Node :=
  _parse_expression_fuel (expr_fuel expr_str) expr_str.

Definition blank (line : text) : bool :=
  match strip line with [] => true | _ => false end.

Fixpoint block_from (first : bool) (lines : list text) (base_indent : nat)
  : list text * list text :=
  match lines with
  | [] => ([], [])
  | line :: lines' =>
      if blank line then block_from false lines' base_indent
      else if (indent_of line <=? base_indent) && negb first then ([], lines)
      else let '(block_lines, rest) := block_from false lines' base_indent in
           (line :: block_lines, rest)
  end.

Definition _get_indented_block (lines_from_start : list text) (base_indent : nat)
  : list text * list text :=
  block_from true lines_from_start base_indent.

(** [None] when [step_op] is none of the four operators: [step] is then
    unbound at the [return]. *)
Definition _convert_cpp_for_to_range (start end_ operator step_op step_val : text)
  : option text :=
  let start := strip start in
  let end_ := strip end_ in
  let '(start, end_, step_val) :=
    if text_eqb operator (txt "<=") then (start, end_ ++ txt " + 1", step_val)
    else if text_eqb operator (txt ">") then
      (end_, start,
       if text_eqb step_op (txt "++") then txt "-1"
       else if text_eqb step_op (txt "--") then txt "1"
       else step_val)
    else (start, end_, step_val) in
  step <- (if text_eqb step_op (txt "++") then Some (txt "1")
           else if text_eqb step_op (txt "--") then Some (txt "-1")
           else if text_eqb step_op (txt "+=") then Some step_val
           else if text_eqb step_op (txt "-=") then Some (txt "-" ++ step_val)
           else None) ;;
  Some (txt "range(" ++ start ++ txt ", " ++ end_ ++ txt ", " ++ step ++ txt ")").

Fixpoint parse_loop (parse : text -> option Node) (n : nat) (lines : list text)
  : option (list Node) :=
  match lines, n with
  | [], _ => Some []
  | _ :: _, 0 => None
  | raw :: rest, S n' =>
      let line := strip raw in
      if match line with [] => true | _ => false end || startswith (txt "//") line
      then parse_loop parse n' rest
      else if startswith (txt "#include") line
              || startswith (txt "using namespace") line
      then parse_loop parse n' rest
      else
      match re_match ASSIGNMENT_REGEX line with
      | Some m =>
          value <- _parse_expression (group 2 m) ;;
          stmts <- parse_loop parse n' rest ;;
          Some (AssignmentNode (VariableNode (group 1 m)) value :: stmts)
      | None =>
      match re_match FUNC_DEF_REGEX line with
      | Some m =>
          let name := group 1 m in
          let args := filter (fun a => negb (blank a))
                        (split_char ","%char (group 2 m)) in
          let args := map (fun a => last (split_ws (strip a)) []) args in
          let '(body_lines, rest') := _get_indented_block rest (indent_of raw) in
          body_program <- parse (join [nl] body_lines) ;;
          stmts <- parse_loop parse n' rest' ;;
          Some (FunctionNode name args (statements body_program) :: stmts)
      | None =>
      match re_match FOR_LOOP_REGEX line with
      | Some m =>
          iterable <- _convert_cpp_for_to_range (group 2 m) (group 4 m)
                        (group 3 m) (group 5 m) (group 6 m) ;;
          let '(body_lines, rest') := _get_indented_block rest (indent_of raw) in
          body_program <- parse (join [nl] body_lines) ;;
          stmts <- parse_loop parse n' rest' ;;
          Some (ForLoopNode (group 1 m) (inl iterable) (statements body_program)
                :: stmts)
      | None =>
      match re_match WHILE_LOOP_REGEX line with
      | Some m =>
          condition <- _parse_expression (group 1 m) ;;
          let '(body_lines, rest') := _get_indented_block rest (indent_of raw) in
          body_program <- parse (join [nl] body_lines) ;;
          stmts <- parse_loop parse n' rest' ;;
          Some (WhileLoopNode condition (statements body_program) :: stmts)
      | None =>
      match re_match PRINT_REGEX line with
      | Some m =>
          let expression_str := strip (group 1 m) in
          expression_node <-
            (if contains (txt "<<") expression_str
             then let parts := map strip (split (txt "<<") expression_str) in
                  _parse_expression (join (txt " + ") parts)
             else _parse_expression expression_str) ;;
          stmts <- parse_loop parse n' rest ;;
          Some (PrintNode expression_node :: stmts)
      | None => parse_loop parse n' rest
      end end end end end
  end.

(** The statement patterns, in the order in which the loop tries them. *)
Definition statement_patterns : list regex :=
  [ASSIGNMENT_REGEX; FUNC_DEF_REGEX; FOR_LOOP_REGEX; WHILE_LOOP_REGEX;
   PRINT_REGEX].

(** The stripped [line] matches none of them. *)
Definition matches_no_statement (line : text) : bool :=
  forallb (fun r => is_none (re_match r line)) statement_patterns.

Fixpoint parse_cpp_fuel (fuel : nat) (code : text) : option Node :=
  match fuel with
  | 0 => None
  | S fuel' =>
      let lines := split_char nl (strip code) in
      stmts <- parse_loop (parse_cpp_fuel fuel') (List.length lines) lines ;;
      Some (ProgramNode stmts)
  end.

Definition parse_fuel (code : text) : nat := S (List.length code).

Definition parse_cpp (code : text) : Node :=
  match parse_cpp_fuel (parse_fuel code) code with
  | Some program => program
  | None => ProgramNode []
  end.

End CppParser.

(** ** parsers/java_parser.py *)
Module JavaParser.
Import Py Re Ast.

(** [(?: public \s+ )? (?: static \s+ )? (?:void|int|String) \s+ (\w+) \s*
     \( ( [^)]* ) \) \s* \{] *)
Definition FUNC_DEF_REGEX : regex :=
  cat [Opt (cat [lit "public"; sp1]); Opt (cat [lit "static"; sp1]);
       alts [lit "void"; lit "int"; lit "String"]; sp1; Group 1 word1; sp;
       lit "("; Group 2 (Star (not_ch ")")); lit ")"; sp; lit "{"].

(** [System \. out \. println \s* \( ( .* ) \)] *)
Definition PRINT_REGEX : regex :=
  cat [lit "System.out.println"; sp; lit "("; Group 1 (Star is_dot); lit ")"].

(** [Math \. pow \s* \( ( [^,]+ ) \s* , \s* ( [^)]+ ) \)] *)
Definition POW_REGEX : regex :=
  cat [lit "Math.pow"; sp; lit "("; Group 1 (Plus (not_ch ",")); sp; lit ",";
       sp; Group 2 (Plus (not_ch ")")); lit ")"].

(** The same pattern as the C++ parser's. *)
Definition FOR_LOOP_REGEX : regex :=
  cat [lit "for"; sp; lit "("; sp; Opt (cat [lit "int"; sp1]); Group 1 word1;
       sp; lit "="; sp; Group 2 (Plus (not_ch ";")); lit ";"; sp; Backref 1; sp;
       Group 3 (alts [lit "<"; lit "<="; lit ">"; lit ">="]); sp;
       Group 4 (Plus (not_ch ";")); lit ";"; sp; Backref 1; sp;
       Group 5 (alts [lit "++"; lit "--"; lit "+="; lit "-="]); sp;
       Group 6 (Star (not_ch ")")); lit ")"; sp; lit "{"].

(** [while \s* \( ( .*? ) \) \s* \{] *)
Definition WHILE_LOOP_REGEX : regex :=
  cat [lit "while"; sp; lit "("; Group 1 (StarLazy is_dot); lit ")"; sp; lit "{"].

(** [(?: int \s+ )? (\w+) \s* = \s* (.+)] *)
Definition ASSIGNMENT_REGEX : regex :=
  cat [Opt (cat [lit "int"; sp1]); Group 1 word1; sp; lit "="; sp;
       Group 2 (Plus is_dot)].

Definition comparison_ops : list text :=
  [txt "=="; txt "!="; txt "<="; txt ">="; txt "<"; txt ">"].

Fixpoint find_comparison (ops : list text) (s : text)
  : option (text * (text * text)) :=
  match ops with
  | [] => None
  | op :: ops' =>
      match partition (txt " " ++ op ++ txt " ") s with
      | Some parts => Some (op, parts)
      | None => find_comparison ops' s
      end
  end.

Definition find_addition (expr_str : text) : option (text * text) :=
  if contains (txt " + ") expr_str
     && negb (startswith (txt "Math.pow(") expr_str)
  then partition (txt " + ") expr_str
  else None.

(** The test of the string-literal rule. *)
Definition quoted (expr_str : text) : bool :=
  (startswith [dq] expr_str && endswith [dq] expr_str)
  || (startswith [sq] expr_str && endswith [sq] expr_str).

Definition parse_atom (expr_str : text) : Node :=
  if quoted expr_str
  then StringLiteralNode (slice_1_m1 expr_str)
  else if found (re_fullmatch NUMBER_REGEX expr_str)
  then NumberLiteralNode expr_str
  else if found (re_fullmatch IDENT_REGEX expr_str) then VariableNode expr_str
  else VariableNode expr_str.

Fixpoint _parse_expression_fuel (fuel : nat) (expr_str : text) : option Node :=
  match fuel with
  | 0 => None
  | S fuel' =>
      let expr_str := strip expr_str in
      match find_comparison comparison_ops expr_str with
      | Some (op, (p0, p1)) =>
          lhs <- _parse_expression_fuel fuel' (strip p0) ;;
          rhs <- _parse_expression_fuel fuel' (strip p1) ;;
          Some (ComparisonNode op lhs rhs)
      | None =>
          match re_fullmatch POW_REGEX expr_str with
          | Some pow_match =>
              base <- _parse_expression_fuel fuel' (strip (group 1 pow_match)) ;;
              exponent <- _parse_expression_fuel fuel' (strip (group 2 pow_match)) ;;
              Some (PowerNode base exponent)
          | None =>
              match find_addition expr_str with
              | Some (p0, p1) =>
                  lhs <- _parse_expression_fuel fuel' (strip p0) ;;
                  rhs <- _parse_expression_fuel fuel' (strip p1) ;;
                  Some (MathOpNode (txt "+") lhs rhs)
              | None => Some (parse_atom expr_str)
              end
          end
      end
  end.

(** None of the rules before the two variable rules applies to the
    stripped [expr_str]: it has no comparison, is no power call, has no
    addition, is no string literal and no number. *)
Definition no_sub_pattern (expr_str : text) : bool :=
  is_none (find_comparison comparison_ops expr_str)
  && is_none (re_fullmatch POW_REGEX expr_str)
  && is_none (find_addition expr_str)
  && negb (quoted expr_str)
  && is_none (re_fullmatch NUMBER_REGEX expr_str).

Definition expr_fuel (expr_str : text) : nat := S (List.length expr_str).

Definition _parse_expression (expr_str : text) : option Node :=
  _parse_expression_fuel (expr_fuel expr_str) expr_str.

Definition blank (line : text) : bool :=
  match strip line with [] => true | _ => false end.

Fixpoint block_from (first : bool) (lines : list text) (base_indent : nat)
  : list text * list text :=
  match lines with
  | [] => ([], [])
  | line :: lines' =>
      if blank line then block_from false lines' base_indent
      else if (indent_of line <=? base_indent) && negb first then ([], lines)
      else let '(block_lines, rest) := block_from false lines' base_indent in
           (line :: block_lines, rest)
  end.

Definition _get_indented_block (lines_from_start : list text) (base_indent : nat)
  : list text * list text :=
  block_from true lines_from_start base_indent.

Definition _convert_java_for_to_range (start end_ operator step_op step_val : text)
  : option text :=
  let start := strip start in
  let end_ := strip end_ in
  let '(start, end_, step_val) :=
    if text_eqb operator (txt "<=") then (start, end_ ++ txt " + 1", step_val)
    else if text_eqb operator (txt ">") then
      (end_, start,
       if text_eqb step_op (txt "++") then txt "-1"
       else if text_eqb step_op (txt "--") then txt "1"
       else step_val)
    else (start, end_, step_val) in
  step <- (if text_eqb step_op (txt "++") then Some (txt "1")
           else if text_eqb step_op (txt "--") then Some (txt "-1")
           else if text_eqb step_op (txt "+=") then Some step_val
           else if text_eqb step_op (txt "-=") then Some (txt "-" ++ step_val)
           else None) ;;
  Some (txt "range(" ++ start ++ txt ", " ++ end_ ++ txt ", " ++ step ++ txt ")").

Fixpoint parse_loop (parse : text -> option Node) (n : nat) (lines : list text)
  : option (list Node) :=
  match lines, n with
  | [], _ => Some []
  | _ :: _, 0 => None
  | raw :: rest, S n' =>
      let line := strip raw in
      if match line with [] => true | _ => false end || startswith (txt "//") line
      then parse_loop parse n' rest
      else
      match re_match ASSIGNMENT_REGEX line with
      | Some m =>
          value <- _parse_expression (group 2 m) ;;
          stmts <- parse_loop parse n' rest ;;
          Some (AssignmentNode (VariableNode (group 1 m)) value :: stmts)
      | None =>
      match re_match FUNC_DEF_REGEX line with
      | Some m =>
          let name := group 1 m in
          let args := filter (fun a => negb (blank a))
                        (split_char ","%char (group 2 m)) in
          let args := map (fun a => last (split_ws (strip a)) []) args in
          let '(body_lines, rest') := _get_indented_block rest (indent_of raw) in
          body_program <- parse (join [nl] body_lines) ;;
          stmts <- parse_loop parse n' rest' ;;
          Some (FunctionNode name args (statements body_program) :: stmts)
      | None =>
      match re_match FOR_LOOP_REGEX line with
      | Some m =>
          iterable <- _convert_java_for_to_range (group 2 m) (group 4 m)
                        (group 3 m) (group 5 m) (group 6 m) ;;
          let '(body_lines, rest') := _get_indented_block rest (indent_of raw) in
          body_program <- parse (join [nl] body_lines) ;;
          stmts <- parse_loop parse n' rest' ;;
          Some (ForLoopNode (group 1 m) (inl iterable) (statements body_program)
                :: stmts)
      | None =>
      match re_match WHILE_LOOP_REGEX line with
      | Some m =>
          condition <- _parse_expression (group 1 m) ;;
          let '(body_lines, rest') := _get_indented_block rest (indent_of raw) in
          body_program <- parse (join [nl] body_lines) ;;
          stmts <- parse_loop parse n' rest' ;;
          Some (WhileLoopNode condition (statements body_program) :: stmts)
      | None =>
      match re_match PRINT_REGEX line with
      | Some m =>
          expression_node <- _parse_expression (strip (group 1 m)) ;;
          stmts <- parse_loop parse n' rest ;;
          Some (PrintNode expression_node :: stmts)
      | None => parse_loop parse n' rest
      end end end end end
  end.

(** The statement patterns, in the order in which the loop tries them. *)
Definition statement_patterns : list regex :=
  [ASSIGNMENT_REGEX; FUNC_DEF_REGEX; FOR_LOOP_REGEX; WHILE_LOOP_REGEX;
   PRINT_REGEX].

(** The stripped [line] matches none of them. *)
Definition matches_no_statement (line : text) : bool :=
  forallb (fun r => is_none (re_match r line)) statement_patterns.

Fixpoint parse_java_fuel (fuel : nat) (code : text) : option Node :=
  match fuel with
  | 0 => None
  | S fuel' =>
      let lines := split_char nl (strip code) in
      stmts <- parse_loop (parse_java_fuel fuel') (List.length lines) lines ;;
      Some (ProgramNode stmts)
  end.

Definition parse_fuel (code : text) : nat := S (List.length code).

Definition parse_java (code : text) : Node :=
  match parse_java_fuel (parse_fuel code) code with
  | Some program => program
  | None => ProgramNode []
  end.

End JavaParser.

(** ** Exceptions *)
Inductive exn : Type :=
| ValueError (msg : text)
| NameError (msg : text)
| NotImplementedError (msg : text).

Inductive result (A : Type) : Type :=
| Ok (a : A)
| Raise (e : exn).
Arguments Raise {A} e.

Notation "x <~ c ;; k" :=
  (match c with Ok x => k | Raise e => Raise e end)
  (at level 61, c at next level, right associativity).

(** ** generators/base_generator.py *)
Module Generators.
Import Py Ast.

(** The two classes that dispatch with [BaseGenerator.visit]. *)
Inductive generator_class : Type := BaseGenerator | JavaGenerator.

(** [self._make_indent()], with the default [indent_char] of four spaces
    and [level] for [self.current_indent_level]. *)
Definition _make_indent (level : Z) : text := times (txt "    ") level.

(** [BaseGenerator.generic_visit]: [str(node)]. *)
Definition generic_visit (node : Node) : text := repr node.

(** The header of [JavaGenerator.visit_ForLoopNode], given the rendered
    [iterable] and the level at that point. *)
Definition java_for_header (level : Z) (iterator iterable : text) : text :=
  if startswith (txt "range(") iterable then
    let range_args := split_char ","%char (slice_6_m1 iterable) in
    match range_args with
    | [a0] =>
        let end_ := strip a0 in
        _make_indent level ++ txt "for (int " ++ iterator ++ txt " = 0; "
        ++ iterator ++ txt " < " ++ end_ ++ txt "; " ++ iterator ++ txt "++) {"
    | [a0; a1] =>
        let start := strip a0 in
        let end_ := strip a1 in
        _make_indent level ++ txt "for (int " ++ iterator ++ txt " = " ++ start
        ++ txt "; " ++ iterator ++ txt " < " ++ end_ ++ txt "; " ++ iterator
        ++ txt "++) {"
    | _ =>
        let start := strip (nth 0 range_args []) in
        let end_ := strip (nth 1 range_args []) in
        let step := strip (nth 2 range_args []) in
        _make_indent level ++ txt "for (int " ++ iterator ++ txt " = " ++ start
        ++ txt "; " ++ iterator ++ txt " < " ++ end_ ++ txt "; " ++ iterator
        ++ txt " += " ++ step ++ txt ") {"
    end
  else
    _make_indent level ++ txt "for (String " ++ iterator ++ txt " : "
    ++ iterable ++ txt ") {".

(** The text that [JavaGenerator.visit_ProgramNode] builds from the
    rendered statements, after its loop. *)
Definition java_class_text (static_method_definitions
                            main_method_body_statements : list text) : text :=
  let level := 1%Z in
  let main_method_code :=
    match main_method_body_statements with
    | [] => []
    | _ =>
        let main_body_str :=
          join [nl] (map (fun s => _make_indent level ++ _make_indent level ++ s)
                       main_method_body_statements) in
        _make_indent level ++ txt "public static void main(String[] args) {"
        ++ [nl] ++ main_body_str ++ [nl] ++ _make_indent level ++ txt "}"
    end in
  let static_methods_code := join [nl; nl] static_method_definitions in
  let class_body_parts :=
    match static_methods_code with [] => [] | _ => [static_methods_code] end
    ++ match main_method_code with [] => [] | _ => [main_method_code] end in
  let class_body_str := join [nl; nl] class_body_parts in
  txt "public class ConvertedCode {" ++ [nl] ++ class_body_str ++ [nl] ++ txt "}".

(** [BaseGenerator.visit], for an instance of class [cls]:
    [getattr(self, 'visit_' + class name, self.generic_visit)] finds the
    method of [cls], else the inherited one, else [generic_visit].  The
    state is [self.current_indent_level], passed in and out. *)
Fixpoint visit (cls : generator_class) (node : Node) (level : Z) : text * Z :=
  let visit_all := fix visit_all (l : list Node) (level : Z) : list text * Z :=
    match l with
    | [] => ([], level)
    | n :: l' =>
        let '(s, level) := visit cls n level in
        let '(ss, level) := visit_all l' level in
        (s :: ss, level)
    end in
  (* the loop of JavaGenerator.visit_ProgramNode *)
  let visit_program := fix visit_program (l : list Node) (level : Z)
    : (list text * list text) * Z :=
    match l with
    | [] => (([], []), level)
    | stmt :: l' =>
        let '(s, level) := visit cls stmt level in
        let '((static, main), level) := visit_program l' level in
        match stmt with
        | FunctionNode _ _ _ => ((s :: static, main), level)
        | _ => ((static, (s ++ txt ";") :: main), level)
        end
    end in
  (* a brace body: the statements with semicolons, or the comment *)
  let brace_body (header : text) (body : list Node) (level : Z) : text * Z :=
    let level := (level + 1)%Z in
    let '(stmts, level) := visit_all body level in
    let body_code := join [nl] (map (fun s => s ++ txt ";") stmts) in
    let body_code := match body with
                     | [] => _make_indent level ++ txt "// Empty body"
                     | _ => body_code
                     end in
    let level := (level - 1)%Z in
    (header ++ [nl] ++ body_code ++ [nl] ++ _make_indent level ++ txt "}", level)
  in
  let infix (operator : text) (lhs rhs : Node) (level : Z) : text * Z :=
    let '(left_code, level) := visit cls lhs level in
    let '(right_code, level) := visit cls rhs level in
    (left_code ++ txt " " ++ operator ++ txt " " ++ right_code, level) in
  match node, cls with
  | ProgramNode statements, BaseGenerator =>
      let '(stmts, level) := visit_all statements level in
      (join [nl] stmts, level)
  | ProgramNode statements, JavaGenerator =>
      let '((static, main), _) := visit_program statements level in
      (java_class_text static main, 0%Z)
  | VariableNode name, _ => (name, level)
  | StringLiteralNode value, _ => ([dq] ++ value ++ [dq], level)
  | NumberLiteralNode value, _ => (value, level)
  | MathOpNode operator lhs rhs, _ => infix operator lhs rhs level
  | ComparisonNode operator lhs rhs, _ => infix operator lhs rhs level
  | AssignmentNode target value, BaseGenerator =>
      let '(target, level) := visit cls target level in
      let '(value, level) := visit cls value level in
      (_make_indent level ++ target ++ txt " = " ++ value, level)
  | AssignmentNode target value, JavaGenerator =>
      let '(target, level) := visit cls target level in
      let '(value, level) := visit cls value level in
      (_make_indent level ++ txt "int " ++ target ++ txt " = " ++ value, level)
  | FunctionNode name args body, JavaGenerator =>
      let args_str := join (txt ", ") (map (fun arg => txt "String " ++ arg) args) in
      let header := _make_indent level ++ txt "public static void " ++ name
                    ++ txt "(" ++ args_str ++ txt ") {" in
      brace_body header body level
  | PrintNode expression, JavaGenerator =>
      let '(expr_code, level) := visit cls expression level in
      (_make_indent level ++ txt "System.out.println(" ++ expr_code ++ txt ")",
       level)
  | PowerNode base exponent, JavaGenerator =>
      let '(base_code, level) := visit cls base level in
      let '(exponent_code, level) := visit cls exponent level in
      (txt "Math.pow(" ++ base_code ++ txt ", " ++ exponent_code ++ txt ")", level)
  | ForLoopNode iterator iterable body, JavaGenerator =>
      let '(iterable, level) :=
        match iterable with
        | inl s => (s, level)          (* visit of a str: str(node) *)
        | inr n => visit cls n level
        end in
      brace_body (java_for_header level iterator iterable) body level
  | WhileLoopNode condition body, JavaGenerator =>
      let '(condition, level) := visit cls condition level in
      let header := _make_indent level ++ txt "while (" ++ condition ++ txt ") {" in
      brace_body header body level
  | FunctionCallNode _ _, _ => (generic_visit node, level)
  | PlainNode, _ => (generic_visit node, level)
  | FunctionNode _ _ _, BaseGenerator => (generic_visit node, level)
  | PrintNode _, BaseGenerator => (generic_visit node, level)
  | PowerNode _ _, BaseGenerator => (generic_visit node, level)
  | ForLoopNode _ _ _, BaseGenerator => (generic_visit node, level)
  | WhileLoopNode _ _, BaseGenerator => (generic_visit node, level)
  end.

(** [cls().visit(node)]: a fresh instance starts at level 0. *)
Definition render (cls : generator_class) (node : Node) : text :=
  fst (visit cls node 0%Z).

(** [PythonGenerator] overrides [visit] with a chain of [isinstance]
    tests.  The module does not import [FunctionCallNode], so the test for
    it, which a node of none of the twelve classes before reaches, raises
    [NameError]; the [visit_function_call] branch and the final [raise
    NotImplementedError] come after it.  The generator never reads the
    indentation level. *)
Module PythonGenerator.

Definition name_error : exn :=
  NameError (txt "name 'FunctionCallNode' is not defined").

Fixpoint visit (node : Node) : result text :=
  let visit_all := fix visit_all (l : list Node) : result (list text) :=
    match l with
    | [] => Ok []
    | n :: l' => s <~ visit n ;; ss <~ visit_all l' ;; Ok (s :: ss)
    end in
  let indented (body : list Node) : result text :=
    stmts <~ visit_all body ;;
    Ok (join [nl] (map (fun s => txt "    " ++ s) stmts)) in
  match node with
  | ProgramNode statements =>
      stmts <~ visit_all statements ;; Ok (join [nl] stmts)
  | FunctionNode name args body =>
      let args_str := join (txt ", ") args in
      body <~ indented body ;;
      Ok (txt "def " ++ name ++ txt "(" ++ args_str ++ txt "):" ++ [nl] ++ body)
  | PrintNode expression =>
      expr <~ visit expression ;;
      Ok (txt "print(" ++ expr ++ txt ")")
  | MathOpNode operator lhs rhs =>
      left_ <~ visit lhs ;;
      right_ <~ visit rhs ;;
      let left_ := match lhs with
                   | VariableNode _ => txt "str(" ++ left_ ++ txt ")"
                   | _ => left_
                   end in
      let right_ := match rhs with
                    | VariableNode _ => txt "str(" ++ right_ ++ txt ")"
                    | _ => right_
                    end in
      Ok (txt "(" ++ left_ ++ txt " " ++ operator ++ txt " " ++ right_ ++ txt ")")
  | VariableNode name => Ok name
  | StringLiteralNode value => Ok ([dq] ++ value ++ [dq])
  | NumberLiteralNode value => Ok value
  | PowerNode base exponent =>
      base <~ visit base ;;
      exponent <~ visit exponent ;;
      Ok (txt "(" ++ base ++ txt " ** " ++ exponent ++ txt ")")
  | ForLoopNode iterator iterable body =>
      body <~ indented body ;;
      let iterable := match iterable with inl s => s | inr n => repr n end in
      Ok (txt "for " ++ iterator ++ txt " in " ++ iterable ++ txt ":" ++ [nl]
          ++ body)
  | WhileLoopNode condition body =>
      body <~ indented body ;;
      condition <~ visit condition ;;
      Ok (txt "while " ++ condition ++ txt ":" ++ [nl] ++ body)
  | ComparisonNode operator lhs rhs =>
      left_ <~ visit lhs ;;
      right_ <~ visit rhs ;;
      Ok (txt "(" ++ left_ ++ txt " " ++ operator ++ txt " " ++ right_ ++ txt ")")
  | AssignmentNode target value =>
      target <~ visit target ;;
      value <~ visit value ;;
      Ok (target ++ txt " = " ++ value)
  | FunctionCallNode _ _ => Raise name_error
  | PlainNode => Raise name_error
  end.

End PythonGenerator.

End Generators.

(** ** main.py *)
Module Main.
Import Py Ast Generators.

(** The calls that [convert_code] makes to a parser or to a generator's
    [visit], in the order in which it makes them. *)
Inductive call : Type :=
| Parse (source_lang : text)
| Visit (target_lang : text).

(** A computation that records its calls and returns or raises. *)
Definition traced (A : Type) : Type := list call * result A.

Definition ret {A} (a : A) : traced A := ([], Ok a).
Definition raise {A} (e : exn) : traced A := ([], Raise e).
Definition calling {A} (c : call) (r : result A) : traced A := ([c], r).
Definition bind {A B} (m : traced A) (f : A -> traced B) : traced B :=
  match m with
  | (t, Ok a) => let '(t', r) := f a in (t ++ t', r)
  | (t, Raise e) => (t, Raise e)
  end.

Notation "x <<- c ;; k" := (bind c (fun x => k))
  (at level 61, c at next level, right associativity).

Section ConvertCode.

(** Modelled from the spec: the class [JavaParser], which main.py imports
    from parsers.java_parser, is not in that module.  The spec gives every
    parser one operation from text to a Program that never raises. *)
Variable JavaParser_parse_java : text -> Node.

(** Modelled from the spec: the classes [CppGenerator] and [JsGenerator],
    which main.py imports from generators.base_generator, are not in that
    module.  The spec gives every generator a rendering from a Program to
    text that never raises. *)
Variable CppGenerator_visit : Node -> text.
Variable JsGenerator_visit : Node -> text.

Definition convert_code (source_code source_lang target_lang : text)
  : traced text :=
  ast <<- (if text_eqb source_lang (txt "python")
           then calling (Parse source_lang)
                  (Ok (PythonParser.parse_python source_code))
           else if text_eqb source_lang (txt "java")
           then calling (Parse source_lang)
                  (Ok (JavaParser_parse_java source_code))
           else if text_eqb source_lang (txt "cpp")
           then calling (Parse source_lang)
                  (Ok (CppParser.parse_cpp source_code))
           else raise (ValueError (txt "Unsupported source language: "
                                   ++ source_lang))) ;;
  generator <<- (if text_eqb target_lang (txt "python")
                 then ret PythonGenerator.visit
                 else if text_eqb target_lang (txt "java")
                 then ret (fun node => Ok (render JavaGenerator node))
                 else if text_eqb target_lang (txt "cpp")
                 then ret (fun node => Ok (CppGenerator_visit node))
                 else if text_eqb target_lang (txt "javascript")
                 then ret (fun node => Ok (JsGenerator_visit node))
                 else raise (ValueError (txt "Unsupported target language: "
                                         ++ target_lang))) ;;
  calling (Visit target_lang) (generator ast).

(** The keys of the two [if] chains. *)
Definition source_keys : list text := [txt "python"; txt "java"; txt "cpp"].
Definition target_keys : list text :=
  [txt "python"; txt "java"; txt "cpp"; txt "javascript"].

End ConvertCode.

End Main.

(** ** Reference notions that the statements below compare the code with *)
Module Reference.
Import Py.

(** Resolving the escapes of a C string literal's interior from left to
    right: a backslash followed by a quote, [n], [t] or a backslash stands
    for a quote, a newline, a tab or a backslash; any other character
    stands for itself. *)
Fixpoint unescape (s : text) : text :=
  match s with
  | [] => []
  | c :: tl =>
      match tl with
      | d :: rest =>
          if Ascii.eqb c bs then
            if Ascii.eqb d dq then dq :: unescape rest
            else if Ascii.eqb d "n"%char then nl :: unescape rest
            else if Ascii.eqb d "t"%char then tab :: unescape rest
            else if Ascii.eqb d bs then bs :: unescape rest
            else c :: unescape tl
          else c :: unescape tl
      | [] => [c]
      end
  end.





(** *** Programs of assignments, in Python's syntax

    The right-hand side of an assignment is an atom, a comparison of two
    atoms or the sum of two unsigned integer literals. *)
Inductive rhs : Type :=
| Atom (a : text)
| Compare (op : text) (a b : text)
| Sum (m n : text).

Definition assignment : Type := (text * rhs)%type.

(** The characters of the comparison operators and of the addition. *)
Definition op_char (c : ascii) : bool :=
  Ascii.eqb c "="%char || Ascii.eqb c "!"%char || Ascii.eqb c "<"%char
  || Ascii.eqb c ">"%char || Ascii.eqb c "+"%char.

(** The characters of identifiers and of number literals. *)
Definition atom_char (c : ascii) : bool :=
  is_word c || Ascii.eqb c "."%char || Ascii.eqb c "-"%char.

Definition nonempty (s : text) : bool :=
  match s with [] => false | _ => true end.

Definition is_name (s : text) : bool := nonempty s && forallb is_word s.
Definition is_atom (s : text) : bool := nonempty s && forallb atom_char s.
Definition is_unsigned (s : text) : bool := nonempty s && forallb is_digit s.


(** The statements for which it holds: the operands of a sum are unsigned
    integer literals. *)
Definition well_formed (st : assignment) : bool :=
  is_name (fst st)
  && match snd st with
     | Atom a => is_atom a
     | Compare op a b =>
         existsb (text_eqb op) PythonParser.comparison_ops
         && is_atom a && is_atom b
     | Sum m n => is_unsigned m && is_unsigned n
     end.

(** The node that [parse_python] builds for a well-formed statement
    ([parse_assignment_line]). *)
Definition node_of (st : assignment) : Ast.Node :=
  Ast.AssignmentNode (Ast.VariableNode (fst st))
    match snd st with
    | Atom a => PythonParser.parse_atom a
    | Compare op a b =>
        Ast.ComparisonNode op (PythonParser.parse_atom a)
          (PythonParser.parse_atom b)
    | Sum m n =>
        Ast.MathOpNode (txt "+") (Ast.NumberLiteralNode m)
          (Ast.NumberLiteralNode n)
    end.

(** The statement as source text. *)
Definition source_line (st : assignment) : text :=
  fst st ++ txt " = "
  ++ match snd st with
     | Atom a => a
     | Compare op a b => a ++ txt " " ++ op ++ txt " " ++ b
     | Sum m n => m ++ txt " + " ++ n
     end.

(** The same statement with its comparison or sum in parentheses. *)
Definition parenthesized_line (st : assignment) : text :=
  fst st ++ txt " = "
  ++ match snd st with
     | Atom a => a
     | Compare op a b => txt "(" ++ a ++ txt " " ++ op ++ txt " " ++ b ++ txt ")"
     | Sum m n => txt "(" ++ m ++ txt " + " ++ n ++ txt ")"
     end.



End Reference.

(** ** The trees that the parsers build *)
Module Trees.
Import Py Ast.

(** What an expression parser returns: comparisons, power calls and
    additions over string literals, number literals and variables. *)
Fixpoint is_expression (node : Node) : bool :=
  match node with
  | ComparisonNode operator lhs rhs =>
      existsb (text_eqb operator) PythonParser.comparison_ops
      && is_expression lhs && is_expression rhs
  | PowerNode base exponent => is_expression base && is_expression exponent
  | MathOpNode operator lhs rhs =>
      text_eqb operator (txt "+") && is_expression lhs && is_expression rhs
  | StringLiteralNode _ | NumberLiteralNode _ | VariableNode _ => true
  | _ => false
  end.

(** What a parser appends to [statements].  With [python] the parser is
    [parse_python]: a loop's iterable is an expression node and there is
    no print statement.  Without, it is one of the brace-language parsers:
    a loop's iterable is the text of a range call. *)
Fixpoint is_statement (python : bool) (node : Node) : bool :=
  match node with
  | FunctionNode _ _ body => forallb (is_statement python) body
  | AssignmentNode (VariableNode _) value => is_expression value
  | ForLoopNode _ (inr iterable) body =>
      python && is_expression iterable && forallb (is_statement python) body
  | ForLoopNode _ (inl iterable) body =>
      negb python && startswith (txt "range(") iterable
      && endswith (txt ")") iterable && forallb (is_statement python) body
  | WhileLoopNode condition body =>
      is_expression condition && forallb (is_statement python) body
  | PrintNode expression => negb python && is_expression expression
  | _ => false
  end.

(** No [ProgramNode] at or below the node, in the places that the
    generators visit. *)
Fixpoint program_free (node : Node) : bool :=
  match node with
  | ProgramNode _ => false
  | FunctionNode _ _ body => forallb program_free body
  | PrintNode expression => program_free expression
  | MathOpNode _ lhs rhs => program_free lhs && program_free rhs
  | PowerNode base exponent => program_free base && program_free exponent
  | ForLoopNode _ iterable body =>
      match iterable with inl _ => true | inr n => program_free n end
      && forallb program_free body
  | WhileLoopNode condition body =>
      program_free condition && forallb program_free body
  | ComparisonNode _ lhs rhs => program_free lhs && program_free rhs
  | AssignmentNode target value => program_free target && program_free value
  | _ => true
  end.

End Trees.

(** ** The loop pattern of the brace-language parsers, after its operator *)
Module LoopPattern.
Import Py Re.

(** What follows the operator in the loop pattern of the brace-language
    parsers. *)
Definition after_operator : regex :=
  cat [sp; Group 4 (Plus (not_ch ";")); lit ";"; sp; Backref 1; sp;
       Group 5 (alts [lit "++"; lit "--"; lit "+="; lit "-="]); sp;
       Group 6 (Star (not_ch ")")); lit ")"; sp; lit "{"].

End LoopPattern.

(** ** main.py: the interactive program

    The program reads its answers with [input] and writes with [print].
    The lines that [input] will return are a list, and [input] raises
    [EOFError] when the list is used up; what the program does is a list
    of events, in their order. *)
Module Interactive.
Import Py Ast Generators Main.

(** [str.lower] on one character of the model. *)
Definition lower_char (c : ascii) : ascii :=
  if between 65 90 c || between 192 214 c || between 216 222 c
  then ascii_of_nat (code c + 32) else c.

Definition lower (s : text) : text := map lower_char s.

(** [str.upper] on one character.  The upper case of the characters 181,
    223 and 255 is outside the characters of the model and they are left
    as they are; [main] takes the upper case of a key of [GENERATORS]
    only. *)
Definition upper_char (c : ascii) : ascii :=
  if between 97 122 c || between 224 246 c || between 248 254 c
  then ascii_of_nat (code c - 32) else c.

Definition upper (s : text) : text := map upper_char s.

Inductive event : Type :=
| Printed (s : text)          (* print(s) *)
| Asked (prompt : text)       (* input(prompt) *)
| Slept (seconds : Z)         (* delay(seconds) *)
| Called (c : call)           (* a parser, or a generator's visit *)
| Traceback (e : exn).        (* traceback.print_exc() *)

(** How a run ends: [main] returns, [sys.exit] is called, or the
    [EOFError] of an [input] outside a [try] leaves it. *)
Inductive outcome : Type :=
| Returned
| SystemExit (status : Z)
| EOFError.

(** [str(e)]. *)
Definition message (e : exn) : text :=
  match e with
  | ValueError msg => msg
  | NameError msg => msg
  | NotImplementedError msg => msg
  end.

(** [list(PARSERS.keys())]. *)
Definition SUPPORTED_LANGUAGES : list text :=
  [txt "python"; txt "java"; txt "cpp"].

(** The [while True] loop of [get_multiline_input]: the events, the lines
    appended and the input that is left. *)
Fixpoint read_lines (stdin : list text) : list event * list text * list text :=
  match stdin with
  | [] => ([Asked []], [], [])
  | line :: stdin' =>
      match line with
      | [] => ([Asked []], [], stdin')
      | _ :: _ =>
          let '(events, lines, rest) := read_lines stdin' in
          (Asked [] :: events, line :: lines, rest)
      end
  end.

Definition get_multiline_input (stdin : list text)
  : list event * text * list text :=
  let '(events, lines, rest) := read_lines stdin in
  (Printed ([nl] ++ txt "Enter your source code (press Enter on an empty line to finish):")
   :: events,
   join [nl] lines, rest).

(** One of the two [while True] loops of [main] that ask for a language;
    [kind] is Source or Target.  [None] when the input ends first. *)
Fixpoint ask_language (prompt kind : text) (stdin : list text)
  : list event * option (text * list text) :=
  match stdin with
  | [] => ([Asked prompt], None)
  | answer :: stdin' =>
      let lang := lower answer in
      if existsb (text_eqb lang) SUPPORTED_LANGUAGES
      then ([Asked prompt], Some (lang, stdin'))
      else
        let '(events, r) := ask_language prompt kind stdin' in
        (Asked prompt
         :: Printed (txt "Error: " ++ kind ++ txt " language '" ++ lang
                     ++ txt "' is not supported. Please choose from the list.")
         :: events, r)
  end.

(** The calls among the events. *)
Definition calls (events : list event) : list call :=
  flat_map (fun e => match e with Called c => [c] | _ => [] end) events.

Section Program.

(** The class [JavaParser], which main.py imports from
    parsers.java_parser, and the class [CppGenerator], which it imports
    from generators.base_generator, are not in those modules: the parse
    of the one and the visit of the other are parameters. *)
Variable JavaParser_parse_java : text -> Node.
Variable CppGenerator_visit : Node -> text.

(** The [try] statement of [main], for two of the supported languages. *)
Definition convert_and_print (source_lang target_lang source_code : text)
  : list event :=
  let '(parsing, universal_ast) :=
    if text_eqb source_lang (txt "java")
    then ([Called (Parse source_lang)], JavaParser_parse_java source_code)
    else
      ([Printed (txt "Using " ++ source_lang ++ txt " parser..."); Slept 3;
        Called (Parse source_lang)],
       if text_eqb source_lang (txt "python")
       then PythonParser.parse_python source_code
       else CppParser.parse_cpp source_code) in
  let visit_ :=
    if text_eqb target_lang (txt "python") then PythonGenerator.visit
    else if text_eqb target_lang (txt "java")
    then fun node => Ok (render JavaGenerator node)
    else fun node => Ok (CppGenerator_visit node) in
  parsing
  ++ [Printed (txt "Using " ++ target_lang ++ txt " generator..."); Slept 4;
      Called (Visit target_lang)]
  ++ match visit_ universal_ast with
     | Ok target_code =>
         [Printed ([nl] ++ txt "<--- Converted Code --->");
          Printed (txt "<--- Language: " ++ upper target_lang ++ txt " --->");
          Printed target_code;
          Printed ([nl; nl]
                   ++ txt "Note: This is a simplified converter. Complex code or unsupported features may not convert correctly."
                   ++ [nl; nl])]
     | Raise e =>
         [Printed ([nl] ++ txt "An unexpected error occurred: " ++ message e);
          Traceback e;
          Printed (txt "Parsing and generation are highly simplified and might fail on code outside the supported features.")]
     end.

Definition main (stdin : list text) : list event * outcome :=
  let banner :=
    [Printed (txt " _______________________________________________________");
     Printed (txt "|Welcome to the Universal Cross-Language Code Converter!|");
     Printed (txt "|Supported languages: " ++ join (txt ", ") SUPPORTED_LANGUAGES
              ++ txt "                 |");
     Printed (txt "|_______________________________________________________|")] in
  let languages := join (txt "/") SUPPORTED_LANGUAGES in
  match ask_language ([nl] ++ txt "Enter the source language (" ++ languages
                      ++ txt "): ") (txt "Source") stdin with
  | (asked1, None) => (banner ++ asked1, EOFError)
  | (asked1, Some (source_lang, stdin)) =>
      match ask_language (txt "Enter the target language (" ++ languages
                          ++ txt "): ") (txt "Target") stdin with
      | (asked2, None) => (banner ++ asked1 ++ asked2, EOFError)
      | (asked2, Some (target_lang, stdin)) =>
          if text_eqb source_lang target_lang
          then (banner ++ asked1 ++ asked2
                ++ [Printed (txt "Source and target languages are the same ("
                             ++ source_lang ++ txt "). No conversion needed.")],
                SystemExit 0)
          else
            let '(reading, source_code, _) := get_multiline_input stdin in
            match strip source_code with
            | [] =>
                (banner ++ asked1 ++ asked2 ++ reading
                 ++ [Printed (txt "Error: No source code provided.")],
                 SystemExit 1)
            | _ :: _ =>
                (banner ++ asked1 ++ asked2 ++ reading
                 ++ [Printed ([nl] ++ txt "Processing..."); Slept 4]
                 ++ convert_and_print source_lang target_lang source_code,
                 Returned)
            end
      end
  end.

End Program.

End Interactive.

(** ** Blocks of assignments under a header line, in Python's syntax *)
Module Blocks.
Import Py Reference.

(** An indentation of [width] spaces. *)
Definition indentation (width : nat) : text := repeat " "%char width.

(** The lines of a body, each after [width] spaces. *)
Definition body_lines (width : nat) (body : list assignment) : list text :=
  map (fun st => indentation width ++ source_line st) body.

(** The first line of a function definition. *)
Definition def_header (name : text) (params : list text) : text :=
  txt "def " ++ name ++ txt "(" ++ join (txt ", ") params ++ txt "):".

(** The first line of a loop over [range(stop)]. *)
Definition for_header (iterator stop : text) : text :=
  txt "for " ++ iterator ++ txt " in range(" ++ stop ++ txt "):".

(** A right-hand side as source text, its node, and the text that
    [PythonGenerator] writes for the node. *)
Definition rhs_text (r : rhs) : text :=
  match r with
  | Atom a => a
  | Compare op a b => a ++ txt " " ++ op ++ txt " " ++ b
  | Sum m n => m ++ txt " + " ++ n
  end.

Definition rhs_node (r : rhs) : Ast.Node :=
  match r with
  | Atom a => PythonParser.parse_atom a
  | Compare op a b =>
      Ast.ComparisonNode op (PythonParser.parse_atom a)
        (PythonParser.parse_atom b)
  | Sum m n =>
      Ast.MathOpNode (txt "+") (Ast.NumberLiteralNode m)
        (Ast.NumberLiteralNode n)
  end.

(** The right-hand sides of well-formed statements. *)
Definition rhs_well_formed (r : rhs) : bool :=
  match r with
  | Atom a => is_atom a
  | Compare op a b =>
      existsb (text_eqb op) PythonParser.comparison_ops
      && is_atom a && is_atom b
  | Sum m n => is_unsigned m && is_unsigned n
  end.

Definition parenthesized_rhs (r : rhs) : text :=
  match r with
  | Atom a => a
  | Compare op a b => txt "(" ++ a ++ txt " " ++ op ++ txt " " ++ b ++ txt ")"
  | Sum m n => txt "(" ++ m ++ txt " + " ++ n ++ txt ")"
  end.

(** The first line of a loop with the condition [r]. *)
Definition while_header (r : rhs) : text :=
  txt "while " ++ rhs_text r ++ txt ":".

(** The characters of an iterable [range(stop)]: no whitespace, no colon
    and nothing that [repr] escapes. *)
Definition plain_char (c : ascii) : bool :=
  negb (is_space c) && is_not ":"%char c && is_dot c && is_printable c
  && negb (Ascii.eqb c sq) && negb (Ascii.eqb c bs).

(** A header line and the lines of its body, joined by newlines. *)
Definition block_text (header : text) (width : nat) (body : list assignment)
  : text :=
  join [nl] (header :: body_lines width body).

(** The line is a well-formed statement after some whitespace. *)
Definition indented_line (line : text) (st : assignment) : Prop :=
  exists ws, forallb is_space ws = true /\ line = ws ++ source_line st
             /\ well_formed st = true.

(** What [PythonGenerator] writes under a header: the statements with their
    sums and comparisons in parentheses, after four spaces each. *)
Definition rendered_body (body : list assignment) : text :=
  join [nl] (map (fun st => txt "    " ++ parenthesized_line st) body).

(** What [JavaGenerator] writes between the braces of a block at level 0:
    the statements as declarations, or the comment. *)
Definition java_block_body (body : list assignment) : text :=
  match body with
  | [] => txt "    // Empty body"
  | _ => join [nl] (map (fun st => txt "    int " ++ source_line st ++ txt ";")
                      body)
  end.

End Blocks.

(** ** Functions of the brace languages with a body of declarations *)
Module Methods.
Import Py Reference Blocks.

(** A declaration [int x = a;]: the name and the operand. *)
Definition declaration : Type := (text * text)%type.

Definition declaration_ok (d : declaration) : bool :=
  is_name (fst d) && is_atom (snd d).

Definition declaration_text (d : declaration) : text :=
  txt "int " ++ fst d ++ txt " = " ++ snd d ++ txt ";".

(** The node that the brace-language parsers build for it: the operand
    keeps the semicolon. *)
Definition declaration_node (d : declaration) : Ast.Node :=
  Ast.AssignmentNode (Ast.VariableNode (fst d))
    (Ast.VariableNode (snd d ++ txt ";")).

(** The characters of a parameter's type, such as [String[]]. *)
Definition type_char (c : ascii) : bool :=
  negb (is_space c) && is_not ","%char c && is_not ")"%char c.

(** A parameter: its type and its name. *)
Definition parameter : Type := (text * text)%type.

Definition parameter_ok (p : parameter) : bool :=
  nonempty (fst p) && forallb type_char (fst p) && is_name (snd p).

Definition parameter_text (p : parameter) : text :=
  fst p ++ txt " " ++ snd p.

Definition method_header (name : text) (params : list parameter) : text :=
  txt "public static void " ++ name ++ txt "("
  ++ join (txt ", ") (map parameter_text params) ++ txt ") {".

(** The lines of a class with one method: the method and its closing
    brace after [margin] spaces, the declarations after more. *)
Definition class_lines (cls name : text) (params : list parameter)
  (margin deeper : nat) (body : list declaration) : list text :=
  (txt "public class " ++ cls ++ txt " {")
  :: (indentation margin ++ method_header name params)
  :: map (fun d => indentation (margin + S deeper) ++ declaration_text d) body
  ++ [indentation margin ++ txt "}"; txt "}"].

(** The return types that the C++ pattern of a definition knows. *)
Definition cpp_return_type (ret : text) : bool :=
  text_eqb ret (txt "void") || text_eqb ret (txt "int")
  || text_eqb ret (txt "string").

Definition function_header (ret name : text) (params : list parameter) : text :=
  ret ++ txt " " ++ name ++ txt "("
  ++ join (txt ", ") (map parameter_text params) ++ txt ") {".

(** The lines of a C++ function: the header, the declarations after
    [S deeper] spaces and the closing brace. *)
Definition function_lines (ret name : text) (params : list parameter)
  (deeper : nat) (body : list declaration) : list text :=
  function_header ret name params
  :: map (fun d => indentation (S deeper) ++ declaration_text d) body
  ++ [txt "}"].

(** What the generators write for the declarations of a method:
    [PythonGenerator] the assignment with the semicolon of the source,
    [JavaGenerator] the declaration with a second semicolon. *)
Definition python_method_body (body : list declaration) : text :=
  join [nl] (map (fun d => txt "    " ++ fst d ++ txt " = " ++ snd d ++ txt ";")
               body).

Definition java_method_body (body : list declaration) : text :=
  match body with
  | [] => txt "    // Empty body"
  | _ => join [nl] (map (fun d => txt "    " ++ declaration_text d ++ txt ";")
                      body)
  end.

End Methods.

(** * Facts about the string primitives *)
Module PyFacts.
Import Py.

Lemma text_eqb_spec (a b : text) : text_eqb a b = true <-> a = b.
Proof.
  revert b; induction a as [|x a IH]; intros [|y b]; simpl;
    try (split; [discriminate | congruence]); try tauto.
  rewrite andb_true_iff, Ascii.eqb_eq, IH. split.
  - intros [-> ->]; reflexivity.
  - intros H; injection H; auto.
Qed.

Lemma text_eqb_refl (a : text) : text_eqb a a = true.
Proof. apply text_eqb_spec; reflexivity. Qed.

Lemma text_eqb_neq (a b : text) : a <> b -> text_eqb a b = false.
Proof.
  intros H. destruct (text_eqb a b) eqn:E; [|reflexivity].
  apply text_eqb_spec in E. contradiction.
Qed.

Lemma lstrip_all_space (s : text) : forallb is_space s = true -> lstrip s = [].
Proof.
  induction s as [|c s IH]; simpl; [reflexivity|].
  intros H. apply andb_true_iff in H as [-> H]. auto.
Qed.

Lemma strip_all_space (s : text) : forallb is_space s = true -> strip s = [].
Proof. intros H. unfold strip. rewrite lstrip_all_space; auto. Qed.

Lemma lstrip_length (s : text) : List.length (lstrip s) <= List.length s.
Proof.
  induction s as [|c s IH]; simpl; [lia|].
  destruct (is_space c); simpl; lia.
Qed.

Lemma rstrip_length (s : text) : List.length (rstrip s) <= List.length s.
Proof.
  unfold rstrip. rewrite length_rev.
  pose proof (lstrip_length (rev s)) as H. rewrite length_rev in H. exact H.
Qed.

Lemma strip_length (s : text) : List.length (strip s) <= List.length s.
Proof.
  unfold strip. pose proof (rstrip_length (lstrip s)).
  pose proof (lstrip_length s). lia.
Qed.

Lemma lstrip_nonspace (c : ascii) (s : text) :
  is_space c = false -> lstrip (c :: s) = c :: s.
Proof. intros H. simpl. rewrite H. reflexivity. Qed.

Lemma lstrip_app_nonspace (r : text) (c : ascii) (t : text) :
  is_space c = false -> lstrip (r ++ c :: t) = lstrip r ++ c :: t.
Proof.
  intros Hc. induction r as [|x r IH]; simpl.
  - rewrite Hc. reflexivity.
  - destruct (is_space x); [exact IH | reflexivity].
Qed.

Lemma rstrip_app_nonspace (a : text) (c : ascii) (b : text) :
  is_space c = false -> rstrip (a ++ c :: b) = a ++ c :: rstrip b.
Proof.
  intros Hc. unfold rstrip. rewrite rev_app_distr. simpl.
  rewrite <- app_assoc. simpl. rewrite lstrip_app_nonspace by exact Hc.
  rewrite rev_app_distr. simpl. rewrite rev_involutive, <- app_assoc.
  reflexivity.
Qed.

End PyFacts.

Import Py Re Ast Generators PyFacts.

(** * The matcher is sound *)
Module ReFacts.

Lemma startswith_split (l s : text) :
  startswith l s = true -> s = l ++ skipn (List.length l) s.
Proof.
  revert s; induction l as [|x l IH]; intros [|y s]; simpl; try discriminate;
    try reflexivity.
  intros H. apply andb_true_iff in H as [E H]. apply Ascii.eqb_eq in E.
  subst. f_equal. auto.
Qed.

Lemma startswith_app (l s : text) : startswith l (l ++ s) = true.
Proof.
  induction l as [|x l IH]; simpl; [reflexivity|].
  rewrite Ascii.eqb_refl. exact IH.
Qed.

Lemma skipn_app_exact (l s : text) : skipn (List.length l) (l ++ s) = s.
Proof. induction l; simpl; auto. Qed.

Lemma consumed_app (a s : text) : consumed (a ++ s) s = a.
Proof.
  unfold consumed. rewrite length_app.
  replace (List.length a + List.length s - List.length s) with (List.length a)
    by lia.
  rewrite firstn_app, Nat.sub_diag, firstn_all. simpl. apply app_nil_r.
Qed.

Lemma star_greedy_sound A p s (k : text -> option A) r :
  star_greedy p s k = Some r ->
  exists a s', s = a ++ s' /\ forallb p a = true /\ k s' = Some r.
Proof.
  induction s as [|c s IH]; simpl.
  - intros H. exists [], []. auto.
  - destruct (p c) eqn:Hc.
    + destruct (star_greedy p s k) eqn:E; simpl.
      * intros [= ->]. destruct (IH eq_refl) as (a & s' & -> & Ha & Hk).
        exists (c :: a), s'. simpl. rewrite Hc. auto.
      * intros H. exists [], (c :: s). auto.
    + intros H. exists [], (c :: s). auto.
Qed.

Lemma star_lazy_sound A p s (k : text -> option A) r :
  star_lazy p s k = Some r ->
  exists a s', s = a ++ s' /\ forallb p a = true /\ k s' = Some r.
Proof.
  induction s as [|c s IH]; simpl.
  - destruct (k []) eqn:E; [|discriminate].
    intros [= ->]. exists [], []. auto.
  - destruct (k (c :: s)) eqn:E.
    + intros [= ->]. exists [], (c :: s). auto.
    + destruct (p c) eqn:Hc; [|discriminate].
      intros H. destruct (IH H) as (a & s' & -> & Ha & Hk).
      exists (c :: a), s'. simpl. rewrite Hc. auto.
Qed.

(** The matcher finds matches of the pattern only. *)
Lemma rmatch_sound A (r : regex) :
  forall s g (k : text -> groups -> option A) res,
    rmatch r s g k = Some res ->
    exists a s' g', s = a ++ s' /\ matches r g a g' /\ k s' g' = Some res.
Proof.
  induction r as [l | p | r1 IH1 r2 IH2 | r1 IH1 r2 IH2 | r1 IH1 | p | p | p | p
                 | n r1 IH1 | n]; intros s g k res; simpl.
  - destruct (startswith l s) eqn:E; [|discriminate].
    intros H. exists l, (skipn (List.length l) s), g.
    split; [apply startswith_split; exact E|]. split; [constructor | exact H].
  - destruct s as [|c s]; [discriminate|].
    destruct (p c) eqn:Hc; [|discriminate].
    intros H. exists [c], s, g. repeat split; [constructor; exact Hc | exact H].
  - intros H. apply IH1 in H as (a & s1 & g1 & -> & M1 & H).
    apply IH2 in H as (b & s2 & g2 & -> & M2 & H).
    exists (a ++ b), s2, g2. rewrite app_assoc.
    repeat split; [econstructor; eassumption | exact H].
  - destruct (rmatch r1 s g k) eqn:E; simpl.
    + intros [= ->]. apply IH1 in E as (a & s' & g' & -> & M & H).
      exists a, s', g'. repeat split; [apply m_alt_l; exact M | exact H].
    + intros H. apply IH2 in H as (a & s' & g' & -> & M & H).
      exists a, s', g'. repeat split; [apply m_alt_r; exact M | exact H].
  - destruct (rmatch r1 s g k) eqn:E; simpl.
    + intros [= ->]. apply IH1 in E as (a & s' & g' & -> & M & H).
      exists a, s', g'. repeat split; [apply m_opt_some; exact M | exact H].
    + intros H. exists [], s, g. repeat split; [apply m_opt_none | exact H].
  - intros H. apply star_greedy_sound in H as (a & s' & -> & Ha & H).
    exists a, s', g. repeat split; [constructor; exact Ha | exact H].
  - destruct s as [|c s]; [discriminate|].
    destruct (p c) eqn:Hc; [|discriminate].
    intros H. apply star_greedy_sound in H as (a & s' & -> & Ha & H).
    exists (c :: a), s', g.
    repeat split; [constructor; simpl; rewrite Hc; exact Ha | exact H].
  - intros H. apply star_lazy_sound in H as (a & s' & -> & Ha & H).
    exists a, s', g. repeat split; [constructor; exact Ha | exact H].
  - destruct s as [|c s]; [discriminate|].
    destruct (p c) eqn:Hc; [|discriminate].
    intros H. apply star_lazy_sound in H as (a & s' & -> & Ha & H).
    exists (c :: a), s', g.
    repeat split; [constructor; simpl; rewrite Hc; exact Ha | exact H].
  - intros H. apply IH1 in H as (a & s' & g' & -> & M & H).
    rewrite consumed_app in H.
    exists a, s', ((n, a) :: g'). repeat split; [constructor; exact M | exact H].
  - destruct (lookup n g) as [t|] eqn:E; [|discriminate].
    destruct (startswith t s) eqn:Et; [|discriminate].
    intros H. exists t, (skipn (List.length t) s), g.
    split; [apply startswith_split; exact Et|].
    split; [constructor; exact E | exact H].
Qed.

Lemma re_match_sound (r : regex) (s : text) (m : groups) :
  re_match r s = Some m -> exists a s', s = a ++ s' /\ matches r [] a m.
Proof.
  unfold re_match. intros H.
  apply rmatch_sound in H as (a & s' & g' & -> & M & [= ->]). eauto.
Qed.

Lemma re_fullmatch_sound (r : regex) (s : text) (m : groups) :
  re_fullmatch r s = Some m -> matches r [] s m.
Proof.
  unfold re_fullmatch. intros H.
  apply rmatch_sound in H as (a & s' & g' & -> & M & H).
  destruct s'; [|discriminate]. injection H as ->. rewrite app_nil_r. exact M.
Qed.

End ReFacts.

(** * Parsing returns

    Each recursive call of an expression parser is on a shorter text, and
    each call of a parser on a body is on a shorter text, so the fuel of
    [_parse_expression] and of the three parsers is enough. *)
Module ParserFacts.
Import ReFacts.

Lemma partition_split (sep s a b : text) :
  partition sep s = Some (a, b) -> s = a ++ sep ++ b.
Proof.
  revert a b; induction s as [|c s IH]; intros a b.
  - simpl. destruct (startswith sep []) eqn:E; [|discriminate].
    intros [= <- <-]. apply startswith_split in E. exact E.
  - simpl. destruct (startswith sep (c :: s)) eqn:E.
    + intros [= <- <-]. apply startswith_split in E. exact E.
    + destruct (partition sep s) as [[a' b']|]; [|discriminate].
      intros [= <- <-]. simpl. f_equal. apply IH. reflexivity.
Qed.

Lemma partition_lengths (sep s a b : text) :
  partition sep s = Some (a, b) ->
  List.length a + List.length sep + List.length b = List.length s.
Proof.
  intros H. apply partition_split in H. subst. rewrite !length_app. lia.
Qed.

Ltac inv_matches :=
  repeat match goal with
         | H : matches (Seq _ _) _ _ _ |- _ => inversion H; subst; clear H
         | H : matches (Lit _) _ _ _ |- _ => inversion H; subst; clear H
         | H : matches (Cls _) _ _ _ |- _ => inversion H; subst; clear H
         | H : matches (Alt _ _) _ _ _ |- _ => inversion H; subst; clear H
         | H : matches (Opt _) _ _ _ |- _ => inversion H; subst; clear H
         | H : matches (Star _) _ _ _ |- _ => inversion H; subst; clear H
         | H : matches (Plus _) _ _ _ |- _ => inversion H; subst; clear H
         | H : matches (StarLazy _) _ _ _ |- _ => inversion H; subst; clear H
         | H : matches (PlusLazy _) _ _ _ |- _ => inversion H; subst; clear H
         | H : matches (Group _ _) _ _ _ |- _ => inversion H; subst; clear H
         | H : matches (Backref _) _ _ _ |- _ => inversion H; subst; clear H
         end.

Ltac expose_regex H :=
  cbv [cat alts lit sp sp1 word1] in H.

Lemma split_char_weight (c : ascii) (s : text) :
  weight (split_char c s) = S (List.length s).
Proof.
  unfold weight. induction s as [|x s IH]; simpl; [reflexivity|].
  destruct (Ascii.eqb x c); simpl; [rewrite IH; reflexivity|].
  destruct (split_char c s) as [|l ls]; simpl in *; lia.
Qed.

Lemma join_length_weight (c : ascii) (ls : list text) :
  List.length (join [c] ls) <= weight ls.
Proof.
  unfold weight. induction ls as [|l ls IH]; simpl; [lia|].
  destruct ls as [|l' ls']; [simpl; lia|].
  rewrite length_app. cbn [app List.length]. simpl in IH. simpl. lia.
Qed.

Lemma strip_nonempty_length (raw : text) :
  strip raw <> [] -> 1 <= List.length raw.
Proof. destruct raw; [intros H; exfalso; apply H; reflexivity | simpl; lia]. Qed.

Ltac finish_loop Hrest :=
  try (destruct Hrest as [? ->]); eexists; reflexivity.

(** ** parse_python *)

Lemma py_pow_groups (s : text) (m : groups) :
  re_fullmatch PythonParser.POW_REGEX s = Some m ->
  List.length (group 1 m) < List.length s /\ List.length (group 2 m) < List.length s.
Proof.
  intros H. apply re_fullmatch_sound in H.
  unfold PythonParser.POW_REGEX in H. expose_regex H. inv_matches.
  cbn [group lookup Nat.eqb].
  repeat (rewrite ?length_app; cbn [List.length app]). lia.
Qed.

Lemma py_find_comparison_lengths ops s op a b :
  PythonParser.find_comparison ops s = Some (op, (a, b)) ->
  List.length a < List.length s /\ List.length b < List.length s.
Proof.
  induction ops as [|o ops IH]; simpl; [discriminate|].
  destruct (partition _ s) as [[a' b']|] eqn:E.
  - intros [= <- <- <-]. apply partition_lengths in E.
    simpl in E. rewrite ?length_app in E. simpl in E. lia.
  - exact IH.
Qed.

Lemma py_find_addition_lengths s a b :
  PythonParser.find_addition s = Some (a, b) ->
  List.length a < List.length s /\ List.length b < List.length s.
Proof.
  unfold PythonParser.find_addition.
  destruct (_ && _); [|discriminate].
  destruct (partition _ s) as [[a' b']|] eqn:E; [|discriminate].
  destruct (negb _); [|discriminate].
  intros [= <- <-]. apply partition_lengths in E. simpl in E. lia.
Qed.

Lemma py_parse_expression_fuel_total (fuel : nat) :
  forall s, List.length s < fuel ->
            exists n, PythonParser._parse_expression_fuel fuel s = Some n.
Proof.
  induction fuel as [|fuel IH]; intros s Hs; [lia|].
  cbn [PythonParser._parse_expression_fuel].
  pose proof (strip_length s) as Hstrip.
  assert (Hrec : forall t, List.length t < List.length (strip s) ->
                           exists n, PythonParser._parse_expression_fuel fuel (strip t) = Some n).
  { intros t Ht. apply IH. pose proof (strip_length t). lia. }
  destruct (PythonParser.find_comparison _ _) as [[op [p0 p1]]|] eqn:Ec.
  - apply py_find_comparison_lengths in Ec as [H0 H1].
    destruct (Hrec p0 H0) as [n0 ->]. destruct (Hrec p1 H1) as [n1 ->]. eauto.
  - destruct (re_fullmatch _ _) as [m|] eqn:Ep.
    + apply py_pow_groups in Ep as [H1 H2].
      destruct (Hrec _ H1) as [n0 ->]. destruct (Hrec _ H2) as [n1 ->]. eauto.
    + destruct (PythonParser.find_addition _) as [[p0 p1]|] eqn:Ea; [|eauto].
      apply py_find_addition_lengths in Ea as [H0 H1].
      destruct (Hrec p0 H0) as [n0 ->]. destruct (Hrec p1 H1) as [n1 ->]. eauto.
Qed.

Lemma py_block_from_bounds first lines base blk rest :
  PythonParser.block_from first lines base = (blk, rest) ->
  weight blk <= weight lines /\ List.length rest <= List.length lines
  /\ weight rest <= weight lines.
Proof.
  revert first blk rest. induction lines as [|l lines IH]; intros first blk rest.
  - simpl. intros [= <- <-]. simpl. lia.
  - cbn [PythonParser.block_from].
    destruct (PythonParser.blank l).
    + intros H. apply IH in H. unfold weight in *. simpl. lia.
    + destruct (_ && _).
      * intros [= <- <-]. unfold weight. simpl. lia.
      * destruct (PythonParser.block_from false lines base) as [b r] eqn:E.
        intros [= <- <-]. apply IH in E. unfold weight in *. simpl. lia.
Qed.

Lemma py_parse_expression_total (s : text) :
  exists n, PythonParser._parse_expression s = Some n.
Proof.
  apply py_parse_expression_fuel_total. unfold PythonParser.expr_fuel. lia.
Qed.

Lemma py_parse_loop_total (parse : text -> option Node) (W : nat) :
  (forall c, List.length c + 2 <= W -> exists p, parse c = Some p) ->
  forall n lines,
    List.length lines <= n -> weight lines <= W ->
    exists stmts, PythonParser.parse_loop parse n lines = Some stmts.
Proof.
  intros Hparse. induction n as [|n IH]; intros [|raw rest] Hn Hw;
    try (simpl; eauto; fail); [simpl in Hn; lia|].
  cbn [PythonParser.parse_loop].
  assert (Hrest : exists stmts, PythonParser.parse_loop parse n rest = Some stmts).
  { apply IH; [simpl in Hn; lia | unfold weight in *; simpl in Hw; lia]. }
  assert (Hblock : forall base blk rest',
             PythonParser._get_indented_block rest base = (blk, rest') ->
             strip raw <> [] ->
             (exists p, parse (join [nl] blk) = Some p)
             /\ exists stmts, PythonParser.parse_loop parse n rest' = Some stmts).
  { intros base blk rest' E Hraw. apply py_block_from_bounds in E as (E1 & E2 & E3).
    apply strip_nonempty_length in Hraw.
    pose proof (join_length_weight nl blk).
    unfold weight in Hw; simpl in Hw. fold (weight rest) in Hw.
    split; [apply Hparse; lia | apply IH; [simpl in Hn; lia | lia]]. }
  destruct (strip raw) as [|c line] eqn:Eline; [exact Hrest|].
  assert (Hne : c :: line <> []) by discriminate.
  cbn [orb]. destruct (startswith _ _); [exact Hrest|].
  destruct (re_match _ _); [finish_loop Hrest|].
  destruct (re_match _ _).
  { destruct (py_parse_expression_total (group 2 g)) as [? ->]. finish_loop Hrest. }
  destruct (re_match _ _).
  { destruct (PythonParser._get_indented_block _ _) as [blk rest'] eqn:Eb.
    destruct (Hblock _ _ _ Eb Hne) as [[p ->] [st ->]]. eexists; reflexivity. }
  destruct (re_match _ _).
  { destruct (py_parse_expression_total (group 2 g)) as [? ->].
    destruct (PythonParser._get_indented_block _ _) as [blk rest'] eqn:Eb.
    destruct (Hblock _ _ _ Eb Hne) as [[p ->] [st ->]]. eexists; reflexivity. }
  destruct (re_match _ _).
  { destruct (py_parse_expression_total (group 1 g)) as [? ->].
    destruct (PythonParser._get_indented_block _ _) as [blk rest'] eqn:Eb.
    destruct (Hblock _ _ _ Eb Hne) as [[p ->] [st ->]]. eexists; reflexivity. }
  destruct (re_match _ _); [|exact Hrest].
  destruct (py_parse_expression_total (strip (group 1 g))) as [? ->].
  finish_loop Hrest.
Qed.

Lemma py_parse_fuel_total (fuel : nat) :
  forall code, List.length code < fuel ->
               exists stmts, PythonParser.parse_python_fuel fuel code
                             = Some (ProgramNode stmts).
Proof.
  induction fuel as [|fuel IH]; intros code Hc; [lia|].
  cbn [PythonParser.parse_python_fuel].
  destruct (@py_parse_loop_total (PythonParser.parse_python_fuel fuel)
              (S (List.length (strip code))))
    with (n := List.length (split_char nl (strip code)))
         (lines := split_char nl (strip code)) as [stmts ->].
  - intros c Hlen. pose proof (strip_length code).
    destruct (IH c) as [st ->]; [lia | eauto].
  - lia.
  - rewrite split_char_weight. lia.
  - eauto.
Qed.

(** ** parse_cpp *)

Lemma cpp_pow_groups (s : text) (m : groups) :
  re_fullmatch CppParser.POW_REGEX s = Some m ->
  List.length (group 1 m) < List.length s /\ List.length (group 2 m) < List.length s.
Proof.
  intros H. apply re_fullmatch_sound in H.
  unfold CppParser.POW_REGEX in H. expose_regex H. inv_matches.
  cbn [group lookup Nat.eqb].
  repeat (rewrite ?length_app; cbn [List.length app]). lia.
Qed.

Lemma cpp_find_comparison_lengths ops s op a b :
  CppParser.find_comparison ops s = Some (op, (a, b)) ->
  List.length a < List.length s /\ List.length b < List.length s.
Proof.
  induction ops as [|o ops IH]; simpl; [discriminate|].
  destruct (partition _ s) as [[a' b']|] eqn:E.
  - intros [= <- <- <-]. apply partition_lengths in E.
    simpl in E. rewrite ?length_app in E. simpl in E. lia.
  - exact IH.
Qed.

Lemma cpp_find_addition_lengths s a b :
  CppParser.find_addition s = Some (a, b) ->
  List.length a < List.length s /\ List.length b < List.length s.
Proof.
  unfold CppParser.find_addition.
  destruct (_ && _); [|discriminate].
  intros E. apply partition_lengths in E. simpl in E. lia.
Qed.

Lemma cpp_parse_expression_fuel_total (fuel : nat) :
  forall s, List.length s < fuel ->
            exists n, CppParser._parse_expression_fuel fuel s = Some n.
Proof.
  induction fuel as [|fuel IH]; intros s Hs; [lia|].
  cbn [CppParser._parse_expression_fuel].
  pose proof (strip_length s) as Hstrip.
  assert (Hrec : forall t, List.length t < List.length (strip s) ->
                           exists n, CppParser._parse_expression_fuel fuel (strip t) = Some n).
  { intros t Ht. apply IH. pose proof (strip_length t). lia. }
  destruct (CppParser.find_comparison _ _) as [[op [p0 p1]]|] eqn:Ec.
  - apply cpp_find_comparison_lengths in Ec as [H0 H1].
    destruct (Hrec p0 H0) as [n0 ->]. destruct (Hrec p1 H1) as [n1 ->]. eauto.
  - destruct (re_fullmatch _ _) as [m|] eqn:Ep.
    + apply cpp_pow_groups in Ep as [H1 H2].
      destruct (Hrec _ H1) as [n0 ->]. destruct (Hrec _ H2) as [n1 ->]. eauto.
    + destruct (CppParser.find_addition _) as [[p0 p1]|] eqn:Ea; [|eauto].
      apply cpp_find_addition_lengths in Ea as [H0 H1].
      destruct (Hrec p0 H0) as [n0 ->]. destruct (Hrec p1 H1) as [n1 ->]. eauto.
Qed.

Lemma cpp_parse_expression_total (s : text) :
  exists n, CppParser._parse_expression s = Some n.
Proof.
  apply cpp_parse_expression_fuel_total. unfold CppParser.expr_fuel. lia.
Qed.

(** The step operator that the loop pattern captures is one of the four
    that the conversion knows, so its [step] is always bound. *)
Lemma cpp_for_loop_converts (line : text) (m : groups) :
  re_match CppParser.FOR_LOOP_REGEX line = Some m ->
  exists iterable,
    CppParser._convert_cpp_for_to_range (group 2 m) (group 4 m) (group 3 m)
      (group 5 m) (group 6 m) = Some iterable.
Proof.
  intros H. apply re_match_sound in H as (a & s' & _ & H).
  unfold CppParser.FOR_LOOP_REGEX in H. expose_regex H. inv_matches;
    cbn [group lookup Nat.eqb]; eexists; reflexivity.
Qed.

Lemma cpp_block_from_bounds first lines base blk rest :
  CppParser.block_from first lines base = (blk, rest) ->
  weight blk <= weight lines /\ List.length rest <= List.length lines
  /\ weight rest <= weight lines.
Proof.
  revert first blk rest. induction lines as [|l lines IH]; intros first blk rest.
  - simpl. intros [= <- <-]. simpl. lia.
  - cbn [CppParser.block_from].
    destruct (CppParser.blank l).
    + intros H. apply IH in H. unfold weight in *. simpl. lia.
    + destruct (_ && _).
      * intros [= <- <-]. unfold weight. simpl. lia.
      * destruct (CppParser.block_from false lines base) as [b r] eqn:E.
        intros [= <- <-]. apply IH in E. unfold weight in *. simpl. lia.
Qed.

Lemma cpp_parse_loop_total (parse : text -> option Node) (W : nat) :
  (forall c, List.length c + 2 <= W -> exists p, parse c = Some p) ->
  forall n lines,
    List.length lines <= n -> weight lines <= W ->
    exists stmts, CppParser.parse_loop parse n lines = Some stmts.
Proof.
  intros Hparse. induction n as [|n IH]; intros [|raw rest] Hn Hw;
    try (simpl; eauto; fail); [simpl in Hn; lia|].
  cbn [CppParser.parse_loop].
  assert (Hrest : exists stmts, CppParser.parse_loop parse n rest = Some stmts).
  { apply IH; [simpl in Hn; lia | unfold weight in *; simpl in Hw; lia]. }
  assert (Hblock : forall base blk rest',
             CppParser._get_indented_block rest base = (blk, rest') ->
             strip raw <> [] ->
             (exists p, parse (join [nl] blk) = Some p)
             /\ exists stmts, CppParser.parse_loop parse n rest' = Some stmts).
  { intros base blk rest' E Hraw. apply cpp_block_from_bounds in E as (E1 & E2 & E3).
    apply strip_nonempty_length in Hraw.
    pose proof (join_length_weight nl blk).
    unfold weight in Hw; simpl in Hw. fold (weight rest) in Hw.
    split; [apply Hparse; lia | apply IH; [simpl in Hn; lia | lia]]. }
  destruct (strip raw) as [|c line] eqn:Eline; [exact Hrest|].
  assert (Hne : c :: line <> []) by discriminate.
  cbn [orb]. destruct (startswith _ _); [exact Hrest|].
  destruct (_ || _); [exact Hrest|].
  destruct (re_match _ _) as [m|].
  { destruct (cpp_parse_expression_total (group 2 m)) as [? ->]. finish_loop Hrest. }
  destruct (re_match _ _) as [m|].
  { destruct (CppParser._get_indented_block _ _) as [blk rest'] eqn:Eb.
    destruct (Hblock _ _ _ Eb Hne) as [[p ->] [st ->]]. eexists; reflexivity. }
  destruct (re_match _ _) as [m|] eqn:Efor.
  { apply cpp_for_loop_converts in Efor as [? ->].
    destruct (CppParser._get_indented_block _ _) as [blk rest'] eqn:Eb.
    destruct (Hblock _ _ _ Eb Hne) as [[p ->] [st ->]]. eexists; reflexivity. }
  clear Efor. destruct (re_match _ _) as [m|].
  { destruct (cpp_parse_expression_total (group 1 m)) as [? ->].
    destruct (CppParser._get_indented_block _ _) as [blk rest'] eqn:Eb.
    destruct (Hblock _ _ _ Eb Hne) as [[p ->] [st ->]]. eexists; reflexivity. }
  destruct (re_match _ _) as [m|]; [|exact Hrest].
  destruct (contains _ _).
  - destruct (cpp_parse_expression_total
                (join (txt " + ") (map strip (split (txt "<<") (strip (group 1 m))))))
      as [? ->].
    finish_loop Hrest.
  - destruct (cpp_parse_expression_total (strip (group 1 m))) as [? ->].
    finish_loop Hrest.
Qed.

Lemma cpp_parse_fuel_total (fuel : nat) :
  forall code, List.length code < fuel ->
               exists stmts, CppParser.parse_cpp_fuel fuel code
                             = Some (ProgramNode stmts).
Proof.
  induction fuel as [|fuel IH]; intros code Hc; [lia|].
  cbn [CppParser.parse_cpp_fuel].
  destruct (@cpp_parse_loop_total (CppParser.parse_cpp_fuel fuel)
              (S (List.length (strip code))))
    with (n := List.length (split_char nl (strip code)))
         (lines := split_char nl (strip code)) as [stmts ->].
  - intros c Hlen. pose proof (strip_length code).
    destruct (IH c) as [st ->]; [lia | eauto].
  - lia.
  - rewrite split_char_weight. lia.
  - eauto.
Qed.

(** ** parse_java *)

Lemma java_pow_groups (s : text) (m : groups) :
  re_fullmatch JavaParser.POW_REGEX s = Some m ->
  List.length (group 1 m) < List.length s /\ List.length (group 2 m) < List.length s.
Proof.
  intros H. apply re_fullmatch_sound in H.
  unfold JavaParser.POW_REGEX in H. expose_regex H. inv_matches.
  cbn [group lookup Nat.eqb].
  repeat (rewrite ?length_app; cbn [List.length app]). lia.
Qed.

Lemma java_find_comparison_lengths ops s op a b :
  JavaParser.find_comparison ops s = Some (op, (a, b)) ->
  List.length a < List.length s /\ List.length b < List.length s.
Proof.
  induction ops as [|o ops IH]; simpl; [discriminate|].
  destruct (partition _ s) as [[a' b']|] eqn:E.
  - intros [= <- <- <-]. apply partition_lengths in E.
    simpl in E. rewrite ?length_app in E. simpl in E. lia.
  - exact IH.
Qed.

Lemma java_find_addition_lengths s a b :
  JavaParser.find_addition s = Some (a, b) ->
  List.length a < List.length s /\ List.length b < List.length s.
Proof.
  unfold JavaParser.find_addition.
  destruct (_ && _); [|discriminate].
  intros E. apply partition_lengths in E. simpl in E. lia.
Qed.

Lemma java_parse_expression_fuel_total (fuel : nat) :
  forall s, List.length s < fuel ->
            exists n, JavaParser._parse_expression_fuel fuel s = Some n.
Proof.
  induction fuel as [|fuel IH]; intros s Hs; [lia|].
  cbn [JavaParser._parse_expression_fuel].
  pose proof (strip_length s) as Hstrip.
  assert (Hrec : forall t, List.length t < List.length (strip s) ->
                           exists n, JavaParser._parse_expression_fuel fuel (strip t) = Some n).
  { intros t Ht. apply IH. pose proof (strip_length t). lia. }
  destruct (JavaParser.find_comparison _ _) as [[op [p0 p1]]|] eqn:Ec.
  - apply java_find_comparison_lengths in Ec as [H0 H1].
    destruct (Hrec p0 H0) as [n0 ->]. destruct (Hrec p1 H1) as [n1 ->]. eauto.
  - destruct (re_fullmatch _ _) as [m|] eqn:Ep.
    + apply java_pow_groups in Ep as [H1 H2].
      destruct (Hrec _ H1) as [n0 ->]. destruct (Hrec _ H2) as [n1 ->]. eauto.
    + destruct (JavaParser.find_addition _) as [[p0 p1]|] eqn:Ea; [|eauto].
      apply java_find_addition_lengths in Ea as [H0 H1].
      destruct (Hrec p0 H0) as [n0 ->]. destruct (Hrec p1 H1) as [n1 ->]. eauto.
Qed.

Lemma java_parse_expression_total (s : text) :
  exists n, JavaParser._parse_expression s = Some n.
Proof.
  apply java_parse_expression_fuel_total. unfold JavaParser.expr_fuel. lia.
Qed.

(** The step operator that the loop pattern captures is one of the four
    that the conversion knows, so its [step] is always bound. *)
Lemma java_for_loop_converts (line : text) (m : groups) :
  re_match JavaParser.FOR_LOOP_REGEX line = Some m ->
  exists iterable,
    JavaParser._convert_java_for_to_range (group 2 m) (group 4 m) (group 3 m)
      (group 5 m) (group 6 m) = Some iterable.
Proof.
  intros H. apply re_match_sound in H as (a & s' & _ & H).
  unfold JavaParser.FOR_LOOP_REGEX in H. expose_regex H. inv_matches;
    cbn [group lookup Nat.eqb]; eexists; reflexivity.
Qed.

Lemma java_block_from_bounds first lines base blk rest :
  JavaParser.block_from first lines base = (blk, rest) ->
  weight blk <= weight lines /\ List.length rest <= List.length lines
  /\ weight rest <= weight lines.
Proof.
  revert first blk rest. induction lines as [|l lines IH]; intros first blk rest.
  - simpl. intros [= <- <-]. simpl. lia.
  - cbn [JavaParser.block_from].
    destruct (JavaParser.blank l).
    + intros H. apply IH in H. unfold weight in *. simpl. lia.
    + destruct (_ && _).
      * intros [= <- <-]. unfold weight. simpl. lia.
      * destruct (JavaParser.block_from false lines base) as [b r] eqn:E.
        intros [= <- <-]. apply IH in E. unfold weight in *. simpl. lia.
Qed.

Lemma java_parse_loop_total (parse : text -> option Node) (W : nat) :
  (forall c, List.length c + 2 <= W -> exists p, parse c = Some p) ->
  forall n lines,
    List.length lines <= n -> weight lines <= W ->
    exists stmts, JavaParser.parse_loop parse n lines = Some stmts.
Proof.
  intros Hparse. induction n as [|n IH]; intros [|raw rest] Hn Hw;
    try (simpl; eauto; fail); [simpl in Hn; lia|].
  cbn [JavaParser.parse_loop].
  assert (Hrest : exists stmts, JavaParser.parse_loop parse n rest = Some stmts).
  { apply IH; [simpl in Hn; lia | unfold weight in *; simpl in Hw; lia]. }
  assert (Hblock : forall base blk rest',
             JavaParser._get_indented_block rest base = (blk, rest') ->
             strip raw <> [] ->
             (exists p, parse (join [nl] blk) = Some p)
             /\ exists stmts, JavaParser.parse_loop parse n rest' = Some stmts).
  { intros base blk rest' E Hraw. apply java_block_from_bounds in E as (E1 & E2 & E3).
    apply strip_nonempty_length in Hraw.
    pose proof (join_length_weight nl blk).
    unfold weight in Hw; simpl in Hw. fold (weight rest) in Hw.
    split; [apply Hparse; lia | apply IH; [simpl in Hn; lia | lia]]. }
  destruct (strip raw) as [|c line] eqn:Eline; [exact Hrest|].
  assert (Hne : c :: line <> []) by discriminate.
  cbn [orb]. destruct (startswith _ _); [exact Hrest|].
  destruct (re_match _ _) as [m|].
  { destruct (java_parse_expression_total (group 2 m)) as [? ->]. finish_loop Hrest. }
  destruct (re_match _ _) as [m|].
  { destruct (JavaParser._get_indented_block _ _) as [blk rest'] eqn:Eb.
    destruct (Hblock _ _ _ Eb Hne) as [[p ->] [st ->]]. eexists; reflexivity. }
  destruct (re_match _ _) as [m|] eqn:Efor.
  { apply java_for_loop_converts in Efor as [? ->].
    destruct (JavaParser._get_indented_block _ _) as [blk rest'] eqn:Eb.
    destruct (Hblock _ _ _ Eb Hne) as [[p ->] [st ->]]. eexists; reflexivity. }
  clear Efor. destruct (re_match _ _) as [m|].
  { destruct (java_parse_expression_total (group 1 m)) as [? ->].
    destruct (JavaParser._get_indented_block _ _) as [blk rest'] eqn:Eb.
    destruct (Hblock _ _ _ Eb Hne) as [[p ->] [st ->]]. eexists; reflexivity. }
  destruct (re_match _ _) as [m|]; [|exact Hrest].
  destruct (java_parse_expression_total (strip (group 1 m))) as [? ->].
  finish_loop Hrest.
Qed.

Lemma java_parse_fuel_total (fuel : nat) :
  forall code, List.length code < fuel ->
               exists stmts, JavaParser.parse_java_fuel fuel code
                             = Some (ProgramNode stmts).
Proof.
  induction fuel as [|fuel IH]; intros code Hc; [lia|].
  cbn [JavaParser.parse_java_fuel].
  destruct (@java_parse_loop_total (JavaParser.parse_java_fuel fuel)
              (S (List.length (strip code))))
    with (n := List.length (split_char nl (strip code)))
         (lines := split_char nl (strip code)) as [stmts ->].
  - intros c Hlen. pose proof (strip_length code).
    destruct (IH c) as [st ->]; [lia | eauto].
  - lia.
  - rewrite split_char_weight. lia.
  - eauto.
Qed.

End ParserFacts.

(** * How the matcher runs on texts of a known shape *)
Module MatchFacts.
Import ReFacts.

(** A property of characters that holds of the 256 of them. *)
Lemma for_all_chars (P : ascii -> bool) :
  forallb P (map ascii_of_nat (seq 0 256)) = true -> forall c, P c = true.
Proof.
  intros H c. rewrite forallb_forall in H. apply H.
  rewrite <- (ascii_nat_embedding c). apply in_map. apply in_seq.
  pose proof (nat_ascii_bounded c). lia.
Qed.

Lemma class_disjoint (P Q : ascii -> bool) :
  forallb (fun c => negb (P c && Q c)) (map ascii_of_nat (seq 0 256)) = true ->
  forall c, P c = true -> Q c = false.
Proof.
  intros H c Hc. pose proof (for_all_chars _ H c) as F. cbv beta in F.
  rewrite Hc in F. simpl in F. apply negb_true_iff in F. exact F.
Qed.

Lemma class_subset (P Q : ascii -> bool) :
  forallb (fun c => implb (P c) (Q c)) (map ascii_of_nat (seq 0 256)) = true ->
  forall c, P c = true -> Q c = true.
Proof.
  intros H c Hc. pose proof (for_all_chars _ H c) as F. cbv beta in F.
  rewrite Hc in F. exact F.
Qed.

Ltac by_chars := vm_compute; reflexivity.

Lemma word_not_space c : is_word c = true -> is_space c = false.
Proof. apply class_disjoint. by_chars. Qed.

Lemma word_is_dot c : is_word c = true -> is_dot c = true.
Proof. apply class_subset. by_chars. Qed.

Lemma word_not_hash c : is_word c = true -> Ascii.eqb "#"%char c = false.
Proof. apply (class_disjoint is_word (Ascii.eqb "#"%char)). by_chars. Qed.

Lemma word_not_paren c : is_word c = true -> Ascii.eqb "("%char c = false.
Proof. apply (class_disjoint is_word (Ascii.eqb "("%char)). by_chars. Qed.

Lemma space_not_word c : is_space c = true -> is_word c = false.
Proof. apply class_disjoint. by_chars. Qed.

Lemma space_not_paren c : is_space c = true -> Ascii.eqb "("%char c = false.
Proof. apply (class_disjoint is_space (Ascii.eqb "("%char)). by_chars. Qed.


Lemma star_greedy_app A p a s (k : text -> option A) r :
  forallb p a = true -> star_greedy p s k = Some r ->
  star_greedy p (a ++ s) k = Some r.
Proof.
  intros Ha Hs. induction a as [|c a IH]; simpl; [exact Hs|].
  simpl in Ha. apply andb_true_iff in Ha as [-> Ha].
  rewrite (IH Ha). reflexivity.
Qed.

Lemma star_greedy_stop A p c s (k : text -> option A) :
  p c = false -> star_greedy p (c :: s) k = k (c :: s).
Proof. intros H. simpl. rewrite H. reflexivity. Qed.

(** A greedy repetition over a run [a] that ends at a character outside
    the class goes on after the run when the rest matches there. *)
Lemma star_greedy_run A p a c s (k : text -> option A) r :
  forallb p a = true -> p c = false -> k (c :: s) = Some r ->
  star_greedy p (a ++ c :: s) k = Some r.
Proof.
  intros Ha Hc Hk. apply star_greedy_app; [exact Ha|].
  rewrite star_greedy_stop; assumption.
Qed.

Lemma star_greedy_all A p a (k : text -> option A) r :
  forallb p a = true -> k [] = Some r -> star_greedy p a k = Some r.
Proof.
  intros Ha Hk. rewrite <- (app_nil_r a). apply star_greedy_app; assumption.
Qed.

(** A lazy repetition passes the characters on which the rest of the
    pattern fails. *)
Lemma star_lazy_skip A p a s (k : text -> option A) :
  forallb p a = true ->
  (forall c t, In c a -> k (c :: t) = None) ->
  star_lazy p (a ++ s) k = star_lazy p s k.
Proof.
  intros Ha Hk. induction a as [|c a IH]; [reflexivity|].
  simpl in Ha. apply andb_true_iff in Ha as [Hc Ha].
  cbn [app star_lazy]. rewrite (Hk c (a ++ s)) by (left; reflexivity).
  rewrite Hc. apply IH; [exact Ha|].
  intros c' t Hin. apply Hk. right. exact Hin.
Qed.

Lemma star_lazy_here A p s (k : text -> option A) r :
  k s = Some r -> star_lazy p s k = Some r.
Proof. intros H. destruct s; simpl; rewrite H; reflexivity. Qed.



Lemma lstrip_idem (s : text) : lstrip (lstrip s) = lstrip s.
Proof.
  induction s as [|c s IH]; simpl; [reflexivity|].
  destruct (is_space c) eqn:E; [exact IH|]. simpl. rewrite E. reflexivity.
Qed.

Lemma rstrip_idem (s : text) : rstrip (rstrip s) = rstrip s.
Proof. unfold rstrip. rewrite rev_involutive, lstrip_idem. reflexivity. Qed.

Lemma split_char_absent c (s : text) :
  forallb (is_not c) s = true -> split_char c s = [s].
Proof.
  induction s as [|x s IH]; simpl; [reflexivity|].
  intros H. apply andb_true_iff in H as [Hx H]. unfold is_not in Hx.
  apply negb_true_iff in Hx. rewrite Hx, (IH H). reflexivity.
Qed.

(** The call pattern on a line that begins with a name, whitespace and a
    parenthesis: the groups are the name and the text up to the first
    closing parenthesis. *)
Lemma function_call_match (name ws args rest : text) :
  Reference.is_name name = true ->
  forallb is_space ws = true ->
  forallb (fun c => is_not ")"%char c && is_dot c) args = true ->
  re_match PythonParser.FUNCTION_CALL_REGEX
    (name ++ ws ++ "("%char :: args ++ ")"%char :: rest)
  = Some [(2, args); (1, name)].
Proof.
  intros Hname Hws Hargs.
  destruct name as [|c name]; [discriminate|].
  unfold Reference.is_name in Hname. cbn [Reference.nonempty andb forallb] in Hname.
  apply andb_true_iff in Hname as [Hc Hname].
  unfold re_match, PythonParser.FUNCTION_CALL_REGEX.
  cbv [cat lit sp word1]. cbn [rmatch app]. rewrite Hc.
  apply star_greedy_app; [exact Hname|].
  assert (Hstop : forall A (k : text -> option A),
             star_greedy is_word (ws ++ "("%char :: args ++ ")"%char :: rest) k
             = k (ws ++ "("%char :: args ++ ")"%char :: rest)).
  { intros A k. destruct ws as [|w ws']; cbn [app].
    - apply star_greedy_stop. reflexivity.
    - apply star_greedy_stop. apply space_not_word.
      simpl in Hws. apply andb_true_iff in Hws. tauto. }
  rewrite Hstop. apply star_greedy_run; [exact Hws | reflexivity |].
  cbn [startswith txt list_ascii_of_string skipn List.length].
  rewrite Ascii.eqb_refl. cbn [andb].
  rewrite star_lazy_skip.
  - apply star_lazy_here. cbn [startswith]. rewrite Ascii.eqb_refl. cbn [andb].
    rewrite consumed_app.
    change (c :: name ++ ws ++ "("%char :: args ++ ")"%char :: rest)
      with ((c :: name) ++ ws ++ "("%char :: args ++ ")"%char :: rest).
    rewrite consumed_app. reflexivity.
  - rewrite forallb_forall in Hargs |- *. intros x Hx.
    specialize (Hargs x Hx). apply andb_true_iff in Hargs. tauto.
  - intros x t Hx. rewrite forallb_forall in Hargs. specialize (Hargs x Hx).
    apply andb_true_iff in Hargs as [Hp _]. unfold is_not in Hp.
    apply negb_true_iff in Hp. cbv beta.
    cbn [startswith]. rewrite Ascii.eqb_sym, Hp. reflexivity.
Qed.

End MatchFacts.

(** * The replacements of [_parse_string_literal] *)
Module ReplaceFacts.
Import ReFacts ParserFacts.



Lemma replace_upto_S (n : nat) (old new s : text) :
  replace_upto (S n) old new s
  = match partition old s with
    | None => s
    | Some (a, b) => a ++ new ++ replace_upto n old new b
    end.
Proof. reflexivity. Qed.







Section Passes.

(** The four replacements of [escape_map], in its order. *)
Let passes (s : text) : text :=
  replace [bs; bs] [bs]
    (replace [bs; "t"%char] [tab]
       (replace [bs; "n"%char] [nl] (replace [bs; dq] [dq] s))).

Lemma parse_string_literal_passes (interior : text) :
  CppParser._parse_string_literal (dq :: interior ++ [dq]) = passes interior.
Proof.
  unfold CppParser._parse_string_literal, CppParser.escape_map, endswith.
  change (dq :: interior ++ [dq]) with ((dq :: interior) ++ [dq]).
  rewrite rev_app_distr. cbn [rev app startswith]. rewrite !Ascii.eqb_refl.
  cbn [andb negb]. unfold slice_1_m1. cbn [app tl].
  rewrite removelast_last. reflexivity.
Qed.





End Passes.

End ReplaceFacts.

(** * Splitting and stripping joined text *)

Lemma split_char_app (c : ascii) (a t : text) :
  forallb (is_not c) a = true ->
  split_char c (a ++ c :: t) = a :: split_char c t.
Proof.
  induction a as [|x a IH]; cbn [app forallb split_char].
  - intros _. rewrite Ascii.eqb_refl. reflexivity.
  - intros H. apply andb_true_iff in H as [Hx H]. unfold is_not in Hx.
    apply negb_true_iff in Hx. rewrite Hx, (IH H). reflexivity.
Qed.

Lemma strip_after_space (c : ascii) (t : text) :
  is_space c = true -> strip (c :: t) = strip t.
Proof. intros H. unfold strip. cbn [lstrip]. rewrite H. reflexivity. Qed.

(** * Parsing Python assignments and rendering them *)
Module RoundTripFacts.
Import ReFacts ParserFacts MatchFacts Reference.

Lemma atom_not_space c : atom_char c = true -> is_space c = false.
Proof. apply class_disjoint. by_chars. Qed.

Lemma atom_is_dot c : atom_char c = true -> is_dot c = true.
Proof. apply class_subset. by_chars. Qed.

Lemma atom_not_paren c : atom_char c = true -> Ascii.eqb c "("%char = false.
Proof. apply (class_disjoint atom_char (fun c => Ascii.eqb c "("%char)). by_chars. Qed.

Lemma atom_not_op c : atom_char c = true -> op_char c = false.
Proof. apply (class_disjoint atom_char op_char). by_chars. Qed.

Lemma atom_not_dq c : atom_char c = true -> Ascii.eqb dq c = false.
Proof. apply (class_disjoint atom_char (Ascii.eqb dq)). by_chars. Qed.

Lemma atom_not_sq c : atom_char c = true -> Ascii.eqb sq c = false.
Proof. apply (class_disjoint atom_char (Ascii.eqb sq)). by_chars. Qed.

Lemma op_not_space c : op_char c = true -> is_space c = false.
Proof. apply (class_disjoint op_char is_space). by_chars. Qed.

Lemma word_is_atom c : is_word c = true -> atom_char c = true.
Proof. apply class_subset. by_chars. Qed.

Lemma digit_is_atom c : is_digit c = true -> atom_char c = true.
Proof. apply class_subset. by_chars. Qed.

Lemma digit_not_p c : is_digit c = true -> Ascii.eqb "p"%char c = false.
Proof. apply (class_disjoint is_digit (Ascii.eqb "p"%char)). by_chars. Qed.

Lemma digit_not_minus c : is_digit c = true -> Ascii.eqb "-"%char c = false.
Proof. apply (class_disjoint is_digit (Ascii.eqb "-"%char)). by_chars. Qed.

Lemma digit_not_dq c : is_digit c = true -> is_not dq c = true.
Proof. apply (class_subset is_digit (is_not dq)). by_chars. Qed.

Lemma digit_not_sq c : is_digit c = true -> is_not sq c = true.
Proof. apply (class_subset is_digit (is_not sq)). by_chars. Qed.

Lemma forallb_impl (p q : ascii -> bool) (s : text) :
  (forall c, p c = true -> q c = true) ->
  forallb p s = true -> forallb q s = true.
Proof.
  intros H. rewrite !forallb_forall. intros Hp c Hc. auto.
Qed.

(** *** Stripping a text with no whitespace at its ends *)

Lemma lstrip_starts_solid s : starts_solid s -> lstrip s = s.
Proof. intros (c & t & -> & H). apply lstrip_nonspace. exact H. Qed.

Lemma rstrip_ends_solid s : ends_solid s -> rstrip s = s.
Proof.
  intros (t & d & -> & H). rewrite rstrip_app_nonspace by exact H. reflexivity.
Qed.

Lemma strip_solid s : starts_solid s -> ends_solid s -> strip s = s.
Proof.
  intros Hs He. unfold strip.
  rewrite (@lstrip_starts_solid s Hs). apply rstrip_ends_solid. exact He.
Qed.

Lemma starts_solid_app s t : starts_solid s -> starts_solid (s ++ t).
Proof. intros (c & u & -> & H). exists c, (u ++ t). auto. Qed.

Lemma ends_solid_app s t : ends_solid t -> ends_solid (s ++ t).
Proof.
  intros (u & d & -> & H). exists (s ++ u), d. rewrite app_assoc. auto.
Qed.

Lemma ends_solid_cons c t : ends_solid t -> ends_solid (c :: t).
Proof. apply (ends_solid_app [c]). Qed.

Lemma atom_starts_solid a : is_atom a = true -> starts_solid a.
Proof.
  unfold is_atom. destruct a as [|c a]; [discriminate|].
  cbn [nonempty andb forallb]. intros H. apply andb_true_iff in H as [H _].
  exists c, a. split; [reflexivity | apply atom_not_space; exact H].
Qed.

Lemma atom_ends_solid a : is_atom a = true -> ends_solid a.
Proof.
  unfold is_atom. intros H. apply andb_true_iff in H as [Hn H].
  destruct (exists_last (l := a)) as (t & d & ->);
    [destruct a; [discriminate | discriminate]|].
  exists t, d. split; [reflexivity|]. rewrite forallb_app in H.
  apply andb_true_iff in H as [_ H]. cbn [forallb] in H.
  rewrite andb_true_r in H. apply atom_not_space. exact H.
Qed.

Lemma name_is_atom x : is_name x = true -> is_atom x = true.
Proof.
  unfold is_name, is_atom. intros H. apply andb_true_iff in H as [-> H].
  cbn [andb]. apply (@forallb_impl is_word atom_char x word_is_atom H).
Qed.

Lemma unsigned_is_atom m : is_unsigned m = true -> is_atom m = true.
Proof.
  unfold is_unsigned, is_atom. intros H. apply andb_true_iff in H as [-> H].
  cbn [andb]. apply (@forallb_impl is_digit atom_char m digit_is_atom H).
Qed.

Lemma strip_atom a : is_atom a = true -> strip a = a.
Proof.
  intros H. apply strip_solid; [apply atom_starts_solid | apply atom_ends_solid];
    exact H.
Qed.

(** *** Looking for a separator *)

Lemma partition_absent (c : ascii) (sep s : text) :
  forallb (is_not c) s = true -> partition (c :: sep) s = None.
Proof.
  induction s as [|x s IH]; [reflexivity|].
  cbn [forallb]. intros H. apply andb_true_iff in H as [Hx H].
  unfold is_not in Hx. apply negb_true_iff in Hx.
  cbn [partition startswith]. rewrite Ascii.eqb_sym, Hx. cbn [andb].
  rewrite (IH H). reflexivity.
Qed.

Lemma partition_skip (c : ascii) (sep a s : text) :
  forallb (is_not c) a = true ->
  partition (c :: sep) (a ++ s)
  = match partition (c :: sep) s with
    | Some (x, y) => Some (a ++ x, y)
    | None => None
    end.
Proof.
  induction a as [|x a IH]; cbn [app forallb].
  - intros _. destruct (partition (c :: sep) s) as [[u v]|]; reflexivity.
  - intros H. apply andb_true_iff in H as [Hx H].
    unfold is_not in Hx. apply negb_true_iff in Hx.
    cbn [partition startswith]. rewrite Ascii.eqb_sym, Hx. cbn [andb].
    rewrite (IH H). destruct (partition (c :: sep) s) as [[u v]|]; reflexivity.
Qed.

Lemma partition_here (x : ascii) (sep s : text) :
  partition (x :: sep) ((x :: sep) ++ s) = Some ([], s).
Proof.
  cbn [app partition]. change (x :: sep ++ s) with ((x :: sep) ++ s).
  rewrite startswith_app, skipn_app_exact. reflexivity.
Qed.

Lemma atom_no_space a : is_atom a = true -> forallb (is_not " "%char) a = true.
Proof.
  unfold is_atom. intros H. apply andb_true_iff in H as [_ H].
  refine (@forallb_impl atom_char (is_not " "%char) a _ H).
  intros c Hc. unfold is_not.
  pose proof (@atom_not_space c Hc) as Hs.
  destruct (Ascii.eqb c " "%char) eqn:E; [|reflexivity].
  apply Ascii.eqb_eq in E. subst c. discriminate Hs.
Qed.

Lemma op_no_space o : forallb op_char o = true -> forallb (is_not " "%char) o = true.
Proof.
  apply forallb_impl. intros c Hc. unfold is_not.
  pose proof (@op_not_space c Hc) as Hs.
  destruct (Ascii.eqb c " "%char) eqn:E; [|reflexivity].
  apply Ascii.eqb_eq in E. subst c. discriminate Hs.
Qed.

Lemma startswith_op (o' o b : text) :
  forallb op_char o' = true -> forallb op_char o = true ->
  startswith (o' ++ [" "%char]) (o ++ " "%char :: b) = true -> o = o'.
Proof.
  revert o. induction o' as [|c' o' IH]; intros [|c o] Ho' Ho; cbn [app startswith].
  - reflexivity.
  - cbn [forallb] in Ho. apply andb_true_iff in Ho as [Hc _].
    rewrite andb_true_r. intros E. apply Ascii.eqb_eq in E. subst c.
    discriminate Hc.
  - cbn [forallb] in Ho'. apply andb_true_iff in Ho' as [Hc _].
    intros E. apply andb_true_iff in E as [E _]. apply Ascii.eqb_eq in E.
    subst c'. discriminate Hc.
  - cbn [forallb] in Ho, Ho'. apply andb_true_iff in Ho as [_ Ho].
    apply andb_true_iff in Ho' as [_ Ho'].
    intros E. apply andb_true_iff in E as [E1 E2]. apply Ascii.eqb_eq in E1.
    subst c'. f_equal. apply IH; assumption.
Qed.

(** Where an operator between two spaces is found in the text of an
    operator between two spaces and an atom. *)
Lemma partition_spaced (o' o b : text) :
  nonempty o' = true -> forallb op_char o' = true ->
  forallb op_char o = true -> is_atom b = true ->
  partition (" "%char :: o' ++ [" "%char]) (" "%char :: o ++ " "%char :: b)
  = if text_eqb o o' then Some ([], b) else None.
Proof.
  intros Hn Ho' Ho Hb.
  destruct (text_eqb o o') eqn:E.
  - apply text_eqb_spec in E. subst o'.
    replace (" "%char :: o ++ " "%char :: b)
      with ((" "%char :: o ++ [" "%char]) ++ b)
      by (cbn [app]; rewrite <- app_assoc; reflexivity).
    apply partition_here.
  - cbn [partition startswith]. rewrite Ascii.eqb_refl. cbn [andb].
    destruct (startswith (o' ++ [" "%char]) (o ++ " "%char :: b)) eqn:Es.
    { apply startswith_op in Es; [|assumption|assumption]. subst o'.
      rewrite text_eqb_refl in E. discriminate E. }
    change (" "%char :: o' ++ [" "%char]) with (" "%char :: (o' ++ [" "%char])).
    rewrite (@partition_skip " "%char (o' ++ [" "%char]) o (" "%char :: b)
               (op_no_space _ Ho)).
    cbn [partition startswith]. rewrite Ascii.eqb_refl. cbn [andb].
    destruct o' as [|c' o']; [discriminate|].
    pose proof Hb as Hb'. unfold is_atom in Hb'.
    destruct b as [|b0 b]; [discriminate|].
    cbn [nonempty andb forallb] in Hb'. apply andb_true_iff in Hb' as [Hb0 _].
    cbn [forallb] in Ho'. apply andb_true_iff in Ho' as [Hc' _].
    assert (Hne : Ascii.eqb c' b0 = false).
    { destruct (Ascii.eqb c' b0) eqn:E'; [|reflexivity].
      apply Ascii.eqb_eq in E'. subst c'.
      rewrite (@atom_not_op b0 Hb0) in Hc'. discriminate Hc'. }
    cbn [app startswith]. rewrite Hne. cbn [andb].
    rewrite (@partition_absent " "%char (c' :: o' ++ [" "%char]) (b0 :: b)
               (atom_no_space _ Hb)).
    reflexivity.
Qed.

Lemma find_comparison_atom (ops : list text) (a : text) :
  is_atom a = true -> PythonParser.find_comparison ops a = None.
Proof.
  intros Ha. induction ops as [|o ops IH]; [reflexivity|].
  cbn [PythonParser.find_comparison txt list_ascii_of_string app].
  rewrite partition_absent by (apply atom_no_space; exact Ha). exact IH.
Qed.

Lemma find_comparison_spaced (ops : list text) (op a b : text) :
  forallb (fun o => nonempty o && forallb op_char o) ops = true ->
  forallb op_char op = true ->
  is_atom a = true -> is_atom b = true ->
  PythonParser.find_comparison ops (a ++ txt " " ++ op ++ txt " " ++ b)
  = if existsb (text_eqb op) ops then Some (op, (a, b)) else None.
Proof.
  intros Hops Hop Ha Hb. induction ops as [|o ops IH]; [reflexivity|].
  cbn [forallb] in Hops. apply andb_true_iff in Hops as [Ho Hops].
  apply andb_true_iff in Ho as [Hn Ho].
  cbn [PythonParser.find_comparison txt list_ascii_of_string app existsb].
  rewrite (@partition_skip " "%char (o ++ [" "%char]) a
             (" "%char :: op ++ " "%char :: b) (atom_no_space _ Ha)).
  rewrite (@partition_spaced o op b Hn Ho Hop Hb).
  destruct (text_eqb op o) eqn:E.
  - apply text_eqb_spec in E. subst o. rewrite app_nil_r. reflexivity.
  - cbn [orb]. apply IH. exact Hops.
Qed.

Lemma pow_needs_paren (s : text) :
  forallb (is_not "("%char) s = true ->
  re_fullmatch PythonParser.POW_REGEX s = None.
Proof.
  intros H. destruct (re_fullmatch PythonParser.POW_REGEX s) as [m|] eqn:E;
    [|reflexivity].
  apply re_fullmatch_sound in E.
  unfold PythonParser.POW_REGEX in E. expose_regex E. inv_matches.
  rewrite !forallb_app in H. cbn [txt list_ascii_of_string forallb] in H.
  repeat (apply andb_true_iff in H; destruct H as [? H]).
  discriminate.
Qed.

Lemma atom_no_paren a : is_atom a = true -> forallb (is_not "("%char) a = true.
Proof.
  unfold is_atom. intros H. apply andb_true_iff in H as [_ H].
  refine (@forallb_impl atom_char (is_not "("%char) a _ H).
  intros c Hc. unfold is_not. rewrite (@atom_not_paren c Hc). reflexivity.
Qed.

Lemma op_no_paren o : forallb op_char o = true -> forallb (is_not "("%char) o = true.
Proof.
  apply forallb_impl. apply (class_subset op_char (is_not "("%char)). by_chars.
Qed.

Lemma quoted_atom a : is_atom a = true -> PythonParser.quoted a = false.
Proof.
  unfold is_atom. destruct a as [|c a]; [discriminate|].
  cbn [nonempty andb forallb]. intros H. apply andb_true_iff in H as [H _].
  unfold PythonParser.quoted. cbn [startswith].
  rewrite (@atom_not_dq c H), (@atom_not_sq c H). reflexivity.
Qed.

Lemma find_addition_atom a : is_atom a = true -> PythonParser.find_addition a = None.
Proof.
  intros H. unfold PythonParser.find_addition, contains.
  cbn [txt list_ascii_of_string].
  rewrite partition_absent by (apply atom_no_space; exact H). reflexivity.
Qed.

(** An atom is parsed by the rules that do not recurse. *)
Lemma parse_atom_expression a fuel :
  is_atom a = true ->
  PythonParser._parse_expression_fuel (S fuel) a = Some (PythonParser.parse_atom a).
Proof.
  intros H. cbn [PythonParser._parse_expression_fuel].
  rewrite (@strip_atom a H), (@find_comparison_atom _ a H).
  rewrite (@pow_needs_paren a (atom_no_paren _ H)).
  rewrite (@find_addition_atom a H). reflexivity.
Qed.

Lemma number_match m :
  is_unsigned m = true -> re_fullmatch NUMBER_REGEX m = Some [].
Proof.
  unfold is_unsigned. destruct m as [|d m]; [discriminate|].
  cbn [nonempty andb forallb]. intros H. apply andb_true_iff in H as [Hd Hm].
  unfold re_fullmatch, NUMBER_REGEX. cbv [cat lit].
  cbn [rmatch startswith txt list_ascii_of_string].
  rewrite (@digit_not_minus d Hd). cbn [andb orelse]. rewrite Hd.
  apply star_greedy_all; [exact Hm | reflexivity].
Qed.

Lemma parse_atom_unsigned m :
  is_unsigned m = true -> PythonParser.parse_atom m = NumberLiteralNode m.
Proof.
  intros H. unfold PythonParser.parse_atom.
  rewrite (@quoted_atom m (unsigned_is_atom _ H)), (@number_match m H).
  reflexivity.
Qed.

Lemma visit_parse_atom a :
  is_atom a = true -> PythonGenerator.visit (PythonParser.parse_atom a) = Ok a.
Proof.
  intros H. unfold PythonParser.parse_atom. rewrite (@quoted_atom a H).
  destruct (found _); [reflexivity|]. destruct (found _); reflexivity.
Qed.

Lemma comparison_op_chars op :
  existsb (text_eqb op) PythonParser.comparison_ops = true ->
  forallb op_char op = true.
Proof.
  unfold PythonParser.comparison_ops. cbn [existsb].
  repeat match goal with
         | |- context [text_eqb op ?o] =>
             let E := fresh "E" in
             destruct (text_eqb op o) eqn:E;
             [apply text_eqb_spec in E; subst op; reflexivity|]
         end.
  discriminate.
Qed.

Lemma parse_compare_expression op a b fuel :
  existsb (text_eqb op) PythonParser.comparison_ops = true ->
  is_atom a = true -> is_atom b = true ->
  PythonParser._parse_expression_fuel (S (S fuel))
    (a ++ txt " " ++ op ++ txt " " ++ b)
  = Some (ComparisonNode op (PythonParser.parse_atom a) (PythonParser.parse_atom b)).
Proof.
  intros Hop Ha Hb. pose proof (comparison_op_chars _ Hop) as Hoc.
  remember (S fuel) as f eqn:Ef.
  cbn [PythonParser._parse_expression_fuel]. subst f.
  rewrite strip_solid.
  - rewrite (@find_comparison_spaced PythonParser.comparison_ops op a b
               eq_refl Hoc Ha Hb), Hop.
    rewrite (@strip_atom a Ha), (@strip_atom b Hb).
    rewrite (@parse_atom_expression a fuel Ha).
    rewrite (@parse_atom_expression b fuel Hb). reflexivity.
  - apply starts_solid_app, atom_starts_solid, Ha.
  - rewrite !app_assoc. apply ends_solid_app, atom_ends_solid, Hb.
Qed.

Lemma count_absent c s : forallb (is_not c) s = true -> count c s = 0.
Proof.
  unfold count. induction s as [|x s IH]; [reflexivity|].
  cbn [forallb filter]. intros H. apply andb_true_iff in H as [Hx H].
  unfold is_not in Hx. apply negb_true_iff in Hx.
  rewrite Ascii.eqb_sym, Hx. auto.
Qed.

Lemma parse_sum_expression m n fuel :
  is_unsigned m = true -> is_unsigned n = true ->
  PythonParser._parse_expression_fuel (S (S fuel)) (m ++ txt " + " ++ n)
  = Some (MathOpNode (txt "+") (NumberLiteralNode m) (NumberLiteralNode n)).
Proof.
  intros Hm Hn.
  pose proof (unsigned_is_atom _ Hm) as Ham.
  pose proof (unsigned_is_atom _ Hn) as Han.
  remember (S fuel) as f eqn:Ef.
  cbn [PythonParser._parse_expression_fuel]. subst f.
  rewrite strip_solid;
    [| apply starts_solid_app, atom_starts_solid, Ham
     | rewrite !app_assoc; apply ends_solid_app, atom_ends_solid, Han].
  change (m ++ txt " + " ++ n) with (m ++ txt " " ++ txt "+" ++ txt " " ++ n).
  rewrite (@find_comparison_spaced PythonParser.comparison_ops (txt "+") m n
             eq_refl eq_refl Ham Han).
  cbn [existsb text_eqb PythonParser.comparison_ops txt list_ascii_of_string
         Ascii.eqb Bool.eqb andb orb].
  rewrite pow_needs_paren.
  2:{ rewrite forallb_app, (atom_no_paren _ Ham). cbn [app forallb andb].
      rewrite (atom_no_paren _ Han). reflexivity. }
  unfold PythonParser.find_addition, contains.
  cbn [txt list_ascii_of_string app].
  change (" "%char :: "+"%char :: " "%char :: n)
    with ((" "%char :: "+"%char :: [" "%char]) ++ n).
  rewrite (@partition_skip " "%char ["+"%char; " "%char] m _ (atom_no_space _ Ham)).
  rewrite partition_here. rewrite app_nil_r.
  assert (Hp : startswith ["p"%char; "o"%char; "w"%char; "("%char]
                 (m ++ (" "%char :: "+"%char :: [" "%char]) ++ n) = false).
  { unfold is_unsigned in Hm. destruct m as [|d m]; [discriminate|].
    cbn [nonempty andb forallb] in Hm. apply andb_true_iff in Hm as [Hd _].
    cbn [app startswith]. rewrite (@digit_not_p d Hd). reflexivity. }
  rewrite Hp. cbn [negb andb].
  assert (Hq : forall q, (forall c, is_digit c = true -> is_not q c = true) ->
                         count q m = 0).
  { intros q Hq. apply count_absent. unfold is_unsigned in Hm.
    apply andb_true_iff in Hm as [_ Hm].
    exact (@forallb_impl is_digit (is_not q) m Hq Hm). }
  rewrite (Hq dq digit_not_dq), (Hq sq digit_not_sq).
  cbn [Nat.modulo Nat.divmod Nat.eqb negb orb fst snd Nat.sub].
  rewrite (@strip_atom m Ham), (@strip_atom n Han).
  rewrite (@parse_atom_expression m fuel Ham).
  rewrite (@parse_atom_expression n fuel Han).
  rewrite (@parse_atom_unsigned m Hm), (@parse_atom_unsigned n Hn).
  reflexivity.
Qed.

(** *** One line *)

Lemma span_unique (p : ascii -> bool) (u u' : text) c c' t t' :
  forallb p u = true -> forallb p u' = true -> p c = false -> p c' = false ->
  u ++ c :: t = u' ++ c' :: t' -> u = u' /\ c = c' /\ t = t'.
Proof.
  revert u'. induction u as [|x u IH]; intros [|x' u'] Hu Hu' Hc Hc' E;
    cbn [app forallb] in *.
  - injection E as -> ->. auto.
  - injection E as -> _. apply andb_true_iff in Hu' as [Hx _]. congruence.
  - injection E as -> _. apply andb_true_iff in Hu as [Hx _]. congruence.
  - injection E as -> E. apply andb_true_iff in Hu as [_ Hu].
    apply andb_true_iff in Hu' as [_ Hu'].
    destruct (IH u' Hu Hu' Hc Hc' E) as (-> & -> & ->). auto.
Qed.

(** The call pattern does not match an assignment. *)
Lemma function_call_none (x rest : text) :
  is_name x = true ->
  re_match PythonParser.FUNCTION_CALL_REGEX (x ++ " "%char :: "="%char :: rest)
  = None.
Proof.
  intros Hx. unfold is_name in Hx. apply andb_true_iff in Hx as [_ Hx].
  destruct (re_match _ _) as [m|] eqn:E; [exfalso | reflexivity].
  apply re_match_sound in E as (a & s' & E & M).
  unfold PythonParser.FUNCTION_CALL_REGEX in M. expose_regex M. inv_matches.
  rewrite <- !app_assoc in E. cbn [txt list_ascii_of_string app] in E.
  match goal with
  | Hs : forallb is_space ?ws = true, Hw : forallb is_word (?c :: ?w) = true |- _ =>
      destruct ws as [|w0 ws]; cbn [app forallb] in E, Hs;
      [ apply (@span_unique is_word x (c :: w) " "%char "("%char _ _ Hx Hw
                 eq_refl eq_refl) in E;
        destruct E as (_ & E & _); discriminate E
      | apply andb_true_iff in Hs as [Hw0 Hws];
        apply (@span_unique is_word x (c :: w) " "%char w0 _ _ Hx Hw
                 eq_refl (space_not_word _ Hw0)) in E;
        destruct E as (_ & _ & E);
        destruct ws as [|w1 ws]; cbn [app forallb] in E, Hws;
        [ discriminate E | injection E as <- _; discriminate Hws ] ]
  end.
Qed.

Lemma consumed_all (s : text) : consumed s [] = s.
Proof.
  unfold consumed. cbn [List.length]. rewrite Nat.sub_0_r. apply firstn_all.
Qed.

(** The assignment pattern on a name, an equals sign between two spaces and
    a right-hand side. *)
Lemma assignment_match (x rhs : text) :
  is_name x = true -> starts_solid rhs -> forallb is_dot rhs = true ->
  re_match PythonParser.ASSIGNMENT_REGEX (x ++ txt " = " ++ rhs)
  = Some [(2, rhs); (1, x)].
Proof.
  intros Hx (r0 & r & -> & Hr0) Hdot.
  unfold is_name in Hx. destruct x as [|c x]; [discriminate|].
  cbn [nonempty andb forallb] in Hx. apply andb_true_iff in Hx as [Hc Hx].
  cbn [forallb] in Hdot. apply andb_true_iff in Hdot as [Hd0 Hd].
  unfold re_match, PythonParser.ASSIGNMENT_REGEX.
  cbv [cat lit sp word1]. cbn [rmatch app txt list_ascii_of_string]. rewrite Hc.
  apply star_greedy_run; [exact Hx | reflexivity |].
  apply (@star_greedy_run _ is_space [" "%char]); [reflexivity | reflexivity |].
  cbn [startswith skipn List.length]. rewrite Ascii.eqb_refl. cbn [andb].
  apply (@star_greedy_run _ is_space [" "%char]); [reflexivity | exact Hr0 |].
  rewrite Hd0. apply star_greedy_all; [exact Hd|].
  rewrite consumed_all.
  change (c :: x ++ " "%char :: "="%char :: " "%char :: r0 :: r)
    with ((c :: x) ++ " "%char :: "="%char :: " "%char :: r0 :: r).
  rewrite consumed_app. reflexivity.
Qed.

Lemma atom_all_dot a : is_atom a = true -> forallb is_dot a = true.
Proof.
  unfold is_atom. intros H. apply andb_true_iff in H as [_ H].
  exact (@forallb_impl atom_char is_dot a atom_is_dot H).
Qed.

Lemma op_all_dot o : forallb op_char o = true -> forallb is_dot o = true.
Proof. apply forallb_impl. apply (class_subset op_char is_dot). by_chars. Qed.

(** The text right of the equals sign and the node of its value. *)
Lemma parse_right_hand_side (st : assignment) (rhs : text) (value : Node) :
  well_formed st = true ->
  source_line st = fst st ++ txt " = " ++ rhs ->
  node_of st = AssignmentNode (VariableNode (fst st)) value ->
  starts_solid rhs /\ ends_solid rhs /\ forallb is_dot rhs = true
  /\ PythonParser._parse_expression rhs = Some value.
Proof.
  destruct st as [x r]. unfold well_formed, source_line, node_of. cbn [fst snd].
  intros Hwf Hsrc Hnode. apply app_inv_head in Hsrc.
  apply app_inv_head in Hsrc. subst rhs. injection Hnode as <-.
  apply andb_true_iff in Hwf as [_ Hwf].
  unfold PythonParser._parse_expression, PythonParser.expr_fuel.
  destruct r as [a | op a b | m n].
  - repeat split.
    + apply atom_starts_solid, Hwf.
    + apply atom_ends_solid, Hwf.
    + apply atom_all_dot, Hwf.
    + apply parse_atom_expression, Hwf.
  - apply andb_true_iff in Hwf as [Hwf Hb]. apply andb_true_iff in Hwf as [Hop Ha].
    pose proof (comparison_op_chars _ Hop) as Hoc.
    repeat split.
    + apply starts_solid_app, atom_starts_solid, Ha.
    + rewrite !app_assoc. apply ends_solid_app, atom_ends_solid, Hb.
    + rewrite !forallb_app, (atom_all_dot _ Ha), (atom_all_dot _ Hb),
        (op_all_dot _ Hoc). reflexivity.
    + destruct a as [|a0 a]; [discriminate|]. cbn [app List.length].
      apply (@parse_compare_expression op (a0 :: a) b); assumption.
  - apply andb_true_iff in Hwf as [Hm Hn].
    pose proof (unsigned_is_atom _ Hm) as Ham.
    pose proof (unsigned_is_atom _ Hn) as Han.
    repeat split.
    + apply starts_solid_app, atom_starts_solid, Ham.
    + rewrite !app_assoc. apply ends_solid_app, atom_ends_solid, Han.
    + rewrite !forallb_app, (atom_all_dot _ Ham), (atom_all_dot _ Han).
      reflexivity.
    + destruct m as [|m0 m]; [discriminate|]. cbn [app List.length].
      apply (@parse_sum_expression (m0 :: m) n); assumption.
Qed.

(** The value of a well-formed statement, whatever it is. *)
Lemma node_of_value (st : assignment) :
  exists rhs value,
    source_line st = fst st ++ txt " = " ++ rhs
    /\ node_of st = AssignmentNode (VariableNode (fst st)) value.
Proof. destruct st as [x r]. unfold source_line, node_of. eauto. Qed.

Lemma source_line_shape (st : assignment) :
  well_formed st = true ->
  starts_solid (source_line st) /\ ends_solid (source_line st)
  /\ forallb (is_not nl) (source_line st) = true.
Proof.
  intros Hwf. destruct (node_of_value st) as (rhs & value & Hsrc & Hnode).
  destruct (@parse_right_hand_side st rhs value Hwf Hsrc Hnode) as (Hs & He & Hd & _).
  assert (Hx : is_name (fst st) = true).
  { unfold well_formed in Hwf. apply andb_true_iff in Hwf. tauto. }
  rewrite Hsrc. repeat split.
  - apply starts_solid_app, atom_starts_solid, name_is_atom, Hx.
  - rewrite app_assoc. apply ends_solid_app, He.
  - change (is_not nl) with is_dot.
    rewrite !forallb_app, Hd, (atom_all_dot _ (name_is_atom _ Hx)). reflexivity.
Qed.


Lemma visit_node_of (st : assignment) :
  well_formed st = true ->
  PythonGenerator.visit (node_of st) = Ok (parenthesized_line st).
Proof.
  destruct st as [x r]. unfold well_formed, node_of, parenthesized_line.
  cbn [fst snd]. intros Hwf. apply andb_true_iff in Hwf as [_ Hwf].
  destruct r as [a | op a b | m n]; cbn [PythonGenerator.visit].
  - rewrite (@visit_parse_atom a Hwf). reflexivity.
  - apply andb_true_iff in Hwf as [Hwf Hb]. apply andb_true_iff in Hwf as [_ Ha].
    rewrite (@visit_parse_atom a Ha), (@visit_parse_atom b Hb).
    cbn [txt list_ascii_of_string app]. rewrite <- ?app_assoc. reflexivity.
  - cbn [txt list_ascii_of_string app]. rewrite <- ?app_assoc. reflexivity.
Qed.

(** *** The whole program *)



Lemma split_join (c : ascii) (l : text) (ls : list text) :
  forallb (forallb (is_not c)) (l :: ls) = true ->
  split_char c (join [c] (l :: ls)) = l :: ls.
Proof.
  revert l. induction ls as [|l2 ls IH]; intros l H.
  - cbn [join]. apply split_char_absent. cbn [forallb] in H.
    apply andb_true_iff in H. tauto.
  - cbn [forallb] in H. apply andb_true_iff in H as [Hl H].
    change (join [c] (l :: l2 :: ls)) with (l ++ c :: join [c] (l2 :: ls)).
    rewrite (@split_char_app c l _ Hl). f_equal. apply IH. exact H.
Qed.



End RoundTripFacts.

(** * The claims *)

(** ** C1: parsing Python and rendering it again *)

(** A print statement matches the call pattern, which is tried first, and
    comes back as the header of a function definition. *)
Lemma print_statement_round_trip :
  PythonParser.parse_python (txt "print(x)")
  = ProgramNode [FunctionNode (txt "print") [txt "x"] []]
  /\ PythonGenerator.visit (PythonParser.parse_python (txt "print(x)"))
     = Ok (txt "def print(x):" ++ [nl]).
Proof. split; vm_compute; reflexivity. Qed.




(** ** C2: counted loops *)

(** The arguments that [visit_ForLoopNode] finds in a descriptor. *)
Lemma range_args (start end_ step : text) :
  forallb (is_not ","%char) start = true ->
  forallb (is_not ","%char) end_ = true ->
  forallb (is_not ","%char) step = true ->
  split_char ","%char
    (slice_6_m1 (txt "range(" ++ start ++ txt ", " ++ end_ ++ txt ", " ++ step
                 ++ txt ")"))
  = [start; " "%char :: end_; " "%char :: step].
Proof.
  intros Hs He Hk. unfold slice_6_m1. cbn [txt list_ascii_of_string app skipn].
  replace (start ++ ","%char :: " "%char :: end_ ++ ","%char :: " "%char :: step
           ++ [")"%char])
    with ((start ++ ","%char :: " "%char :: end_ ++ ","%char :: " "%char :: step)
          ++ [")"%char])
    by (rewrite <- !app_assoc; cbn [app]; rewrite <- !app_assoc; reflexivity).
  rewrite removelast_last.
  rewrite (@split_char_app ","%char start _ Hs).
  change (" "%char :: end_ ++ ","%char :: " "%char :: step)
    with ((" "%char :: end_) ++ ","%char :: " "%char :: step).
  rewrite split_char_app by (cbn [forallb]; rewrite He; reflexivity).
  rewrite MatchFacts.split_char_absent
    by (cbn [forallb]; rewrite Hk; reflexivity).
  reflexivity.
Qed.




(** ** C3: the canonical triple of a counted loop *)

(** C3.  The code at the inputs where it leaves the claim.  With the
    comparison [>] the start and the end are swapped, but the sign of the
    step is not inverted: the [step_val] that the swap branch assigns for
    [++] and [--] is never read, and the step stays 1 for [++] and -1 for
    [--].  A header with [<=] never yields the end plus one: the loop
    pattern tries [<] before [<=] and lets the end begin with the equals
    sign, so the operator that reaches the conversion is [<]. *)
Theorem C3_triple_at_failing_inputs :
  CppParser._convert_cpp_for_to_range (txt "10") (txt "0") (txt ">") (txt "--") []
    = Some (txt "range(0, 10, -1)")
  /\ CppParser._convert_cpp_for_to_range (txt "10") (txt "0") (txt ">") (txt "++") []
    = Some (txt "range(0, 10, 1)")
  /\ JavaParser._convert_java_for_to_range (txt "10") (txt "0") (txt ">") (txt "--") []
    = Some (txt "range(0, 10, -1)")
  /\ JavaParser._convert_java_for_to_range (txt "10") (txt "0") (txt ">") (txt "++") []
    = Some (txt "range(0, 10, 1)")
  /\ CppParser.parse_cpp (txt "for (int i = 0; i <= 5; i++) {")
    = ProgramNode [ForLoopNode (txt "i") (inl (txt "range(0, = 5, 1)")) []]
  /\ JavaParser.parse_java (txt "for (int i = 0; i <= 5; i++) {")
    = ProgramNode [ForLoopNode (txt "i") (inl (txt "range(0, = 5, 1)")) []].
Proof. repeat split; vm_compute; reflexivity. Qed.

(** The parts of the rule that the conversion function does implement:
    [<=] adds one to the end, [>] swaps start and end, [<] and [>=] change
    nothing, and the four step operators give 1, -1, K and -K. *)
Lemma convert_cpp_for_to_range_rules (start end_ K : text) :
  let s := strip start in
  let e := strip end_ in
  let range x y z :=
    Some (txt "range(" ++ x ++ txt ", " ++ y ++ txt ", " ++ z ++ txt ")") in
  CppParser._convert_cpp_for_to_range start end_ (txt "<=") (txt "++") K
    = range s (e ++ txt " + 1") (txt "1")
  /\ CppParser._convert_cpp_for_to_range start end_ (txt ">") (txt "+=") K
    = range e s K
  /\ CppParser._convert_cpp_for_to_range start end_ (txt "<") (txt "++") K
    = range s e (txt "1")
  /\ CppParser._convert_cpp_for_to_range start end_ (txt "<") (txt "--") K
    = range s e (txt "-1")
  /\ CppParser._convert_cpp_for_to_range start end_ (txt "<") (txt "+=") K
    = range s e K
  /\ CppParser._convert_cpp_for_to_range start end_ (txt ">=") (txt "-=") K
    = range s e (txt "-" ++ K).
Proof. repeat split. Qed.

(** ** C4: rendering dispatch *)



(** ** C5, C7: the language keys of [convert_code] *)
Section Keys.
Import Main.
Variable JavaParser_parse_java : text -> Node.
Variable CppGenerator_visit : Node -> text.
Variable JsGenerator_visit : Node -> text.

Let convert :=
  convert_code JavaParser_parse_java CppGenerator_visit JsGenerator_visit.

Lemma source_key_cases (k : text) :
  In k source_keys \/
  (text_eqb k (txt "python") = false /\ text_eqb k (txt "java") = false
   /\ text_eqb k (txt "cpp") = false).
Proof.
  unfold source_keys. simpl.
  destruct (text_eqb k (txt "python")) eqn:E1;
    [apply text_eqb_spec in E1; auto|].
  destruct (text_eqb k (txt "java")) eqn:E2;
    [apply text_eqb_spec in E2; auto|].
  destruct (text_eqb k (txt "cpp")) eqn:E3;
    [apply text_eqb_spec in E3; auto 6|].
  auto.
Qed.

Lemma target_key_cases (k : text) :
  In k target_keys \/
  (text_eqb k (txt "python") = false /\ text_eqb k (txt "java") = false
   /\ text_eqb k (txt "cpp") = false /\ text_eqb k (txt "javascript") = false).
Proof.
  unfold target_keys. simpl.
  destruct (text_eqb k (txt "python")) eqn:E1;
    [apply text_eqb_spec in E1; auto|].
  destruct (text_eqb k (txt "java")) eqn:E2;
    [apply text_eqb_spec in E2; auto|].
  destruct (text_eqb k (txt "cpp")) eqn:E3;
    [apply text_eqb_spec in E3; auto 6|].
  destruct (text_eqb k (txt "javascript")) eqn:E4;
    [apply text_eqb_spec in E4; auto 7|].
  auto.
Qed.

Ltac split_on_keys src tgt :=
  destruct (text_eqb src (txt "python")) eqn:?S1;
  [| destruct (text_eqb src (txt "java")) eqn:?S2;
     [| destruct (text_eqb src (txt "cpp")) eqn:?S3]];
  (destruct (text_eqb tgt (txt "python")) eqn:?T1;
   [| destruct (text_eqb tgt (txt "java")) eqn:?T2;
      [| destruct (text_eqb tgt (txt "cpp")) eqn:?T3;
         [| destruct (text_eqb tgt (txt "javascript")) eqn:?T4]]]).

Ltac key_facts :=
  repeat match goal with
         | H : text_eqb _ _ = true |- _ => apply text_eqb_spec in H; subst
         end.

(** What [convert_code] does, by the keys it is given: with an
    unregistered source key it raises at once; with a registered one it
    parses, and then either raises for the target key or calls the
    generator. *)
Lemma convert_code_by_keys (source_code source_lang target_lang : text) :
  let r := convert source_code source_lang target_lang in
  (~ In source_lang source_keys ->
     r = ([], Raise (ValueError (txt "Unsupported source language: "
                                 ++ source_lang))))
  /\ (In source_lang source_keys -> ~ In target_lang target_keys ->
     r = ([Parse source_lang],
          Raise (ValueError (txt "Unsupported target language: "
                             ++ target_lang))))
  /\ (In source_lang source_keys -> In target_lang target_keys ->
     fst r = [Parse source_lang; Visit target_lang]).
Proof.
  unfold convert, convert_code, bind, calling, ret, raise.
  unfold source_keys, target_keys.
  split_on_keys source_lang target_lang; key_facts;
    (split; [|split]); intros; try reflexivity;
    try (exfalso; simpl in *; tauto);
    exfalso;
    repeat match goal with
           | H : In _ _ |- _ => simpl in H; decompose [or] H; clear H
           | H : text_eqb ?a ?b = false |- _ =>
               assert (a <> b) by (intros ->; rewrite text_eqb_refl in H;
                                   discriminate); clear H
           end; subst; try contradiction; try congruence.
Qed.

(** C5, amended.  When either key is unregistered, [convert_code] raises
    the unsupported-language error, calls no generator and returns no text.
    With an unregistered source key it calls no parser either; with a
    registered source key and an unregistered target key it has parsed the
    source by the time it raises. *)
Theorem C5_unknown_key_fails_without_output
  (source_code source_lang target_lang : text) :
  ~ In source_lang source_keys \/ ~ In target_lang target_keys ->
  let r := convert source_code source_lang target_lang in
  (exists msg, snd r = Raise (ValueError msg))
  /\ (forall t, ~ In (Visit t) (fst r))
  /\ (~ In source_lang source_keys -> fst r = [])
  /\ (In source_lang source_keys -> fst r = [Parse source_lang]).
Proof.
  intros H r.
  destruct (convert_code_by_keys source_code source_lang target_lang)
    as (Hs & Ht & _). fold r in Hs, Ht.
  destruct (source_key_cases source_lang) as [Hin | (E1 & E2 & E3)].
  - assert (Hnt : ~ In target_lang target_keys) by tauto.
    rewrite (Ht Hin Hnt). simpl. repeat split.
    + eexists; reflexivity.
    + intros t [Ht' | []]; discriminate Ht'.
    + intros Hn; contradiction.
  - assert (Hns : ~ In source_lang source_keys).
    { unfold source_keys; simpl. intros [<- | [<- | [<- | []]]].
      - rewrite text_eqb_refl in E1; discriminate.
      - rewrite text_eqb_refl in E2; discriminate.
      - rewrite text_eqb_refl in E3; discriminate. }
    rewrite (Hs Hns). simpl. repeat split.
    + eexists; reflexivity.
    + intros t [].
    + intros Hin; contradiction.
Qed.

(** C7.  Every key of the source chain is a key of the target chain, and
    with a key of each chain both the parser and the generator are called.
    The key javascript is a target only: as the target it gives the text
    of [JsGenerator], as the source it raises the unsupported-language
    error before anything is called. *)
Theorem C7_javascript_is_target_only (source_code : text) :
  (forall k, In k source_keys -> In k target_keys)
  /\ (forall src tgt, In src source_keys -> In tgt target_keys ->
        fst (convert source_code src tgt) = [Parse src; Visit tgt])
  /\ (forall src, In src source_keys ->
        exists ast,
          convert source_code src (txt "javascript")
          = ([Parse src; Visit (txt "javascript")], Ok (JsGenerator_visit ast)))
  /\ (forall tgt,
        convert source_code (txt "javascript") tgt
        = ([], Raise (ValueError (txt "Unsupported source language: javascript")))).
Proof.
  split; [|split; [|split]].
  - unfold source_keys, target_keys. simpl. tauto.
  - intros src tgt Hs Ht.
    apply (convert_code_by_keys source_code src tgt); assumption.
  - unfold source_keys. simpl.
    intros src [<- | [<- | [<- | []]]]; eexists; reflexivity.
  - intros tgt. reflexivity.
Qed.

End Keys.

(** C5, as stated, fails: with a registered source key and an unknown
    target key the source is parsed before the error is raised. *)
Lemma C5_target_key_checked_after_parsing :
  ~ (forall (java_parse : text -> Node) (cpp_visit js_visit : Node -> text)
            (source_code source_lang target_lang : text),
        ~ In source_lang Main.source_keys \/ ~ In target_lang Main.target_keys ->
        fst (Main.convert_code java_parse cpp_visit js_visit
               source_code source_lang target_lang) = []).
Proof.
  intros H.
  specialize (H (fun _ => ProgramNode []) (fun _ => []) (fun _ => [])
                (txt "x = 1") (txt "python") (txt "klingon")).
  assert (Hk : ~ In (txt "klingon") Main.target_keys).
  { unfold Main.target_keys. simpl.
    intros [E | [E | [E | [E | []]]]]; discriminate E. }
  specialize (H (or_intror Hk)). discriminate H.
Qed.

Lemma C5_unknown_key_fails_without_output_witness :
  let r := Main.convert_code (fun _ => ProgramNode []) (fun _ => [])
             (fun _ => []) (txt "x = 1") (txt "python") (txt "klingon") in
  (exists msg, snd r = Raise (ValueError msg))
  /\ (forall t, ~ In (Main.Visit t) (fst r))
  /\ (~ In (txt "python") Main.source_keys -> fst r = [])
  /\ (In (txt "python") Main.source_keys -> fst r = [Main.Parse (txt "python")]).
Proof.
  apply (@C5_unknown_key_fails_without_output
           (fun _ => ProgramNode []) (fun _ => []) (fun _ => [])
           (txt "x = 1") (txt "python") (txt "klingon")).
  right. unfold Main.target_keys. simpl.
  intros [E | [E | [E | [E | []]]]]; discriminate E.
Defined.

Lemma C7_javascript_is_target_only_witness :
  Main.convert_code (fun _ => ProgramNode []) (fun _ => []) (fun _ => txt "js")
    (txt "x = 1") (txt "cpp") (txt "javascript")
  = ([Main.Parse (txt "cpp"); Main.Visit (txt "javascript")], Ok (txt "js")).
Proof.
  destruct (@C7_javascript_is_target_only (fun _ => ProgramNode [])
              (fun _ => []) (fun _ => txt "js") (txt "x = 1"))
    as (_ & _ & H & _).
  destruct (H (txt "cpp")) as [ast Hast].
  - unfold Main.source_keys. simpl. auto.
  - rewrite Hast. reflexivity.
Defined.

(** ** C6: parsing returns, and what it does with what it does not know *)





(** ** C8: empty and blank sources *)

(** C8.  For a source text of whitespace only, each parser returns (the
    fuel does not run out) a Program with no statements; the generators
    render that Program, [PythonGenerator] and [BaseGenerator] as the
    empty text and [JavaGenerator] as the empty class. *)
Theorem C8_blank_source_gives_empty_program (code : text) :
  forallb is_space code = true ->
  PythonParser.parse_python_fuel (PythonParser.parse_fuel code) code
    = Some (ProgramNode [])
  /\ JavaParser.parse_java_fuel (JavaParser.parse_fuel code) code
    = Some (ProgramNode [])
  /\ CppParser.parse_cpp_fuel (CppParser.parse_fuel code) code
    = Some (ProgramNode [])
  /\ PythonParser.parse_python code = ProgramNode []
  /\ JavaParser.parse_java code = ProgramNode []
  /\ CppParser.parse_cpp code = ProgramNode []
  /\ PythonGenerator.visit (ProgramNode []) = Ok []
  /\ render BaseGenerator (ProgramNode []) = []
  /\ render JavaGenerator (ProgramNode [])
     = txt "public class ConvertedCode {" ++ [nl; nl] ++ txt "}".
Proof.
  intros H.
  assert (Hp : PythonParser.parse_python_fuel (PythonParser.parse_fuel code) code
               = Some (ProgramNode [])).
  { unfold PythonParser.parse_fuel. cbn [PythonParser.parse_python_fuel].
    rewrite (strip_all_space _ H). reflexivity. }
  assert (Hj : JavaParser.parse_java_fuel (JavaParser.parse_fuel code) code
               = Some (ProgramNode [])).
  { unfold JavaParser.parse_fuel. cbn [JavaParser.parse_java_fuel].
    rewrite (strip_all_space _ H). reflexivity. }
  assert (Hc : CppParser.parse_cpp_fuel (CppParser.parse_fuel code) code
               = Some (ProgramNode [])).
  { unfold CppParser.parse_fuel. cbn [CppParser.parse_cpp_fuel].
    rewrite (strip_all_space _ H). reflexivity. }
  unfold PythonParser.parse_python, JavaParser.parse_java, CppParser.parse_cpp.
  rewrite Hp, Hj, Hc. repeat split.
Qed.

Lemma C8_blank_source_gives_empty_program_witness :
  PythonParser.parse_python [" "%char; nl; tab] = ProgramNode []
  /\ render JavaGenerator (CppParser.parse_cpp [" "%char; nl; tab])
     = txt "public class ConvertedCode {" ++ [nl; nl] ++ txt "}".
Proof.
  destruct (@C8_blank_source_gives_empty_program [" "%char; nl; tab] eq_refl)
    as (_ & _ & _ & Hp & _ & Hc & _ & _ & Hj).
  rewrite Hp, Hc. split; [reflexivity | exact Hj].
Defined.

(** ** C9: string literals *)





(** The order of the replacements shows when a backslash is escaped: the
    interior [a\\nb] stands for a, backslash, n, b, and the replacements
    give a, backslash, newline, b. *)
Lemma parse_string_literal_escaped_backslash :
  let interior := txt "a" ++ [bs; bs] ++ txt "nb" in
  CppParser._parse_string_literal (dq :: interior ++ [dq])
  = txt "a" ++ [bs; nl] ++ txt "b"
  /\ Reference.unescape interior = txt "a" ++ [bs] ++ txt "nb".
Proof. split; vm_compute; reflexivity. Qed.



(** ** C10: a line that begins like a call *)




(** * The trees that the parsers build *)
Module ShapeFacts.
Import ReFacts ParserFacts MatchFacts Trees.

(** Induction on a tree, with the property at hand for the nodes of every
    list below it. *)
Lemma node_induction (P : Node -> Prop) :
  (forall l, Forall P l -> P (ProgramNode l)) ->
  (forall name args body, Forall P body -> P (FunctionNode name args body)) ->
  (forall e, P e -> P (PrintNode e)) ->
  (forall op l r, P l -> P r -> P (MathOpNode op l r)) ->
  (forall name, P (VariableNode name)) ->
  (forall value, P (StringLiteralNode value)) ->
  (forall value, P (NumberLiteralNode value)) ->
  (forall b e, P b -> P e -> P (PowerNode b e)) ->
  (forall it s body, Forall P body -> P (ForLoopNode it (inl s) body)) ->
  (forall it n body, P n -> Forall P body -> P (ForLoopNode it (inr n) body)) ->
  (forall c body, P c -> Forall P body -> P (WhileLoopNode c body)) ->
  (forall op l r, P l -> P r -> P (ComparisonNode op l r)) ->
  (forall t v, P t -> P v -> P (AssignmentNode t v)) ->
  (forall name args, Forall P args -> P (FunctionCallNode name args)) ->
  P PlainNode ->
  forall n, P n.
Proof.
  intros HProgram HFunction HPrint HMath HVar HStr HNum HPow HForS HForN HWhile
    HCmp HAssign HCall HPlain.
  fix IH 1. intros n.
  assert (IHs : forall l, Forall P l).
  { fix IHl 1. intros [|x l]; [constructor | constructor; [apply IH | apply IHl]]. }
  destruct n as [l | name args body | e | op l r | name | value | value | b e
                | it [s|n] body | c body | op l r | t v | name args |].
  - apply HProgram, IHs.
  - apply HFunction, IHs.
  - apply HPrint, IH.
  - apply HMath; apply IH.
  - apply HVar.
  - apply HStr.
  - apply HNum.
  - apply HPow; apply IH.
  - apply HForS, IHs.
  - apply HForN; [apply IH | apply IHs].
  - apply HWhile; [apply IH | apply IHs].
  - apply HCmp; apply IH.
  - apply HAssign; apply IH.
  - apply HCall, IHs.
  - apply HPlain.
Qed.

Lemma endswith_app (p a : text) : endswith p (a ++ p) = true.
Proof. unfold endswith. rewrite rev_app_distr. apply startswith_app. Qed.

(** ** The expressions *)

Lemma py_parse_atom_shape (s : text) :
  is_expression (PythonParser.parse_atom s) = true.
Proof.
  unfold PythonParser.parse_atom.
  destruct (PythonParser.quoted s); [reflexivity|].
  destruct (found _); [reflexivity|]. destruct (found _); reflexivity.
Qed.

Lemma py_find_comparison_op ops s op parts :
  PythonParser.find_comparison ops s = Some (op, parts) ->
  existsb (text_eqb op) ops = true.
Proof.
  induction ops as [|o ops IH]; simpl; [discriminate|].
  destruct (partition _ s).
  - intros [= <- <-]. rewrite text_eqb_refl. reflexivity.
  - intros H. rewrite (IH H). apply orb_true_r.
Qed.

Lemma py_expression_shape (fuel : nat) :
  forall s n, PythonParser._parse_expression_fuel fuel s = Some n ->
              is_expression n = true.
Proof.
  induction fuel as [|fuel IH]; intros s n; [discriminate|].
  cbn [PythonParser._parse_expression_fuel].
  destruct (PythonParser.find_comparison _ _) as [[op [p0 p1]]|] eqn:Ec.
  - destruct (PythonParser._parse_expression_fuel fuel (strip p0)) eqn:E0;
      [|discriminate].
    destruct (PythonParser._parse_expression_fuel fuel (strip p1)) eqn:E1;
      [|discriminate].
    intros [= <-]. cbn [is_expression].
    rewrite (py_find_comparison_op _ _ Ec), (IH _ _ E0), (IH _ _ E1). reflexivity.
  - destruct (re_fullmatch _ _) as [m|].
    + destruct (PythonParser._parse_expression_fuel fuel (strip (group 1 m))) eqn:E0;
        [|discriminate].
      destruct (PythonParser._parse_expression_fuel fuel (strip (group 2 m))) eqn:E1;
        [|discriminate].
      intros [= <-]. cbn [is_expression]. rewrite (IH _ _ E0), (IH _ _ E1).
      reflexivity.
    + destruct (PythonParser.find_addition _) as [[p0 p1]|].
      * destruct (PythonParser._parse_expression_fuel fuel (strip p0)) eqn:E0;
          [|discriminate].
        destruct (PythonParser._parse_expression_fuel fuel (strip p1)) eqn:E1;
          [|discriminate].
        intros [= <-]. cbn [is_expression]. rewrite (IH _ _ E0), (IH _ _ E1).
        reflexivity.
      * intros [= <-]. apply py_parse_atom_shape.
Qed.



Lemma first_closing (body tail : text) :
  forallb is_dot body = true ->
  exists args rest,
    body ++ ")"%char :: tail = args ++ ")"%char :: rest
    /\ forallb (fun c => is_not ")"%char c && is_dot c) args = true.
Proof.
  induction body as [|c body IH]; intros H.
  - exists [], tail. split; reflexivity.
  - cbn [forallb] in H. apply andb_true_iff in H as [Hc H].
    destruct (Ascii.eqb c ")"%char) eqn:E.
    + apply Ascii.eqb_eq in E. subst c.
      exists [], (body ++ ")"%char :: tail). split; reflexivity.
    + destruct (IH H) as (args & rest & Heq & Hargs).
      exists (c :: args), rest. cbn [app forallb]. rewrite Heq, Hargs, Hc.
      unfold is_not. rewrite E. split; reflexivity.
Qed.

(** A line that the print pattern matches is matched by the call pattern,
    which [parse_python] tries first. *)
Lemma print_line_is_call (line : text) (m : groups) :
  re_match PythonParser.PRINT_REGEX line = Some m ->
  exists m', re_match PythonParser.FUNCTION_CALL_REGEX line = Some m'.
Proof.
  intros H. apply re_match_sound in H as (a & s' & -> & M).
  unfold PythonParser.PRINT_REGEX in M. expose_regex M. inv_matches.
  destruct (@first_closing a2 s' H1) as (args & rest & Heq & Hargs).
  match goal with
  | |- context [re_match _ ?l] =>
      replace l with (txt "print" ++ a ++ "("%char :: args ++ ")"%char :: rest)
  end.
  2:{ rewrite <- Heq, <- ?app_assoc. cbn [app txt list_ascii_of_string].
      rewrite <- ?app_assoc. reflexivity. }
  rewrite (@function_call_match (txt "print") a args rest eq_refl H0 Hargs).
  eauto.
Qed.


(** ** The statements *)

Ltac bound H :=
  match goal with
  | |- match ?c with Some _ => _ | None => None end = Some _ -> _ =>
      destruct c eqn:H; [|discriminate]
  end.

Ltac block E :=
  match goal with
  | |- context [let '(_, _) := ?b in _] => destruct b as [? ?] eqn:E
  end.

Lemma py_parse_loop_shape (parse : text -> option Node) :
  (forall c p, parse c = Some p ->
               forallb (is_statement true) (statements p) = true) ->
  forall n lines stmts,
    PythonParser.parse_loop parse n lines = Some stmts ->
    forallb (is_statement true) stmts = true.
Proof.
  intros Hparse. induction n as [|n IH]; intros [|raw rest] stmts;
    try (intros [= <-]; reflexivity); try discriminate.
  cbn [PythonParser.parse_loop].
  destruct (_ || _); [apply IH|].
  destruct (re_match PythonParser.FUNCTION_CALL_REGEX _) as [m|] eqn:Ecall.
  { bound E. intros [= <-]. cbn [forallb is_statement]. apply (IH _ _ E). }
  destruct (re_match PythonParser.ASSIGNMENT_REGEX _) as [m|].
  { bound Ev. bound E. intros [= <-]. cbn [forallb is_statement].
    rewrite (py_expression_shape _ _ Ev), (IH _ _ E). reflexivity. }
  destruct (re_match PythonParser.FUNC_DEF_REGEX _) as [m|].
  { block Eb. bound Ep. bound E. intros [= <-]. cbn [forallb is_statement].
    rewrite (Hparse _ _ Ep), (IH _ _ E). reflexivity. }
  destruct (re_match PythonParser.FOR_LOOP_REGEX _) as [m|].
  { bound Ev. block Eb. bound Ep. bound E. intros [= <-].
    cbn [forallb is_statement andb].
    rewrite (py_expression_shape _ _ Ev), (Hparse _ _ Ep), (IH _ _ E).
    reflexivity. }
  destruct (re_match PythonParser.WHILE_LOOP_REGEX _) as [m|].
  { bound Ev. block Eb. bound Ep. bound E. intros [= <-].
    cbn [forallb is_statement].
    rewrite (py_expression_shape _ _ Ev), (Hparse _ _ Ep), (IH _ _ E).
    reflexivity. }
  destruct (re_match PythonParser.PRINT_REGEX _) as [m|] eqn:Eprint; [|apply IH].
  apply print_line_is_call in Eprint as [m' Em']. congruence.
Qed.

Lemma py_parse_fuel_shape (fuel : nat) :
  forall code p, PythonParser.parse_python_fuel fuel code = Some p ->
                 forallb (is_statement true) (statements p) = true.
Proof.
  induction fuel as [|fuel IH]; intros code p; [discriminate|].
  cbn [PythonParser.parse_python_fuel]. bound E. intros [= <-].
  cbn [statements]. exact (py_parse_loop_shape _ IH _ _ E).
Qed.

Lemma py_parse_shape (code : text) :
  exists stmts, PythonParser.parse_python code = ProgramNode stmts
                /\ forallb (is_statement true) stmts = true.
Proof.
  unfold PythonParser.parse_python.
  destruct (@py_parse_fuel_total (PythonParser.parse_fuel code) code)
    as [stmts E]; [unfold PythonParser.parse_fuel; lia|].
  rewrite E. exists stmts. split; [reflexivity|].
  exact (py_parse_fuel_shape _ _ E).
Qed.



(** ** The brace-language parsers *)

Lemma cpp_parse_atom_shape (s : text) :
  is_expression (CppParser.parse_atom s) = true.
Proof.
  unfold CppParser.parse_atom.
  destruct (CppParser.quoted s); [reflexivity|].
  destruct (found _); [reflexivity|]. destruct (found _); reflexivity.
Qed.

Lemma cpp_find_comparison_op ops s op parts :
  CppParser.find_comparison ops s = Some (op, parts) ->
  existsb (text_eqb op) ops = true.
Proof.
  induction ops as [|o ops IH]; simpl; [discriminate|].
  destruct (partition _ s).
  - intros [= <- <-]. rewrite text_eqb_refl. reflexivity.
  - intros H. rewrite (IH H). apply orb_true_r.
Qed.

Lemma cpp_expression_shape (fuel : nat) :
  forall s n, CppParser._parse_expression_fuel fuel s = Some n ->
              is_expression n = true.
Proof.
  induction fuel as [|fuel IH]; intros s n; [discriminate|].
  cbn [CppParser._parse_expression_fuel].
  destruct (CppParser.find_comparison _ _) as [[op [p0 p1]]|] eqn:Ec.
  - destruct (CppParser._parse_expression_fuel fuel (strip p0)) eqn:E0;
      [|discriminate].
    destruct (CppParser._parse_expression_fuel fuel (strip p1)) eqn:E1;
      [|discriminate].
    intros [= <-]. cbn [is_expression].
    change PythonParser.comparison_ops with CppParser.comparison_ops.
    rewrite (cpp_find_comparison_op _ _ Ec), (IH _ _ E0), (IH _ _ E1). reflexivity.
  - destruct (re_fullmatch _ _) as [m|].
    + destruct (CppParser._parse_expression_fuel fuel (strip (group 1 m))) eqn:E0;
        [|discriminate].
      destruct (CppParser._parse_expression_fuel fuel (strip (group 2 m))) eqn:E1;
        [|discriminate].
      intros [= <-]. cbn [is_expression]. rewrite (IH _ _ E0), (IH _ _ E1).
      reflexivity.
    + destruct (CppParser.find_addition _) as [[p0 p1]|].
      * destruct (CppParser._parse_expression_fuel fuel (strip p0)) eqn:E0;
          [|discriminate].
        destruct (CppParser._parse_expression_fuel fuel (strip p1)) eqn:E1;
          [|discriminate].
        intros [= <-]. cbn [is_expression]. rewrite (IH _ _ E0), (IH _ _ E1).
        reflexivity.
      * intros [= <-]. apply cpp_parse_atom_shape.
Qed.

(** What the conversion of a loop header returns is the text of a range
    call. *)
Lemma cpp_range_shape (start end_ operator step_op step_val it : text) :
  CppParser._convert_cpp_for_to_range start end_ operator step_op step_val
  = Some it ->
  startswith (txt "range(") it && endswith (txt ")") it = true.
Proof.
  unfold CppParser._convert_cpp_for_to_range.
  destruct (text_eqb operator (txt "<="));
    [|destruct (text_eqb operator (txt ">"))];
    (bound E;
     match goal with
     | |- Some ?x = Some _ -> _ =>
         let H := fresh in
         let Hx := fresh in
         intros H; assert (Hx : x = it) by congruence; rewrite <- Hx
     end;
     apply andb_true_iff; split;
     [apply startswith_app | rewrite !app_assoc; apply endswith_app]).
Qed.

Lemma cpp_parse_loop_shape (parse : text -> option Node) :
  (forall c p, parse c = Some p ->
               forallb (is_statement false) (statements p) = true) ->
  forall n lines stmts,
    CppParser.parse_loop parse n lines = Some stmts ->
    forallb (is_statement false) stmts = true.
Proof.
  intros Hparse. induction n as [|n IH]; intros [|raw rest] stmts;
    try (intros [= <-]; reflexivity); try discriminate.
  cbn [CppParser.parse_loop].
  destruct (_ || _); [apply IH|].
  destruct (_ || _); [apply IH|].
  destruct (re_match CppParser.ASSIGNMENT_REGEX _) as [m|].
  { bound Ev. bound E. intros [= <-]. cbn [forallb is_statement].
    rewrite (cpp_expression_shape _ _ Ev), (IH _ _ E). reflexivity. }
  destruct (re_match CppParser.FUNC_DEF_REGEX _) as [m|].
  { block Eb. bound Ep. bound E. intros [= <-]. cbn [forallb is_statement].
    rewrite (Hparse _ _ Ep), (IH _ _ E). reflexivity. }
  destruct (re_match CppParser.FOR_LOOP_REGEX _) as [m|].
  { bound Ev. block Eb. bound Ep. bound E. intros [= <-].
    cbn [forallb is_statement negb andb].
    apply cpp_range_shape in Ev. apply andb_true_iff in Ev as [-> ->].
    rewrite (Hparse _ _ Ep), (IH _ _ E). reflexivity. }
  destruct (re_match CppParser.WHILE_LOOP_REGEX _) as [m|].
  { bound Ev. block Eb. bound Ep. bound E. intros [= <-].
    cbn [forallb is_statement].
    rewrite (cpp_expression_shape _ _ Ev), (Hparse _ _ Ep), (IH _ _ E).
    reflexivity. }
  destruct (re_match CppParser.PRINT_REGEX _) as [m|]; [|apply IH].
  bound Ev. bound E. intros [= <-]. cbn [forallb is_statement negb andb].
  rewrite (IH _ _ E), andb_true_r.
  destruct (contains _ _); exact (cpp_expression_shape _ _ Ev).
Qed.

Lemma cpp_parse_fuel_shape (fuel : nat) :
  forall code p, CppParser.parse_cpp_fuel fuel code = Some p ->
                 forallb (is_statement false) (statements p) = true.
Proof.
  induction fuel as [|fuel IH]; intros code p; [discriminate|].
  cbn [CppParser.parse_cpp_fuel]. bound E. intros [= <-].
  cbn [statements]. exact (cpp_parse_loop_shape _ IH _ _ E).
Qed.

Lemma cpp_parse_shape (code : text) :
  exists stmts, CppParser.parse_cpp code = ProgramNode stmts
                /\ forallb (is_statement false) stmts = true.
Proof.
  unfold CppParser.parse_cpp.
  destruct (@cpp_parse_fuel_total (CppParser.parse_fuel code) code)
    as [stmts E]; [unfold CppParser.parse_fuel; lia|].
  rewrite E. exists stmts. split; [reflexivity|].
  exact (cpp_parse_fuel_shape _ _ E).
Qed.

Lemma java_parse_atom_shape (s : text) :
  is_expression (JavaParser.parse_atom s) = true.
Proof.
  unfold JavaParser.parse_atom.
  destruct (JavaParser.quoted s); [reflexivity|].
  destruct (found _); [reflexivity|]. destruct (found _); reflexivity.
Qed.

Lemma java_find_comparison_op ops s op parts :
  JavaParser.find_comparison ops s = Some (op, parts) ->
  existsb (text_eqb op) ops = true.
Proof.
  induction ops as [|o ops IH]; simpl; [discriminate|].
  destruct (partition _ s).
  - intros [= <- <-]. rewrite text_eqb_refl. reflexivity.
  - intros H. rewrite (IH H). apply orb_true_r.
Qed.

Lemma java_expression_shape (fuel : nat) :
  forall s n, JavaParser._parse_expression_fuel fuel s = Some n ->
              is_expression n = true.
Proof.
  induction fuel as [|fuel IH]; intros s n; [discriminate|].
  cbn [JavaParser._parse_expression_fuel].
  destruct (JavaParser.find_comparison _ _) as [[op [p0 p1]]|] eqn:Ec.
  - destruct (JavaParser._parse_expression_fuel fuel (strip p0)) eqn:E0;
      [|discriminate].
    destruct (JavaParser._parse_expression_fuel fuel (strip p1)) eqn:E1;
      [|discriminate].
    intros [= <-]. cbn [is_expression].
    change PythonParser.comparison_ops with JavaParser.comparison_ops.
    rewrite (java_find_comparison_op _ _ Ec), (IH _ _ E0), (IH _ _ E1). reflexivity.
  - destruct (re_fullmatch _ _) as [m|].
    + destruct (JavaParser._parse_expression_fuel fuel (strip (group 1 m))) eqn:E0;
        [|discriminate].
      destruct (JavaParser._parse_expression_fuel fuel (strip (group 2 m))) eqn:E1;
        [|discriminate].
      intros [= <-]. cbn [is_expression]. rewrite (IH _ _ E0), (IH _ _ E1).
      reflexivity.
    + destruct (JavaParser.find_addition _) as [[p0 p1]|].
      * destruct (JavaParser._parse_expression_fuel fuel (strip p0)) eqn:E0;
          [|discriminate].
        destruct (JavaParser._parse_expression_fuel fuel (strip p1)) eqn:E1;
          [|discriminate].
        intros [= <-]. cbn [is_expression]. rewrite (IH _ _ E0), (IH _ _ E1).
        reflexivity.
      * intros [= <-]. apply java_parse_atom_shape.
Qed.

Lemma java_range_shape (start end_ operator step_op step_val it : text) :
  JavaParser._convert_java_for_to_range start end_ operator step_op step_val
  = Some it ->
  startswith (txt "range(") it && endswith (txt ")") it = true.
Proof.
  unfold JavaParser._convert_java_for_to_range.
  destruct (text_eqb operator (txt "<="));
    [|destruct (text_eqb operator (txt ">"))];
    (bound E;
     match goal with
     | |- Some ?x = Some _ -> _ =>
         let H := fresh in
         let Hx := fresh in
         intros H; assert (Hx : x = it) by congruence; rewrite <- Hx
     end;
     apply andb_true_iff; split;
     [apply startswith_app | rewrite !app_assoc; apply endswith_app]).
Qed.

Lemma java_parse_loop_shape (parse : text -> option Node) :
  (forall c p, parse c = Some p ->
               forallb (is_statement false) (statements p) = true) ->
  forall n lines stmts,
    JavaParser.parse_loop parse n lines = Some stmts ->
    forallb (is_statement false) stmts = true.
Proof.
  intros Hparse. induction n as [|n IH]; intros [|raw rest] stmts;
    try (intros [= <-]; reflexivity); try discriminate.
  cbn [JavaParser.parse_loop].
  destruct (_ || _); [apply IH|].
  destruct (re_match JavaParser.ASSIGNMENT_REGEX _) as [m|].
  { bound Ev. bound E. intros [= <-]. cbn [forallb is_statement].
    rewrite (java_expression_shape _ _ Ev), (IH _ _ E). reflexivity. }
  destruct (re_match JavaParser.FUNC_DEF_REGEX _) as [m|].
  { block Eb. bound Ep. bound E. intros [= <-]. cbn [forallb is_statement].
    rewrite (Hparse _ _ Ep), (IH _ _ E). reflexivity. }
  destruct (re_match JavaParser.FOR_LOOP_REGEX _) as [m|].
  { bound Ev. block Eb. bound Ep. bound E. intros [= <-].
    cbn [forallb is_statement negb andb].
    apply java_range_shape in Ev. apply andb_true_iff in Ev as [-> ->].
    rewrite (Hparse _ _ Ep), (IH _ _ E). reflexivity. }
  destruct (re_match JavaParser.WHILE_LOOP_REGEX _) as [m|].
  { bound Ev. block Eb. bound Ep. bound E. intros [= <-].
    cbn [forallb is_statement].
    rewrite (java_expression_shape _ _ Ev), (Hparse _ _ Ep), (IH _ _ E).
    reflexivity. }
  destruct (re_match JavaParser.PRINT_REGEX _) as [m|]; [|apply IH].
  bound Ev. bound E. intros [= <-]. cbn [forallb is_statement negb andb].
  rewrite (IH _ _ E), andb_true_r. exact (java_expression_shape _ _ Ev).
Qed.

Lemma java_parse_fuel_shape (fuel : nat) :
  forall code p, JavaParser.parse_java_fuel fuel code = Some p ->
                 forallb (is_statement false) (statements p) = true.
Proof.
  induction fuel as [|fuel IH]; intros code p; [discriminate|].
  cbn [JavaParser.parse_java_fuel]. bound E. intros [= <-].
  cbn [statements]. exact (java_parse_loop_shape _ IH _ _ E).
Qed.

Lemma java_parse_shape (code : text) :
  exists stmts, JavaParser.parse_java code = ProgramNode stmts
                /\ forallb (is_statement false) stmts = true.
Proof.
  unfold JavaParser.parse_java.
  destruct (@java_parse_fuel_total (JavaParser.parse_fuel code) code)
    as [stmts E]; [unfold JavaParser.parse_fuel; lia|].
  rewrite E. exists stmts. split; [reflexivity|].
  exact (java_parse_fuel_shape _ _ E).
Qed.



(** ** Rendering them as Python *)

(** The list loop of [PythonGenerator.visit] returns when the visit of
    each element does. *)
Ltac visit_each Hbody :=
  match goal with
  | |- context [match ?f ?body with Ok _ => _ | Raise _ => _ end] =>
      let Hall := fresh "Hall" in
      assert (Hall : exists outs, f body = Ok outs);
      [ clear - Hbody; induction Hbody as [|x l [out Hx] _ [outs IHl]];
        [ eexists; reflexivity
        | rewrite Hx, IHl; eexists; reflexivity ]
      | destruct Hall as [? ->] ]
  end.

Lemma visit_expression (n : Node) :
  is_expression n = true -> exists out, PythonGenerator.visit n = Ok out.
Proof.
  induction n using node_induction; cbn [is_expression]; try discriminate;
    intros H; cbn [PythonGenerator.visit]; try (eexists; reflexivity).
  - apply andb_true_iff in H as [H H2]. apply andb_true_iff in H as [_ H1].
    destruct (IHn1 H1) as [? ->]. destruct (IHn2 H2) as [? ->].
    eexists; reflexivity.
  - apply andb_true_iff in H as [H1 H2].
    destruct (IHn1 H1) as [? ->]. destruct (IHn2 H2) as [? ->].
    eexists; reflexivity.
  - apply andb_true_iff in H as [H H2]. apply andb_true_iff in H as [_ H1].
    destruct (IHn1 H1) as [? ->]. destruct (IHn2 H2) as [? ->].
    eexists; reflexivity.
Qed.

Lemma Forall_visited (python : bool) (body : list Node) :
  Forall (fun n => is_statement python n = true ->
                   exists out, PythonGenerator.visit n = Ok out) body ->
  forallb (is_statement python) body = true ->
  Forall (fun n => exists out, PythonGenerator.visit n = Ok out) body.
Proof.
  intros H Hb. rewrite forallb_forall in Hb. rewrite Forall_forall in H |- *.
  intros x Hx. apply H; [exact Hx | apply Hb; exact Hx].
Qed.

Lemma visit_statement (python : bool) (n : Node) :
  is_statement python n = true -> exists out, PythonGenerator.visit n = Ok out.
Proof.
  induction n using node_induction; cbn [is_statement]; try discriminate;
    intros Hs.
  - pose proof (@Forall_visited _ _ H Hs) as Hbody.
    cbn [PythonGenerator.visit]. visit_each Hbody. eexists; reflexivity.
  - apply andb_true_iff in Hs as [_ Hs].
    destruct (@visit_expression _ Hs) as [out E].
    cbn [PythonGenerator.visit]. rewrite E. eexists; reflexivity.
  - apply andb_true_iff in Hs as [_ Hs].
    pose proof (@Forall_visited _ _ H Hs) as Hbody.
    cbn [PythonGenerator.visit]. visit_each Hbody. eexists; reflexivity.
  - apply andb_true_iff in Hs as [_ Hs].
    pose proof (@Forall_visited _ _ H Hs) as Hbody.
    cbn [PythonGenerator.visit]. visit_each Hbody. eexists; reflexivity.
  - apply andb_true_iff in Hs as [Hc Hs].
    pose proof (@Forall_visited _ _ H Hs) as Hbody.
    destruct (@visit_expression _ Hc) as [out E].
    cbn [PythonGenerator.visit]. visit_each Hbody. rewrite E.
    eexists; reflexivity.
  - destruct n1; try discriminate.
    destruct (@visit_expression _ Hs) as [out E].
    cbn [PythonGenerator.visit]. rewrite E. eexists; reflexivity.
Qed.

Lemma visit_program (python : bool) (stmts : list Node) :
  forallb (is_statement python) stmts = true ->
  exists out, PythonGenerator.visit (ProgramNode stmts) = Ok out.
Proof.
  intros Hs.
  assert (Hbody : Forall (fun n => exists out, PythonGenerator.visit n = Ok out)
                    stmts).
  { rewrite forallb_forall in Hs. rewrite Forall_forall. intros x Hx.
    apply (@visit_statement python). apply Hs. exact Hx. }
  cbn [PythonGenerator.visit]. visit_each Hbody. eexists; reflexivity.
Qed.

End ShapeFacts.

(** * The matcher finds a match when there is one *)
Module CompleteFacts.
Import ReFacts ParserFacts MatchFacts LoopPattern.

Lemma orelse_some A (x y : option A) (r : A) :
  y = Some r -> exists r', orelse x y = Some r'.
Proof. intros ->. destruct x; simpl; eauto. Qed.

Lemma orelse_left A (x y : option A) (r : A) :
  x = Some r -> orelse x y = Some r.
Proof. intros ->. reflexivity. Qed.

Lemma star_greedy_some A p s (k : text -> option A) r :
  k s = Some r -> exists r', star_greedy p s k = Some r'.
Proof.
  intros H. destruct s as [|c s]; simpl; [eauto|].
  destruct (p c); [|eauto]. apply orelse_some with (r := r). exact H.
Qed.

Lemma star_greedy_complete A p a s (k : text -> option A) r :
  forallb p a = true -> k s = Some r ->
  exists r', star_greedy p (a ++ s) k = Some r'.
Proof.
  intros Ha Hk. induction a as [|c a IH]; cbn [app].
  - apply star_greedy_some with (r := r). exact Hk.
  - cbn [forallb] in Ha. apply andb_true_iff in Ha as [Hc Ha].
    cbn [star_greedy]. rewrite Hc. destruct (IH Ha) as [r' ->]. simpl. eauto.
Qed.

Lemma star_lazy_complete A p a s (k : text -> option A) r :
  forallb p a = true -> k s = Some r ->
  exists r', star_lazy p (a ++ s) k = Some r'.
Proof.
  intros Ha Hk. induction a as [|c a IH]; cbn [app].
  - exists r. apply star_lazy_here. exact Hk.
  - cbn [forallb] in Ha. apply andb_true_iff in Ha as [Hc Ha].
    cbn [star_lazy]. destruct (k (c :: a ++ s)); [eauto|].
    rewrite Hc. apply IH. exact Ha.
Qed.

(** When the pattern matches a prefix after which the continuation
    succeeds, the matcher returns a result: by that match or by one that it
    prefers. *)
Lemma rmatch_complete A (r : regex) g a g' :
  matches r g a g' ->
  forall s' (k : text -> groups -> option A) res,
    k s' g' = Some res -> exists res', rmatch r (a ++ s') g k = Some res'.
Proof.
  induction 1 as [l g | p c g Hc | r1 r2 g a g1 b g2 M1 IH1 M2 IH2
                 | r1 r2 g a g' M IH | r1 r2 g a g' M IH | r g a g' M IH | r g
                 | p g a Ha | p g c a Ha | p g a Ha | p g c a Ha
                 | n r g a g' M IH | n g t Ht];
    intros s' k res Hk; cbn [rmatch].
  - rewrite startswith_app, skipn_app_exact. eauto.
  - cbn [app]. rewrite Hc. eauto.
  - rewrite <- app_assoc.
    destruct (IH2 s' k res Hk) as [res2 H2].
    exact (IH1 (b ++ s') (fun s g => rmatch r2 s g k) res2 H2).
  - destruct (IH s' k res Hk) as [res' ->]. simpl. eauto.
  - destruct (IH s' k res Hk) as [res' H']. eapply orelse_some. exact H'.
  - destruct (IH s' k res Hk) as [res' ->]. simpl. eauto.
  - cbn [app]. eapply orelse_some. exact Hk.
  - apply star_greedy_complete with (r := res); assumption.
  - cbn [app]. cbn [forallb] in Ha. apply andb_true_iff in Ha as [-> Ha].
    apply star_greedy_complete with (r := res); assumption.
  - apply star_lazy_complete with (r := res); assumption.
  - cbn [app]. cbn [forallb] in Ha. apply andb_true_iff in Ha as [-> Ha].
    apply star_lazy_complete with (r := res); assumption.
  - apply (IH s' (fun s1 g1 => k s1 ((n, consumed (a ++ s') s1) :: g1)) res).
    rewrite consumed_app. exact Hk.
  - rewrite Ht, startswith_app, skipn_app_exact. eauto.
Qed.

Lemma re_match_complete (r : regex) (a s' : text) (m : groups) :
  matches r [] a m -> exists m', re_match r (a ++ s') = Some m'.
Proof.
  intros M. unfold re_match.
  apply (@rmatch_complete _ r [] a m M s' (fun _ g => Some g) m). reflexivity.
Qed.

(** One step of a sequence, read off a result. *)
Lemma rmatch_seq A (r1 r2 : regex) s g (k : text -> groups -> option A) res :
  rmatch (Seq r1 r2) s g k = Some res ->
  exists a s' g', s = a ++ s' /\ matches r1 g a g'
                  /\ rmatch r2 s' g' k = Some res.
Proof. cbn [rmatch]. apply rmatch_sound. Qed.



(** ** The comparison operator of a counted loop's header *)

Ltac peel H :=
  let a := fresh "a" in
  let s := fresh "s" in
  let g := fresh "g" in
  let M := fresh "M" in
  apply rmatch_seq in H as (a & s & g & -> & M & H).

Ltac build :=
  match goal with
  | |- matches (Seq _ _) _ _ _ => eapply m_seq; [build | build]
  | |- matches (Lit _) _ _ _ => apply m_lit
  | |- matches (Star _) _ _ _ => apply m_star; assumption
  | |- matches (Plus _) _ _ _ => apply m_plus; assumption
  | |- matches (Group _ _) _ _ _ => apply m_group; build
  | |- matches (Alt _ _) _ _ _ =>
      first [apply m_alt_l; build | apply m_alt_r; build]
  | |- matches (Backref _) _ _ _ =>
      apply m_backref; cbn [lookup Nat.eqb] in *; assumption
  end.

Lemma space_not_semicolon c : is_space c = true -> is_not ";"%char c = true.
Proof. apply class_subset. by_chars. Qed.

(** The rest of the pattern leaves group 3 as it finds it. *)
Lemma after_operator_keeps (s : text) (o : text) (g m : groups) :
  rmatch after_operator s ((3, o) :: g) (fun _ g' => Some g') = Some m ->
  group 3 m = o.
Proof.
  intros H. apply rmatch_sound in H as (a & s' & g' & _ & M & [= <-]).
  unfold after_operator in M. expose_regex M. unfold not_ch in M.
  inv_matches; reflexivity.
Qed.

(** When the rest of the pattern matches after an operator and an equals
    sign, it matches after the operator alone: the equals sign goes to
    the bound. *)
Lemma after_operator_with_equals (s : text) (o o' : text) (g m : groups) :
  rmatch after_operator s ((3, o') :: g) (fun _ g' => Some g') = Some m ->
  exists m',
    rmatch after_operator ("="%char :: s) ((3, o) :: g) (fun _ g' => Some g')
    = Some m'.
Proof.
  intros H. apply rmatch_sound in H as (a & s' & g' & -> & M & _).
  unfold after_operator in M. expose_regex M. unfold not_ch in M.
  assert (Hbound : forall a0 x, forallb is_space a0 = true ->
                                forallb (is_not ";"%char) x = true ->
                                forallb (is_not ";"%char) ("="%char :: a0 ++ x) = true).
  { intros a0 x H0 Hx. cbn [forallb]. rewrite forallb_app, Hx, andb_true_r.
    apply (@RoundTripFacts.forallb_impl is_space (is_not ";"%char));
      [exact space_not_semicolon | exact H0]. }
  inv_matches;
    match goal with
    | |- context [rmatch _ ("="%char :: (?a0 ++ ?x ++ ?tail) ++ ?s') _ _] =>
        replace ("="%char :: (a0 ++ x ++ tail) ++ s')
          with (([] ++ ("="%char :: a0 ++ x) ++ tail) ++ s')
          by (repeat (progress (cbn [app]; rewrite <- ?app_assoc));
              reflexivity)
    end;
    unfold after_operator; cbv [cat alts lit sp not_ch];
    (eapply rmatch_complete;
     [ eapply m_seq; [apply m_star; reflexivity|];
       eapply m_seq; [apply m_group, m_plus, Hbound; assumption|];
       build
     | reflexivity ]).
Qed.



Lemma cpp_for_loop_operator (line : text) (m : groups) :
  re_match CppParser.FOR_LOOP_REGEX line = Some m ->
  group 3 m = txt "<" \/ group 3 m = txt ">".
Proof.
  unfold re_match, CppParser.FOR_LOOP_REGEX. cbv [cat alts lit]. intros H.
  do 14 peel H.
  match type of H with
  | rmatch (Seq _ ?R) _ _ _ = _ => change R with after_operator in H
  end.
  clear - H. cbn [rmatch] in H.
  destruct s0 as [|c s]; [discriminate H|].
  cbn [startswith txt list_ascii_of_string List.length skipn] in H.
  rewrite !andb_true_r in H.
  assert (Hone : forall x t, consumed (x :: t) t = [x]).
  { intros x t. exact (consumed_app [x] t). }
  assert (Htwo : forall x y t, consumed (x :: y :: t) t = [x; y]).
  { intros x y t. exact (consumed_app [x; y] t). }
  rewrite Hone in H.
  destruct (Ascii.eqb "<"%char c) eqn:E1.
  - apply Ascii.eqb_eq in E1. subst c.
    change (Ascii.eqb ">"%char "<"%char) with false in H. cbn [andb] in H.
    destruct (rmatch after_operator s _ _) as [m1|] eqn:A1.
    + cbn [orelse] in H. injection H as <-. left.
      exact (after_operator_keeps _ _ _ A1).
    + cbn [orelse] in H. exfalso.
      destruct s as [|d s2]; [discriminate H|].
      cbn [startswith] in H. rewrite andb_true_r in H.
      destruct (Ascii.eqb "="%char d) eqn:E2; [|discriminate H].
      apply Ascii.eqb_eq in E2. subst d. rewrite Htwo in H.
      destruct (rmatch after_operator s2 _ _) as [m2|] eqn:A2;
        [|discriminate H].
      destruct (@after_operator_with_equals s2 ["<"%char] _ _ _ A2) as [m' A].
      rewrite A in A1. discriminate A1.
  - cbn [andb orelse] in H.
    destruct (Ascii.eqb ">"%char c) eqn:E3; [|discriminate H].
    apply Ascii.eqb_eq in E3. subst c.
    destruct (rmatch after_operator s _ _) as [m1|] eqn:A1.
    + cbn [orelse] in H. injection H as <-. right.
      exact (after_operator_keeps _ _ _ A1).
    + cbn [orelse] in H. exfalso.
      destruct s as [|d s2]; [discriminate H|].
      cbn [startswith andb] in H. rewrite andb_true_r in H.
      destruct (Ascii.eqb "="%char d) eqn:E2; [|discriminate H].
      apply Ascii.eqb_eq in E2. subst d. rewrite Htwo in H.
      destruct (rmatch after_operator s2 _ _) as [m2|] eqn:A2;
        [|discriminate H].
      destruct (@after_operator_with_equals s2 [">"%char] _ _ _ A2) as [m' A].
      rewrite A in A1. discriminate A1.
Qed.

Lemma java_for_loop_operator (line : text) (m : groups) :
  re_match JavaParser.FOR_LOOP_REGEX line = Some m ->
  group 3 m = txt "<" \/ group 3 m = txt ">".
Proof. exact (@cpp_for_loop_operator line m). Qed.

End CompleteFacts.

(** * Lines that the parsers skip, and the blocks they cut *)
Module LineFacts.
Import ReFacts ParserFacts MatchFacts.

Lemma py_skipped_lines (parse : text -> option Node) (lines : list text) :
  forallb (fun raw => PythonParser.blank raw
                      || startswith (txt "#") (strip raw)) lines = true ->
  forall n, List.length lines <= n ->
            PythonParser.parse_loop parse n lines = Some [].
Proof.
  induction lines as [|raw rest IH]; intros Hs n Hn.
  - destruct n; reflexivity.
  - destruct n as [|n]; [cbn [List.length] in Hn; lia|].
    cbn [forallb] in Hs. apply andb_true_iff in Hs as [Hraw Hs].
    cbn [PythonParser.parse_loop]. unfold PythonParser.blank in Hraw.
    rewrite Hraw. apply IH; [exact Hs | cbn [List.length] in Hn; lia].
Qed.

Lemma cpp_skipped_lines (parse : text -> option Node) (lines : list text) :
  forallb (fun raw => CppParser.blank raw
                      || startswith (txt "//") (strip raw)
                      || startswith (txt "#include") (strip raw)
                      || startswith (txt "using namespace") (strip raw))
    lines = true ->
  forall n, List.length lines <= n ->
            CppParser.parse_loop parse n lines = Some [].
Proof.
  induction lines as [|raw rest IH]; intros Hs n Hn.
  - destruct n; reflexivity.
  - destruct n as [|n]; [cbn [List.length] in Hn; lia|].
    cbn [forallb] in Hs. apply andb_true_iff in Hs as [Hraw Hs].
    assert (Hrest : CppParser.parse_loop parse n rest = Some [])
      by (apply IH; [exact Hs | cbn [List.length] in Hn; lia]).
    cbn [CppParser.parse_loop]. unfold CppParser.blank in Hraw.
    destruct (_ || _) eqn:E1 in |- *; [exact Hrest|].
    rewrite E1 in Hraw. cbn [orb] in Hraw. rewrite Hraw. exact Hrest.
Qed.

Lemma java_skipped_lines (parse : text -> option Node) (lines : list text) :
  forallb (fun raw => JavaParser.blank raw
                      || startswith (txt "//") (strip raw)) lines = true ->
  forall n, List.length lines <= n ->
            JavaParser.parse_loop parse n lines = Some [].
Proof.
  induction lines as [|raw rest IH]; intros Hs n Hn.
  - destruct n; reflexivity.
  - destruct n as [|n]; [cbn [List.length] in Hn; lia|].
    cbn [forallb] in Hs. apply andb_true_iff in Hs as [Hraw Hs].
    cbn [JavaParser.parse_loop]. unfold JavaParser.blank in Hraw.
    rewrite Hraw. apply IH; [exact Hs | cbn [List.length] in Hn; lia].
Qed.



(** The loop of [_get_indented_block]: what it passes over, what it keeps
    and where it stops. *)
Lemma block_from_spec (first : bool) (lines : list text) (base : nat)
  (blk rest : list text) :
  PythonParser.block_from first lines base = (blk, rest) ->
  exists passed,
    lines = passed ++ rest
    /\ blk = filter (fun l => negb (PythonParser.blank l)) passed
    /\ Forall (fun l => base < indent_of l) (if first then tl blk else blk)
    /\ match rest with
       | [] => True
       | l :: _ => PythonParser.blank l = false /\ indent_of l <= base
       end.
Proof.
  revert first blk rest.
  induction lines as [|line lines IH]; intros first blk rest.
  - cbn [PythonParser.block_from]. intros [= <- <-]. exists [].
    repeat split; try reflexivity. destruct first; constructor.
  - cbn [PythonParser.block_from].
    destruct (PythonParser.blank line) eqn:Eb.
    + intros H. destruct (IH _ _ _ H) as (passed & -> & -> & Hin & Hrest).
      exists (line :: passed). cbn [filter]. rewrite Eb. cbn [negb].
      repeat split; try assumption.
      destruct first; [|exact Hin].
      destruct (filter _ passed); [constructor|]. inversion Hin; assumption.
    + destruct ((indent_of line <=? base) && negb first) eqn:Ei.
      * intros [= <- <-]. exists []. apply andb_true_iff in Ei as [Ei _].
        apply Nat.leb_le in Ei.
        repeat split; try assumption; try reflexivity.
        destruct first; constructor.
      * destruct (PythonParser.block_from false lines base) as [b r] eqn:E.
        intros [= <- <-].
        destruct (IH _ _ _ E) as (passed & -> & -> & Hin & Hrest).
        exists (line :: passed). cbn [filter]. rewrite Eb. cbn [negb].
        repeat split; try assumption.
        destruct first; [exact Hin|]. constructor; [|exact Hin].
        cbn [negb] in Ei. rewrite andb_true_r in Ei.
        apply Nat.leb_gt in Ei. exact Ei.
Qed.



(** The conversion of a loop header returns unless the step operator is
    unknown to it. *)
Lemma convert_fails_iff (start end_ operator step_op step_val : text) :
  CppParser._convert_cpp_for_to_range start end_ operator step_op step_val = None
  <-> ~ In step_op [txt "++"; txt "--"; txt "+="; txt "-="].
Proof.
  unfold CppParser._convert_cpp_for_to_range.
  destruct (text_eqb step_op (txt "++")) eqn:E1;
    [|destruct (text_eqb step_op (txt "--")) eqn:E2;
      [|destruct (text_eqb step_op (txt "+=")) eqn:E3;
        [|destruct (text_eqb step_op (txt "-=")) eqn:E4]]];
    (destruct (text_eqb operator (txt "<="));
     [|destruct (text_eqb operator (txt ">"))]);
    try (split; [discriminate|]; intros Hn; exfalso; apply Hn;
         repeat match goal with
                | E : text_eqb _ _ = true |- _ => apply text_eqb_spec in E
                end;
         subst; cbn [In]; tauto);
    (split; [|reflexivity]; intros _ Hin; cbn [In] in Hin;
     repeat match goal with
            | E : text_eqb ?a ?b = false |- _ =>
                assert (a <> b)
                  by (intros Heq; apply text_eqb_spec in Heq; congruence);
                clear E
            end;
     intuition congruence).
Qed.

End LineFacts.

(** * The indentation level of a generator *)
Module LevelFacts.
Import ShapeFacts Trees.

Lemma Forall_level (cls : generator_class) (body : list Node) :
  Forall (fun n => program_free n = true ->
                   forall level, snd (visit cls n level) = level) body ->
  forallb program_free body = true ->
  Forall (fun n => forall level, snd (visit cls n level) = level) body.
Proof.
  intros H Hb. rewrite forallb_forall in Hb. rewrite Forall_forall in H |- *.
  intros x Hx. apply H; [exact Hx | apply Hb; exact Hx].
Qed.

(** The list loop of [visit] ends at the level at which it starts. *)
Ltac body_level cls body Hall :=
  match goal with
  | |- context [?f body ?lev] =>
      let Hb := fresh "Hb" in
      let E := fresh "E" in
      assert (Hb : forall l, snd (f body l) = l);
      [ clear - Hall; induction Hall as [|x rest Hx _ IHrest]; intros l;
        [ reflexivity
        | change (f (x :: rest) l)
            with (let '(s, l1) := visit cls x l in
                  let '(ss, l2) := f rest l1 in (s :: ss, l2));
          specialize (Hx l); destruct (visit cls x l) as [? l1];
          cbn [snd] in Hx; subst l1;
          specialize (IHrest l); destruct (f rest l) as [? l2];
          exact IHrest ]
      | specialize (Hb lev); destruct (f body lev) as [? ?] eqn:E;
        cbn [snd] in Hb; subst ]
  end.

Ltac node_level IH l :=
  let E := fresh "E" in
  match goal with
  | |- context [visit ?cls ?n l] =>
      pose proof (IH l) as E; destruct (visit cls n l) as [? ?];
      cbn [snd] in E; subst
  end.

Lemma visit_level (cls : generator_class) (node : Node) :
  program_free node = true ->
  forall level, snd (visit cls node level) = level.
Proof.
  induction node using node_induction; cbn [program_free]; try discriminate;
    intros Hfree level.
  - destruct cls; cbn [visit]; [reflexivity|].
    pose proof (@Forall_level _ _ H Hfree) as Hall.
    body_level JavaGenerator body Hall. cbn [snd]. lia.
  - destruct cls; cbn [visit]; [reflexivity|].
    node_level (IHnode Hfree) level. reflexivity.
  - apply andb_true_iff in Hfree as [H1 H2]. cbn [visit].
    node_level (IHnode1 H1) level. node_level (IHnode2 H2) level.
    destruct cls; reflexivity.
  - destruct cls; reflexivity.
  - destruct cls; reflexivity.
  - destruct cls; reflexivity.
  - apply andb_true_iff in Hfree as [H1 H2].
    destruct cls; cbn [visit]; [reflexivity|].
    node_level (IHnode1 H1) level. node_level (IHnode2 H2) level. reflexivity.
  - destruct cls; cbn [visit]; [reflexivity|]. cbn [andb] in Hfree.
    pose proof (@Forall_level _ _ H Hfree) as Hall.
    body_level JavaGenerator body Hall. cbn [snd]. lia.
  - apply andb_true_iff in Hfree as [H1 H2].
    destruct cls; cbn [visit]; [reflexivity|].
    node_level (IHnode H1) level.
    pose proof (@Forall_level _ _ H H2) as Hall.
    body_level JavaGenerator body Hall. cbn [snd]. lia.
  - apply andb_true_iff in Hfree as [H1 H2].
    destruct cls; cbn [visit]; [reflexivity|].
    node_level (IHnode H1) level.
    pose proof (@Forall_level _ _ H H2) as Hall.
    body_level JavaGenerator body Hall. cbn [snd]. lia.
  - apply andb_true_iff in Hfree as [H1 H2]. cbn [visit].
    node_level (IHnode1 H1) level. node_level (IHnode2 H2) level.
    destruct cls; reflexivity.
  - apply andb_true_iff in Hfree as [H1 H2].
    destruct cls; cbn [visit];
      node_level (IHnode1 H1) level; node_level (IHnode2 H2) level; reflexivity.
  - destruct cls; reflexivity.
  - destruct cls; reflexivity.
Qed.

End LevelFacts.

(** * The expression parsers and the text around an expression *)
Module ExprFacts.
Import ReFacts ParserFacts MatchFacts RoundTripFacts Reference.

Lemma lstrip_head (s : text) :
  lstrip s = [] \/ exists c u, lstrip s = c :: u /\ is_space c = false.
Proof.
  induction s as [|x s IH]; simpl; [left; reflexivity|].
  destruct (is_space x) eqn:Ex; [exact IH|]. right. eauto.
Qed.

Lemma strip_idem (s : text) : strip (strip s) = strip s.
Proof.
  unfold strip. destruct (lstrip_head s) as [-> | (c & u & -> & Hc)];
    [reflexivity|].
  pose proof (@rstrip_app_nonspace [] c u Hc) as Hr. cbn [app] in Hr.
  rewrite Hr. cbn [lstrip]. rewrite Hc. rewrite <- Hr. apply rstrip_idem.
Qed.

(** More fuel than the length of the text changes nothing. *)
Lemma py_expr_fuel_enough (n : nat) :
  forall m s, List.length s < n -> List.length s < m ->
              PythonParser._parse_expression_fuel n s
              = PythonParser._parse_expression_fuel m s.
Proof.
  induction n as [|n IH]; intros m s Hn Hm; [lia|].
  destruct m as [|m]; [lia|].
  cbn [PythonParser._parse_expression_fuel].
  pose proof (strip_length s) as Hstrip.
  assert (Hrec : forall t, List.length t < List.length (strip s) ->
                           PythonParser._parse_expression_fuel n (strip t)
                           = PythonParser._parse_expression_fuel m (strip t)).
  { intros t Ht. pose proof (strip_length t). apply IH; lia. }
  destruct (PythonParser.find_comparison _ _) as [[op [p0 p1]]|] eqn:Ec.
  - apply py_find_comparison_lengths in Ec as [H0 H1].
    rewrite (Hrec _ H0), (Hrec _ H1). reflexivity.
  - destruct (re_fullmatch _ _) as [g|] eqn:Ep.
    + apply py_pow_groups in Ep as [H1 H2].
      rewrite (Hrec _ H1), (Hrec _ H2). reflexivity.
    + destruct (PythonParser.find_addition _) as [[p0 p1]|] eqn:Ea;
        [|reflexivity].
      apply py_find_addition_lengths in Ea as [H0 H1].
      rewrite (Hrec _ H0), (Hrec _ H1). reflexivity.
Qed.

Lemma py_expr_strip (s : text) :
  PythonParser._parse_expression (strip s) = PythonParser._parse_expression s.
Proof.
  unfold PythonParser._parse_expression, PythonParser.expr_fuel.
  pose proof (strip_length s).
  rewrite (@py_expr_fuel_enough (S (List.length (strip s))) (S (List.length s)))
    by lia.
  cbn [PythonParser._parse_expression_fuel]. rewrite strip_idem. reflexivity.
Qed.

Lemma cpp_expr_fuel_enough (n : nat) :
  forall m s, List.length s < n -> List.length s < m ->
              CppParser._parse_expression_fuel n s
              = CppParser._parse_expression_fuel m s.
Proof.
  induction n as [|n IH]; intros m s Hn Hm; [lia|].
  destruct m as [|m]; [lia|].
  cbn [CppParser._parse_expression_fuel].
  pose proof (strip_length s) as Hstrip.
  assert (Hrec : forall t, List.length t < List.length (strip s) ->
                           CppParser._parse_expression_fuel n (strip t)
                           = CppParser._parse_expression_fuel m (strip t)).
  { intros t Ht. pose proof (strip_length t). apply IH; lia. }
  destruct (CppParser.find_comparison _ _) as [[op [p0 p1]]|] eqn:Ec.
  - apply cpp_find_comparison_lengths in Ec as [H0 H1].
    rewrite (Hrec _ H0), (Hrec _ H1). reflexivity.
  - destruct (re_fullmatch _ _) as [g|] eqn:Ep.
    + apply cpp_pow_groups in Ep as [H1 H2].
      rewrite (Hrec _ H1), (Hrec _ H2). reflexivity.
    + destruct (CppParser.find_addition _) as [[p0 p1]|] eqn:Ea;
        [|reflexivity].
      apply cpp_find_addition_lengths in Ea as [H0 H1].
      rewrite (Hrec _ H0), (Hrec _ H1). reflexivity.
Qed.

Lemma cpp_expr_strip (s : text) :
  CppParser._parse_expression (strip s) = CppParser._parse_expression s.
Proof.
  unfold CppParser._parse_expression, CppParser.expr_fuel.
  pose proof (strip_length s).
  rewrite (@cpp_expr_fuel_enough (S (List.length (strip s))) (S (List.length s)))
    by lia.
  cbn [CppParser._parse_expression_fuel]. rewrite strip_idem. reflexivity.
Qed.

Lemma java_expr_fuel_enough (n : nat) :
  forall m s, List.length s < n -> List.length s < m ->
              JavaParser._parse_expression_fuel n s
              = JavaParser._parse_expression_fuel m s.
Proof.
  induction n as [|n IH]; intros m s Hn Hm; [lia|].
  destruct m as [|m]; [lia|].
  cbn [JavaParser._parse_expression_fuel].
  pose proof (strip_length s) as Hstrip.
  assert (Hrec : forall t, List.length t < List.length (strip s) ->
                           JavaParser._parse_expression_fuel n (strip t)
                           = JavaParser._parse_expression_fuel m (strip t)).
  { intros t Ht. pose proof (strip_length t). apply IH; lia. }
  destruct (JavaParser.find_comparison _ _) as [[op [p0 p1]]|] eqn:Ec.
  - apply java_find_comparison_lengths in Ec as [H0 H1].
    rewrite (Hrec _ H0), (Hrec _ H1). reflexivity.
  - destruct (re_fullmatch _ _) as [g|] eqn:Ep.
    + apply java_pow_groups in Ep as [H1 H2].
      rewrite (Hrec _ H1), (Hrec _ H2). reflexivity.
    + destruct (JavaParser.find_addition _) as [[p0 p1]|] eqn:Ea;
        [|reflexivity].
      apply java_find_addition_lengths in Ea as [H0 H1].
      rewrite (Hrec _ H0), (Hrec _ H1). reflexivity.
Qed.

Lemma java_expr_strip (s : text) :
  JavaParser._parse_expression (strip s) = JavaParser._parse_expression s.
Proof.
  unfold JavaParser._parse_expression, JavaParser.expr_fuel.
  pose proof (strip_length s).
  rewrite (@java_expr_fuel_enough (S (List.length (strip s))) (S (List.length s)))
    by lia.
  cbn [JavaParser._parse_expression_fuel]. rewrite strip_idem. reflexivity.
Qed.



(** ** Operands without spaces, quotes or parentheses *)

Lemma atom_cases (a : text) :
  is_atom a = true ->
  PythonParser.parse_atom a
  = if found (re_fullmatch NUMBER_REGEX a) then NumberLiteralNode a
    else VariableNode a.
Proof.
  intros H. unfold PythonParser.parse_atom. rewrite (@quoted_atom a H).
  destruct (found (re_fullmatch NUMBER_REGEX a)); [reflexivity|].
  destruct (found _); reflexivity.
Qed.

Lemma py_atom_expression (a : text) :
  is_atom a = true ->
  PythonParser._parse_expression a = Some (PythonParser.parse_atom a).
Proof. intros H. apply parse_atom_expression. exact H. Qed.

Lemma cpp_find_comparison_atom (ops : list text) (a : text) :
  is_atom a = true -> CppParser.find_comparison ops a = None.
Proof.
  intros Ha. induction ops as [|o ops IH]; [reflexivity|].
  cbn [CppParser.find_comparison txt list_ascii_of_string app].
  rewrite partition_absent by (apply atom_no_space; exact Ha). exact IH.
Qed.

Lemma cpp_pow_needs_paren (s : text) :
  forallb (is_not "("%char) s = true ->
  re_fullmatch CppParser.POW_REGEX s = None.
Proof.
  intros H. destruct (re_fullmatch CppParser.POW_REGEX s) as [m|] eqn:E;
    [|reflexivity].
  apply re_fullmatch_sound in E.
  unfold CppParser.POW_REGEX in E. expose_regex E. inv_matches.
  rewrite !forallb_app in H. cbn [txt list_ascii_of_string forallb] in H.
  repeat (apply andb_true_iff in H; destruct H as [? H]).
  discriminate.
Qed.

Lemma cpp_quoted_atom a : is_atom a = true -> CppParser.quoted a = false.
Proof.
  unfold is_atom. destruct a as [|c a]; [discriminate|].
  cbn [nonempty andb forallb]. intros H. apply andb_true_iff in H as [H _].
  unfold CppParser.quoted. cbn [startswith].
  rewrite (@atom_not_dq c H). reflexivity.
Qed.

Lemma cpp_find_addition_atom a :
  is_atom a = true -> CppParser.find_addition a = None.
Proof.
  intros H. unfold CppParser.find_addition, contains.
  cbn [txt list_ascii_of_string].
  rewrite partition_absent by (apply atom_no_space; exact H). reflexivity.
Qed.

Lemma cpp_atom_expression (a : text) :
  is_atom a = true ->
  CppParser._parse_expression a
  = Some (if found (re_fullmatch NUMBER_REGEX a) then NumberLiteralNode a
          else VariableNode a).
Proof.
  intros H. unfold CppParser._parse_expression, CppParser.expr_fuel.
  cbn [CppParser._parse_expression_fuel].
  rewrite (@strip_atom a H), (@cpp_find_comparison_atom _ a H).
  rewrite (@cpp_pow_needs_paren a (atom_no_paren _ H)).
  rewrite (@cpp_find_addition_atom a H).
  unfold CppParser.parse_atom. rewrite (@cpp_quoted_atom a H).
  destruct (found (re_fullmatch NUMBER_REGEX a)); [reflexivity|].
  destruct (found _); reflexivity.
Qed.

Lemma java_find_comparison_atom (ops : list text) (a : text) :
  is_atom a = true -> JavaParser.find_comparison ops a = None.
Proof.
  intros Ha. induction ops as [|o ops IH]; [reflexivity|].
  cbn [JavaParser.find_comparison txt list_ascii_of_string app].
  rewrite partition_absent by (apply atom_no_space; exact Ha). exact IH.
Qed.

Lemma java_pow_needs_paren (s : text) :
  forallb (is_not "("%char) s = true ->
  re_fullmatch JavaParser.POW_REGEX s = None.
Proof.
  intros H. destruct (re_fullmatch JavaParser.POW_REGEX s) as [m|] eqn:E;
    [|reflexivity].
  apply re_fullmatch_sound in E.
  unfold JavaParser.POW_REGEX in E. expose_regex E. inv_matches.
  rewrite !forallb_app in H. cbn [txt list_ascii_of_string forallb] in H.
  repeat (apply andb_true_iff in H; destruct H as [? H]).
  discriminate.
Qed.

Lemma java_quoted_atom a : is_atom a = true -> JavaParser.quoted a = false.
Proof.
  unfold is_atom. destruct a as [|c a]; [discriminate|].
  cbn [nonempty andb forallb]. intros H. apply andb_true_iff in H as [H _].
  unfold JavaParser.quoted. cbn [startswith].
  rewrite (@atom_not_dq c H), (@atom_not_sq c H). reflexivity.
Qed.

Lemma java_find_addition_atom a :
  is_atom a = true -> JavaParser.find_addition a = None.
Proof.
  intros H. unfold JavaParser.find_addition, contains.
  cbn [txt list_ascii_of_string].
  rewrite partition_absent by (apply atom_no_space; exact H). reflexivity.
Qed.

Lemma java_atom_expression (a : text) :
  is_atom a = true ->
  JavaParser._parse_expression a
  = Some (if found (re_fullmatch NUMBER_REGEX a) then NumberLiteralNode a
          else VariableNode a).
Proof.
  intros H. unfold JavaParser._parse_expression, JavaParser.expr_fuel.
  cbn [JavaParser._parse_expression_fuel].
  rewrite (@strip_atom a H), (@java_find_comparison_atom _ a H).
  rewrite (@java_pow_needs_paren a (atom_no_paren _ H)).
  rewrite (@java_find_addition_atom a H).
  unfold JavaParser.parse_atom. rewrite (@java_quoted_atom a H).
  destruct (found (re_fullmatch NUMBER_REGEX a)); [reflexivity|].
  destruct (found _); reflexivity.
Qed.

End ExprFacts.

(** * The content of a C++ string literal, and the header of a Java loop *)
Module TextFacts.
Import ReFacts ParserFacts MatchFacts ReplaceFacts RoundTripFacts.

Lemma replace_upto_length (old new : text) :
  List.length new <= List.length old ->
  forall n s, List.length (replace_upto n old new s) <= List.length s.
Proof.
  intros Hlen. induction n as [|n IH]; intros s; cbn [replace_upto]; [lia|].
  destruct (partition old s) as [[a b]|] eqn:E; [|lia].
  apply partition_lengths in E. rewrite !length_app. specialize (IH b). lia.
Qed.

Lemma replace_length (old new s : text) :
  List.length new <= List.length old ->
  List.length (replace old new s) <= List.length s.
Proof. intros H. apply replace_upto_length. exact H. Qed.

Lemma literal_length (interior : text) :
  List.length (CppParser._parse_string_literal (dq :: interior ++ [dq]))
  <= List.length interior.
Proof.
  rewrite parse_string_literal_passes.
  repeat match goal with
         | |- List.length (replace ?o ?n ?s) <= _ =>
             apply Nat.le_trans with (m := List.length s);
             [apply replace_length; simpl; lia|]
         end.
  lia.
Qed.

Lemma replace_absent (c y : ascii) (new s : text) :
  forallb (is_not c) s = true -> replace [c; y] new s = s.
Proof.
  intros H. unfold replace. destruct s as [|x s]; [reflexivity|].
  cbn [List.length]. rewrite replace_upto_S.
  rewrite partition_absent by exact H. reflexivity.
Qed.

Lemma literal_verbatim (interior : text) :
  forallb (is_not bs) interior = true ->
  CppParser._parse_string_literal (dq :: interior ++ [dq]) = interior.
Proof.
  intros H. rewrite parse_string_literal_passes.
  rewrite (@replace_absent bs dq [dq] interior H).
  rewrite (@replace_absent bs "n"%char [nl] interior H).
  rewrite (@replace_absent bs "t"%char [tab] interior H).
  apply replace_absent. exact H.
Qed.

(** The arguments that [visit_ForLoopNode] cuts out of a range call. *)
Lemma range_call_args (a : text) (more : list text) :
  forallb (forallb (is_not ","%char)) (a :: more) = true ->
  split_char ","%char
    (slice_6_m1 (txt "range(" ++ join [","%char] (a :: more) ++ txt ")"))
  = a :: more.
Proof.
  intros H. unfold slice_6_m1. cbn [txt list_ascii_of_string app skipn].
  rewrite removelast_last. apply split_join. exact H.
Qed.

Lemma java_for_header_range (level : Z) (iterator a : text) (more : list text) :
  forallb (forallb (is_not ","%char)) (a :: more) = true ->
  java_for_header level iterator
    (txt "range(" ++ join [","%char] (a :: more) ++ txt ")")
  = _make_indent level ++ txt "for (int " ++ iterator ++ txt " = "
    ++ match more with
       | [] => txt "0; " ++ iterator ++ txt " < " ++ strip a ++ txt "; "
               ++ iterator ++ txt "++) {"
       | [b] => strip a ++ txt "; " ++ iterator ++ txt " < " ++ strip b
                ++ txt "; " ++ iterator ++ txt "++) {"
       | b :: c :: _ => strip a ++ txt "; " ++ iterator ++ txt " < " ++ strip b
                        ++ txt "; " ++ iterator ++ txt " += " ++ strip c
                        ++ txt ") {"
       end.
Proof.
  intros H. unfold java_for_header.
  rewrite (@range_call_args a more H).
  rewrite startswith_app.
  destruct more as [|b [|c more]]; cbn [nth]; reflexivity.
Qed.

End TextFacts.

(** * At most one statement for each line *)
Module CountFacts.
Import ReFacts ParserFacts ShapeFacts.

Ltac counted IH :=
  repeat match goal with
         | |- match ?c with Some _ => _ | None => None end = Some _ -> _ =>
             let E := fresh "E" in destruct c eqn:E; [|discriminate]
         | |- Some _ = Some _ -> _ =>
             intros [= <-]; cbn [List.length]
         end;
  repeat match goal with
         | E : _ = Some ?l |- context [List.length ?l] =>
             apply IH in E
         end.

Lemma py_parse_loop_count (parse : text -> option Node) :
  forall n lines stmts,
    PythonParser.parse_loop parse n lines = Some stmts ->
    List.length stmts <= List.length lines.
Proof.
  induction n as [|n IH]; intros [|raw rest] stmts;
    try (intros [= <-]; cbn [List.length]; lia); try discriminate.
  cbn [PythonParser.parse_loop List.length].
  assert (Hskip : forall l, PythonParser.parse_loop parse n rest = Some l ->
                            List.length l <= S (List.length rest)).
  { intros l E. apply IH in E. lia. }
  destruct (_ || _); [apply Hskip|].
  destruct (re_match PythonParser.FUNCTION_CALL_REGEX _); [counted IH; lia|].
  destruct (re_match PythonParser.ASSIGNMENT_REGEX _); [counted IH; lia|].
  destruct (re_match PythonParser.FUNC_DEF_REGEX _).
  { block Eb. apply py_block_from_bounds in Eb. counted IH. lia. }
  destruct (re_match PythonParser.FOR_LOOP_REGEX _).
  { destruct (PythonParser._parse_expression _); [|discriminate].
    block Eb. apply py_block_from_bounds in Eb. counted IH. lia. }
  destruct (re_match PythonParser.WHILE_LOOP_REGEX _).
  { destruct (PythonParser._parse_expression _); [|discriminate].
    block Eb. apply py_block_from_bounds in Eb. counted IH. lia. }
  destruct (re_match PythonParser.PRINT_REGEX _); [|apply Hskip].
  counted IH; lia.
Qed.

Lemma py_statement_count (code : text) :
  List.length (statements (PythonParser.parse_python code))
  <= List.length (split_char nl (strip code)).
Proof.
  unfold PythonParser.parse_python, PythonParser.parse_fuel.
  cbn [PythonParser.parse_python_fuel].
  destruct (PythonParser.parse_loop _ _ _) as [stmts|] eqn:E;
    [|cbn [statements List.length]; lia].
  cbn [statements]. exact (py_parse_loop_count _ _ _ E).
Qed.



Lemma cpp_parse_loop_count (parse : text -> option Node) :
  forall n lines stmts,
    CppParser.parse_loop parse n lines = Some stmts ->
    List.length stmts <= List.length lines.
Proof.
  induction n as [|n IH]; intros [|raw rest] stmts;
    try (intros [= <-]; cbn [List.length]; lia); try discriminate.
  cbn [CppParser.parse_loop List.length].
  assert (Hskip : forall l, CppParser.parse_loop parse n rest = Some l ->
                            List.length l <= S (List.length rest)).
  { intros l E. apply IH in E. lia. }
  destruct (_ || _); [apply Hskip|].
  destruct (_ || _); [apply Hskip|].
  destruct (re_match CppParser.ASSIGNMENT_REGEX _); [counted IH; lia|].
  destruct (re_match CppParser.FUNC_DEF_REGEX _).
  { block Eb. apply cpp_block_from_bounds in Eb. counted IH. lia. }
  destruct (re_match CppParser.FOR_LOOP_REGEX _).
  { destruct (CppParser._convert_cpp_for_to_range _ _ _ _ _); [|discriminate].
    block Eb. apply cpp_block_from_bounds in Eb. counted IH. lia. }
  destruct (re_match CppParser.WHILE_LOOP_REGEX _).
  { destruct (CppParser._parse_expression _); [|discriminate].
    block Eb. apply cpp_block_from_bounds in Eb. counted IH. lia. }
  destruct (re_match CppParser.PRINT_REGEX _); [|apply Hskip].
  counted IH; lia.
Qed.

Lemma cpp_statement_count (code : text) :
  List.length (statements (CppParser.parse_cpp code))
  <= List.length (split_char nl (strip code)).
Proof.
  unfold CppParser.parse_cpp, CppParser.parse_fuel.
  cbn [CppParser.parse_cpp_fuel].
  destruct (CppParser.parse_loop _ _ _) as [stmts|] eqn:E;
    [|cbn [statements List.length]; lia].
  cbn [statements]. exact (cpp_parse_loop_count _ _ _ E).
Qed.

Lemma java_parse_loop_count (parse : text -> option Node) :
  forall n lines stmts,
    JavaParser.parse_loop parse n lines = Some stmts ->
    List.length stmts <= List.length lines.
Proof.
  induction n as [|n IH]; intros [|raw rest] stmts;
    try (intros [= <-]; cbn [List.length]; lia); try discriminate.
  cbn [JavaParser.parse_loop List.length].
  assert (Hskip : forall l, JavaParser.parse_loop parse n rest = Some l ->
                            List.length l <= S (List.length rest)).
  { intros l E. apply IH in E. lia. }
  destruct (_ || _); [apply Hskip|].
  destruct (re_match JavaParser.ASSIGNMENT_REGEX _); [counted IH; lia|].
  destruct (re_match JavaParser.FUNC_DEF_REGEX _).
  { block Eb. apply java_block_from_bounds in Eb. counted IH. lia. }
  destruct (re_match JavaParser.FOR_LOOP_REGEX _).
  { destruct (JavaParser._convert_java_for_to_range _ _ _ _ _); [|discriminate].
    block Eb. apply java_block_from_bounds in Eb. counted IH. lia. }
  destruct (re_match JavaParser.WHILE_LOOP_REGEX _).
  { destruct (JavaParser._parse_expression _); [|discriminate].
    block Eb. apply java_block_from_bounds in Eb. counted IH. lia. }
  destruct (re_match JavaParser.PRINT_REGEX _); [|apply Hskip].
  counted IH; lia.
Qed.

Lemma java_statement_count (code : text) :
  List.length (statements (JavaParser.parse_java code))
  <= List.length (split_char nl (strip code)).
Proof.
  unfold JavaParser.parse_java, JavaParser.parse_fuel.
  cbn [JavaParser.parse_java_fuel].
  destruct (JavaParser.parse_loop _ _ _) as [stmts|] eqn:E;
    [|cbn [statements List.length]; lia].
  cbn [statements]. exact (java_parse_loop_count _ _ _ E).
Qed.

End CountFacts.

(** * The interactive program *)
Module InteractiveFacts.
Import Main Interactive RoundTripFacts.

Lemma read_lines_spec (stdin : list text) :
  forall events lines rest,
    read_lines stdin = (events, lines, rest) ->
    forallb Reference.nonempty lines = true
    /\ (stdin = lines ++ [] :: rest \/ (stdin = lines /\ rest = []))
    /\ events = repeat (Asked []) (S (List.length lines)).
Proof.
  induction stdin as [|line stdin IH]; intros events lines rest.
  - cbn [read_lines]. intros [= <- <- <-]. repeat split. right. split; reflexivity.
  - cbn [read_lines]. destruct line as [|c line].
    + intros [= <- <- <-]. repeat split. left. reflexivity.
    + destruct (read_lines stdin) as [[ev ls] r] eqn:E.
      intros [= <- <- <-]. destruct (IH _ _ _ eq_refl) as (Hn & Hs & He).
      split; [exact Hn|]. split.
      * destruct Hs as [-> | [-> ->]]; [left | right]; auto.
      * rewrite He. reflexivity.
Qed.

Lemma read_lines_run (lines rest : list text) :
  forallb Reference.nonempty lines = true ->
  read_lines (lines ++ [] :: rest)
  = (repeat (Asked []) (S (List.length lines)), lines, rest)
  /\ read_lines lines = (repeat (Asked []) (S (List.length lines)), lines, []).
Proof.
  induction lines as [|line lines IH]; intros H; [split; reflexivity|].
  cbn [forallb] in H. apply andb_true_iff in H as [Hl H].
  destruct (IH H) as [IH1 IH2]. destruct line as [|c line]; [discriminate|].
  cbn [app read_lines]. rewrite IH1, IH2. split; reflexivity.
Qed.

Lemma calls_app (a b : list event) : calls (a ++ b) = calls a ++ calls b.
Proof. unfold calls. apply flat_map_app. Qed.

Lemma calls_repeat_asked (n : nat) (prompt : text) :
  calls (repeat (Asked prompt) n) = [].
Proof. induction n; [reflexivity | exact IHn]. Qed.

Lemma ask_language_spec (prompt kind : text) (stdin : list text) :
  forall events r,
    ask_language prompt kind stdin = (events, r) ->
    calls events = []
    /\ match r with
       | Some (lang, rest) =>
           exists skipped answer,
             stdin = skipped ++ answer :: rest
             /\ lang = lower answer
             /\ In lang SUPPORTED_LANGUAGES
             /\ Forall (fun a => ~ In (lower a) SUPPORTED_LANGUAGES) skipped
       | None => Forall (fun a => ~ In (lower a) SUPPORTED_LANGUAGES) stdin
       end.
Proof.
  induction stdin as [|answer stdin IH]; intros events r.
  - cbn [ask_language]. intros [= <- <-]. split; [reflexivity | constructor].
  - cbn [ask_language].
    destruct (existsb (text_eqb (lower answer)) SUPPORTED_LANGUAGES) eqn:E.
    + intros [= <- <-]. split; [reflexivity|].
      exists [], answer. repeat split; [|constructor].
      apply existsb_exists in E as (k & Hk & Ek).
      apply text_eqb_spec in Ek. subst k. exact Hk.
    + destruct (ask_language prompt kind stdin) as [ev r'] eqn:Ea.
      intros [= <- <-]. destruct (IH _ _ eq_refl) as [Hc Hr].
      split; [exact Hc|].
      assert (Hno : ~ In (lower answer) SUPPORTED_LANGUAGES).
      { intros Hin. assert (existsb (text_eqb (lower answer)) SUPPORTED_LANGUAGES
                            = true); [|congruence].
        apply existsb_exists. exists (lower answer).
        split; [exact Hin | apply text_eqb_refl]. }
      destruct r' as [[lang rest]|].
      * destruct Hr as (skipped & a & -> & Hl & Hin & Hsk).
        exists (answer :: skipped), a. repeat split; try assumption.
        constructor; assumption.
      * constructor; assumption.
Qed.

Section ProgramFacts.
Variable JavaParser_parse_java : text -> Node.
Variable CppGenerator_visit : Node -> text.
Variable JsGenerator_visit : Node -> text.

Let try_block := convert_and_print JavaParser_parse_java CppGenerator_visit.

Lemma convert_and_print_calls (source_lang target_lang source_code : text) :
  calls (try_block source_lang target_lang source_code)
  = [Parse source_lang; Visit target_lang].
Proof.
  unfold try_block, convert_and_print.
  destruct (text_eqb source_lang (txt "java"));
    (match goal with
     | |- context [match ?v with Ok _ => _ | Raise _ => _ end] => destruct v
     end; reflexivity).
Qed.

(** The [try] statement of [main] against [convert_code]. *)
Lemma convert_and_print_agrees (source_lang target_lang source_code : text) :
  In source_lang SUPPORTED_LANGUAGES -> In target_lang SUPPORTED_LANGUAGES ->
  let r := convert_code JavaParser_parse_java CppGenerator_visit JsGenerator_visit
             source_code source_lang target_lang in
  let events := try_block source_lang target_lang source_code in
  calls events = fst r
  /\ match snd r with
     | Ok target_code =>
         In (Printed target_code) events /\ forall e, ~ In (Traceback e) events
     | Raise e => In (Traceback e) events
     end.
Proof.
  intros Hs Ht r events. split.
  - unfold events. rewrite convert_and_print_calls. unfold r.
    cbn [In SUPPORTED_LANGUAGES] in Hs, Ht.
    destruct Hs as [<- | [<- | [<- | []]]];
      destruct Ht as [<- | [<- | [<- | []]]];
      unfold convert_code, bind, calling, ret, raise;
      cbn [text_eqb txt list_ascii_of_string Ascii.eqb Bool.eqb andb];
      try reflexivity;
      (match goal with
       | |- context [PythonGenerator.visit ?n] =>
           destruct (PythonGenerator.visit n)
       end; reflexivity).
  - unfold events, r, try_block, convert_and_print.
    cbn [In SUPPORTED_LANGUAGES] in Hs, Ht.
    destruct Hs as [<- | [<- | [<- | []]]];
      destruct Ht as [<- | [<- | [<- | []]]];
      unfold convert_code, bind, calling, ret, raise;
      cbn [text_eqb txt list_ascii_of_string Ascii.eqb Bool.eqb andb fst snd];
      try (match goal with
           | |- context [PythonGenerator.visit ?n] =>
               destruct (PythonGenerator.visit n)
           end);
      cbn [fst snd app In];
      try (split; [tauto |];
           intros e H; decompose [or] H; try discriminate; contradiction);
      tauto.
Qed.

Lemma main_spec (stdin : list text) :
  forall events out,
    main JavaParser_parse_java CppGenerator_visit stdin = (events, out) ->
    match out with
    | Returned =>
        exists source_lang target_lang,
          In source_lang SUPPORTED_LANGUAGES
          /\ In target_lang SUPPORTED_LANGUAGES
          /\ source_lang <> target_lang
          /\ calls events = [Parse source_lang; Visit target_lang]
    | SystemExit status => (status = 0%Z \/ status = 1%Z) /\ calls events = []
    | EOFError => calls events = []
    end.
Proof.
  intros events out. unfold main.
  destruct (ask_language _ (txt "Source") stdin) as [asked1 r1] eqn:E1.
  apply ask_language_spec in E1 as [C1 H1].
  destruct r1 as [[source_lang stdin1]|].
  2:{ intros H; apply pair_equal_spec in H as [<- <-]. rewrite calls_app, C1. reflexivity. }
  destruct (ask_language _ (txt "Target") stdin1) as [asked2 r2] eqn:E2.
  apply ask_language_spec in E2 as [C2 H2].
  destruct r2 as [[target_lang stdin2]|].
  2:{ intros H; apply pair_equal_spec in H as [<- <-]. rewrite !calls_app, C1, C2. reflexivity. }
  destruct H1 as (_ & _ & _ & _ & Hs & _).
  destruct H2 as (_ & _ & _ & _ & Ht & _).
  destruct (text_eqb source_lang target_lang) eqn:Eq.
  { intros H; apply pair_equal_spec in H as [<- <-]. rewrite !calls_app, C1, C2. split; [left|]; reflexivity. }
  unfold get_multiline_input.
  destruct (read_lines stdin2) as [[ev lines] rest] eqn:Er.
  apply read_lines_spec in Er as (_ & _ & ->).
  destruct (strip (join [nl] lines)).
  { intros H; apply pair_equal_spec in H as [<- <-]. rewrite !calls_app, C1, C2.
    cbn [calls flat_map app]. fold (calls (repeat (Asked []) (S (List.length lines)))).
    rewrite calls_repeat_asked. split; [right|]; reflexivity. }
  intros H; apply pair_equal_spec in H as [<- <-]. exists source_lang, target_lang.
  repeat split; try assumption.
  - intros ->. rewrite text_eqb_refl in Eq. discriminate.
  - rewrite !calls_app, C1, C2.
    cbn [calls flat_map app]. fold (calls (repeat (Asked []) (S (List.length lines)))).
    rewrite calls_repeat_asked.
    fold (calls (convert_and_print JavaParser_parse_java CppGenerator_visit
                   source_lang target_lang (join [nl] lines))).
    apply convert_and_print_calls.
Qed.

End ProgramFacts.

End InteractiveFacts.

(** * Statements of the brace languages *)
Module StatementFacts.
Import ReFacts ParserFacts MatchFacts RoundTripFacts ExprFacts Reference.

(** The characters that the number pattern can match. *)
Lemma number_chars (s : text) (m : groups) :
  re_fullmatch NUMBER_REGEX s = Some m ->
  forallb (fun c => is_digit c || Ascii.eqb c "-"%char || Ascii.eqb c "."%char) s
  = true.
Proof.
  intros H. apply re_fullmatch_sound in H.
  unfold NUMBER_REGEX in H. expose_regex H.
  set (cls := fun c => is_digit c || Ascii.eqb c "-"%char || Ascii.eqb c "."%char).
  assert (Hd : forall c, is_digit c = true -> cls c = true)
    by (intros c Hc; unfold cls; rewrite Hc; reflexivity).
  assert (Hds : forall a, forallb is_digit a = true -> forallb cls a = true)
    by (intros a; apply forallb_impl; exact Hd).
  inv_matches;
    repeat (rewrite ?forallb_app; cbn [forallb app txt list_ascii_of_string]);
    repeat match goal with
           | H : forallb is_digit (_ :: _) = true |- _ =>
               cbn [forallb] in H; apply andb_true_iff in H as [? ?]
           end;
    repeat (apply andb_true_iff; split); try reflexivity; auto.
Qed.

Lemma number_needs_no_semicolon (a : text) :
  re_fullmatch NUMBER_REGEX (a ++ txt ";") = None.
Proof.
  destruct (re_fullmatch NUMBER_REGEX (a ++ txt ";")) as [m|] eqn:E;
    [|reflexivity].
  apply number_chars in E. rewrite forallb_app in E.
  apply andb_true_iff in E as [_ E]. discriminate E.
Qed.

Lemma closed_atom_solid (a : text) :
  is_atom a = true ->
  starts_solid (a ++ txt ";") /\ ends_solid (a ++ txt ";").
Proof.
  intros H. split.
  - apply starts_solid_app, atom_starts_solid, H.
  - exists a, ";"%char. split; reflexivity.
Qed.

Lemma closed_atom_free (q : ascii) (a : text) :
  is_atom a = true -> is_not q ";"%char = true ->
  (forall c, atom_char c = true -> is_not q c = true) ->
  forallb (is_not q) (a ++ txt ";") = true.
Proof.
  intros H Hq Hc. rewrite forallb_app. cbn [txt list_ascii_of_string forallb].
  rewrite Hq. unfold is_atom in H. apply andb_true_iff in H as [_ H].
  rewrite (@forallb_impl atom_char (is_not q) a Hc H). reflexivity.
Qed.

Lemma atom_is_not (q : ascii) :
  atom_char q = false -> forall c, atom_char c = true -> is_not q c = true.
Proof.
  intros Hq c Hc. unfold is_not. destruct (Ascii.eqb c q) eqn:E; [|reflexivity].
  apply Ascii.eqb_eq in E. congruence.
Qed.

(** The value of an assignment that ends in a semicolon: no rule of the
    expression parser applies before the last one. *)
Lemma cpp_closed_atom_expression (a : text) :
  is_atom a = true ->
  CppParser._parse_expression (a ++ txt ";") = Some (VariableNode (a ++ txt ";")).
Proof.
  intros H. destruct (closed_atom_solid a H) as [Hs He].
  pose proof (@closed_atom_free " "%char a H eq_refl (atom_is_not " "%char eq_refl))
    as Hsp.
  pose proof (@closed_atom_free "("%char a H eq_refl (atom_is_not "("%char eq_refl))
    as Hpa.
  unfold CppParser._parse_expression, CppParser.expr_fuel.
  cbn [CppParser._parse_expression_fuel].
  rewrite (strip_solid Hs He).
  assert (Hc : forall ops, CppParser.find_comparison ops (a ++ txt ";") = None).
  { induction ops as [|o ops IH]; [reflexivity|].
    cbn [CppParser.find_comparison]. cbn [txt list_ascii_of_string app] in *.
    rewrite partition_absent by exact Hsp. exact IH. }
  rewrite Hc, (cpp_pow_needs_paren _ Hpa).
  unfold CppParser.find_addition, contains. cbn [txt list_ascii_of_string app] in *.
  rewrite partition_absent by exact Hsp. cbn [andb].
  unfold CppParser.parse_atom, CppParser.quoted.
  destruct a as [|c a]; [discriminate|].
  unfold is_atom in H. cbn [nonempty andb forallb] in H.
  apply andb_true_iff in H as [Hc0 _].
  cbn [app startswith]. rewrite (@atom_not_dq c Hc0). cbn [andb].
  change (c :: a ++ [";"%char]) with ((c :: a) ++ txt ";").
  rewrite number_needs_no_semicolon. cbn [found].
  destruct (found _); reflexivity.
Qed.

Lemma java_closed_atom_expression (a : text) :
  is_atom a = true ->
  JavaParser._parse_expression (a ++ txt ";") = Some (VariableNode (a ++ txt ";")).
Proof.
  intros H. destruct (closed_atom_solid a H) as [Hs He].
  pose proof (@closed_atom_free " "%char a H eq_refl (atom_is_not " "%char eq_refl))
    as Hsp.
  pose proof (@closed_atom_free "("%char a H eq_refl (atom_is_not "("%char eq_refl))
    as Hpa.
  unfold JavaParser._parse_expression, JavaParser.expr_fuel.
  cbn [JavaParser._parse_expression_fuel].
  rewrite (strip_solid Hs He).
  assert (Hc : forall ops, JavaParser.find_comparison ops (a ++ txt ";") = None).
  { induction ops as [|o ops IH]; [reflexivity|].
    cbn [JavaParser.find_comparison]. cbn [txt list_ascii_of_string app] in *.
    rewrite partition_absent by exact Hsp. exact IH. }
  rewrite Hc, (java_pow_needs_paren _ Hpa).
  unfold JavaParser.find_addition, contains. cbn [txt list_ascii_of_string app] in *.
  rewrite partition_absent by exact Hsp. cbn [andb].
  unfold JavaParser.parse_atom, JavaParser.quoted.
  destruct a as [|c a]; [discriminate|].
  unfold is_atom in H. cbn [nonempty andb forallb] in H.
  apply andb_true_iff in H as [Hc0 _].
  cbn [app startswith]. rewrite (@atom_not_dq c Hc0), (@atom_not_sq c Hc0).
  cbn [andb orb].
  change (c :: a ++ [";"%char]) with ((c :: a) ++ txt ";").
  rewrite number_needs_no_semicolon. cbn [found].
  destruct (found _); reflexivity.
Qed.



(** The assignment pattern of the brace-language parsers on a declaration
    of an int. *)
Lemma cpp_assignment_match (x rhs : text) :
  is_name x = true -> starts_solid rhs -> forallb is_dot rhs = true ->
  re_match CppParser.ASSIGNMENT_REGEX (txt "int " ++ x ++ txt " = " ++ rhs)
  = Some [(2, rhs); (1, x)].
Proof.
  intros Hx (r0 & r & -> & Hr0) Hdot.
  unfold is_name in Hx. destruct x as [|c x]; [discriminate|].
  cbn [nonempty andb forallb] in Hx. apply andb_true_iff in Hx as [Hc Hx].
  cbn [forallb] in Hdot. apply andb_true_iff in Hdot as [Hd0 Hd].
  unfold re_match, CppParser.ASSIGNMENT_REGEX.
  cbv [cat lit sp sp1 word1].
  cbn [rmatch app txt list_ascii_of_string startswith skipn List.length].
  rewrite !Ascii.eqb_refl. cbn [andb].
  change (is_space " "%char) with true. cbv iota.
  rewrite star_greedy_stop by (apply word_not_space; exact Hc).
  rewrite Hc.
  match goal with
  | |- orelse ?first _ = Some ?res => assert (E : first = Some res)
  end.
  { apply star_greedy_run; [exact Hx | reflexivity |].
    apply (@star_greedy_run _ is_space [" "%char]); [reflexivity | reflexivity |].
    cbn [startswith skipn List.length]. rewrite Ascii.eqb_refl. cbn [andb].
    apply (@star_greedy_run _ is_space [" "%char]); [reflexivity | exact Hr0 |].
    rewrite Hd0. apply star_greedy_all; [exact Hd|].
    rewrite consumed_all.
    change (c :: x ++ " "%char :: "="%char :: " "%char :: r0 :: r)
      with ((c :: x) ++ " "%char :: "="%char :: " "%char :: r0 :: r).
    rewrite consumed_app. reflexivity. }
  rewrite E. reflexivity.
Qed.

Lemma java_assignment_match (x rhs : text) :
  is_name x = true -> starts_solid rhs -> forallb is_dot rhs = true ->
  re_match JavaParser.ASSIGNMENT_REGEX (txt "int " ++ x ++ txt " = " ++ rhs)
  = Some [(2, rhs); (1, x)].
Proof. exact (@cpp_assignment_match x rhs). Qed.



Lemma declaration_line (x a : text) :
  is_name x = true -> is_atom a = true ->
  let line := txt "int " ++ x ++ txt " = " ++ a ++ txt ";" in
  strip line = line /\ split_char nl line = [line].
Proof.
  intros Hx Ha line. split.
  - apply strip_solid.
    + exists "i"%char, (txt "nt " ++ x ++ txt " = " ++ a ++ txt ";").
      split; reflexivity.
    + exists (txt "int " ++ x ++ txt " = " ++ a), ";"%char.
      split; [|reflexivity]. unfold line. rewrite <- !app_assoc. reflexivity.
  - apply split_char_absent. unfold line.
    unfold is_name in Hx. apply andb_true_iff in Hx as [_ Hx].
    rewrite !forallb_app.
    change (is_not nl) with is_dot.
    rewrite (@forallb_impl is_word is_dot x word_is_dot Hx).
    rewrite (atom_all_dot _ Ha). reflexivity.
Qed.

Lemma cpp_declaration (x a : text) :
  is_name x = true -> is_atom a = true ->
  CppParser.parse_cpp (txt "int " ++ x ++ txt " = " ++ a ++ txt ";")
  = ProgramNode [AssignmentNode (VariableNode x) (VariableNode (a ++ txt ";"))].
Proof.
  intros Hx Ha. destruct (declaration_line x a Hx Ha) as [Hstrip Hsplit].
  unfold CppParser.parse_cpp, CppParser.parse_fuel.
  cbn [CppParser.parse_cpp_fuel]. rewrite Hstrip, Hsplit.
  cbn [List.length CppParser.parse_loop]. rewrite Hstrip.
  cbn [txt list_ascii_of_string app startswith orb].
  change (Ascii.eqb "/"%char "i"%char) with false.
  change (Ascii.eqb "#"%char "i"%char) with false.
  change (Ascii.eqb "u"%char "i"%char) with false.
  cbn [andb orb].
  pose proof (@cpp_assignment_match x (a ++ txt ";") Hx
                (proj1 (closed_atom_solid a Ha))) as Hm.
  cbn [txt list_ascii_of_string app] in Hm. rewrite Hm.
  2:{ rewrite forallb_app, (atom_all_dot _ Ha). reflexivity. }
  cbn [group lookup Nat.eqb].
  pose proof (cpp_closed_atom_expression a Ha) as He.
  cbn [txt list_ascii_of_string app] in He. rewrite He. reflexivity.
Qed.

Lemma java_declaration (x a : text) :
  is_name x = true -> is_atom a = true ->
  JavaParser.parse_java (txt "int " ++ x ++ txt " = " ++ a ++ txt ";")
  = ProgramNode [AssignmentNode (VariableNode x) (VariableNode (a ++ txt ";"))].
Proof.
  intros Hx Ha. destruct (declaration_line x a Hx Ha) as [Hstrip Hsplit].
  unfold JavaParser.parse_java, JavaParser.parse_fuel.
  cbn [JavaParser.parse_java_fuel]. rewrite Hstrip, Hsplit.
  cbn [List.length JavaParser.parse_loop]. rewrite Hstrip.
  cbn [txt list_ascii_of_string app startswith orb].
  change (Ascii.eqb "/"%char "i"%char) with false.
  cbn [andb orb].
  pose proof (@java_assignment_match x (a ++ txt ";") Hx
                (proj1 (closed_atom_solid a Ha))) as Hm.
  cbn [txt list_ascii_of_string app] in Hm. rewrite Hm.
  2:{ rewrite forallb_app, (atom_all_dot _ Ha). reflexivity. }
  cbn [group lookup Nat.eqb].
  pose proof (java_closed_atom_expression a Ha) as He.
  cbn [txt list_ascii_of_string app] in He. rewrite He. reflexivity.
Qed.



Lemma java_render_assignment (x v : text) :
  render JavaGenerator
    (ProgramNode [AssignmentNode (VariableNode x) (VariableNode v)])
  = txt "public class ConvertedCode {" ++ [nl]
    ++ txt "    public static void main(String[] args) {" ++ [nl]
    ++ txt "        int " ++ x ++ txt " = " ++ v ++ txt ";" ++ [nl]
    ++ txt "    }" ++ [nl] ++ txt "}".
Proof.
  unfold render. cbn [visit fst]. unfold java_class_text.
  change (_make_indent 1) with (txt "    ").
  change (_make_indent 0) with (@nil ascii).
  cbn [map join app txt list_ascii_of_string].
  repeat (progress (rewrite <- ?app_assoc; cbn [app])).
  reflexivity.
Qed.



(** ** A print statement of Java *)

Lemma java_assignment_none (rest : text) :
  re_match JavaParser.ASSIGNMENT_REGEX (txt "System." ++ rest) = None.
Proof.
  destruct (re_match _ _) as [m|] eqn:E; [exfalso | reflexivity].
  apply re_match_sound in E as (a & s' & E & M).
  unfold JavaParser.ASSIGNMENT_REGEX in M. expose_regex M. inv_matches;
    rewrite <- ?app_assoc in E; cbn [txt list_ascii_of_string app] in E;
    [discriminate E|].
  match goal with
  | Hs : forallb is_space ?ws = true, Hw : forallb is_word (?c :: ?w) = true,
    E : _ = ?c :: ?w ++ ?ws ++ ?tail |- _ =>
      change (txt "System" ++ "."%char :: rest = (c :: w) ++ ws ++ tail) in E;
      destruct ws as [|w0 ws]; cbn [app forallb] in E, Hs;
      [ apply (@span_unique is_word (txt "System") (c :: w) "."%char "="%char
                 _ _ eq_refl Hw eq_refl eq_refl) in E;
        destruct E as (_ & E & _); discriminate E
      | apply andb_true_iff in Hs as [Hw0 _];
        apply (@span_unique is_word (txt "System") (c :: w) "."%char w0
                 _ _ eq_refl Hw eq_refl (space_not_word _ Hw0)) in E;
        destruct E as (_ & E & _); subst w0; discriminate Hw0 ]
  end.
Qed.



(** A greedy repetition gives back the characters after the last closing
    parenthesis. *)
Lemma star_greedy_last A p e (k : text -> option A) r :
  forallb p e = true -> p ")"%char = true -> p ";"%char = true ->
  k (txt ");") = Some r -> k (txt ";") = None -> k [] = None ->
  star_greedy p (e ++ txt ");") k = Some r.
Proof.
  intros He Hp Hs Hk Hk1 Hk0. induction e as [|c e IH].
  - cbn [app txt list_ascii_of_string star_greedy] in *.
    rewrite Hp, Hs, Hk0, Hk1. exact Hk.
  - cbn [forallb] in He. apply andb_true_iff in He as [Hc He].
    cbn [app star_greedy]. rewrite Hc, (IH He). reflexivity.
Qed.

Lemma java_print_match (e : text) :
  forallb is_dot e = true ->
  re_match JavaParser.PRINT_REGEX (txt "System.out.println(" ++ e ++ txt ");")
  = Some [(1, e)].
Proof.
  intros He. unfold re_match, JavaParser.PRINT_REGEX. cbv [cat lit sp].
  change (txt "System.out.println(" ++ e ++ txt ");")
    with (txt "System.out.println" ++ "("%char :: e ++ txt ");").
  cbn [rmatch]. rewrite startswith_app, skipn_app_exact.
  rewrite star_greedy_stop by reflexivity.
  cbn [startswith txt list_ascii_of_string skipn List.length].
  rewrite Ascii.eqb_refl. cbn [andb].
  apply star_greedy_last; try reflexivity; [exact He|].
  cbn [startswith txt list_ascii_of_string]. rewrite Ascii.eqb_refl.
  cbn [andb]. rewrite consumed_app. reflexivity.
Qed.

Lemma java_print_line (e : text) :
  forallb is_dot e = true ->
  let line := txt "System.out.println(" ++ e ++ txt ");" in
  strip line = line /\ split_char nl line = [line].
Proof.
  intros He line. split.
  - apply strip_solid.
    + exists "S"%char, (txt "ystem.out.println(" ++ e ++ txt ");").
      split; reflexivity.
    + exists (txt "System.out.println(" ++ e ++ txt ")"), ";"%char.
      split; [|reflexivity]. unfold line. rewrite <- !app_assoc. reflexivity.
  - apply split_char_absent. unfold line. change (is_not nl) with is_dot.
    rewrite !forallb_app, He. reflexivity.
Qed.

Lemma java_no_header (rest : text) :
  re_match JavaParser.FUNC_DEF_REGEX ("S"%char :: "y"%char :: rest) = None
  /\ re_match JavaParser.FOR_LOOP_REGEX ("S"%char :: "y"%char :: rest) = None
  /\ re_match JavaParser.WHILE_LOOP_REGEX ("S"%char :: "y"%char :: rest) = None.
Proof. repeat split; vm_compute; reflexivity. Qed.

Lemma java_print_statement (e : text) (n : Node) :
  forallb is_dot e = true ->
  JavaParser._parse_expression e = Some n ->
  JavaParser.parse_java (txt "System.out.println(" ++ e ++ txt ");")
  = ProgramNode [PrintNode n].
Proof.
  intros He Hn. destruct (java_print_line e He) as [Hstrip Hsplit].
  unfold JavaParser.parse_java, JavaParser.parse_fuel.
  cbn [JavaParser.parse_java_fuel]. rewrite Hstrip, Hsplit.
  cbn [List.length JavaParser.parse_loop]. rewrite Hstrip.
  change (txt "System.out.println(" ++ e ++ txt ");")
    with (txt "System." ++ txt "out.println(" ++ e ++ txt ");").
  rewrite java_assignment_none.
  cbn [txt list_ascii_of_string app startswith orb].
  change (Ascii.eqb "/"%char "S"%char) with false. cbn [andb].
  match goal with
  | |- context [re_match JavaParser.FUNC_DEF_REGEX ("S"%char :: "y"%char :: ?rest)] =>
      destruct (java_no_header rest) as (-> & -> & ->)
  end.
  change ("S"%char :: "y"%char :: "s"%char :: "t"%char :: "e"%char :: "m"%char
          :: "."%char :: "o"%char :: "u"%char :: "t"%char :: "."%char
          :: "p"%char :: "r"%char :: "i"%char :: "n"%char :: "t"%char
          :: "l"%char :: "n"%char :: "("%char :: e ++ [")"%char; ";"%char])
    with (txt "System.out.println(" ++ e ++ txt ");").
  rewrite (java_print_match e He). cbn [group lookup Nat.eqb].
  rewrite java_expr_strip, Hn. reflexivity.
Qed.



(** ** An output statement of C++ *)

Lemma cpp_assignment_none (rest : text) :
  re_match CppParser.ASSIGNMENT_REGEX (txt "cout <<" ++ rest) = None.
Proof.
  destruct (re_match _ _) as [m|] eqn:E; [exfalso | reflexivity].
  apply re_match_sound in E as (a & s' & E & M).
  unfold CppParser.ASSIGNMENT_REGEX in M. expose_regex M. inv_matches;
    rewrite <- ?app_assoc in E; cbn [txt list_ascii_of_string app] in E;
    [discriminate E|].
  match goal with
  | Hs : forallb is_space ?ws = true, Hw : forallb is_word (?c :: ?w) = true,
    E : _ = ?c :: ?w ++ ?ws ++ ?tail |- _ =>
      change (txt "cout" ++ " "%char :: txt "<<" ++ rest = (c :: w) ++ ws ++ tail)
        in E;
      destruct ws as [|w0 ws]; cbn [app forallb] in E, Hs;
      [ apply (@span_unique is_word (txt "cout") (c :: w) " "%char "="%char
                 _ _ eq_refl Hw eq_refl eq_refl) in E;
        destruct E as (_ & E & _); discriminate E
      | apply andb_true_iff in Hs as [Hw0 Hs];
        apply (@span_unique is_word (txt "cout") (c :: w) " "%char w0
                 _ _ eq_refl Hw eq_refl (space_not_word _ Hw0)) in E;
        destruct E as (_ & _ & E);
        destruct ws as [|w1 ws]; cbn [app forallb txt list_ascii_of_string] in E, Hs;
        [ discriminate E | injection E as <- _; discriminate Hs ] ]
  end.
Qed.

Lemma cpp_no_header (rest : text) :
  re_match CppParser.FUNC_DEF_REGEX ("c"%char :: rest) = None
  /\ re_match CppParser.FOR_LOOP_REGEX ("c"%char :: rest) = None
  /\ re_match CppParser.WHILE_LOOP_REGEX ("c"%char :: rest) = None.
Proof. repeat split; vm_compute; reflexivity. Qed.

(** The output pattern takes everything up to the semicolon as the
    expression: the part of the pattern for [endl] matches the empty
    text. *)
Lemma cpp_print_match (r0 : ascii) (r : text) :
  is_space r0 = false -> forallb (is_not ";"%char) (r0 :: r) = true ->
  re_match CppParser.PRINT_REGEX (txt "cout << " ++ (r0 :: r) ++ txt ";")
  = Some [(1, r0 :: r)].
Proof.
  intros Hr0 Hr. cbn [forallb] in Hr. apply andb_true_iff in Hr as [Hn0 Hr].
  unfold re_match, CppParser.PRINT_REGEX. cbv [cat lit sp not_ch].
  cbn [rmatch app txt list_ascii_of_string startswith skipn List.length].
  change (Ascii.eqb "s"%char "c"%char) with false.
  rewrite !Ascii.eqb_refl. cbn [andb orelse].
  apply (@star_greedy_run _ is_space [" "%char]); [reflexivity | reflexivity |].
  cbn [startswith skipn List.length]. rewrite !Ascii.eqb_refl. cbn [andb].
  apply (@star_greedy_run _ is_space [" "%char]); [reflexivity | exact Hr0 |].
  rewrite Hn0.
  apply star_greedy_run; [exact Hr | reflexivity |].
  cbn [star_greedy startswith]. change (is_space ";"%char) with false.
  change (Ascii.eqb "<"%char ";"%char) with false. cbn [andb orelse].
  change (r0 :: r ++ [";"%char]) with ((r0 :: r) ++ [";"%char]).
  rewrite consumed_app. reflexivity.
Qed.



Lemma atom_not_call (l a t : text) :
  forallb atom_char l = true -> is_atom a = true ->
  startswith (l ++ txt "(") (a ++ " "%char :: t) = false.
Proof.
  intros Hl Ha. destruct (startswith _ _) eqn:E; [exfalso | reflexivity].
  apply startswith_split in E. rewrite <- app_assoc in E.
  cbn [txt list_ascii_of_string app] in E.
  unfold is_atom in Ha. apply andb_true_iff in Ha as [_ Ha].
  apply (@span_unique atom_char a l " "%char "("%char _ _ Ha Hl eq_refl eq_refl)
    in E.
  destruct E as (_ & E & _). discriminate E.
Qed.

(** The sum of two operands, as the output statement builds it. *)
Lemma cpp_sum_expression (a b : text) :
  is_atom a = true -> is_atom b = true ->
  CppParser._parse_expression (a ++ txt " + " ++ b)
  = Some (MathOpNode (txt "+")
            (if found (re_fullmatch NUMBER_REGEX a) then NumberLiteralNode a
             else VariableNode a)
            (if found (re_fullmatch NUMBER_REGEX b) then NumberLiteralNode b
             else VariableNode b)).
Proof.
  intros Ha Hb.
  assert (Hrec : forall n t, is_atom t = true -> List.length t < n ->
            CppParser._parse_expression_fuel n (strip t)
            = CppParser._parse_expression t).
  { intros n t Ht Hlt. rewrite (strip_atom _ Ht).
    unfold CppParser._parse_expression, CppParser.expr_fuel.
    apply cpp_expr_fuel_enough; lia. }
  unfold CppParser._parse_expression at 1. unfold CppParser.expr_fuel.
  cbn [CppParser._parse_expression_fuel].
  rewrite strip_solid;
    [| apply starts_solid_app, atom_starts_solid, Ha
     | rewrite !app_assoc; apply ends_solid_app, atom_ends_solid, Hb].
  change (CppParser.find_comparison CppParser.comparison_ops (a ++ txt " + " ++ b))
    with (PythonParser.find_comparison PythonParser.comparison_ops
            (a ++ txt " " ++ txt "+" ++ txt " " ++ b)).
  rewrite (@find_comparison_spaced PythonParser.comparison_ops (txt "+") a b
             eq_refl eq_refl Ha Hb).
  cbn [existsb text_eqb PythonParser.comparison_ops txt list_ascii_of_string
         Ascii.eqb Bool.eqb andb orb].
  rewrite cpp_pow_needs_paren.
  2:{ rewrite forallb_app, (atom_no_paren _ Ha). cbn [app forallb andb].
      rewrite (atom_no_paren _ Hb). reflexivity. }
  unfold CppParser.find_addition, contains.
  cbn [txt list_ascii_of_string app].
  change (" "%char :: "+"%char :: " "%char :: b)
    with ((" "%char :: "+"%char :: [" "%char]) ++ b).
  rewrite (@partition_skip " "%char ["+"%char; " "%char] a _ (atom_no_space _ Ha)).
  rewrite partition_here. rewrite app_nil_r.
  pose proof (@atom_not_call (txt "pow") a (txt "+ " ++ b) eq_refl Ha) as Hp.
  cbn [txt list_ascii_of_string app] in Hp. cbn [app]. rewrite Hp.
  cbn [negb andb].
  rewrite (Hrec _ a Ha), (Hrec _ b Hb);
    try (rewrite !length_app; cbn [List.length]; lia).
  rewrite (cpp_atom_expression _ Ha), (cpp_atom_expression _ Hb). reflexivity.
Qed.



Lemma atom_no_angle a : is_atom a = true -> forallb (is_not "<"%char) a = true.
Proof.
  unfold is_atom. intros H. apply andb_true_iff in H as [_ H].
  exact (@forallb_impl atom_char (is_not "<"%char) a
           (atom_is_not "<"%char eq_refl) H).
Qed.

Lemma atom_no_semicolon a : is_atom a = true -> forallb (is_not ";"%char) a = true.
Proof.
  unfold is_atom. intros H. apply andb_true_iff in H as [_ H].
  exact (@forallb_impl atom_char (is_not ";"%char) a
           (atom_is_not ";"%char eq_refl) H).
Qed.

Lemma split_upto_absent (n : nat) (sep s : text) :
  partition sep s = None -> split_upto n sep s = [s].
Proof. intros H. destruct n; cbn [split_upto]; [|rewrite H]; reflexivity. Qed.

Lemma strip_before_space (a : text) :
  is_atom a = true -> strip (a ++ txt " ") = a.
Proof.
  intros H. unfold strip.
  rewrite lstrip_starts_solid by (apply starts_solid_app, atom_starts_solid, H).
  unfold rstrip. rewrite rev_app_distr. cbn [txt list_ascii_of_string rev app lstrip].
  change (is_space " "%char) with true. cbv iota.
  change (rev (lstrip (rev a))) with (rstrip a).
  apply rstrip_ends_solid, atom_ends_solid, H.
Qed.

(** The operands of an output statement with two of them. *)
Lemma chain_parts (a b : text) :
  is_atom a = true -> is_atom b = true ->
  contains (txt "<<") (a ++ txt " << " ++ b) = true
  /\ map strip (split (txt "<<") (a ++ txt " << " ++ b)) = [a; b].
Proof.
  intros Ha Hb.
  assert (Hp : partition (txt "<<") (a ++ txt " << " ++ b)
               = Some (a ++ txt " ", txt " " ++ b)).
  { change (a ++ txt " << " ++ b)
      with (a ++ txt " " ++ (txt "<<") ++ txt " " ++ b).
    rewrite app_assoc.
    cbn [txt list_ascii_of_string].
    rewrite (@partition_skip "<"%char ["<"%char] (a ++ [" "%char])).
    - rewrite partition_here. rewrite app_nil_r. reflexivity.
    - rewrite forallb_app, (atom_no_angle _ Ha). reflexivity. }
  split; [unfold contains; rewrite Hp; reflexivity|].
  unfold split.
  destruct (List.length (a ++ txt " << " ++ b)) as [|n] eqn:El.
  { rewrite !length_app in El. cbn [List.length txt list_ascii_of_string] in El.
    lia. }
  cbn [split_upto]. rewrite Hp.
  rewrite split_upto_absent.
  - cbn [map]. rewrite (strip_before_space _ Ha).
    cbn [txt list_ascii_of_string app].
    rewrite strip_after_space by reflexivity. rewrite (strip_atom _ Hb).
    reflexivity.
  - cbn [txt list_ascii_of_string app].
    apply partition_absent. cbn [forallb]. rewrite (atom_no_angle _ Hb).
    reflexivity.
Qed.

Lemma cpp_output_line (rest : text) :
  forallb is_dot rest = true ->
  let line := txt "cout << " ++ rest ++ txt ";" in
  strip line = line /\ split_char nl line = [line].
Proof.
  intros He line. split.
  - apply strip_solid.
    + exists "c"%char, (txt "out << " ++ rest ++ txt ";"). split; reflexivity.
    + exists (txt "cout << " ++ rest), ";"%char.
      split; [|reflexivity]. unfold line. rewrite <- !app_assoc. reflexivity.
  - apply split_char_absent. unfold line. change (is_not nl) with is_dot.
    rewrite !forallb_app, He. reflexivity.
Qed.

Lemma cpp_output_chain (a b : text) :
  is_atom a = true -> is_atom b = true ->
  CppParser.parse_cpp (txt "cout << " ++ a ++ txt " << " ++ b ++ txt ";")
  = ProgramNode
      [PrintNode
         (MathOpNode (txt "+")
            (if found (re_fullmatch NUMBER_REGEX a) then NumberLiteralNode a
             else VariableNode a)
            (if found (re_fullmatch NUMBER_REGEX b) then NumberLiteralNode b
             else VariableNode b))].
Proof.
  intros Ha Hb.
  set (rest := a ++ txt " << " ++ b).
  assert (Hdot : forallb is_dot rest = true).
  { unfold rest. rewrite !forallb_app, (atom_all_dot _ Ha), (atom_all_dot _ Hb).
    reflexivity. }
  assert (Hsemi : forallb (is_not ";"%char) rest = true).
  { unfold rest. rewrite !forallb_app, (atom_no_semicolon _ Ha),
      (atom_no_semicolon _ Hb). reflexivity. }
  assert (Hsolid : starts_solid rest /\ ends_solid rest).
  { split; [apply starts_solid_app, atom_starts_solid, Ha|].
    unfold rest. rewrite app_assoc. apply ends_solid_app, atom_ends_solid, Hb. }
  change (txt "cout << " ++ a ++ txt " << " ++ b ++ txt ";")
    with (txt "cout << " ++ (a ++ txt " << " ++ b ++ txt ";")).
  replace (a ++ txt " << " ++ b ++ txt ";") with (rest ++ txt ";")
    by (unfold rest; rewrite <- !app_assoc; reflexivity).
  destruct (cpp_output_line rest Hdot) as [Hstrip Hsplit].
  unfold CppParser.parse_cpp, CppParser.parse_fuel.
  cbn [CppParser.parse_cpp_fuel]. rewrite Hstrip, Hsplit.
  cbn [List.length CppParser.parse_loop]. rewrite Hstrip.
  assert (Hnone : re_match CppParser.ASSIGNMENT_REGEX
                     (txt "cout << " ++ rest ++ txt ";") = None)
    by exact (cpp_assignment_none (txt " " ++ rest ++ txt ";")).
  rewrite Hnone.
  destruct Hsolid as [(r0 & r & Er & Hr0) Hend].
  rewrite Er in Hsemi.
  pose proof (@cpp_print_match r0 r Hr0 Hsemi) as Hm. rewrite <- Er in Hm.
  cbn [txt list_ascii_of_string app startswith orb].
  change (Ascii.eqb "/"%char "c"%char) with false.
  change (Ascii.eqb "#"%char "c"%char) with false.
  change (Ascii.eqb "u"%char "c"%char) with false.
  cbn [andb orb].
  match goal with
  | |- context [re_match CppParser.FUNC_DEF_REGEX ("c"%char :: ?t)] =>
      destruct (cpp_no_header t) as (-> & -> & ->)
  end.
  cbn [txt list_ascii_of_string app] in Hm. rewrite Hm.
  cbn [group lookup Nat.eqb].
  rewrite (strip_solid (ex_intro _ r0 (ex_intro _ r (conj Er Hr0))) Hend).
  destruct (chain_parts a b Ha Hb) as [Hc Hparts].
  fold rest in Hc, Hparts.
  change ["<"%char; "<"%char] with (txt "<<").
  rewrite Hc, Hparts. cbn [join].
  change [" "%char; "+"%char; " "%char] with (txt " + ").
  rewrite (cpp_sum_expression a b Ha Hb). reflexivity.
Qed.

End StatementFacts.

(** * Blocks of Python: a header line and an indented body *)
Module BlockFacts.
Import Reference Blocks ReFacts ParserFacts MatchFacts RoundTripFacts.

Lemma indentation_spaces (width : nat) :
  forallb is_space (indentation width) = true.
Proof. induction width as [|w IH]; [reflexivity | exact IH]. Qed.

Lemma indentation_no_newline (width : nat) :
  forallb (is_not nl) (indentation width) = true.
Proof. induction width as [|w IH]; [reflexivity | exact IH]. Qed.

Lemma lstrip_after_spaces (ws s : text) :
  forallb is_space ws = true -> lstrip (ws ++ s) = lstrip s.
Proof.
  induction ws as [|c ws IH]; [reflexivity|].
  cbn [forallb app lstrip]. intros H. apply andb_true_iff in H as [-> H].
  exact (IH H).
Qed.

Lemma strip_after_spaces (ws s : text) :
  forallb is_space ws = true -> strip (ws ++ s) = strip s.
Proof. intros H. unfold strip. rewrite (@lstrip_after_spaces ws s H). reflexivity. Qed.

Lemma indent_of_spaces (ws s : text) :
  forallb is_space ws = true -> starts_solid s ->
  indent_of (ws ++ s) = List.length ws.
Proof.
  intros Hws Hs. unfold indent_of.
  rewrite (@lstrip_after_spaces ws s Hws), (@lstrip_starts_solid s Hs).
  rewrite length_app. lia.
Qed.

(** A well-formed statement after any whitespace: the loop appends its
    assignment node and goes on. *)
Lemma parse_indented_assignment (parse : text -> option Node) (k : nat)
  (ws : text) (st : assignment) (rest : list text) :
  forallb is_space ws = true -> well_formed st = true ->
  PythonParser.parse_loop parse (S k) ((ws ++ source_line st) :: rest)
  = (stmts <- PythonParser.parse_loop parse k rest ;;
     Some (node_of st :: stmts)).
Proof.
  intros Hws Hwf. destruct (node_of_value st) as (rhs & value & Hsrc & Hnode).
  destruct (@parse_right_hand_side st rhs value Hwf Hsrc Hnode) as (Hs & He & Hd & Hv).
  destruct (@source_line_shape st Hwf) as (Hls & Hle & _).
  assert (Hx : is_name (fst st) = true).
  { unfold well_formed in Hwf. apply andb_true_iff in Hwf. tauto. }
  cbn [PythonParser.parse_loop].
  rewrite (@strip_after_spaces ws (source_line st) Hws).
  rewrite (@strip_solid (source_line st) Hls Hle). rewrite Hnode, Hsrc.
  cbn [txt list_ascii_of_string app].
  rewrite (@function_call_none (fst st) (" "%char :: rhs) Hx).
  change (fst st ++ " "%char :: "="%char :: " "%char :: rhs)
    with (fst st ++ txt " = " ++ rhs).
  rewrite (@assignment_match (fst st) rhs Hx Hs Hd).
  cbn [group lookup Nat.eqb]. rewrite Hv.
  destruct (fst st) as [|c x] eqn:Ex; [discriminate|].
  unfold is_name in Hx. cbn [nonempty andb forallb] in Hx.
  apply andb_true_iff in Hx as [Hc _].
  cbn [app startswith txt list_ascii_of_string orb].
  rewrite (@word_not_hash c Hc). reflexivity.
Qed.

Lemma parse_loop_indented (parse : text -> option Node)
  (lines : list text) (body : list assignment) :
  Forall2 indented_line lines body ->
  forall k, List.length body <= k ->
            PythonParser.parse_loop parse k lines = Some (map node_of body).
Proof.
  induction 1 as [|line st lines body (ws & Hws & -> & Hst) _ IH]; intros k Hk.
  - destruct k; reflexivity.
  - destruct k as [|k]; [cbn [List.length] in Hk; lia|].
    rewrite (@parse_indented_assignment parse k ws st _ Hws Hst).
    rewrite (IH k) by (cbn [List.length] in Hk; lia). reflexivity.
Qed.

Lemma body_lines_indented (width : nat) (body : list assignment) :
  forallb well_formed body = true ->
  Forall2 indented_line (body_lines width body) body.
Proof.
  induction body as [|st body IH]; cbn [forallb body_lines map]; intros H.
  - constructor.
  - apply andb_true_iff in H as [Hst H]. constructor; [|exact (IH H)].
    exists (indentation width). split; [apply indentation_spaces | auto].
Qed.

Lemma body_lines_shape (width : nat) (body : list assignment) :
  forallb well_formed body = true ->
  Forall ends_solid (body_lines width body)
  /\ forallb (forallb (is_not nl)) (body_lines width body) = true.
Proof.
  induction body as [|st body IH]; cbn [forallb body_lines map]; intros H.
  - split; [constructor | reflexivity].
  - apply andb_true_iff in H as [Hst H]. destruct (IH H) as [IH1 IH2].
    destruct (@source_line_shape st Hst) as (_ & He & Hn).
    split.
    + constructor; [apply ends_solid_app, He | exact IH1].
    + fold (body_lines width body). rewrite IH2, forallb_app, Hn.
      rewrite indentation_no_newline. reflexivity.
Qed.

Lemma join_ends_solid (c : ascii) (l : text) (ls : list text) :
  Forall ends_solid (l :: ls) -> ends_solid (join [c] (l :: ls)).
Proof.
  revert l. induction ls as [|l2 ls IH]; intros l H.
  - inversion H; subst. assumption.
  - inversion H as [|? ? _ H']; subst.
    change (join [c] (l :: l2 :: ls)) with (l ++ c :: join [c] (l2 :: ls)).
    apply ends_solid_app, ends_solid_cons, IH, H'.
Qed.

Lemma join_after (sep a l : text) (ls : list text) :
  join sep ((a ++ l) :: ls) = a ++ join sep (l :: ls).
Proof. destruct ls; cbn [join]; [reflexivity | apply eq_sym, app_assoc]. Qed.

(** The body on its own is parsed into the nodes of its statements: the
    indentation of the first line goes with the whitespace around the
    text and that of the others with the whitespace around each line. *)
Lemma parse_body (fuel width : nat) (body : list assignment) :
  forallb well_formed body = true ->
  PythonParser.parse_python_fuel (S fuel) (join [nl] (body_lines width body))
  = Some (ProgramNode (map node_of body)).
Proof.
  intros Hwf. cbn [PythonParser.parse_python_fuel].
  destruct body as [|st body]; [reflexivity|].
  destruct (@body_lines_shape width _ Hwf) as [Hends Hnl].
  pose proof (@body_lines_indented width _ Hwf) as Hind.
  cbn [forallb] in Hwf. apply andb_true_iff in Hwf as [Hst Hwf].
  destruct (@source_line_shape st Hst) as (Hs & He & Hn).
  cbn [body_lines map] in *. fold (body_lines width body) in *.
  rewrite join_after, (@strip_after_spaces _ _ (indentation_spaces width)).
  assert (Hends' : Forall ends_solid (source_line st :: body_lines width body)).
  { inversion Hends; subst. constructor; assumption. }
  assert (Hstart : starts_solid (join [nl] (source_line st :: body_lines width body))).
  { destruct (body_lines width body); cbn [join];
      [exact Hs | apply starts_solid_app, Hs]. }
  rewrite (@strip_solid _ Hstart (join_ends_solid nl Hends')).
  cbn [forallb] in Hnl. apply andb_true_iff in Hnl as [_ Hnl].
  rewrite split_join by (cbn [forallb]; rewrite Hn, Hnl; reflexivity).
  rewrite (@parse_loop_indented _ (source_line st :: body_lines width body)
             (st :: body)); [reflexivity | | cbn [List.length body_lines]].
  - inversion Hind; subst. constructor; [|assumption].
    exists []. auto.
  - unfold body_lines. rewrite length_map. lia.
Qed.

(** Under a header without indentation the block is the whole body. *)
Lemma block_of_body (first : bool) (width : nat) (body : list assignment) :
  forallb well_formed body = true ->
  PythonParser.block_from first (body_lines (S width) body) 0
  = (body_lines (S width) body, []).
Proof.
  revert first. induction body as [|st body IH]; intros first Hwf; [reflexivity|].
  cbn [forallb] in Hwf. apply andb_true_iff in Hwf as [Hst Hwf].
  destruct (@source_line_shape st Hst) as (Hs & He & _).
  cbn [body_lines map PythonParser.block_from]. fold (body_lines (S width) body).
  unfold PythonParser.blank.
  rewrite (@strip_after_spaces _ _ (indentation_spaces (S width))).
  rewrite (@strip_solid _ Hs He).
  rewrite (@indent_of_spaces _ _ (indentation_spaces (S width)) Hs).
  destruct Hs as (c & t & E & _). rewrite E at 1.
  unfold indentation at 1. rewrite repeat_length. cbn [Nat.leb andb].
  rewrite (IH false Hwf). reflexivity.
Qed.


(** *** The header lines *)

(** After a word and whitespace the text goes on with a character that is
    neither: no other word, whitespace and character [ch] begin it. *)
Lemma keyword_clash (w ws kw : text) (ch x0 : ascii) (t t' : text) :
  forallb is_word w = true -> forallb is_space ws = true ->
  forallb is_word kw = true ->
  is_word ch = false -> is_space ch = false ->
  is_space x0 = false -> x0 <> ch ->
  w ++ ws ++ ch :: t = kw ++ " "%char :: x0 :: t' -> False.
Proof.
  intros Hw Hws Hkw Hch Hch' Hx0 Hne E.
  destruct ws as [|w0 ws]; cbn [app forallb] in E, Hws.
  - apply (@span_unique is_word w kw ch " "%char _ _ Hw Hkw Hch eq_refl) in E.
    destruct E as (_ & -> & _). discriminate Hch'.
  - apply andb_true_iff in Hws as [Hw0 Hws].
    apply (@span_unique is_word w kw w0 " "%char _ _ Hw Hkw
             (space_not_word _ Hw0) eq_refl) in E.
    destruct E as (_ & _ & E).
    destruct ws as [|w1 ws]; cbn [app forallb] in E, Hws.
    + injection E as E _. congruence.
    + injection E as E _. apply andb_true_iff in Hws as [Hw1 _]. congruence.
Qed.

(** A line that begins with a keyword, a space and something else is no
    call and no assignment. *)
Lemma keyword_no_call (kw : text) (x0 : ascii) (rest : text) :
  forallb is_word kw = true -> is_space x0 = false -> x0 <> "("%char ->
  re_match PythonParser.FUNCTION_CALL_REGEX (kw ++ " "%char :: x0 :: rest) = None.
Proof.
  intros Hkw Hx0 Hne.
  destruct (re_match _ _) as [m|] eqn:E; [exfalso | reflexivity].
  apply re_match_sound in E as (a & s' & E & M).
  unfold PythonParser.FUNCTION_CALL_REGEX in M. expose_regex M. inv_matches.
  rewrite <- !app_assoc in E. cbn [txt list_ascii_of_string app] in E.
  match goal with
  | Hs : forallb is_space ?ws = true, Hw : forallb is_word (?c :: ?w) = true |- _ =>
      exact (@keyword_clash (c :: w) ws kw "("%char x0 _ _ Hw Hs Hkw
               eq_refl eq_refl Hx0 Hne (eq_sym E))
  end.
Qed.

Lemma keyword_no_assignment (kw : text) (x0 : ascii) (rest : text) :
  forallb is_word kw = true -> is_space x0 = false -> x0 <> "="%char ->
  re_match PythonParser.ASSIGNMENT_REGEX (kw ++ " "%char :: x0 :: rest) = None.
Proof.
  intros Hkw Hx0 Hne.
  destruct (re_match _ _) as [m|] eqn:E; [exfalso | reflexivity].
  apply re_match_sound in E as (a & s' & E & M).
  unfold PythonParser.ASSIGNMENT_REGEX in M. expose_regex M. inv_matches.
  rewrite <- !app_assoc in E. cbn [txt list_ascii_of_string app] in E.
  match goal with
  | Hs : forallb is_space ?ws = true, Hw : forallb is_word (?c :: ?w) = true |- _ =>
      exact (@keyword_clash (c :: w) ws kw "="%char x0 _ _ Hw Hs Hkw
               eq_refl eq_refl Hx0 Hne (eq_sym E))
  end.
Qed.


Lemma name_no_comma x : is_name x = true -> forallb (is_not ","%char) x = true.
Proof.
  unfold is_name. intros H. apply andb_true_iff in H as [_ H].
  revert H. apply forallb_impl. apply (class_subset is_word (is_not ","%char)).
  by_chars.
Qed.

Lemma name_no_newline x : is_name x = true -> forallb (is_not nl) x = true.
Proof.
  unfold is_name. intros H. apply andb_true_iff in H as [_ H].
  revert H. apply forallb_impl. apply (class_subset is_word (is_not nl)).
  by_chars.
Qed.

Lemma name_no_close x : is_name x = true -> forallb (is_not ")"%char) x = true.
Proof.
  unfold is_name. intros H. apply andb_true_iff in H as [_ H].
  revert H. apply forallb_impl. apply (class_subset is_word (is_not ")"%char)).
  by_chars.
Qed.

Lemma forallb_join (p : ascii -> bool) (sep : text) (parts : list text) :
  forallb p sep = true -> forallb (forallb p) parts = true ->
  forallb p (join sep parts) = true.
Proof.
  intros Hsep. induction parts as [|x parts IH]; [reflexivity|].
  cbn [forallb]. intros H. apply andb_true_iff in H as [Hx H].
  destruct parts as [|y parts]; [exact Hx|].
  change (join sep (x :: y :: parts)) with (x ++ sep ++ join sep (y :: parts)).
  rewrite !forallb_app, Hx, Hsep, (IH H). reflexivity.
Qed.

Lemma forallb_names (p : ascii -> bool) (names : list text) :
  (forall x, is_name x = true -> forallb p x = true) ->
  forallb is_name names = true -> forallb (forallb p) names = true.
Proof.
  intros Hp. induction names as [|x names IH]; [reflexivity|].
  cbn [forallb]. intros H. apply andb_true_iff in H as [Hx H].
  rewrite (Hp x Hx), (IH H). reflexivity.
Qed.

(** Splitting a parameter list at its commas and stripping the parts gives
    the parameters. *)
Lemma split_parameters (lead : text) (p : text) (ps : list text) :
  forallb is_space lead = true -> forallb (is_not ","%char) lead = true ->
  forallb is_name (p :: ps) = true ->
  map strip (filter (fun a => negb (PythonParser.blank a))
               (split_char ","%char (lead ++ join (txt ", ") (p :: ps))))
  = p :: ps.
Proof.
  revert lead p. induction ps as [|p2 ps IH]; intros lead p Hs Hc Hn;
    cbn [forallb] in Hn; apply andb_true_iff in Hn as [Hp Hn].
  - cbn [join]. rewrite split_char_absent
      by (rewrite forallb_app, Hc, (name_no_comma _ Hp); reflexivity).
    cbn [filter]. unfold PythonParser.blank.
    rewrite (@strip_after_spaces lead p Hs), (@strip_atom p (name_is_atom _ Hp)).
    destruct p as [|p0 p]; [discriminate|]. cbn [negb map].
    rewrite (@strip_after_spaces lead (p0 :: p) Hs),
      (@strip_atom (p0 :: p) (name_is_atom _ Hp)).
    reflexivity.
  - change (join (txt ", ") (p :: p2 :: ps))
      with (p ++ ","%char :: [" "%char] ++ join (txt ", ") (p2 :: ps)).
    rewrite app_assoc, split_char_app
      by (rewrite forallb_app, Hc, (name_no_comma _ Hp); reflexivity).
    cbn [filter]. unfold PythonParser.blank at 1.
    rewrite (@strip_after_spaces lead p Hs), (@strip_atom p (name_is_atom _ Hp)).
    destruct p as [|p0 p]; [discriminate|]. cbn [negb map].
    rewrite (@strip_after_spaces lead (p0 :: p) Hs),
      (@strip_atom (p0 :: p) (name_is_atom _ Hp)).
    f_equal. apply IH; [reflexivity | reflexivity | exact Hn].
Qed.

Lemma split_parameter_list (params : list text) :
  forallb is_name params = true ->
  map strip (filter (fun a => negb (PythonParser.blank a))
               (split_char ","%char (join (txt ", ") params)))
  = params.
Proof.
  destruct params as [|p ps]; [reflexivity|].
  exact (@split_parameters [] p ps eq_refl eq_refl).
Qed.

(** The definition pattern on a header line. *)
Lemma func_def_match (name : text) (params : list text) :
  is_name name = true -> forallb is_name params = true ->
  re_match PythonParser.FUNC_DEF_REGEX (def_header name params)
  = Some [(2, join (txt ", ") params); (1, name)].
Proof.
  intros Hname Hparams.
  assert (Hargs : forallb (is_not ")"%char) (join (txt ", ") params) = true).
  { apply forallb_join; [reflexivity|].
    exact (@forallb_names _ params name_no_close Hparams). }
  destruct name as [|c name]; [discriminate|].
  unfold is_name in Hname. cbn [nonempty andb forallb] in Hname.
  apply andb_true_iff in Hname as [Hc Hname].
  unfold re_match, PythonParser.FUNC_DEF_REGEX, def_header.
  cbv [cat lit sp sp1 word1 not_ch].
  cbn [rmatch app txt list_ascii_of_string startswith skipn List.length].
  rewrite !Ascii.eqb_refl. cbn [andb].
  change (is_space " "%char) with true. cbv iota.
  rewrite star_greedy_stop by (apply word_not_space; exact Hc).
  rewrite Hc.
  apply star_greedy_run; [exact Hname | reflexivity |].
  rewrite star_greedy_stop by reflexivity.
  cbn [startswith skipn List.length]. rewrite Ascii.eqb_refl. cbn [andb].
  apply star_greedy_run; [exact Hargs | reflexivity |].
  cbn [startswith skipn List.length]. rewrite Ascii.eqb_refl. cbn [andb].
  rewrite star_greedy_stop by reflexivity.
  cbn [startswith skipn List.length]. rewrite Ascii.eqb_refl. cbn [andb].
  rewrite consumed_app.
  match goal with
  | |- context [consumed (c :: name ++ ?r) ?r] =>
      change (c :: name ++ r) with ((c :: name) ++ r)
  end.
  rewrite consumed_app. reflexivity.
Qed.


Lemma indent_of_solid (s : text) : starts_solid s -> indent_of s = 0.
Proof.
  intros H. unfold indent_of. rewrite (@lstrip_starts_solid s H).
  apply Nat.sub_diag.
Qed.

Lemma def_header_no_newline (name : text) (params : list text) :
  is_name name = true -> forallb is_name params = true ->
  forallb (is_not nl) (def_header name params) = true.
Proof.
  intros Hname Hparams. unfold def_header. rewrite !forallb_app.
  rewrite (name_no_newline _ Hname).
  rewrite forallb_join;
    [reflexivity | reflexivity
    | exact (@forallb_names _ params name_no_newline Hparams)].
Qed.

Lemma def_header_solid (name : text) (params : list text) :
  starts_solid (def_header name params) /\ ends_solid (def_header name params).
Proof.
  unfold def_header. split.
  - exists "d"%char. eexists. split; [reflexivity | reflexivity].
  - rewrite !app_assoc. apply ends_solid_app.
    exists [")"%char], ":"%char. split; reflexivity.
Qed.

(** A header line of a definition at the head of the lines: the loop cuts
    the block under it, parses the block and appends a function node. *)
Lemma def_line (parse : text -> option Node) (k : nat)
  (name : text) (params : list text) (rest : list text) :
  is_name name = true -> forallb is_name params = true ->
  PythonParser.parse_loop parse (S k) (def_header name params :: rest)
  = (let '(body_lines, rest') := PythonParser._get_indented_block rest 0 in
     body_program <- parse (join [nl] body_lines) ;;
     stmts <- PythonParser.parse_loop parse k rest' ;;
     Some (FunctionNode name params (statements body_program) :: stmts)).
Proof.
  intros Hname Hparams.
  destruct (def_header_solid name params) as [Hs He].
  pose proof (@func_def_match name params Hname Hparams) as Hdef.
  assert (Hcall : re_match PythonParser.FUNCTION_CALL_REGEX (def_header name params)
                  = None /\
                  re_match PythonParser.ASSIGNMENT_REGEX (def_header name params)
                  = None).
  { destruct name as [|c name]; [discriminate|].
    unfold is_name in Hname. cbn [nonempty andb forallb] in Hname.
    apply andb_true_iff in Hname as [Hc _].
    split.
    - refine (@keyword_no_call (txt "def") c _ eq_refl (word_not_space _ Hc) _).
      intros ->. discriminate Hc.
    - refine (@keyword_no_assignment (txt "def") c _ eq_refl (word_not_space _ Hc) _).
      intros ->. discriminate Hc. }
  destruct Hcall as [Hcall Hassign].
  cbn [PythonParser.parse_loop].
  rewrite (@strip_solid _ Hs He), (@indent_of_solid _ Hs).
  rewrite Hcall, Hassign, Hdef.
  cbn [group lookup Nat.eqb].
  rewrite (@split_parameter_list params Hparams).
  reflexivity.
Qed.


Lemma parse_python_fuel_step (fuel : nat) (code : text) :
  PythonParser.parse_python_fuel (S fuel) code
  = (stmts <- PythonParser.parse_loop (PythonParser.parse_python_fuel fuel)
                (List.length (split_char nl (strip code)))
                (split_char nl (strip code)) ;;
     Some (ProgramNode stmts)).
Proof. reflexivity. Qed.

(** A program of one block: a header line on which the loop cuts a block,
    parses it and appends the node [make body], and under it a body of
    well-formed statements. *)
Lemma parse_block (header : text) (make : list Node -> Node)
  (width : nat) (body : list assignment) :
  starts_solid header -> ends_solid header ->
  forallb (is_not nl) header = true ->
  (forall parse k rest,
      PythonParser.parse_loop parse (S k) (header :: rest)
      = (let '(body_lines, rest') := PythonParser._get_indented_block rest 0 in
         body_program <- parse (join [nl] body_lines) ;;
         stmts <- PythonParser.parse_loop parse k rest' ;;
         Some (make (statements body_program) :: stmts))) ->
  forallb well_formed body = true ->
  PythonParser.parse_python (block_text header (S width) body)
  = ProgramNode [make (map node_of body)].
Proof.
  intros Hs He Hnl Hline Hwf.
  destruct (@body_lines_shape (S width) body Hwf) as [Hends Hnls].
  unfold PythonParser.parse_python, PythonParser.parse_fuel, block_text.
  assert (Hstart : starts_solid (join [nl] (header :: body_lines (S width) body))).
  { destruct (body_lines (S width) body); cbn [join];
      [exact Hs | apply starts_solid_app, Hs]. }
  destruct (List.length (join [nl] (header :: body_lines (S width) body)))
    as [|n] eqn:En.
  { destruct Hstart as (c & t & E & _). rewrite E in En. discriminate En. }
  clear En. rewrite parse_python_fuel_step.
  assert (Hend : ends_solid (join [nl] (header :: body_lines (S width) body))).
  { apply join_ends_solid. constructor; assumption. }
  rewrite (@strip_solid _ Hstart Hend).
  rewrite split_join by (cbn [forallb]; rewrite Hnl, Hnls; reflexivity).
  cbn [List.length]. rewrite Hline.
  unfold PythonParser._get_indented_block.
  rewrite (@block_of_body true width body Hwf). cbv beta match.
  rewrite (@parse_body n (S width) body Hwf).
  cbn [statements]. destruct (List.length (body_lines (S width) body)); reflexivity.
Qed.


(** What [PythonGenerator] makes of a header and the nodes of a body. *)
Lemma visit_function_block (name : text) (params : list text)
  (body : list assignment) :
  forallb well_formed body = true ->
  PythonGenerator.visit
    (ProgramNode [FunctionNode name params (map node_of body)])
  = Ok (def_header name params ++ [nl] ++ rendered_body body).
Proof.
  intros Hwf. cbn [PythonGenerator.visit].
  match goal with
  | |- context [?f (map node_of body)] =>
      assert (H : f (map node_of body) = Ok (map parenthesized_line body))
  end.
  { induction body as [|st body IH]; [reflexivity|].
    cbn [forallb] in Hwf. apply andb_true_iff in Hwf as [Hst Hwf].
    cbn [map]. rewrite (@visit_node_of st Hst). rewrite (IH Hwf). reflexivity. }
  rewrite H. cbn [join]. unfold def_header, rendered_body.
  rewrite map_map, <- !app_assoc. reflexivity.
Qed.


(** *** A loop over a range *)

Lemma atom_is_plain c : atom_char c = true -> plain_char c = true.
Proof. revert c. apply (class_subset atom_char plain_char). by_chars. Qed.

Lemma range_call_plain (stop : text) :
  is_atom stop = true ->
  forallb plain_char (txt "range(" ++ stop ++ txt ")") = true.
Proof.
  unfold is_atom. intros H. apply andb_true_iff in H as [_ H].
  rewrite !forallb_app, (@forallb_impl atom_char plain_char stop atom_is_plain H).
  reflexivity.
Qed.

Lemma plain_parts (s : text) :
  forallb plain_char s = true ->
  forallb (is_not " "%char) s = true /\ forallb is_dot s = true
  /\ forallb (fun c => negb (is_space c) && is_not ":"%char c) s = true.
Proof.
  intros H. repeat split; revert H; apply forallb_impl.
  - apply (class_subset plain_char (is_not " "%char)). by_chars.
  - apply (class_subset plain_char is_dot). by_chars.
  - apply (class_subset plain_char
             (fun c => negb (is_space c) && is_not ":"%char c)). by_chars.
Qed.

(** [repr] of a text of such characters: the text in single quotes. *)
Lemma repr_str_plain (s : text) :
  forallb plain_char s = true -> repr_str s = [sq] ++ s ++ [sq].
Proof.
  intros H. unfold repr_str.
  assert (Hq : existsb (Ascii.eqb sq) s = false).
  { induction s as [|c s IH]; [reflexivity|].
    cbn [forallb] in H. apply andb_true_iff in H as [Hc H].
    cbn [existsb]. rewrite (IH H), orb_false_r.
    unfold plain_char in Hc. rewrite !andb_true_iff in Hc.
    destruct Hc as [[_ Hc] _]. apply negb_true_iff in Hc.
    rewrite Ascii.eqb_sym. exact Hc. }
  rewrite Hq. cbn [andb]. f_equal. f_equal.
  induction s as [|c s IH]; [reflexivity|].
  cbn [forallb] in H. apply andb_true_iff in H as [Hc H].
  cbn [existsb] in Hq. apply orb_false_iff in Hq as [_ Hq].
  cbn [flat_map]. rewrite (IH H Hq).
  assert (Hall : implb (plain_char c) (text_eqb (repr_char sq c) [c]) = true).
  { revert c Hc. intros c _. revert c.
    apply (@for_all_chars
             (fun c => implb (plain_char c) (text_eqb (repr_char sq c) [c]))).
    by_chars. }
  rewrite Hc in Hall. apply text_eqb_spec in Hall.
  rewrite Hall. reflexivity.
Qed.


(** The loop pattern on a header line: the lazy group ends at the colon. *)
Lemma for_loop_match (iterator e : text) :
  is_name iterator = true -> nonempty e = true ->
  forallb plain_char e = true ->
  re_match PythonParser.FOR_LOOP_REGEX
    (txt "for " ++ iterator ++ txt " in " ++ e ++ txt ":")
  = Some [(2, e); (1, iterator)].
Proof.
  intros Hname Hne He.
  destruct (plain_parts _ He) as (_ & Hdot & Hstop).
  destruct iterator as [|c name]; [discriminate|].
  unfold is_name in Hname. cbn [nonempty andb forallb] in Hname.
  apply andb_true_iff in Hname as [Hc Hname].
  destruct e as [|e0 e]; [discriminate|].
  cbn [forallb] in Hdot, Hstop.
  apply andb_true_iff in Hdot as [Hd0 Hdot].
  apply andb_true_iff in Hstop as [Hs0 Hstop].
  apply andb_true_iff in Hs0 as [Hs0 _]. apply negb_true_iff in Hs0.
  unfold re_match, PythonParser.FOR_LOOP_REGEX.
  cbv [cat lit sp sp1 word1].
  cbn [rmatch app txt list_ascii_of_string startswith skipn List.length].
  rewrite !Ascii.eqb_refl. cbn [andb].
  change (is_space " "%char) with true. cbv match.
  rewrite star_greedy_stop by (apply word_not_space; exact Hc).
  rewrite Hc.
  apply star_greedy_run; [exact Hname | reflexivity |].
  rewrite star_greedy_stop by reflexivity.
  cbn [startswith skipn List.length]. rewrite !Ascii.eqb_refl. cbn [andb].
  change (is_space " "%char) with true. cbv match.
  rewrite star_greedy_stop by exact Hs0.
  rewrite Hd0.
  rewrite star_lazy_skip.
  - apply star_lazy_here. rewrite star_greedy_stop by reflexivity.
    cbn [startswith skipn List.length]. rewrite Ascii.eqb_refl. cbn [andb].
    match goal with
    | |- context [consumed (c :: name ++ ?r) ?r] =>
        change (c :: name ++ r) with ((c :: name) ++ r)
    end.
    rewrite consumed_app.
    change (e0 :: e ++ [":"%char]) with ((e0 :: e) ++ [":"%char]).
    rewrite consumed_app. reflexivity.
  - exact Hdot.
  - intros x t Hx. rewrite forallb_forall in Hstop. specialize (Hstop x Hx).
    apply andb_true_iff in Hstop as [Hsp Hcolon].
    apply negb_true_iff in Hsp. unfold is_not in Hcolon.
    apply negb_true_iff in Hcolon. cbv beta.
    rewrite star_greedy_stop by exact Hsp.
    cbn [startswith]. rewrite Ascii.eqb_sym, Hcolon. reflexivity.
Qed.


(** A call of [range] with one operand matches none of the expression
    rules and becomes a variable node by the fallback. *)
Lemma range_call_expression (stop : text) :
  is_atom stop = true ->
  PythonParser._parse_expression (txt "range(" ++ stop ++ txt ")")
  = Some (VariableNode (txt "range(" ++ stop ++ txt ")")).
Proof.
  intros Hstop.
  destruct (plain_parts _ (range_call_plain _ Hstop)) as (Hsp & _ & _).
  assert (Hsolid : strip (txt "range(" ++ stop ++ txt ")")
                   = txt "range(" ++ stop ++ txt ")").
  { apply strip_solid.
    - exists "r"%char. eexists. split; reflexivity.
    - rewrite app_assoc. exists (txt "range(" ++ stop), ")"%char.
      split; reflexivity. }
  unfold PythonParser._parse_expression, PythonParser.expr_fuel.
  cbn [PythonParser._parse_expression_fuel]. rewrite Hsolid.
  assert (Hcmp : forall ops,
             PythonParser.find_comparison ops (txt "range(" ++ stop ++ txt ")")
             = None).
  { induction ops as [|o ops IH]; [reflexivity|].
    cbn [PythonParser.find_comparison].
    change (txt " " ++ o ++ txt " ") with (" "%char :: o ++ txt " ").
    rewrite (@partition_absent " "%char _ _ Hsp). exact IH. }
  rewrite Hcmp.
  change (re_fullmatch PythonParser.POW_REGEX (txt "range(" ++ stop ++ txt ")"))
    with (@None groups).
  unfold PythonParser.find_addition, contains.
  change (txt " + ") with (" "%char :: txt "+ ").
  rewrite (@partition_absent " "%char _ _ Hsp). cbn [andb].
  unfold PythonParser.parse_atom.
  change (PythonParser.quoted (txt "range(" ++ stop ++ txt ")")) with false.
  change (re_fullmatch NUMBER_REGEX (txt "range(" ++ stop ++ txt ")"))
    with (@None groups).
  cbn [found]. destruct (found _); reflexivity.
Qed.

Lemma for_header_no_newline (iterator stop : text) :
  is_name iterator = true -> is_atom stop = true ->
  forallb (is_not nl) (for_header iterator stop) = true.
Proof.
  intros Hname Hstop. unfold for_header. rewrite !forallb_app.
  rewrite (name_no_newline _ Hname).
  change (is_not nl) with is_dot. rewrite (atom_all_dot _ Hstop). reflexivity.
Qed.

Lemma for_header_solid (iterator stop : text) :
  starts_solid (for_header iterator stop)
  /\ ends_solid (for_header iterator stop).
Proof.
  unfold for_header. split.
  - exists "f"%char. eexists. split; reflexivity.
  - rewrite !app_assoc. apply ends_solid_app.
    exists [")"%char], ":"%char. split; reflexivity.
Qed.

(** A header line of a loop over a range at the head of the lines: the
    loop cuts the block under it, parses the block and appends a loop node
    whose iterable is the variable node of the call. *)
Lemma for_line (parse : text -> option Node) (k : nat)
  (iterator stop : text) (rest : list text) :
  is_name iterator = true -> is_atom stop = true ->
  PythonParser.parse_loop parse (S k) (for_header iterator stop :: rest)
  = (let '(body_lines, rest') := PythonParser._get_indented_block rest 0 in
     body_program <- parse (join [nl] body_lines) ;;
     stmts <- PythonParser.parse_loop parse k rest' ;;
     Some (ForLoopNode iterator
             (inr (VariableNode (txt "range(" ++ stop ++ txt ")")))
             (statements body_program) :: stmts)).
Proof.
  intros Hname Hstop.
  destruct (for_header_solid iterator stop) as [Hs He].
  assert (Hfor : re_match PythonParser.FOR_LOOP_REGEX (for_header iterator stop)
                 = Some [(2, txt "range(" ++ stop ++ txt ")"); (1, iterator)]).
  { pose proof (@for_loop_match iterator (txt "range(" ++ stop ++ txt ")")
                  Hname eq_refl (range_call_plain _ Hstop)) as H.
    etransitivity; [|exact H]. f_equal. unfold for_header.
    rewrite <- !app_assoc. reflexivity. }
  assert (Hcall : re_match PythonParser.FUNCTION_CALL_REGEX
                    (for_header iterator stop) = None /\
                  re_match PythonParser.ASSIGNMENT_REGEX
                    (for_header iterator stop) = None).
  { destruct iterator as [|c name]; [discriminate|].
    unfold is_name in Hname. cbn [nonempty andb forallb] in Hname.
    apply andb_true_iff in Hname as [Hc _].
    split.
    - refine (@keyword_no_call (txt "for") c _ eq_refl (word_not_space _ Hc) _).
      intros ->. discriminate Hc.
    - refine (@keyword_no_assignment (txt "for") c _ eq_refl (word_not_space _ Hc) _).
      intros ->. discriminate Hc. }
  destruct Hcall as [Hcall Hassign].
  cbn [PythonParser.parse_loop].
  rewrite (@strip_solid _ Hs He), (@indent_of_solid _ Hs).
  rewrite Hcall, Hassign.
  change (re_match PythonParser.FUNC_DEF_REGEX (for_header iterator stop))
    with (@None groups).
  rewrite Hfor. cbn [group lookup Nat.eqb].
  rewrite (@range_call_expression stop Hstop).
  reflexivity.
Qed.

(** What [PythonGenerator] makes of the loop node: the iterable is written
    as [str] of its node. *)
Lemma visit_for_block (iterator stop : text) (body : list assignment) :
  is_atom stop = true -> forallb well_formed body = true ->
  PythonGenerator.visit
    (ProgramNode
       [ForLoopNode iterator
          (inr (VariableNode (txt "range(" ++ stop ++ txt ")")))
          (map node_of body)])
  = Ok (txt "for " ++ iterator ++ txt " in VariableNode({'name': 'range("
        ++ stop ++ txt ")'}):" ++ [nl] ++ rendered_body body).
Proof.
  intros Hstop Hwf. cbn [PythonGenerator.visit].
  match goal with
  | |- context [?f (map node_of body)] =>
      assert (H : f (map node_of body) = Ok (map parenthesized_line body))
  end.
  { induction body as [|st body IH]; [reflexivity|].
    cbn [forallb] in Hwf. apply andb_true_iff in Hwf as [Hst Hwf].
    cbn [map]. rewrite (@visit_node_of st Hst). rewrite (IH Hwf). reflexivity. }
  rewrite H. cbn [join repr]. unfold obj, repr_dict. cbn [map join fst snd].
  rewrite (@repr_str_plain _ (range_call_plain _ Hstop)).
  change (repr_str (txt "name")) with (txt "'name'").
  unfold rendered_body. rewrite map_map.
  f_equal. cbn [txt list_ascii_of_string app].
  repeat (progress (rewrite <- ?app_assoc; cbn [app])).
  reflexivity.
Qed.


(** *** The same trees in Java *)

Lemma java_visit_atom (a : text) (level : Z) :
  is_atom a = true ->
  visit JavaGenerator (PythonParser.parse_atom a) level = (a, level).
Proof.
  intros H. unfold PythonParser.parse_atom. rewrite (@quoted_atom a H).
  destruct (found _); [reflexivity|]. destruct (found _); reflexivity.
Qed.

(** [JavaGenerator] writes a statement as a declaration with the text of
    the source line. *)
Lemma java_visit_node_of (st : assignment) (level : Z) :
  well_formed st = true ->
  visit JavaGenerator (node_of st) level
  = (_make_indent level ++ txt "int " ++ source_line st, level).
Proof.
  destruct st as [x r]. unfold well_formed, node_of, source_line.
  cbn [fst snd]. intros Hwf. apply andb_true_iff in Hwf as [_ Hwf].
  destruct r as [a | op a b | m n]; cbn [visit].
  - rewrite (@java_visit_atom a level Hwf). reflexivity.
  - apply andb_true_iff in Hwf as [Hwf Hb]. apply andb_true_iff in Hwf as [_ Ha].
    rewrite (@java_visit_atom a level Ha), (@java_visit_atom b level Hb).
    reflexivity.
  - reflexivity.
Qed.

(** The braces of a block at level 0 around the nodes of a body. *)
Ltac java_body_nodes body Hwf :=
  match goal with
  | |- context [?f (map node_of body) ?lev] =>
      let H := fresh "Hbody" in
      assert (H : f (map node_of body) lev
                  = (map (fun st => _make_indent lev ++ txt "int "
                                    ++ source_line st) body, lev));
      [ clear - Hwf; induction body as [|st body IH]; [reflexivity|];
        cbn [forallb] in Hwf; apply andb_true_iff in Hwf as [Hst Hwf];
        cbn [map]; rewrite (@java_visit_node_of st lev Hst);
        rewrite (IH Hwf); reflexivity
      | rewrite H; clear H ]
  end.

Lemma java_body_code (body : list assignment) :
  match map node_of body with
  | [] => _make_indent 1 ++ txt "// Empty body"
  | _ :: _ =>
      join [nl]
        (map (fun s => s ++ txt ";")
           (map (fun st => _make_indent 1 ++ txt "int " ++ source_line st) body))
  end = java_block_body body.
Proof.
  destruct body as [|st body]; [reflexivity|].
  unfold java_block_body. rewrite map_map. cbn [map].
  change (_make_indent 1) with (txt "    ").
  reflexivity.
Qed.

Lemma java_for_block (iterator stop : text) (body : list assignment) :
  is_atom stop = true -> forallb well_formed body = true ->
  render JavaGenerator
    (ProgramNode
       [ForLoopNode iterator
          (inr (VariableNode (txt "range(" ++ stop ++ txt ")")))
          (map node_of body)])
  = txt "public class ConvertedCode {" ++ [nl]
    ++ txt "    public static void main(String[] args) {" ++ [nl]
    ++ txt "        for (int " ++ iterator ++ txt " = 0; " ++ iterator
    ++ txt " < " ++ stop ++ txt "; " ++ iterator ++ txt "++) {" ++ [nl]
    ++ java_block_body body ++ [nl] ++ txt "};" ++ [nl]
    ++ txt "    }" ++ [nl] ++ txt "}".
Proof.
  intros Hstop Hwf. unfold render. cbn [visit fst].
  java_body_nodes body Hwf.
  change (0 + 1)%Z with 1%Z. cbv beta match. rewrite java_body_code.
  pose proof (@TextFacts.java_for_header_range 0 iterator stop []) as Hh.
  cbn [join forallb] in Hh. rewrite Hh.
  2:{ rewrite andb_true_r. unfold is_atom in Hstop.
      apply andb_true_iff in Hstop as [_ Hstop]. revert Hstop.
      apply forallb_impl. apply (class_subset atom_char (is_not ","%char)).
      by_chars. }
  rewrite (@strip_atom stop Hstop).
  unfold java_class_text.
  change (_make_indent 1) with (txt "    ").
  change (_make_indent (1 - 1)) with (@nil ascii).
  change (_make_indent 0) with (@nil ascii).
  cbn [map join app txt list_ascii_of_string].
  repeat (progress (rewrite <- ?app_assoc; cbn [app])).
  reflexivity.
Qed.


Lemma java_function_block (name : text) (params : list text)
  (body : list assignment) :
  forallb well_formed body = true ->
  render JavaGenerator
    (ProgramNode [FunctionNode name params (map node_of body)])
  = txt "public class ConvertedCode {" ++ [nl]
    ++ txt "public static void " ++ name ++ txt "("
    ++ join (txt ", ") (map (fun p => txt "String " ++ p) params)
    ++ txt ") {" ++ [nl]
    ++ java_block_body body ++ [nl] ++ txt "}" ++ [nl] ++ txt "}".
Proof.
  intros Hwf. unfold render. cbn [visit fst].
  java_body_nodes body Hwf.
  change (0 + 1)%Z with 1%Z. cbv beta match. rewrite java_body_code.
  unfold java_class_text.
  change (_make_indent (1 - 1)) with (@nil ascii).
  change (_make_indent 0) with (@nil ascii).
  cbn [map join app txt list_ascii_of_string].
  repeat (progress (rewrite <- ?app_assoc; cbn [app])).
  reflexivity.
Qed.


(** *** A loop with a condition *)

(** A lazy repetition passes a run when the rest of the pattern fails at
    every place inside it. *)
Lemma star_lazy_pass A p a s (k : text -> option A) :
  forallb p a = true ->
  (forall a1 a2, a = a1 ++ a2 -> a2 <> [] -> k (a2 ++ s) = None) ->
  star_lazy p (a ++ s) k = star_lazy p s k.
Proof.
  intros Ha Hk. induction a as [|c a IH]; [reflexivity|].
  cbn [forallb] in Ha. apply andb_true_iff in Ha as [Hc Ha].
  assert (H0 : k ((c :: a) ++ s) = None)
    by (apply (Hk [] (c :: a) eq_refl); discriminate).
  cbn [app] in H0. cbn [app star_lazy]. rewrite H0, Hc.
  apply IH; [exact Ha|]. intros a1 a2 -> Hne.
  apply (Hk (c :: a1) a2); [reflexivity | exact Hne].
Qed.

(** A greedy repetition fails when the rest fails after every run. *)
Lemma star_greedy_none A p s (k : text -> option A) :
  (forall ws t, s = ws ++ t -> forallb p ws = true -> k t = None) ->
  star_greedy p s k = None.
Proof.
  induction s as [|c s IH]; intros Hk.
  - exact (Hk [] [] eq_refl eq_refl).
  - cbn [star_greedy]. rewrite (Hk [] (c :: s) eq_refl eq_refl).
    destruct (p c) eqn:Hc; [|reflexivity].
    rewrite IH; [reflexivity|]. intros ws t -> Hws.
    apply (Hk (c :: ws) t); [reflexivity|]. cbn [forallb]. rewrite Hc. exact Hws.
Qed.

Lemma ends_solid_suffix (a1 a2 : text) :
  ends_solid (a1 ++ a2) -> a2 <> [] -> ends_solid a2.
Proof.
  intros (t & d & E & Hd) Hne.
  destruct (exists_last Hne) as (t2 & d2 & ->).
  rewrite app_assoc in E. apply app_inj_tail in E as [_ ->].
  exists t2, d. auto.
Qed.

Lemma all_space_not_solid (s : text) :
  forallb is_space s = true -> ends_solid s -> False.
Proof.
  intros Hs (t & d & -> & Hd). rewrite forallb_app in Hs.
  apply andb_true_iff in Hs as [_ Hs]. cbn [forallb] in Hs.
  rewrite Hd in Hs. discriminate Hs.
Qed.

(** The loop pattern on a header line: the lazy group is the condition. *)
Lemma while_loop_match (cond : text) :
  starts_solid cond -> ends_solid cond ->
  forallb is_dot cond = true -> forallb (is_not ":"%char) cond = true ->
  re_match PythonParser.WHILE_LOOP_REGEX (txt "while " ++ cond ++ txt ":")
  = Some [(1, cond)].
Proof.
  intros (c0 & cond' & -> & Hc0) He Hdot Hcolon.
  cbn [forallb] in Hdot. apply andb_true_iff in Hdot as [Hd0 Hdot].
  cbn [forallb] in Hcolon. apply andb_true_iff in Hcolon as [_ Hcolon].
  unfold re_match, PythonParser.WHILE_LOOP_REGEX.
  cbv [cat lit sp sp1].
  cbn [rmatch app txt list_ascii_of_string startswith skipn List.length].
  rewrite !Ascii.eqb_refl. cbn [andb].
  change (is_space " "%char) with true. cbv match.
  rewrite star_greedy_stop by exact Hc0.
  rewrite Hd0.
  rewrite star_lazy_pass.
  - apply star_lazy_here. rewrite star_greedy_stop by reflexivity.
    cbn [startswith skipn List.length]. rewrite Ascii.eqb_refl. cbn [andb].
    change (c0 :: cond' ++ [":"%char]) with ((c0 :: cond') ++ [":"%char]).
    rewrite consumed_app. reflexivity.
  - exact Hdot.
  - intros a1 a2 -> Hne. cbv beta. apply star_greedy_none.
    intros ws t E Hws. destruct t as [|x t]; [reflexivity|].
    cbn [startswith]. destruct (Ascii.eqb ":"%char x) eqn:Ex; [|reflexivity].
    exfalso. apply Ascii.eqb_eq in Ex. subst x.
    rewrite forallb_app in Hcolon. apply andb_true_iff in Hcolon as [_ Hcolon].
    assert (Hws' : forallb (is_not ":"%char) ws = true).
    { revert Hws. apply forallb_impl.
      apply (class_subset is_space (is_not ":"%char)). by_chars. }
    apply (@span_unique (is_not ":"%char) a2 ws ":"%char ":"%char [] t
             Hcolon Hws' eq_refl eq_refl) in E.
    destruct E as (-> & _ & _).
    apply (@all_space_not_solid ws Hws).
    apply (@ends_solid_suffix (c0 :: a1) ws); [exact He | exact Hne].
Qed.


Lemma atom_no_colon a : is_atom a = true -> forallb (is_not ":"%char) a = true.
Proof.
  unfold is_atom. intros H. apply andb_true_iff in H as [_ H]. revert H.
  apply forallb_impl. apply (class_subset atom_char (is_not ":"%char)). by_chars.
Qed.

Lemma op_no_colon o : forallb op_char o = true -> forallb (is_not ":"%char) o = true.
Proof.
  apply forallb_impl. apply (class_subset op_char (is_not ":"%char)). by_chars.
Qed.

(** The text of a right-hand side and what the parser and the generators
    make of it. *)
Lemma rhs_shape (r : rhs) :
  rhs_well_formed r = true ->
  starts_solid (rhs_text r) /\ ends_solid (rhs_text r)
  /\ forallb is_dot (rhs_text r) = true
  /\ PythonParser._parse_expression (rhs_text r) = Some (rhs_node r).
Proof.
  intros H.
  exact (@parse_right_hand_side (txt "x", r) (rhs_text r) (rhs_node r)
           H eq_refl eq_refl).
Qed.

Lemma rhs_first (r : rhs) :
  rhs_well_formed r = true ->
  exists c t, rhs_text r = c :: t /\ atom_char c = true.
Proof.
  assert (Hatom : forall a s, is_atom a = true ->
                              exists c t, a ++ s = c :: t /\ atom_char c = true).
  { intros [|c a] s H; [discriminate|]. unfold is_atom in H.
    cbn [nonempty andb forallb] in H. apply andb_true_iff in H as [H _].
    exists c, (a ++ s). auto. }
  destruct r as [a | op a b | m n]; cbn [rhs_well_formed rhs_text]; intros H.
  - rewrite <- (app_nil_r a). apply Hatom, H.
  - apply andb_true_iff in H as [H _]. apply andb_true_iff in H as [_ H].
    apply Hatom, H.
  - apply andb_true_iff in H as [H _]. apply Hatom, unsigned_is_atom, H.
Qed.

Lemma rhs_no_colon (r : rhs) :
  rhs_well_formed r = true -> forallb (is_not ":"%char) (rhs_text r) = true.
Proof.
  destruct r as [a | op a b | m n]; cbn [rhs_well_formed rhs_text]; intros H.
  - apply atom_no_colon, H.
  - apply andb_true_iff in H as [H Hb]. apply andb_true_iff in H as [Hop Ha].
    rewrite !forallb_app, (atom_no_colon _ Ha), (atom_no_colon _ Hb),
      (op_no_colon _ (comparison_op_chars _ Hop)). reflexivity.
  - apply andb_true_iff in H as [Hm Hn].
    rewrite !forallb_app, (atom_no_colon _ (unsigned_is_atom _ Hm)),
      (atom_no_colon _ (unsigned_is_atom _ Hn)). reflexivity.
Qed.

Lemma visit_rhs_node (r : rhs) :
  rhs_well_formed r = true ->
  PythonGenerator.visit (rhs_node r) = Ok (parenthesized_rhs r).
Proof.
  destruct r as [a | op a b | m n];
    cbn [rhs_well_formed rhs_node parenthesized_rhs PythonGenerator.visit];
    intros H.
  - apply visit_parse_atom, H.
  - apply andb_true_iff in H as [H Hb]. apply andb_true_iff in H as [_ Ha].
    rewrite (@visit_parse_atom a Ha), (@visit_parse_atom b Hb). reflexivity.
  - reflexivity.
Qed.

Lemma java_visit_rhs_node (r : rhs) (level : Z) :
  rhs_well_formed r = true ->
  visit JavaGenerator (rhs_node r) level = (rhs_text r, level).
Proof.
  destruct r as [a | op a b | m n];
    cbn [rhs_well_formed rhs_node rhs_text visit]; intros H.
  - apply java_visit_atom, H.
  - apply andb_true_iff in H as [H Hb]. apply andb_true_iff in H as [_ Ha].
    rewrite (@java_visit_atom a level Ha), (@java_visit_atom b level Hb).
    reflexivity.
  - reflexivity.
Qed.

Lemma while_header_solid (r : rhs) :
  starts_solid (while_header r) /\ ends_solid (while_header r).
Proof.
  unfold while_header. split.
  - exists "w"%char. eexists. split; reflexivity.
  - rewrite !app_assoc. apply ends_solid_app.
    exists [], ":"%char. split; reflexivity.
Qed.

Lemma while_header_no_newline (r : rhs) :
  rhs_well_formed r = true -> forallb (is_not nl) (while_header r) = true.
Proof.
  intros H. destruct (rhs_shape r H) as (_ & _ & Hdot & _).
  unfold while_header. rewrite !forallb_app.
  change (is_not nl) with is_dot. rewrite Hdot. reflexivity.
Qed.

(** A header line of a loop with a condition at the head of the lines. *)
Lemma while_line (parse : text -> option Node) (k : nat)
  (r : rhs) (rest : list text) :
  rhs_well_formed r = true ->
  PythonParser.parse_loop parse (S k) (while_header r :: rest)
  = (let '(body_lines, rest') := PythonParser._get_indented_block rest 0 in
     body_program <- parse (join [nl] body_lines) ;;
     stmts <- PythonParser.parse_loop parse k rest' ;;
     Some (WhileLoopNode (rhs_node r) (statements body_program) :: stmts)).
Proof.
  intros Hr.
  destruct (while_header_solid r) as [Hs He].
  destruct (rhs_shape r Hr) as (Hrs & Hre & Hdot & Hexpr).
  pose proof (@while_loop_match (rhs_text r) Hrs Hre Hdot (rhs_no_colon r Hr))
    as Hwhile.
  assert (Hcall : re_match PythonParser.FUNCTION_CALL_REGEX (while_header r)
                  = None /\
                  re_match PythonParser.ASSIGNMENT_REGEX (while_header r)
                  = None).
  { destruct (rhs_first r Hr) as (c & t & E & Hc). unfold while_header.
    rewrite E. split.
    - refine (@keyword_no_call (txt "while") c _ eq_refl (atom_not_space _ Hc) _).
      intros ->. discriminate Hc.
    - refine (@keyword_no_assignment (txt "while") c _ eq_refl
                (atom_not_space _ Hc) _).
      intros ->. discriminate Hc. }
  destruct Hcall as [Hcall Hassign].
  cbn [PythonParser.parse_loop].
  rewrite (@strip_solid _ Hs He), (@indent_of_solid _ Hs).
  rewrite Hcall, Hassign.
  change (re_match PythonParser.FUNC_DEF_REGEX (while_header r))
    with (@None groups).
  change (re_match PythonParser.FOR_LOOP_REGEX (while_header r))
    with (@None groups).
  fold (while_header r) in Hwhile. rewrite Hwhile.
  cbn [group lookup Nat.eqb]. rewrite Hexpr.
  reflexivity.
Qed.

Lemma visit_while_block (r : rhs) (body : list assignment) :
  rhs_well_formed r = true -> forallb well_formed body = true ->
  PythonGenerator.visit
    (ProgramNode [WhileLoopNode (rhs_node r) (map node_of body)])
  = Ok (txt "while " ++ parenthesized_rhs r ++ txt ":" ++ [nl]
        ++ rendered_body body).
Proof.
  intros Hr Hwf. cbn [PythonGenerator.visit].
  match goal with
  | |- context [?f (map node_of body)] =>
      assert (H : f (map node_of body) = Ok (map parenthesized_line body))
  end.
  { induction body as [|st body IH]; [reflexivity|].
    cbn [forallb] in Hwf. apply andb_true_iff in Hwf as [Hst Hwf].
    cbn [map]. rewrite (@visit_node_of st Hst). rewrite (IH Hwf). reflexivity. }
  rewrite H.
  rewrite (@visit_rhs_node r Hr). cbn [join].
  unfold rendered_body. rewrite map_map. reflexivity.
Qed.

Lemma java_while_block (r : rhs) (body : list assignment) :
  rhs_well_formed r = true -> forallb well_formed body = true ->
  render JavaGenerator
    (ProgramNode [WhileLoopNode (rhs_node r) (map node_of body)])
  = txt "public class ConvertedCode {" ++ [nl]
    ++ txt "    public static void main(String[] args) {" ++ [nl]
    ++ txt "        while (" ++ rhs_text r ++ txt ") {" ++ [nl]
    ++ java_block_body body ++ [nl] ++ txt "};" ++ [nl]
    ++ txt "    }" ++ [nl] ++ txt "}".
Proof.
  intros Hr Hwf. unfold render. cbn [visit fst].
  rewrite (@java_visit_rhs_node r 0 Hr).
  java_body_nodes body Hwf.
  change (0 + 1)%Z with 1%Z. cbv beta match. rewrite java_body_code.
  unfold java_class_text.
  change (_make_indent 1) with (txt "    ").
  change (_make_indent (1 - 1)) with (@nil ascii).
  change (_make_indent 0) with (@nil ascii).
  cbn [map join app txt list_ascii_of_string].
  repeat (progress (rewrite <- ?app_assoc; cbn [app])).
  reflexivity.
Qed.

End BlockFacts.

(** * Functions of the brace languages *)
Module MethodFacts.
Import Reference Blocks Methods ReFacts ParserFacts MatchFacts RoundTripFacts
  BlockFacts StatementFacts.

Lemma declaration_shape (d : declaration) :
  declaration_ok d = true ->
  starts_solid (declaration_text d) /\ ends_solid (declaration_text d)
  /\ forallb (is_not nl) (declaration_text d) = true.
Proof.
  intros H. apply andb_true_iff in H as [Hx Ha].
  destruct (@declaration_line (fst d) (snd d) Hx Ha) as [_ Hsplit].
  unfold declaration_text. repeat split.
  - exists "i"%char. eexists. split; reflexivity.
  - rewrite !app_assoc. exists ((txt "int " ++ fst d) ++ txt " = " ++ snd d), ";"%char.
    split; [|reflexivity]. rewrite <- !app_assoc. reflexivity.
  - rewrite !forallb_app, (name_no_newline _ Hx).
    change (is_not nl) with is_dot. rewrite (atom_all_dot _ Ha). reflexivity.
Qed.

(** A declaration after any whitespace: the loop appends its node. *)
Lemma java_indented_declaration (parse : text -> option Node) (k : nat)
  (ws : text) (d : declaration) (rest : list text) :
  forallb is_space ws = true -> declaration_ok d = true ->
  JavaParser.parse_loop parse (S k) ((ws ++ declaration_text d) :: rest)
  = (stmts <- JavaParser.parse_loop parse k rest ;;
     Some (declaration_node d :: stmts)).
Proof.
  intros Hws Hd. destruct (declaration_shape d Hd) as (Hs & He & _).
  apply andb_true_iff in Hd as [Hx Ha].
  cbn [JavaParser.parse_loop].
  rewrite (@strip_after_spaces ws _ Hws), (@strip_solid _ Hs He).
  unfold declaration_text.
  cbn [txt list_ascii_of_string app startswith orb].
  change (Ascii.eqb "/"%char "i"%char) with false.
  cbn [andb orb].
  pose proof (@java_assignment_match (fst d) (snd d ++ txt ";") Hx
                (proj1 (closed_atom_solid (snd d) Ha))) as Hm.
  cbn [txt list_ascii_of_string app] in Hm. rewrite Hm.
  2:{ rewrite forallb_app, (atom_all_dot _ Ha). reflexivity. }
  cbn [group lookup Nat.eqb].
  pose proof (java_closed_atom_expression (snd d) Ha) as Hv.
  cbn [txt list_ascii_of_string app] in Hv. rewrite Hv. reflexivity.
Qed.

(** A line with a closing brace only is passed over. *)
Lemma java_brace_line (parse : text -> option Node) (k : nat)
  (ws : text) (rest : list text) :
  forallb is_space ws = true ->
  JavaParser.parse_loop parse (S k) ((ws ++ txt "}") :: rest)
  = JavaParser.parse_loop parse k rest.
Proof.
  intros Hws. cbn [JavaParser.parse_loop].
  rewrite (@strip_after_spaces ws _ Hws).
  change (strip (txt "}")) with (txt "}"). reflexivity.
Qed.

(** After [public] the assignment pattern needs an equals sign. *)
Lemma java_public_no_assignment (x0 : ascii) (rest : text) :
  is_space x0 = false -> x0 <> "="%char ->
  re_match JavaParser.ASSIGNMENT_REGEX (txt "public " ++ x0 :: rest) = None.
Proof.
  intros Hx0 Hne.
  destruct (re_match _ _) as [m|] eqn:E; [exfalso | reflexivity].
  apply re_match_sound in E as (a & s' & E & M).
  unfold JavaParser.ASSIGNMENT_REGEX in M. expose_regex M. inv_matches;
    rewrite <- ?app_assoc in E; cbn [txt list_ascii_of_string app] in E;
    [discriminate E|].
  match goal with
  | Hs : forallb is_space ?ws = true, Hw : forallb is_word (?c :: ?w) = true |- _ =>
      exact (@keyword_clash (c :: w) ws (txt "public") "="%char x0 _ _ Hw Hs
               eq_refl eq_refl eq_refl Hx0 Hne (eq_sym E))
  end.
Qed.

Lemma java_last_brace (parse : text -> option Node) (k : nat) :
  JavaParser.parse_loop parse (S k) [txt "}"] = Some [].
Proof.
  pose proof (@java_brace_line parse k [] [] eq_refl) as H.
  etransitivity; [exact H|]. destruct k; reflexivity.
Qed.

(** The line that opens the class matches no statement pattern. *)
Lemma java_class_line (parse : text -> option Node) (k : nat)
  (cls : text) (rest : list text) :
  JavaParser.parse_loop parse (S k)
    ((txt "public class " ++ cls ++ txt " {") :: rest)
  = JavaParser.parse_loop parse k rest.
Proof.
  assert (Hsolid : strip (txt "public class " ++ cls ++ txt " {")
                   = txt "public class " ++ cls ++ txt " {").
  { apply strip_solid.
    - exists "p"%char. eexists. split; reflexivity.
    - rewrite !app_assoc. apply ends_solid_app.
      exists [" "%char], "{"%char. split; reflexivity. }
  cbn [JavaParser.parse_loop]. rewrite Hsolid.
  assert (Ha : re_match JavaParser.ASSIGNMENT_REGEX
                 (txt "public class " ++ cls ++ txt " {") = None).
  { refine (@java_public_no_assignment "c"%char _ eq_refl _). discriminate. }
  rewrite Ha.
  change (re_match JavaParser.FUNC_DEF_REGEX
            (txt "public class " ++ cls ++ txt " {")) with (@None groups).
  reflexivity.
Qed.

(** The runs of a text between whitespace. *)
Lemma split_ws_run (a cur s : text) :
  forallb (fun c => negb (is_space c)) a = true ->
  split_ws_from cur (a ++ s) = split_ws_from (rev a ++ cur) s.
Proof.
  revert cur. induction a as [|c a IH]; intros cur H; [reflexivity|].
  cbn [forallb] in H. apply andb_true_iff in H as [Hc H].
  apply negb_true_iff in Hc.
  cbn [app split_ws_from rev]. rewrite Hc, (IH _ H), <- app_assoc. reflexivity.
Qed.

Lemma type_no_space (ty : text) :
  forallb type_char ty = true ->
  forallb (fun c => negb (is_space c)) ty = true.
Proof.
  apply forallb_impl. intros c H. unfold type_char in H.
  apply andb_true_iff in H as [H _]. apply andb_true_iff in H as [H _]. exact H.
Qed.

Lemma name_no_space (x : text) :
  is_name x = true -> forallb (fun c => negb (is_space c)) x = true.
Proof.
  unfold is_name. intros H. apply andb_true_iff in H as [_ H]. revert H.
  apply forallb_impl. intros c H. rewrite (word_not_space _ H). reflexivity.
Qed.

(** The last word of a parameter is its name. *)
Lemma parameter_name (p : parameter) :
  parameter_ok p = true -> last (split_ws (parameter_text p)) [] = snd p.
Proof.
  intros H. unfold parameter_ok in H.
  apply andb_true_iff in H as [H Hn]. apply andb_true_iff in H as [Hne Hty].
  unfold split_ws, parameter_text.
  rewrite (@split_ws_run (fst p) [] _ (type_no_space _ Hty)).
  rewrite app_nil_r. cbn [txt list_ascii_of_string app split_ws_from].
  change (is_space " "%char) with true. cbv match.
  destruct (fst p) as [|t0 ty] eqn:Et; [discriminate|].
  destruct (rev (t0 :: ty)) as [|r0 r] eqn:Er.
  { apply (f_equal (@List.length ascii)) in Er. rewrite length_rev in Er.
    discriminate Er. }
  rewrite <- (app_nil_r (snd p)) at 1.
  rewrite (@split_ws_run (snd p) [] [] (name_no_space _ Hn)).
  rewrite app_nil_r. cbn [split_ws_from].
  destruct (rev (snd p)) as [|n0 n] eqn:En.
  { apply (f_equal (@List.length ascii)) in En. rewrite length_rev in En.
    unfold is_name in Hn. destruct (snd p); discriminate. }
  rewrite <- En, rev_involutive. reflexivity.
Qed.

Lemma parameter_shape (p : parameter) :
  parameter_ok p = true ->
  starts_solid (parameter_text p) /\ ends_solid (parameter_text p)
  /\ forallb (is_not ","%char) (parameter_text p) = true
  /\ forallb (is_not ")"%char) (parameter_text p) = true
  /\ forallb (is_not nl) (parameter_text p) = true.
Proof.
  intros H. unfold parameter_ok in H.
  apply andb_true_iff in H as [H Hn]. apply andb_true_iff in H as [Hne Hty].
  unfold parameter_text. repeat split.
  - destruct (fst p) as [|t0 ty]; [discriminate|].
    cbn [forallb] in Hty. apply andb_true_iff in Hty as [H0 _].
    exists t0. eexists. split; [reflexivity|].
    unfold type_char in H0. apply andb_true_iff in H0 as [H0 _].
    apply andb_true_iff in H0 as [H0 _]. apply negb_true_iff in H0. exact H0.
  - rewrite app_assoc. apply ends_solid_app, atom_ends_solid, name_is_atom, Hn.
  - rewrite !forallb_app, (name_no_comma _ Hn).
    rewrite (@forallb_impl type_char (is_not ","%char) (fst p)); [reflexivity| |exact Hty].
    intros c Hc. unfold type_char in Hc. apply andb_true_iff in Hc as [Hc _].
    apply andb_true_iff in Hc as [_ Hc]. exact Hc.
  - rewrite !forallb_app, (name_no_close _ Hn).
    rewrite (@forallb_impl type_char (is_not ")"%char) (fst p)); [reflexivity| |exact Hty].
    intros c Hc. unfold type_char in Hc. apply andb_true_iff in Hc as [_ Hc].
    exact Hc.
  - rewrite !forallb_app, (name_no_newline _ Hn).
    rewrite (@forallb_impl type_char (is_not nl) (fst p)); [reflexivity| |exact Hty].
    revert Hty. clear. intros _ c. revert c.
    apply (class_subset type_char (is_not nl)). by_chars.
Qed.

(** Splitting a parameter list at its commas and taking the last word of
    each part gives the names. *)
Lemma split_typed_parameters (lead : text) (p : parameter) (ps : list parameter) :
  forallb is_space lead = true -> forallb (is_not ","%char) lead = true ->
  forallb parameter_ok (p :: ps) = true ->
  map (fun a => last (split_ws (strip a)) [])
    (filter (fun a => negb (JavaParser.blank a))
       (split_char ","%char (lead ++ join (txt ", ") (map parameter_text (p :: ps)))))
  = map snd (p :: ps).
Proof.
  revert lead p. induction ps as [|p2 ps IH]; intros lead p Hs Hc Hn;
    cbn [forallb] in Hn; apply andb_true_iff in Hn as [Hp Hn];
    destruct (parameter_shape p Hp) as (Hps & Hpe & Hpc & _).
  - cbn [map join]. rewrite split_char_absent
      by (rewrite forallb_app, Hc, Hpc; reflexivity).
    cbn [filter]. unfold JavaParser.blank.
    rewrite (@strip_after_spaces lead _ Hs), (@strip_solid _ Hps Hpe).
    pose proof Hps as Hps'.
    destruct Hps as (c0 & t0 & E0 & _). rewrite E0 at 1. cbn [negb map].
    rewrite (@strip_after_spaces lead _ Hs), (@strip_solid _ Hps' Hpe).
    rewrite (parameter_name p Hp). reflexivity.
  - cbn [map].
    change (join (txt ", ") (parameter_text p :: parameter_text p2
                             :: map parameter_text ps))
      with (parameter_text p ++ ","%char :: [" "%char]
            ++ join (txt ", ") (map parameter_text (p2 :: ps))).
    rewrite app_assoc, split_char_app
      by (rewrite forallb_app, Hc, Hpc; reflexivity).
    cbn [filter]. unfold JavaParser.blank at 1.
    rewrite (@strip_after_spaces lead _ Hs), (@strip_solid _ Hps Hpe).
    pose proof Hps as Hps'.
    destruct Hps as (c0 & t0 & E0 & _). rewrite E0 at 1. cbn [negb map].
    rewrite (@strip_after_spaces lead _ Hs), (@strip_solid _ Hps' Hpe).
    rewrite (parameter_name p Hp).
    f_equal. apply (IH [" "%char] p2); [reflexivity | reflexivity | exact Hn].
Qed.

Lemma split_typed_parameter_list (params : list parameter) :
  forallb parameter_ok params = true ->
  map (fun a => last (split_ws (strip a)) [])
    (filter (fun a => negb (JavaParser.blank a))
       (split_char ","%char (join (txt ", ") (map parameter_text params))))
  = map snd params.
Proof.
  destruct params as [|p ps]; [reflexivity|].
  exact (@split_typed_parameters [] p ps eq_refl eq_refl).
Qed.

Lemma orelse_first A (x y : option A) (r : A) : x = Some r -> orelse x y = Some r.
Proof. intros ->. reflexivity. Qed.

(** The definition pattern on the header of a method. *)
Lemma java_method_match (name : text) (params : list parameter) :
  is_name name = true -> forallb parameter_ok params = true ->
  re_match JavaParser.FUNC_DEF_REGEX (method_header name params)
  = Some [(2, join (txt ", ") (map parameter_text params)); (1, name)].
Proof.
  intros Hname Hparams.
  assert (Hargs : forallb (is_not ")"%char)
                    (join (txt ", ") (map parameter_text params)) = true).
  { apply forallb_join; [reflexivity|].
    clear - Hparams. induction params as [|p ps IH]; [reflexivity|].
    cbn [forallb] in Hparams. apply andb_true_iff in Hparams as [Hp Hps].
    destruct (parameter_shape p Hp) as (_ & _ & _ & Hc & _).
    cbn [map forallb]. rewrite Hc, (IH Hps). reflexivity. }
  destruct name as [|c name]; [discriminate|].
  unfold is_name in Hname. cbn [nonempty andb forallb] in Hname.
  apply andb_true_iff in Hname as [Hc Hname].
  unfold re_match, JavaParser.FUNC_DEF_REGEX, method_header.
  cbv [cat alts lit sp sp1 word1 not_ch].
  cbn [rmatch]. apply orelse_first.
  cbn [app txt list_ascii_of_string startswith skipn List.length].
  rewrite !Ascii.eqb_refl. cbn [andb].
  change (is_space " "%char) with true. cbv match.
  rewrite star_greedy_stop by reflexivity.
  apply orelse_first.
  cbn [startswith skipn List.length].
  rewrite !Ascii.eqb_refl. cbn [andb].
  change (is_space " "%char) with true. cbv match.
  rewrite star_greedy_stop by reflexivity.
  apply orelse_first.
  cbn [startswith skipn List.length].
  rewrite !Ascii.eqb_refl. cbn [andb].
  change (is_space " "%char) with true. cbv match.
  rewrite star_greedy_stop by (apply word_not_space; exact Hc).
  rewrite Hc.
  apply star_greedy_run; [exact Hname | reflexivity |].
  rewrite star_greedy_stop by reflexivity.
  cbn [startswith skipn List.length]. rewrite Ascii.eqb_refl. cbn [andb].
  apply star_greedy_run; [exact Hargs | reflexivity |].
  cbn [startswith skipn List.length]. rewrite Ascii.eqb_refl. cbn [andb].
  apply (@star_greedy_run _ is_space [" "%char]); [reflexivity | reflexivity |].
  cbn [startswith skipn List.length]. rewrite Ascii.eqb_refl. cbn [andb].
  rewrite consumed_app.
  match goal with
  | |- context [consumed (c :: name ++ ?r) ?r] =>
      change (c :: name ++ r) with ((c :: name) ++ r)
  end.
  rewrite consumed_app. reflexivity.
Qed.

Lemma method_header_solid (name : text) (params : list parameter) :
  starts_solid (method_header name params)
  /\ ends_solid (method_header name params).
Proof.
  unfold method_header. split.
  - exists "p"%char. eexists. split; reflexivity.
  - rewrite !app_assoc. apply ends_solid_app.
    exists [")"%char; " "%char], "{"%char. split; reflexivity.
Qed.

Lemma method_header_no_newline (name : text) (params : list parameter) :
  is_name name = true -> forallb parameter_ok params = true ->
  forallb (is_not nl) (method_header name params) = true.
Proof.
  intros Hname Hparams. unfold method_header. rewrite !forallb_app.
  rewrite (name_no_newline _ Hname).
  rewrite forallb_join; [reflexivity | reflexivity |].
  clear - Hparams. induction params as [|p ps IH]; [reflexivity|].
  cbn [forallb] in Hparams. apply andb_true_iff in Hparams as [Hp Hps].
  destruct (parameter_shape p Hp) as (_ & _ & _ & _ & Hc).
  cbn [map forallb]. rewrite Hc, (IH Hps). reflexivity.
Qed.

(** The header of a method at the head of the lines: the loop cuts the
    block under it, parses the block and appends a function node with the
    names of the parameters. *)
Lemma java_method_line (parse : text -> option Node) (k : nat)
  (margin : nat) (name : text) (params : list parameter) (rest : list text) :
  is_name name = true -> forallb parameter_ok params = true ->
  JavaParser.parse_loop parse (S k)
    ((indentation margin ++ method_header name params) :: rest)
  = (let '(body_lines, rest') := JavaParser._get_indented_block rest margin in
     body_program <- parse (join [nl] body_lines) ;;
     stmts <- JavaParser.parse_loop parse k rest' ;;
     Some (FunctionNode name (map snd params) (statements body_program)
           :: stmts)).
Proof.
  intros Hname Hparams.
  destruct (method_header_solid name params) as [Hs He].
  pose proof (@java_method_match name params Hname Hparams) as Hdef.
  assert (Ha : re_match JavaParser.ASSIGNMENT_REGEX (method_header name params)
               = None).
  { refine (@java_public_no_assignment "s"%char _ eq_refl _). discriminate. }
  cbn [JavaParser.parse_loop].
  rewrite (@strip_after_spaces _ _ (indentation_spaces margin)).
  rewrite (@strip_solid _ Hs He).
  rewrite (@indent_of_spaces _ _ (indentation_spaces margin) Hs).
  unfold indentation at 1. rewrite repeat_length.
  rewrite Ha, Hdef. cbn [group lookup Nat.eqb].
  rewrite (@split_typed_parameter_list params Hparams).
  reflexivity.
Qed.

(** The block under the header: the declarations, up to the closing brace
    of the method; with no declaration, that brace. *)
Lemma java_block_of_declarations (first : bool) (margin deeper : nat)
  (body : list declaration) :
  forallb declaration_ok body = true ->
  (body <> [] \/ first = false) ->
  JavaParser.block_from first
    (map (fun d => indentation (margin + S deeper) ++ declaration_text d) body
     ++ [indentation margin ++ txt "}"; txt "}"]) margin
  = (map (fun d => indentation (margin + S deeper) ++ declaration_text d) body,
     [indentation margin ++ txt "}"; txt "}"]).
Proof.
  assert (Hbrace : JavaParser.blank (indentation margin ++ txt "}") = false
                   /\ indent_of (indentation margin ++ txt "}") = margin).
  { unfold JavaParser.blank.
    rewrite (@strip_after_spaces _ _ (indentation_spaces margin)).
    split; [reflexivity|].
    rewrite (@indent_of_spaces _ (txt "}") (indentation_spaces margin)).
    - unfold indentation. apply repeat_length.
    - exists "}"%char, []. split; reflexivity. }
  destruct Hbrace as [Hbl Hin].
  revert first. induction body as [|d body IH]; intros first Hok Hcase.
  - destruct Hcase as [Hcase | ->]; [contradiction|].
    cbn [map app JavaParser.block_from]. rewrite Hbl, Hin, Nat.leb_refl.
    reflexivity.
  - cbn [forallb] in Hok. apply andb_true_iff in Hok as [Hd Hok].
    destruct (declaration_shape d Hd) as (Hs & He & _).
    cbn [map app JavaParser.block_from].
    unfold JavaParser.blank at 1.
    rewrite (@strip_after_spaces _ _ (indentation_spaces (margin + S deeper))).
    rewrite (@strip_solid _ Hs He).
    rewrite (@indent_of_spaces _ _ (indentation_spaces (margin + S deeper)) Hs).
    destruct Hs as (c & t & E & _). rewrite E at 1.
    unfold indentation at 1. rewrite repeat_length.
    replace (margin + S deeper <=? margin) with false
      by (symmetry; apply Nat.leb_gt; lia).
    cbn [andb]. rewrite (IH false Hok) by (right; reflexivity). reflexivity.
Qed.

Lemma java_block_of_nothing (margin : nat) :
  JavaParser.block_from true [indentation margin ++ txt "}"; txt "}"] margin
  = ([indentation margin ++ txt "}"], [txt "}"]).
Proof.
  cbn [JavaParser.block_from]. unfold JavaParser.blank at 1.
  rewrite (@strip_after_spaces _ _ (indentation_spaces margin)).
  change (strip (txt "}")) with (txt "}"). cbv match.
  rewrite andb_false_r. reflexivity.
Qed.

Lemma java_parse_fuel_step (fuel : nat) (code : text) :
  JavaParser.parse_java_fuel (S fuel) code
  = (stmts <- JavaParser.parse_loop (JavaParser.parse_java_fuel fuel)
                (List.length (split_char nl (strip code)))
                (split_char nl (strip code)) ;;
     Some (ProgramNode stmts)).
Proof. reflexivity. Qed.

(** A line is a declaration after some whitespace. *)
Lemma java_parse_loop_declarations (parse : text -> option Node)
  (lines : list text) (body : list declaration) :
  Forall2 (fun line d => exists ws, forallb is_space ws = true
                                    /\ line = ws ++ declaration_text d
                                    /\ declaration_ok d = true) lines body ->
  forall k, List.length body <= k ->
            JavaParser.parse_loop parse k lines = Some (map declaration_node body).
Proof.
  induction 1 as [|line d lines body (ws & Hws & -> & Hd) _ IH]; intros k Hk.
  - destruct k; reflexivity.
  - destruct k as [|k]; [cbn [List.length] in Hk; lia|].
    rewrite (@java_indented_declaration parse k ws d _ Hws Hd).
    rewrite (IH k) by (cbn [List.length] in Hk; lia). reflexivity.
Qed.

(** The lines of declarations: their ends, and what each of them is. *)
Lemma declaration_lines_shape (width : nat) (body : list declaration) :
  forallb declaration_ok body = true ->
  Forall ends_solid
    (map (fun d => indentation width ++ declaration_text d) body)
  /\ forallb (forallb (is_not nl))
       (map (fun d => indentation width ++ declaration_text d) body) = true
  /\ Forall2 (fun line d => exists ws, forallb is_space ws = true
                                       /\ line = ws ++ declaration_text d
                                       /\ declaration_ok d = true)
       (map (fun d => indentation width ++ declaration_text d) body) body.
Proof.
  intros Hok. induction body as [|d body IH].
  - repeat split; constructor.
  - cbn [forallb] in Hok. apply andb_true_iff in Hok as [Hd Hok].
    destruct (IH Hok) as (IH1 & IH2 & IH3).
    destruct (declaration_shape d Hd) as (_ & He & Hn).
    cbn [map forallb]. repeat split.
    + constructor; [apply ends_solid_app, He | exact IH1].
    + rewrite IH2, forallb_app, Hn, indentation_no_newline. reflexivity.
    + constructor; [|exact IH3]. exists (indentation width).
      split; [apply indentation_spaces | auto].
Qed.

(** The declarations on their own are parsed into their nodes. *)
Lemma java_parse_declarations (fuel width : nat) (body : list declaration) :
  forallb declaration_ok body = true ->
  JavaParser.parse_java_fuel (S fuel)
    (join [nl] (map (fun d => indentation width ++ declaration_text d) body))
  = Some (ProgramNode (map declaration_node body)).
Proof.
  intros Hok. rewrite java_parse_fuel_step.
  destruct body as [|d body]; [reflexivity|].
  cbn [forallb] in Hok. apply andb_true_iff in Hok as [Hd Hok].
  destruct (declaration_lines_shape width body Hok) as (Hends & Hnls & Hall).
  destruct (declaration_shape d Hd) as (Hs & He & Hn).
  cbn [map]. rewrite join_after.
  rewrite (@strip_after_spaces _ _ (indentation_spaces width)).
  set (others := map (fun d => indentation width ++ declaration_text d) body) in *.
  assert (Hstart : starts_solid (join [nl] (declaration_text d :: others))).
  { destruct others; cbn [join]; [exact Hs | apply starts_solid_app, Hs]. }
  assert (Hend : ends_solid (join [nl] (declaration_text d :: others))).
  { apply join_ends_solid. constructor; assumption. }
  rewrite (@strip_solid _ Hstart Hend).
  rewrite split_join by (cbn [forallb]; rewrite Hn, Hnls; reflexivity).
  rewrite (@java_parse_loop_declarations _ (declaration_text d :: others)
             (d :: body)); [reflexivity | | ].
  - constructor; [|exact Hall]. exists []. auto.
  - cbn [List.length]. unfold others. rewrite length_map. lia.
Qed.

Lemma class_lines_shape (cls name : text) (params : list parameter)
  (margin deeper : nat) (body : list declaration) :
  is_name cls = true -> is_name name = true ->
  forallb parameter_ok params = true -> forallb declaration_ok body = true ->
  forallb (forallb (is_not nl)) (class_lines cls name params margin deeper body)
  = true.
Proof.
  intros Hcls Hname Hparams Hbody. unfold class_lines.
  assert (H1 : forallb (is_not nl) (txt "public class " ++ cls ++ txt " {") = true).
  { rewrite !forallb_app, (name_no_newline _ Hcls). reflexivity. }
  assert (H2 : forallb (is_not nl) (indentation margin ++ method_header name params)
               = true).
  { rewrite forallb_app, indentation_no_newline.
    apply method_header_no_newline; assumption. }
  assert (H3 : forallb (forallb (is_not nl))
                 (map (fun d => indentation (margin + S deeper)
                                ++ declaration_text d) body) = true).
  { clear - Hbody. induction body as [|d body IH]; [reflexivity|].
    cbn [forallb] in Hbody. apply andb_true_iff in Hbody as [Hd Hbody].
    destruct (declaration_shape d Hd) as (_ & _ & Hn).
    cbn [map forallb].
    rewrite forallb_app, indentation_no_newline, Hn, (IH Hbody). reflexivity. }
  assert (H4 : forallb (is_not nl) (indentation margin ++ txt "}") = true).
  { rewrite forallb_app, indentation_no_newline. reflexivity. }
  apply forallb_forall. intros x Hin.
  destruct Hin as [<- | [<- | Hin]]; [exact H1 | exact H2 |].
  apply in_app_iff in Hin as [Hin | Hin].
  - rewrite forallb_forall in H3. apply H3. exact Hin.
  - destruct Hin as [<- | [<- | []]]; [exact H4 | reflexivity].
Qed.

(** The class as a whole: one function node for the method. *)
Lemma java_parse_class (cls name : text) (params : list parameter)
  (margin deeper : nat) (body : list declaration) :
  is_name cls = true -> is_name name = true ->
  forallb parameter_ok params = true -> forallb declaration_ok body = true ->
  JavaParser.parse_java
    (join [nl] (class_lines cls name params margin deeper body))
  = ProgramNode
      [FunctionNode name (map snd params) (map declaration_node body)].
Proof.
  intros Hcls Hname Hparams Hbody.
  pose proof (class_lines_shape cls name params margin deeper body
                Hcls Hname Hparams Hbody) as Hnl.
  unfold JavaParser.parse_java, JavaParser.parse_fuel.
  assert (Hstart : starts_solid
                     (join [nl] (class_lines cls name params margin deeper body))).
  { unfold class_lines.
    change (join [nl] ((txt "public class " ++ cls ++ txt " {") :: ?l))
      with (join [nl] ((txt "public class " ++ cls ++ txt " {") :: l)).
    cbn [join]. exists "p"%char. eexists. split; reflexivity. }
  assert (Hend : ends_solid
                   (join [nl] (class_lines cls name params margin deeper body))).
  { unfold class_lines.
    set (decls := map _ body).
    change (?a :: ?b :: decls ++ ?tail) with ((a :: b :: decls) ++ tail).
    generalize ((txt "public class " ++ cls ++ txt " {")
                :: (indentation margin ++ method_header name params) :: decls).
    intros l. induction l as [|x l IH].
    - cbn [app join]. apply ends_solid_app, ends_solid_cons.
      exists [], "}"%char. split; reflexivity.
    - destruct l as [|y l].
      + cbn [app join] in *. apply ends_solid_app, ends_solid_cons, IH.
      + change (join [nl] ((x :: y :: l) ++ [indentation margin ++ txt "}"; txt "}"]))
          with (x ++ [nl] ++ join [nl] ((y :: l)
                                        ++ [indentation margin ++ txt "}"; txt "}"])).
        apply ends_solid_app, ends_solid_cons, IH. }
  destruct (List.length (join [nl] (class_lines cls name params margin deeper body)))
    as [|n] eqn:En.
  { destruct Hstart as (c & t & E & _). rewrite E in En. discriminate En. }
  clear En. rewrite java_parse_fuel_step.
  rewrite (@strip_solid _ Hstart Hend).
  unfold class_lines in *. rewrite split_join by exact Hnl.
  cbn [List.length]. rewrite java_class_line, java_method_line by assumption.
  unfold JavaParser._get_indented_block.
  destruct body as [|d body].
  - cbn [map app]. rewrite java_block_of_nothing. cbv beta match.
    cbn [join]. rewrite java_parse_fuel_step.
    rewrite (@strip_after_spaces _ _ (indentation_spaces margin)).
    change (strip (txt "}")) with (txt "}").
    change (split_char nl (txt "}")) with [txt "}"].
    cbn [List.length]. rewrite !java_last_brace. reflexivity.
  - rewrite (@java_block_of_declarations true margin deeper (d :: body) Hbody)
      by (left; discriminate).
    cbv beta match.
    rewrite (@java_parse_declarations n (margin + S deeper) (d :: body) Hbody).
    cbn [statements]. rewrite length_app. cbn [List.length].
    rewrite Nat.add_comm. cbn [Nat.add].
    rewrite (@java_brace_line _ _ _ _ (indentation_spaces margin)).
    rewrite java_last_brace. reflexivity.
Qed.

Lemma visit_method (name : text) (names : list text) (body : list declaration) :
  PythonGenerator.visit
    (ProgramNode [FunctionNode name names (map declaration_node body)])
  = Ok (txt "def " ++ name ++ txt "(" ++ join (txt ", ") names ++ txt "):"
        ++ [nl] ++ python_method_body body).
Proof.
  cbn [PythonGenerator.visit].
  match goal with
  | |- context [?f (map declaration_node body)] =>
      assert (H : f (map declaration_node body)
                  = Ok (map (fun d => fst d ++ txt " = " ++ snd d ++ txt ";") body))
  end.
  { induction body as [|d body IH]; [reflexivity|].
    cbn [map declaration_node PythonGenerator.visit]. rewrite IH. reflexivity. }
  rewrite H. cbn [join]. unfold python_method_body.
  rewrite map_map, <- ?app_assoc. reflexivity.
Qed.

Lemma java_visit_method (name : text) (names : list text)
  (body : list declaration) :
  render JavaGenerator
    (ProgramNode [FunctionNode name names (map declaration_node body)])
  = txt "public class ConvertedCode {" ++ [nl]
    ++ txt "public static void " ++ name ++ txt "("
    ++ join (txt ", ") (map (fun p => txt "String " ++ p) names)
    ++ txt ") {" ++ [nl]
    ++ java_method_body body ++ [nl] ++ txt "}" ++ [nl] ++ txt "}".
Proof.
  unfold render. cbn [visit fst].
  match goal with
  | |- context [?f (map declaration_node body) ?lev] =>
      assert (H : f (map declaration_node body) lev
                  = (map (fun d => _make_indent lev ++ declaration_text d) body,
                     lev))
  end.
  { induction body as [|d body IH]; [reflexivity|].
    cbn [map declaration_node visit]. rewrite IH. reflexivity. }
  rewrite H. clear H.
  change (0 + 1)%Z with 1%Z. cbv beta match.
  assert (Hbody : match map declaration_node body with
                  | [] => _make_indent 1 ++ txt "// Empty body"
                  | _ :: _ =>
                      join [nl]
                        (map (fun s => s ++ txt ";")
                           (map (fun d => _make_indent 1 ++ declaration_text d)
                              body))
                  end = java_method_body body).
  { destruct body as [|d body]; [reflexivity|].
    unfold java_method_body. rewrite map_map. reflexivity. }
  rewrite Hbody.
  unfold java_class_text.
  change (_make_indent (1 - 1)) with (@nil ascii).
  change (_make_indent 0) with (@nil ascii).
  cbn [map join app txt list_ascii_of_string].
  repeat (progress (rewrite <- ?app_assoc; cbn [app])).
  reflexivity.
Qed.

(** *** The same for a function of C++ *)

Lemma cpp_indented_declaration (parse : text -> option Node) (k : nat)
  (ws : text) (d : declaration) (rest : list text) :
  forallb is_space ws = true -> declaration_ok d = true ->
  CppParser.parse_loop parse (S k) ((ws ++ declaration_text d) :: rest)
  = (stmts <- CppParser.parse_loop parse k rest ;;
     Some (declaration_node d :: stmts)).
Proof.
  intros Hws Hd. destruct (declaration_shape d Hd) as (Hs & He & _).
  apply andb_true_iff in Hd as [Hx Ha].
  cbn [CppParser.parse_loop].
  rewrite (@strip_after_spaces ws _ Hws), (@strip_solid _ Hs He).
  unfold declaration_text.
  cbn [txt list_ascii_of_string app startswith orb].
  change (Ascii.eqb "/"%char "i"%char) with false.
  change (Ascii.eqb "#"%char "i"%char) with false.
  change (Ascii.eqb "u"%char "i"%char) with false.
  cbn [andb orb].
  pose proof (@cpp_assignment_match (fst d) (snd d ++ txt ";") Hx
                (proj1 (closed_atom_solid (snd d) Ha))) as Hm.
  cbn [txt list_ascii_of_string app] in Hm. rewrite Hm.
  2:{ rewrite forallb_app, (atom_all_dot _ Ha). reflexivity. }
  cbn [group lookup Nat.eqb].
  pose proof (cpp_closed_atom_expression (snd d) Ha) as Hv.
  cbn [txt list_ascii_of_string app] in Hv. rewrite Hv. reflexivity.
Qed.

Lemma cpp_last_brace (parse : text -> option Node) (k : nat) :
  CppParser.parse_loop parse (S k) [txt "}"] = Some [].
Proof. destruct k; reflexivity. Qed.

Lemma return_type_cases (ret : text) :
  cpp_return_type ret = true ->
  ret = txt "void" \/ ret = txt "int" \/ ret = txt "string".
Proof.
  unfold cpp_return_type. intros H.
  apply orb_true_iff in H as [H | H]; [apply orb_true_iff in H as [H | H]|];
    apply text_eqb_spec in H; auto.
Qed.

(** The header of a function is no assignment: after the name comes a
    parenthesis. *)
Lemma cpp_header_no_assignment (ret name rest : text) :
  cpp_return_type ret = true -> is_name name = true ->
  re_match CppParser.ASSIGNMENT_REGEX
    (ret ++ txt " " ++ name ++ txt "(" ++ rest) = None.
Proof.
  intros Hret Hname.
  destruct name as [|n0 name]; [discriminate|].
  unfold is_name in Hname. cbn [nonempty andb forallb] in Hname.
  apply andb_true_iff in Hname as [Hn0 Hname].
  assert (Hword : forallb is_word ret = true)
    by (destruct (return_type_cases ret Hret) as [-> | [-> | ->]]; reflexivity).
  destruct (re_match _ _) as [m|] eqn:E; [exfalso | reflexivity].
  apply re_match_sound in E as (a & s' & E & M).
  unfold CppParser.ASSIGNMENT_REGEX in M. expose_regex M. inv_matches;
    rewrite <- ?app_assoc in E; cbn [txt list_ascii_of_string app] in E.
  - destruct (return_type_cases ret Hret) as [-> | [-> | ->]];
      cbn [txt list_ascii_of_string app] in E; try discriminate E.
    assert (Hn : forallb is_word (n0 :: name) = true)
      by (cbn [forallb]; rewrite Hn0; exact Hname).
    match goal with
    | Hs1 : forallb is_space (?c :: ?a0) = true,
      Hs : forallb is_space ?a1 = true,
      Hw : forallb is_word (?c1 :: ?a4) = true,
      E : _ = _ :: _ :: _ :: ?c :: ?a0 ++ ?c1 :: ?a4 ++ ?a1 ++ _ |- _ =>
        injection E as _ E;
        cbn [forallb] in Hs1; apply andb_true_iff in Hs1 as [_ Hs1];
        destruct a0 as [|w1 a0]; cbn [app forallb] in E, Hs1;
        [ destruct a1 as [|w0 a1]; cbn [app forallb] in E, Hs;
          [ apply (@span_unique is_word (n0 :: name) (c1 :: a4) "("%char
                     "="%char _ _ Hn Hw eq_refl eq_refl) in E;
            destruct E as (_ & E & _); discriminate E
          | apply andb_true_iff in Hs as [Hw0 _];
            apply (@span_unique is_word (n0 :: name) (c1 :: a4) "("%char
                     w0 _ _ Hn Hw eq_refl (space_not_word _ Hw0)) in E;
            destruct E as (_ & E & _); subst w0; discriminate Hw0 ]
        | injection E as E _; subst w1;
          apply andb_true_iff in Hs1 as [Hs1 _];
          rewrite (word_not_space _ Hn0) in Hs1; discriminate Hs1 ]
    end.
  - match goal with
    | Hs : forallb is_space ?ws = true, Hw : forallb is_word (?c :: ?w) = true |- _ =>
        refine (@keyword_clash (c :: w) ws ret "="%char n0 _ _ Hw Hs Hword
                  eq_refl eq_refl (word_not_space _ Hn0) _ (eq_sym E));
        intros ->; discriminate Hn0
    end.
Qed.

Lemma parameters_no_close (params : list parameter) :
  forallb parameter_ok params = true ->
  forallb (is_not ")"%char) (join (txt ", ") (map parameter_text params)) = true.
Proof.
  intros Hparams. apply forallb_join; [reflexivity|].
  induction params as [|p ps IH]; [reflexivity|].
  cbn [forallb] in Hparams. apply andb_true_iff in Hparams as [Hp Hps].
  destruct (parameter_shape p Hp) as (_ & _ & _ & Hc & _).
  cbn [map forallb]. rewrite Hc, (IH Hps). reflexivity.
Qed.

Lemma parameters_no_newline (params : list parameter) :
  forallb parameter_ok params = true ->
  forallb (is_not nl) (join (txt ", ") (map parameter_text params)) = true.
Proof.
  intros Hparams. apply forallb_join; [reflexivity|].
  induction params as [|p ps IH]; [reflexivity|].
  cbn [forallb] in Hparams. apply andb_true_iff in Hparams as [Hp Hps].
  destruct (parameter_shape p Hp) as (_ & _ & _ & _ & Hc).
  cbn [map forallb]. rewrite Hc, (IH Hps). reflexivity.
Qed.

(** The definition pattern on the header of a function. *)
Lemma cpp_function_match (ret name : text) (params : list parameter) :
  cpp_return_type ret = true -> is_name name = true ->
  forallb parameter_ok params = true ->
  re_match CppParser.FUNC_DEF_REGEX (function_header ret name params)
  = Some [(2, join (txt ", ") (map parameter_text params)); (1, name)].
Proof.
  intros Hret Hname Hparams.
  pose proof (parameters_no_close params Hparams) as Hargs.
  destruct name as [|c name]; [discriminate|].
  unfold is_name in Hname. cbn [nonempty andb forallb] in Hname.
  apply andb_true_iff in Hname as [Hc Hname].
  unfold re_match, CppParser.FUNC_DEF_REGEX, function_header.
  cbv [cat alts lit sp sp1 word1 not_ch].
  assert (Hrest : forall g,
             rmatch (Seq (Plus is_space)
                       (Seq (Group 1 (Plus is_word))
                          (Seq (Star is_space)
                             (Seq (Lit (txt "("))
                                (Seq (Group 2 (Star (is_not ")"%char)))
                                   (Seq (Lit (txt ")"))
                                      (Seq (Star is_space) (Lit (txt "{")))))))))
               (txt " " ++ (c :: name) ++ txt "("
                ++ join (txt ", ") (map parameter_text params) ++ txt ") {") g
               (fun _ g' => Some g')
             = Some ((2, join (txt ", ") (map parameter_text params))
                     :: (1, c :: name) :: g)).
  { intros g.
    cbn [rmatch app txt list_ascii_of_string startswith skipn List.length].
    change (is_space " "%char) with true. cbv match.
    rewrite star_greedy_stop by (apply word_not_space; exact Hc).
    rewrite Hc.
    apply star_greedy_run; [exact Hname | reflexivity |].
    rewrite star_greedy_stop by reflexivity.
    cbn [startswith skipn List.length]. rewrite Ascii.eqb_refl. cbn [andb].
    apply star_greedy_run; [exact Hargs | reflexivity |].
    cbn [startswith skipn List.length]. rewrite Ascii.eqb_refl. cbn [andb].
    apply (@star_greedy_run _ is_space [" "%char]); [reflexivity | reflexivity |].
    cbn [startswith skipn List.length]. rewrite Ascii.eqb_refl. cbn [andb].
    rewrite consumed_app.
    match goal with
    | |- context [consumed (c :: name ++ ?r) ?r] =>
        change (c :: name ++ r) with ((c :: name) ++ r)
    end.
    rewrite consumed_app. reflexivity. }
  destruct (return_type_cases ret Hret) as [-> | [-> | ->]].
  - cbn [rmatch]. apply orelse_first. exact (Hrest []).
  - cbn [rmatch].
    change (startswith (txt "void") (txt "int" ++ _)) with false. cbv match.
    cbn [orelse]. apply orelse_first. exact (Hrest []).
  - cbn [rmatch].
    change (startswith (txt "void") (txt "string" ++ _)) with false.
    change (startswith (txt "int") (txt "string" ++ _)) with false. cbv match.
    cbn [orelse]. exact (Hrest []).
Qed.

Lemma function_header_solid (ret name : text) (params : list parameter) :
  cpp_return_type ret = true ->
  starts_solid (function_header ret name params)
  /\ ends_solid (function_header ret name params)
  /\ startswith (txt "//") (function_header ret name params) = false
  /\ startswith (txt "#include") (function_header ret name params) = false
  /\ startswith (txt "using namespace") (function_header ret name params) = false.
Proof.
  intros Hret. unfold function_header. repeat split.
  - destruct (return_type_cases ret Hret) as [-> | [-> | ->]];
      eexists; eexists; split; reflexivity.
  - rewrite !app_assoc. apply ends_solid_app.
    exists [")"%char; " "%char], "{"%char. split; reflexivity.
  - destruct (return_type_cases ret Hret) as [-> | [-> | ->]]; reflexivity.
  - destruct (return_type_cases ret Hret) as [-> | [-> | ->]]; reflexivity.
  - destruct (return_type_cases ret Hret) as [-> | [-> | ->]]; reflexivity.
Qed.

Lemma function_header_no_newline (ret name : text) (params : list parameter) :
  cpp_return_type ret = true -> is_name name = true ->
  forallb parameter_ok params = true ->
  forallb (is_not nl) (function_header ret name params) = true.
Proof.
  intros Hret Hname Hparams. unfold function_header. rewrite !forallb_app.
  rewrite (name_no_newline _ Hname), (parameters_no_newline params Hparams).
  destruct (return_type_cases ret Hret) as [-> | [-> | ->]]; reflexivity.
Qed.

Lemma cpp_split_typed_parameter_list (params : list parameter) :
  forallb parameter_ok params = true ->
  map (fun a => last (split_ws (strip a)) [])
    (filter (fun a => negb (CppParser.blank a))
       (split_char ","%char (join (txt ", ") (map parameter_text params))))
  = map snd params.
Proof. exact (@split_typed_parameter_list params). Qed.

(** The header of a function at the head of the lines. *)
Lemma cpp_function_line (parse : text -> option Node) (k : nat)
  (ret name : text) (params : list parameter) (rest : list text) :
  cpp_return_type ret = true -> is_name name = true ->
  forallb parameter_ok params = true ->
  CppParser.parse_loop parse (S k) (function_header ret name params :: rest)
  = (let '(body_lines, rest') := CppParser._get_indented_block rest 0 in
     body_program <- parse (join [nl] body_lines) ;;
     stmts <- CppParser.parse_loop parse k rest' ;;
     Some (FunctionNode name (map snd params) (statements body_program)
           :: stmts)).
Proof.
  intros Hret Hname Hparams.
  destruct (function_header_solid ret name params Hret)
    as (Hs & He & H1 & H2 & H3).
  pose proof (@cpp_function_match ret name params Hret Hname Hparams) as Hdef.
  pose proof (@cpp_header_no_assignment ret name
                (join (txt ", ") (map parameter_text params) ++ txt ") {")
                Hret Hname) as Ha.
  fold (function_header ret name params) in Ha.
  cbn [CppParser.parse_loop].
  rewrite (@strip_solid _ Hs He), (@indent_of_solid _ Hs).
  rewrite H1, H2, H3.
  destruct Hs as (c0 & t0 & E0 & _). rewrite E0 at 1. cbn [orb]. cbv match.
  rewrite Ha, Hdef. cbn [group lookup Nat.eqb].
  rewrite (@cpp_split_typed_parameter_list params Hparams).
  reflexivity.
Qed.

Lemma cpp_block_of_declarations (first : bool) (deeper : nat)
  (body : list declaration) :
  forallb declaration_ok body = true ->
  (body <> [] \/ first = false) ->
  CppParser.block_from first
    (map (fun d => indentation (S deeper) ++ declaration_text d) body
     ++ [txt "}"]) 0
  = (map (fun d => indentation (S deeper) ++ declaration_text d) body,
     [txt "}"]).
Proof.
  revert first. induction body as [|d body IH]; intros first Hok Hcase.
  - destruct Hcase as [Hcase | ->]; [contradiction | reflexivity].
  - cbn [forallb] in Hok. apply andb_true_iff in Hok as [Hd Hok].
    destruct (declaration_shape d Hd) as (Hs & He & _).
    cbn [map app CppParser.block_from].
    unfold CppParser.blank at 1.
    rewrite (@strip_after_spaces _ _ (indentation_spaces (S deeper))).
    rewrite (@strip_solid _ Hs He).
    rewrite (@indent_of_spaces _ _ (indentation_spaces (S deeper)) Hs).
    destruct Hs as (c & t & E & _). rewrite E at 1.
    unfold indentation at 1. rewrite repeat_length.
    cbn [Nat.leb andb]. rewrite (IH false Hok) by (right; reflexivity).
    reflexivity.
Qed.

Lemma cpp_parse_fuel_step (fuel : nat) (code : text) :
  CppParser.parse_cpp_fuel (S fuel) code
  = (stmts <- CppParser.parse_loop (CppParser.parse_cpp_fuel fuel)
                (List.length (split_char nl (strip code)))
                (split_char nl (strip code)) ;;
     Some (ProgramNode stmts)).
Proof. reflexivity. Qed.

Lemma cpp_parse_loop_declarations (parse : text -> option Node)
  (lines : list text) (body : list declaration) :
  Forall2 (fun line d => exists ws, forallb is_space ws = true
                                    /\ line = ws ++ declaration_text d
                                    /\ declaration_ok d = true) lines body ->
  forall k, List.length body <= k ->
            CppParser.parse_loop parse k lines = Some (map declaration_node body).
Proof.
  induction 1 as [|line d lines body (ws & Hws & -> & Hd) _ IH]; intros k Hk.
  - destruct k; reflexivity.
  - destruct k as [|k]; [cbn [List.length] in Hk; lia|].
    rewrite (@cpp_indented_declaration parse k ws d _ Hws Hd).
    rewrite (IH k) by (cbn [List.length] in Hk; lia). reflexivity.
Qed.

Lemma cpp_parse_declarations (fuel width : nat) (body : list declaration) :
  forallb declaration_ok body = true ->
  CppParser.parse_cpp_fuel (S fuel)
    (join [nl] (map (fun d => indentation width ++ declaration_text d) body))
  = Some (ProgramNode (map declaration_node body)).
Proof.
  intros Hok. rewrite cpp_parse_fuel_step.
  destruct body as [|d body]; [reflexivity|].
  cbn [forallb] in Hok. apply andb_true_iff in Hok as [Hd Hok].
  destruct (declaration_lines_shape width body Hok) as (Hends & Hnls & Hall).
  destruct (declaration_shape d Hd) as (Hs & He & Hn).
  cbn [map]. rewrite join_after.
  rewrite (@strip_after_spaces _ _ (indentation_spaces width)).
  set (others := map (fun d => indentation width ++ declaration_text d) body) in *.
  assert (Hstart : starts_solid (join [nl] (declaration_text d :: others))).
  { destruct others; cbn [join]; [exact Hs | apply starts_solid_app, Hs]. }
  assert (Hend : ends_solid (join [nl] (declaration_text d :: others))).
  { apply join_ends_solid. constructor; assumption. }
  rewrite (@strip_solid _ Hstart Hend).
  rewrite split_join by (cbn [forallb]; rewrite Hn, Hnls; reflexivity).
  rewrite (@cpp_parse_loop_declarations _ (declaration_text d :: others)
             (d :: body)); [reflexivity | | ].
  - constructor; [|exact Hall]. exists []. auto.
  - cbn [List.length]. unfold others. rewrite length_map. lia.
Qed.

(** The function as a whole: one function node. *)
Lemma cpp_parse_function (ret name : text) (params : list parameter)
  (deeper : nat) (body : list declaration) :
  cpp_return_type ret = true -> is_name name = true ->
  forallb parameter_ok params = true -> forallb declaration_ok body = true ->
  CppParser.parse_cpp (join [nl] (function_lines ret name params deeper body))
  = ProgramNode
      [FunctionNode name (map snd params) (map declaration_node body)].
Proof.
  intros Hret Hname Hparams Hbody.
  destruct (function_header_solid ret name params Hret) as (Hs & He & _).
  destruct (declaration_lines_shape (S deeper) body Hbody) as (Hends & Hnls & _).
  unfold CppParser.parse_cpp, CppParser.parse_fuel, function_lines.
  set (decls := map (fun d => indentation (S deeper) ++ declaration_text d) body)
    in *.
  assert (Hstart : starts_solid
                     (join [nl] (function_header ret name params
                                 :: decls ++ [txt "}"]))).
  { destruct (decls ++ [txt "}"]); cbn [join];
      [exact Hs | apply starts_solid_app, Hs]. }
  assert (Hend : ends_solid
                   (join [nl] (function_header ret name params
                               :: decls ++ [txt "}"]))).
  { apply join_ends_solid. constructor; [exact He|].
    apply Forall_app. split; [exact Hends|]. constructor; [|constructor].
    exists [], "}"%char. split; reflexivity. }
  destruct (List.length (join [nl] (function_header ret name params
                                    :: decls ++ [txt "}"]))) as [|n] eqn:En.
  { destruct Hstart as (c & t & E & _). rewrite E in En. discriminate En. }
  clear En. rewrite cpp_parse_fuel_step.
  rewrite (@strip_solid _ Hstart Hend).
  rewrite split_join.
  2:{ cbn [forallb]. rewrite forallb_app, Hnls.
      rewrite (function_header_no_newline ret name params Hret Hname Hparams).
      reflexivity. }
  cbn [List.length]. rewrite cpp_function_line by assumption.
  unfold CppParser._get_indented_block.
  destruct body as [|d body].
  - subst decls. cbn [map app].
    change (CppParser.block_from true [txt "}"] 0) with ([txt "}"], @nil text).
    cbv beta match. cbn [join]. rewrite cpp_parse_fuel_step.
    change (strip (txt "}")) with (txt "}").
    change (split_char nl (txt "}")) with [txt "}"].
    cbn [List.length]. rewrite cpp_last_brace. reflexivity.
  - subst decls.
    rewrite (@cpp_block_of_declarations true deeper (d :: body) Hbody)
      by (left; discriminate).
    cbv beta match.
    rewrite (@cpp_parse_declarations n (S deeper) (d :: body) Hbody).
    cbn [statements]. rewrite length_app. cbn [List.length].
    rewrite Nat.add_comm. cbn [Nat.add].
    rewrite cpp_last_brace. reflexivity.
Qed.

End MethodFacts.

(** * Further properties of the code *)

(** ** The trees of the parsers *)

(** X1.  [parse_python] returns a Program whose statements are function
    nodes, assignments to a variable, loops over an expression node and
    while loops, with expressions built from comparisons, power calls,
    additions, literals and variables.  No statement is a print statement:
    a line that the print pattern matches is matched by the call pattern,
    which is tried first, and becomes a function node. *)
Theorem X1_parse_python_builds_statements (code : text) :
  (exists stmts,
      PythonParser.parse_python code = ProgramNode stmts
      /\ forallb (Trees.is_statement true) stmts = true)
  /\ (forall line m,
         re_match PythonParser.PRINT_REGEX line = Some m ->
         exists m', re_match PythonParser.FUNCTION_CALL_REGEX line = Some m').
Proof.
  split; [exact (ShapeFacts.py_parse_shape code)|].
  intros line m. apply ShapeFacts.print_line_is_call.
Qed.

(** X2.  [parse_cpp] returns a Program whose statements are assignments
    to a variable, function nodes, loops, while loops and print
    statements; the iterable of every loop is a text that begins with
    range and an opening parenthesis and ends with a closing one. *)
Theorem X2_parse_cpp_builds_statements (code : text) :
  exists stmts,
    CppParser.parse_cpp code = ProgramNode stmts
    /\ forallb (Trees.is_statement false) stmts = true.
Proof. exact (ShapeFacts.cpp_parse_shape code). Qed.

(** X3.  [parse_java] returns a Program of the same shape as
    [parse_cpp]. *)
Theorem X3_parse_java_builds_statements (code : text) :
  exists stmts,
    JavaParser.parse_java code = ProgramNode stmts
    /\ forallb (Trees.is_statement false) stmts = true.
Proof. exact (ShapeFacts.java_parse_shape code). Qed.

(** X4.  [PythonGenerator.visit] returns a text, and raises nothing, on
    every tree that one of the three parsers returns: none of them builds
    a node outside the generator's chain of tests. *)
Theorem X4_python_generator_returns_on_parsed_trees (code : text) :
  (exists out, PythonGenerator.visit (PythonParser.parse_python code) = Ok out)
  /\ (exists out, PythonGenerator.visit (CppParser.parse_cpp code) = Ok out)
  /\ (exists out, PythonGenerator.visit (JavaParser.parse_java code) = Ok out).
Proof.
  destruct (ShapeFacts.py_parse_shape code) as (sp & -> & Hp).
  destruct (ShapeFacts.cpp_parse_shape code) as (sc & -> & Hc).
  destruct (ShapeFacts.java_parse_shape code) as (sj & -> & Hj).
  split; [|split]; eapply ShapeFacts.visit_program; eassumption.
Qed.

(** ** Lines and blocks *)

(** X5.  A source in which every line is blank or a comment gives the
    empty Program; for [parse_cpp] the include lines and the
    using-namespace lines count as comments. *)
Theorem X5_comment_lines_give_the_empty_program (code : text) :
  (forallb (fun raw => PythonParser.blank raw
                       || startswith (txt "#") (strip raw))
     (split_char nl (strip code)) = true ->
   PythonParser.parse_python code = ProgramNode [])
  /\ (forallb (fun raw => CppParser.blank raw
                          || startswith (txt "//") (strip raw)
                          || startswith (txt "#include") (strip raw)
                          || startswith (txt "using namespace") (strip raw))
        (split_char nl (strip code)) = true ->
      CppParser.parse_cpp code = ProgramNode [])
  /\ (forallb (fun raw => JavaParser.blank raw
                          || startswith (txt "//") (strip raw))
        (split_char nl (strip code)) = true ->
      JavaParser.parse_java code = ProgramNode []).
Proof.
  split; [|split]; intros H.
  - unfold PythonParser.parse_python, PythonParser.parse_fuel.
    cbn [PythonParser.parse_python_fuel].
    rewrite (@LineFacts.py_skipped_lines _ _ H) by lia. reflexivity.
  - unfold CppParser.parse_cpp, CppParser.parse_fuel.
    cbn [CppParser.parse_cpp_fuel].
    rewrite (@LineFacts.cpp_skipped_lines _ _ H) by lia. reflexivity.
  - unfold JavaParser.parse_java, JavaParser.parse_fuel.
    cbn [JavaParser.parse_java_fuel].
    rewrite (@LineFacts.java_skipped_lines _ _ H) by lia. reflexivity.
Qed.

Lemma X5_comment_lines_give_the_empty_program_witness :
  PythonParser.parse_python (txt "# a note" ++ [nl; nl] ++ txt "  # another")
  = ProgramNode []
  /\ CppParser.parse_cpp (txt "#include <iostream>" ++ [nl]
                          ++ txt "using namespace std;" ++ [nl] ++ txt "// x")
     = ProgramNode [].
Proof.
  split.
  - destruct (@X5_comment_lines_give_the_empty_program
                (txt "# a note" ++ [nl; nl] ++ txt "  # another"))
      as (H & _ & _).
    apply H. reflexivity.
  - destruct (@X5_comment_lines_give_the_empty_program
                (txt "#include <iostream>" ++ [nl]
                 ++ txt "using namespace std;" ++ [nl] ++ txt "// x"))
      as (_ & H & _).
    apply H. reflexivity.
Defined.

(** X6.  [_get_indented_block] passes over a prefix of the lines it is
    given and returns the lines of that prefix that are not blank, in
    their order.  Each of them but the first is indented by more than
    [base_indent]; the first one is kept whatever its indentation when it
    is the line at [start_idx].  It stops at the end of the lines or at a
    line that is not blank and is indented by [base_indent] or less.  The
    three parsers have the same function. *)
Theorem X6_indented_block (lines : list text) (base_indent : nat)
  (block_lines rest : list text) :
  PythonParser._get_indented_block lines base_indent = (block_lines, rest) ->
  CppParser._get_indented_block lines base_indent = (block_lines, rest)
  /\ JavaParser._get_indented_block lines base_indent = (block_lines, rest)
  /\ exists passed,
       lines = passed ++ rest
       /\ block_lines = filter (fun l => negb (PythonParser.blank l)) passed
       /\ Forall (fun l => base_indent < indent_of l) (tl block_lines)
       /\ match rest with
          | [] => True
          | l :: _ => PythonParser.blank l = false /\ indent_of l <= base_indent
          end.
Proof.
  intros H. split; [exact H|]. split; [exact H|].
  exact (LineFacts.block_from_spec _ _ _ H).
Qed.

Lemma X6_indented_block_witness :
  let lines := [txt "    a = 1"; []; txt "      b = 2"; txt "c = 3"; txt "  d"] in
  PythonParser._get_indented_block lines 0
  = ([txt "    a = 1"; txt "      b = 2"], [txt "c = 3"; txt "  d"])
  /\ exists passed,
       lines = passed ++ [txt "c = 3"; txt "  d"]
       /\ [txt "    a = 1"; txt "      b = 2"]
          = filter (fun l => negb (PythonParser.blank l)) passed.
Proof.
  intros lines. split; [reflexivity|].
  destruct (@X6_indented_block lines 0 [txt "    a = 1"; txt "      b = 2"]
              [txt "c = 3"; txt "  d"] eq_refl)
    as (_ & _ & passed & H1 & H2 & _).
  exists passed. split; assumption.
Defined.

Lemma X1_parse_python_builds_statements_witness :
  exists m',
    re_match PythonParser.FUNCTION_CALL_REGEX (txt "print(x)") = Some m'.
Proof.
  destruct (X1_parse_python_builds_statements []) as [_ H].
  apply (H (txt "print(x)") [(1, txt "x")]). reflexivity.
Defined.

(** ** Counted loops *)

(** X7.  The conversion of a loop header fails (its [step] is unbound at
    the return) exactly when the step operator is none of the four it
    tests for, whatever the other arguments; the Java function is the
    same.  For a header that the loop pattern of [parse_cpp] or
    [parse_java] matched it never fails. *)
Theorem X7_range_conversion_fails_on_unknown_step_only :
  (forall start end_ operator step_op step_val,
      (CppParser._convert_cpp_for_to_range start end_ operator step_op step_val
       = None
       <-> ~ In step_op [txt "++"; txt "--"; txt "+="; txt "-="])
      /\ JavaParser._convert_java_for_to_range start end_ operator step_op
           step_val
         = CppParser._convert_cpp_for_to_range start end_ operator step_op
             step_val)
  /\ (forall line m,
         re_match CppParser.FOR_LOOP_REGEX line = Some m ->
         exists iterable,
           CppParser._convert_cpp_for_to_range (group 2 m) (group 4 m)
             (group 3 m) (group 5 m) (group 6 m) = Some iterable)
  /\ (forall line m,
         re_match JavaParser.FOR_LOOP_REGEX line = Some m ->
         exists iterable,
           JavaParser._convert_java_for_to_range (group 2 m) (group 4 m)
             (group 3 m) (group 5 m) (group 6 m) = Some iterable).
Proof.
  split; [|split].
  - intros start end_ operator step_op step_val.
    split; [apply LineFacts.convert_fails_iff | reflexivity].
  - intros line m. apply ParserFacts.cpp_for_loop_converts.
  - intros line m. apply ParserFacts.java_for_loop_converts.
Qed.

Lemma X7_range_conversion_fails_on_unknown_step_only_witness :
  CppParser._convert_cpp_for_to_range (txt "0") (txt "n") (txt "<") (txt "*=")
    (txt "2") = None
  /\ exists iterable,
       CppParser._convert_cpp_for_to_range (txt "0") (txt "n") (txt "<")
         (txt "+=") (txt "2 ") = Some iterable.
Proof.
  destruct X7_range_conversion_fails_on_unknown_step_only as (H1 & H2 & _).
  split.
  - destruct (H1 (txt "0") (txt "n") (txt "<") (txt "*=") (txt "2"))
      as [[_ Hfail] _].
    apply Hfail. cbn [In]. intros [E | [E | [E | [E | []]]]]; discriminate E.
  - apply (H2 (txt "for (i = 0; i < n; i += 2 ) {")
              [(6, txt "2 "); (5, txt "+="); (4, txt "n"); (3, txt "<");
               (2, txt "0"); (1, txt "i")]).
    reflexivity.
Defined.

(** X8.  Whatever the header, the comparison operator that the loop
    pattern of [parse_cpp] and of [parse_java] captures is the
    less-than sign or the greater-than sign alone: the pattern tries
    each of them before its form with an equals sign, and the equals sign
    then counts as the first character of the bound. *)
Theorem X8_loop_pattern_never_captures_an_equals_sign (line : text) (m : groups) :
  (re_match CppParser.FOR_LOOP_REGEX line = Some m ->
   group 3 m = txt "<" \/ group 3 m = txt ">")
  /\ (re_match JavaParser.FOR_LOOP_REGEX line = Some m ->
      group 3 m = txt "<" \/ group 3 m = txt ">").
Proof.
  split.
  - apply CompleteFacts.cpp_for_loop_operator.
  - apply CompleteFacts.java_for_loop_operator.
Qed.

Lemma X8_loop_pattern_never_captures_an_equals_sign_witness :
  re_match CppParser.FOR_LOOP_REGEX (txt "for (int i = 10; i >= 0; i--) {")
  = Some [(6, []); (5, txt "--"); (4, txt "= 0"); (3, txt ">");
          (2, txt "10"); (1, txt "i")]
  /\ (txt ">" = txt "<" \/ txt ">" = txt ">").
Proof.
  split; [reflexivity|].
  destruct (@X8_loop_pattern_never_captures_an_equals_sign
              (txt "for (int i = 10; i >= 0; i--) {")
              [(6, []); (5, txt "--"); (4, txt "= 0"); (3, txt ">");
               (2, txt "10"); (1, txt "i")]) as [H _].
  exact (H eq_refl).
Defined.

(** ** The generators *)

(** X9.  Rendering a node leaves the indentation level of a generator as
    it found it, when no Program node lies at or below the node: the
    bodies that raise the level by one lower it again.  So every
    statement of a list is rendered at the level of the first. *)
Theorem X9_visit_restores_the_indentation_level
  (cls : generator_class) (node : Node) (level : Z) :
  Trees.program_free node = true -> snd (visit cls node level) = level.
Proof. intros H. apply LevelFacts.visit_level. exact H. Qed.

Lemma X9_visit_restores_the_indentation_level_witness :
  snd (visit JavaGenerator
         (WhileLoopNode (VariableNode (txt "x"))
            [PrintNode (NumberLiteralNode (txt "1"))]) 2%Z) = 2%Z.
Proof.
  apply (@X9_visit_restores_the_indentation_level JavaGenerator
           (WhileLoopNode (VariableNode (txt "x"))
              [PrintNode (NumberLiteralNode (txt "1"))]) 2%Z).
  reflexivity.
Defined.

(** X10.  The header that [JavaGenerator.visit_ForLoopNode] writes for an
    iterable that is a range call.  The arguments are the texts between
    the commas, stripped.  One argument is the bound of a loop from 0 in
    steps of one; two are the start and the bound; of three or more the
    third is the step, added with [+=], and the others after it are
    ignored. *)
Theorem X10_java_header_of_a_range_call
  (level : Z) (iterator a : text) (more : list text) :
  forallb (forallb (is_not ","%char)) (a :: more) = true ->
  java_for_header level iterator
    (txt "range(" ++ join [","%char] (a :: more) ++ txt ")")
  = _make_indent level ++ txt "for (int " ++ iterator ++ txt " = "
    ++ match more with
       | [] => txt "0; " ++ iterator ++ txt " < " ++ strip a ++ txt "; "
               ++ iterator ++ txt "++) {"
       | [b] => strip a ++ txt "; " ++ iterator ++ txt " < " ++ strip b
                ++ txt "; " ++ iterator ++ txt "++) {"
       | b :: c :: _ => strip a ++ txt "; " ++ iterator ++ txt " < " ++ strip b
                        ++ txt "; " ++ iterator ++ txt " += " ++ strip c
                        ++ txt ") {"
       end.
Proof. apply TextFacts.java_for_header_range. Qed.

Lemma X10_java_header_of_a_range_call_witness :
  java_for_header 1 (txt "i") (txt "range(1, n)")
  = txt "    for (int i = 1; i < n; i++) {".
Proof.
  exact (@X10_java_header_of_a_range_call 1 (txt "i") (txt "1") [txt " n"]
           eq_refl).
Defined.

(** ** Expressions *)

(** X11.  An expression parser reads the same node from a text and from
    that text without the whitespace at its ends. *)
Theorem X11_parse_expression_ignores_outer_whitespace (expr_str : text) :
  PythonParser._parse_expression (strip expr_str)
  = PythonParser._parse_expression expr_str
  /\ CppParser._parse_expression (strip expr_str)
     = CppParser._parse_expression expr_str
  /\ JavaParser._parse_expression (strip expr_str)
     = JavaParser._parse_expression expr_str.
Proof.
  split; [|split].
  - apply ExprFacts.py_expr_strip.
  - apply ExprFacts.cpp_expr_strip.
  - apply ExprFacts.java_expr_strip.
Qed.

(** X12.  An operand made of word characters, dots and minus signs is
    read by each expression parser as a number literal when the whole of
    it is written as a number (an optional minus sign, digits, and
    optionally a dot and digits), and as a variable otherwise; the text
    of the node is the operand. *)
Theorem X12_operands_are_numbers_or_variables (a : text) :
  Reference.is_atom a = true ->
  let node := if found (re_fullmatch NUMBER_REGEX a)
              then NumberLiteralNode a else VariableNode a in
  PythonParser._parse_expression a = Some node
  /\ CppParser._parse_expression a = Some node
  /\ JavaParser._parse_expression a = Some node.
Proof.
  intros H node. split; [|split].
  - rewrite (@ExprFacts.py_atom_expression a H), (@ExprFacts.atom_cases a H).
    reflexivity.
  - apply ExprFacts.cpp_atom_expression. exact H.
  - apply ExprFacts.java_atom_expression. exact H.
Qed.

Lemma X12_operands_are_numbers_or_variables_witness :
  PythonParser._parse_expression (txt "-3.25")
  = Some (NumberLiteralNode (txt "-3.25"))
  /\ CppParser._parse_expression (txt "1.2.3")
     = Some (VariableNode (txt "1.2.3")).
Proof.
  split.
  - destruct (@X12_operands_are_numbers_or_variables (txt "-3.25") eq_refl)
      as (H & _ & _). exact H.
  - destruct (@X12_operands_are_numbers_or_variables (txt "1.2.3") eq_refl)
      as (_ & H & _). exact H.
Defined.

(** X13.  The content that [_parse_string_literal] returns for a quoted
    text is never longer than the interior of the quotes, and it is the
    interior itself when the interior has no backslash. *)
Theorem X13_string_literal_content_is_no_longer (interior : text) :
  List.length (CppParser._parse_string_literal (dq :: interior ++ [dq]))
  <= List.length interior
  /\ (forallb (is_not bs) interior = true ->
      CppParser._parse_string_literal (dq :: interior ++ [dq]) = interior).
Proof.
  split; [apply TextFacts.literal_length | apply TextFacts.literal_verbatim].
Qed.

Lemma X13_string_literal_content_is_no_longer_witness :
  CppParser._parse_string_literal (dq :: txt "a 'b' c" ++ [dq]) = txt "a 'b' c".
Proof.
  destruct (X13_string_literal_content_is_no_longer (txt "a 'b' c")) as [_ H].
  exact (H eq_refl).
Defined.

(** X14.  A parser returns at most one statement for each line of the
    stripped source. *)
Theorem X14_at_most_one_statement_for_each_line (code : text) :
  List.length (statements (PythonParser.parse_python code))
  <= List.length (split_char nl (strip code))
  /\ List.length (statements (CppParser.parse_cpp code))
     <= List.length (split_char nl (strip code))
  /\ List.length (statements (JavaParser.parse_java code))
     <= List.length (split_char nl (strip code)).
Proof.
  split; [|split].
  - apply CountFacts.py_statement_count.
  - apply CountFacts.cpp_statement_count.
  - apply CountFacts.java_statement_count.
Qed.

(** ** [convert_code] on the languages of the sources *)

Section Conversions.
Import Main.
Variable JavaParser_parse_java : text -> Node.
Variable CppGenerator_visit : Node -> text.
Variable JsGenerator_visit : Node -> text.

(** X15.  From Python or C++ to Python or Java, [convert_code] returns a
    text for every source text and raises nothing, after calling the
    parser and then the generator once each.  To Python the text is what
    [PythonGenerator.visit] returns for the parsed tree, to Java what a
    fresh [JavaGenerator] does. *)
Theorem X15_convert_code_returns
  (source_code source_lang target_lang : text) :
  In source_lang [txt "python"; txt "cpp"] ->
  In target_lang [txt "python"; txt "java"] ->
  let ast := if text_eqb source_lang (txt "python")
             then PythonParser.parse_python source_code
             else CppParser.parse_cpp source_code in
  exists out,
    convert_code JavaParser_parse_java CppGenerator_visit JsGenerator_visit
      source_code source_lang target_lang
    = ([Parse source_lang; Visit target_lang], Ok out)
    /\ (if text_eqb target_lang (txt "python")
        then PythonGenerator.visit ast = Ok out
        else render JavaGenerator ast = out).
Proof.
  intros Hs Ht ast. unfold ast. clear ast.
  destruct (ShapeFacts.py_parse_shape source_code) as (sp & Ep & Hp).
  destruct (ShapeFacts.cpp_parse_shape source_code) as (sc & Ec & Hc).
  apply ShapeFacts.visit_program in Hp, Hc.
  rewrite <- Ep in Hp. rewrite <- Ec in Hc. clear sp sc Ep Ec.
  cbn [In] in Hs, Ht.
  destruct Hs as [<- | [<- | []]]; destruct Ht as [<- | [<- | []]];
    unfold convert_code, bind, calling, ret, raise;
    cbn [text_eqb txt list_ascii_of_string Ascii.eqb Bool.eqb andb].
  - destruct Hp as [out Hout]. exists out. rewrite Hout. split; reflexivity.
  - eexists. split; reflexivity.
  - destruct Hc as [out Hout]. exists out. rewrite Hout. split; reflexivity.
  - eexists. split; reflexivity.
Qed.

End Conversions.

Lemma X15_convert_code_returns_witness :
  Main.convert_code (fun _ => ProgramNode []) (fun _ => []) (fun _ => [])
    (txt "x = 1") (txt "python") (txt "python")
  = ([Main.Parse (txt "python"); Main.Visit (txt "python")], Ok (txt "x = 1")).
Proof.
  destruct (@X15_convert_code_returns (fun _ => ProgramNode []) (fun _ => [])
              (fun _ => []) (txt "x = 1") (txt "python") (txt "python"))
    as (out & H & Hout).
  - cbn [In]. auto.
  - cbn [In]. auto.
  - rewrite H. vm_compute in Hout. injection Hout as <-. reflexivity.
Defined.

(** ** The interactive program *)

(** X16.  [get_multiline_input] reads lines up to the first empty one, or
    to the end of the input, and returns them joined by newlines; the
    empty line is read and dropped, and what follows it is left unread.
    It calls [input] once more than it keeps lines.  When it kept a line
    and no line holds a newline, splitting the text it returns at the
    newlines, as the parsers do, gives the lines back. *)
Theorem X16_get_multiline_input_reads_to_the_first_empty_line
  (lines rest : list text) :
  forallb Reference.nonempty lines = true ->
  let asked :=
    Interactive.Printed
      ([nl] ++ txt "Enter your source code (press Enter on an empty line to finish):")
    :: repeat (Interactive.Asked []) (S (List.length lines)) in
  Interactive.get_multiline_input (lines ++ [] :: rest)
  = (asked, join [nl] lines, rest)
  /\ Interactive.get_multiline_input lines = (asked, join [nl] lines, [])
  /\ (lines <> [] -> forallb (forallb (is_not nl)) lines = true ->
      split_char nl (join [nl] lines) = lines).
Proof.
  intros H asked. unfold Interactive.get_multiline_input.
  destruct (@InteractiveFacts.read_lines_run lines rest H) as [-> ->].
  repeat split.
  intros Hne Hnl. destruct lines as [|l ls]; [contradiction|].
  apply RoundTripFacts.split_join. exact Hnl.
Qed.

Lemma X16_get_multiline_input_reads_to_the_first_empty_line_witness :
  Interactive.get_multiline_input [txt "x = 1"; txt "y = 2"; []; txt "z = 3"]
  = (Interactive.Printed
       ([nl] ++ txt "Enter your source code (press Enter on an empty line to finish):")
     :: repeat (Interactive.Asked []) 3,
     txt "x = 1" ++ [nl] ++ txt "y = 2", [txt "z = 3"])
  /\ split_char nl (txt "x = 1" ++ [nl] ++ txt "y = 2")
     = [txt "x = 1"; txt "y = 2"].
Proof.
  destruct (@X16_get_multiline_input_reads_to_the_first_empty_line
              [txt "x = 1"; txt "y = 2"] [txt "z = 3"] eq_refl)
    as (H1 & _ & H2).
  split; [exact H1|]. apply H2; [discriminate | reflexivity].
Defined.

(** X17.  A language loop of [main] reads answers until the lower case
    of one is a supported language, and that lower case is the language
    it goes on with; the answers before it, each followed by the error
    line, are not supported.  It calls no parser and no generator.  When
    the input ends before such an answer, the [EOFError] leaves the
    loop. *)
Theorem X17_language_loop_takes_the_first_supported_answer
  (prompt kind : text) (stdin : list text) (events : list Interactive.event)
  (r : option (text * list text)) :
  Interactive.ask_language prompt kind stdin = (events, r) ->
  Interactive.calls events = []
  /\ match r with
     | Some (lang, rest) =>
         exists skipped answer,
           stdin = skipped ++ answer :: rest
           /\ lang = Interactive.lower answer
           /\ In lang Interactive.SUPPORTED_LANGUAGES
           /\ Forall (fun a => ~ In (Interactive.lower a)
                                  Interactive.SUPPORTED_LANGUAGES) skipped
     | None =>
         Forall (fun a => ~ In (Interactive.lower a)
                             Interactive.SUPPORTED_LANGUAGES) stdin
     end.
Proof. apply InteractiveFacts.ask_language_spec. Qed.

Lemma X17_language_loop_takes_the_first_supported_answer_witness :
  Interactive.ask_language (txt "? ") (txt "Source")
    [txt "ruby"; txt "PyThon"; txt "java"]
  = ([Interactive.Asked (txt "? ");
      Interactive.Printed
        (txt "Error: Source language 'ruby' is not supported. Please choose from the list.");
      Interactive.Asked (txt "? ")],
     Some (txt "python", [txt "java"]))
  /\ exists skipped answer,
       [txt "ruby"; txt "PyThon"; txt "java"] = skipped ++ answer :: [txt "java"]
       /\ txt "python" = Interactive.lower answer.
Proof.
  split; [reflexivity|].
  destruct (@X17_language_loop_takes_the_first_supported_answer
              (txt "? ") (txt "Source") [txt "ruby"; txt "PyThon"; txt "java"]
              _ (Some (txt "python", [txt "java"])) eq_refl)
    as (_ & skipped & answer & H1 & H2 & _).
  exists skipped, answer. split; assumption.
Defined.

Section MainProgram.
Import Main.
Variable JavaParser_parse_java : text -> Node.
Variable CppGenerator_visit : Node -> text.
Variable JsGenerator_visit : Node -> text.

(** X18.  However the input goes, [main] calls a parser and a generator
    only when it returns, and then exactly one of each, the parser first,
    for two different languages out of python, java and cpp: the key
    javascript, which [convert_code] takes as a target, is refused by
    the loops.  When it exits instead, the status is 0 or 1, and when the
    input ends in a language loop, nothing was called. *)
Theorem X18_main_calls_one_parser_and_one_generator
  (stdin : list text) (events : list Interactive.event)
  (out : Interactive.outcome) :
  Interactive.main JavaParser_parse_java CppGenerator_visit stdin
  = (events, out) ->
  match out with
  | Interactive.Returned =>
      exists source_lang target_lang,
        In source_lang Interactive.SUPPORTED_LANGUAGES
        /\ In target_lang Interactive.SUPPORTED_LANGUAGES
        /\ source_lang <> target_lang
        /\ Interactive.calls events = [Parse source_lang; Visit target_lang]
  | Interactive.SystemExit status =>
      (status = 0%Z \/ status = 1%Z) /\ Interactive.calls events = []
  | Interactive.EOFError => Interactive.calls events = []
  end.
Proof. apply InteractiveFacts.main_spec. Qed.

(** X19.  For two supported languages the [try] statement of [main]
    calls what [convert_code] calls, in the same order.  When
    [convert_code] returns a text, the statement prints that text and no
    traceback; when [convert_code] raises, it prints the traceback of
    that exception. *)
Theorem X19_main_prints_what_convert_code_returns
  (source_lang target_lang source_code : text) :
  In source_lang Interactive.SUPPORTED_LANGUAGES ->
  In target_lang Interactive.SUPPORTED_LANGUAGES ->
  let r := convert_code JavaParser_parse_java CppGenerator_visit JsGenerator_visit
             source_code source_lang target_lang in
  let events := Interactive.convert_and_print JavaParser_parse_java
                  CppGenerator_visit source_lang target_lang source_code in
  Interactive.calls events = fst r
  /\ match snd r with
     | Ok target_code =>
         In (Interactive.Printed target_code) events
         /\ forall e, ~ In (Interactive.Traceback e) events
     | Raise e => In (Interactive.Traceback e) events
     end.
Proof. apply InteractiveFacts.convert_and_print_agrees. Qed.

End MainProgram.

Lemma X18_main_calls_one_parser_and_one_generator_witness :
  let stdin := [txt "C++"; txt "CPP"; txt "Java"; txt "int x = 1"; []] in
  let run := Interactive.main (fun _ => ProgramNode []) (fun _ => []) stdin in
  exists source_lang target_lang,
    In source_lang Interactive.SUPPORTED_LANGUAGES
    /\ In target_lang Interactive.SUPPORTED_LANGUAGES
    /\ source_lang <> target_lang
    /\ Interactive.calls (fst run)
       = [Main.Parse source_lang; Main.Visit target_lang].
Proof.
  intros stdin run.
  apply (@X18_main_calls_one_parser_and_one_generator
           (fun _ => ProgramNode []) (fun _ => []) stdin (fst run)
           Interactive.Returned).
  vm_compute. reflexivity.
Defined.

Lemma X19_main_prints_what_convert_code_returns_witness :
  In (Interactive.Printed (txt "x = 1"))
    (Interactive.convert_and_print (fun _ => ProgramNode []) (fun _ => [])
       (txt "cpp") (txt "python") (txt "x = 1")).
Proof.
  destruct (@X19_main_prints_what_convert_code_returns
              (fun _ => ProgramNode []) (fun _ => []) (fun _ => [])
              (txt "cpp") (txt "python") (txt "x = 1"))
    as [_ H].
  - cbn [In Interactive.SUPPORTED_LANGUAGES]. auto.
  - cbn [In Interactive.SUPPORTED_LANGUAGES]. auto.
  - vm_compute in H. vm_compute. tauto.
Defined.

(** ** Statements of the brace languages *)

(** X20.  The declaration of an int with an operand as its value, closed
    by a semicolon, is parsed by [parse_cpp] and by [parse_java] into
    the assignment of a variable whose name is the operand with the
    semicolon: the value pattern takes the rest of the line, and no rule
    of the expression parser before the last one applies to it, also when
    the operand is a number.  [PythonGenerator] renders it with the
    semicolon and [JavaGenerator], which closes every statement itself,
    with two. *)
Theorem X20_declaration_keeps_its_semicolon (x a : text) :
  Reference.is_name x = true -> Reference.is_atom a = true ->
  let line := txt "int " ++ x ++ txt " = " ++ a ++ txt ";" in
  let tree :=
    ProgramNode [AssignmentNode (VariableNode x) (VariableNode (a ++ txt ";"))] in
  CppParser.parse_cpp line = tree
  /\ JavaParser.parse_java line = tree
  /\ PythonGenerator.visit tree = Ok (x ++ txt " = " ++ a ++ txt ";")
  /\ render JavaGenerator tree
     = txt "public class ConvertedCode {" ++ [nl]
       ++ txt "    public static void main(String[] args) {" ++ [nl]
       ++ txt "        int " ++ x ++ txt " = " ++ a ++ txt ";;" ++ [nl]
       ++ txt "    }" ++ [nl] ++ txt "}".
Proof.
  intros Hx Ha line tree. split; [|split; [|split]].
  - apply StatementFacts.cpp_declaration; assumption.
  - apply StatementFacts.java_declaration; assumption.
  - reflexivity.
  - unfold tree. rewrite StatementFacts.java_render_assignment.
    rewrite <- !app_assoc. reflexivity.
Qed.

Lemma X20_declaration_keeps_its_semicolon_witness :
  CppParser.parse_cpp (txt "int total = 5;")
  = ProgramNode [AssignmentNode (VariableNode (txt "total"))
                   (VariableNode (txt "5;"))].
Proof.
  destruct (@X20_declaration_keeps_its_semicolon (txt "total") (txt "5")
              eq_refl eq_refl) as [H _].
  exact H.
Defined.

(** X21.  A print statement of Java with its semicolon, whatever stands
    between the parentheses, is parsed by [parse_java] into a print node
    of the expression between the first opening parenthesis and the last
    closing one, and [PythonGenerator] renders that node as a call of
    print on the rendered expression. *)
Theorem X21_java_print_statement (e : text) (n : Node) (out : text) :
  forallb is_dot e = true ->
  JavaParser._parse_expression e = Some n ->
  PythonGenerator.visit n = Ok out ->
  JavaParser.parse_java (txt "System.out.println(" ++ e ++ txt ");")
  = ProgramNode [PrintNode n]
  /\ PythonGenerator.visit (ProgramNode [PrintNode n])
     = Ok (txt "print(" ++ out ++ txt ")").
Proof.
  intros He Hn Hout. split.
  - apply StatementFacts.java_print_statement; assumption.
  - cbn [PythonGenerator.visit]. rewrite Hout. reflexivity.
Qed.

Lemma X21_java_print_statement_witness :
  JavaParser.parse_java (txt "System.out.println(f(x) + 1);")
  = ProgramNode [PrintNode (MathOpNode (txt "+") (VariableNode (txt "f(x)"))
                              (NumberLiteralNode (txt "1")))]
  /\ PythonGenerator.visit
       (ProgramNode [PrintNode (MathOpNode (txt "+") (VariableNode (txt "f(x)"))
                                  (NumberLiteralNode (txt "1")))])
     = Ok (txt "print((str(f(x)) + 1))").
Proof.
  apply (@X21_java_print_statement (txt "f(x) + 1")
           (MathOpNode (txt "+") (VariableNode (txt "f(x)"))
              (NumberLiteralNode (txt "1")))
           (txt "(str(f(x)) + 1)")); reflexivity.
Defined.

(** X22.  An output statement of C++ with two operands is parsed by
    [parse_cpp] into the print of their sum: the expression of the
    output pattern runs to the semicolon, so the second operand is an
    operand also when it is [endl], which the rest of the pattern was
    written for. *)
Theorem X22_cpp_output_operands_are_added (a b : text) :
  Reference.is_atom a = true -> Reference.is_atom b = true ->
  let operand t := if found (re_fullmatch NUMBER_REGEX t)
                   then NumberLiteralNode t else VariableNode t in
  CppParser.parse_cpp (txt "cout << " ++ a ++ txt " << " ++ b ++ txt ";")
  = ProgramNode [PrintNode (MathOpNode (txt "+") (operand a) (operand b))].
Proof.
  intros Ha Hb operand. apply StatementFacts.cpp_output_chain; assumption.
Qed.

Lemma X22_cpp_output_operands_are_added_witness :
  CppParser.parse_cpp (txt "cout << total << endl;")
  = ProgramNode [PrintNode (MathOpNode (txt "+") (VariableNode (txt "total"))
                              (VariableNode (txt "endl")))]
  /\ PythonGenerator.visit
       (CppParser.parse_cpp (txt "cout << total << endl;"))
     = Ok (txt "print((str(total) + str(endl)))").
Proof.
  pose proof (@X22_cpp_output_operands_are_added (txt "total") (txt "endl")
                eq_refl eq_refl) as H.
  assert (E : CppParser.parse_cpp (txt "cout << total << endl;")
              = ProgramNode [PrintNode (MathOpNode (txt "+")
                                          (VariableNode (txt "total"))
                                          (VariableNode (txt "endl")))])
    by exact H.
  rewrite E. split; reflexivity.
Defined.

(** ** Blocks of Python *)

Section PythonBlocks.
Import Reference Blocks.

(** X23.  A function definition whose parameters are names, followed by
    statements [x = value] that are all indented by the same positive
    number of spaces, is parsed by [parse_python] into one function node
    holding the parameters and the nodes of the statements;
    [PythonGenerator] writes the header back, and the statements after four
    spaces each with their sums and comparisons in parentheses.  A value
    is an operand, a comparison of two operands or the sum of two unsigned
    integer literals, here and in the blocks below. *)
Theorem X23_function_definition_with_a_body
  (name : text) (params : list text) (width : nat) (body : list assignment) :
  is_name name = true -> forallb is_name params = true ->
  forallb well_formed body = true ->
  PythonParser.parse_python (block_text (def_header name params) (S width) body)
  = ProgramNode [FunctionNode name params (map node_of body)]
  /\ PythonGenerator.visit
       (PythonParser.parse_python
          (block_text (def_header name params) (S width) body))
     = Ok (def_header name params ++ [nl] ++ rendered_body body).
Proof.
  intros Hname Hparams Hwf.
  assert (Hparse : PythonParser.parse_python
                     (block_text (def_header name params) (S width) body)
                   = ProgramNode [FunctionNode name params (map node_of body)]).
  { destruct (BlockFacts.def_header_solid name params) as [Hs He].
    apply (@BlockFacts.parse_block (def_header name params)
             (FunctionNode name params) width body Hs He).
    - apply BlockFacts.def_header_no_newline; assumption.
    - intros parse k rest. apply BlockFacts.def_line; assumption.
    - exact Hwf. }
  split; [exact Hparse|]. rewrite Hparse.
  apply BlockFacts.visit_function_block. exact Hwf.
Qed.

Lemma X23_function_definition_with_a_body_witness :
  PythonParser.parse_python
    (txt "def f(a, b):" ++ [nl] ++ txt "  x = a" ++ [nl] ++ txt "  y = 1 + 2")
  = ProgramNode
      [FunctionNode (txt "f") [txt "a"; txt "b"]
         [AssignmentNode (VariableNode (txt "x")) (VariableNode (txt "a"));
          AssignmentNode (VariableNode (txt "y"))
            (MathOpNode (txt "+") (NumberLiteralNode (txt "1"))
               (NumberLiteralNode (txt "2")))]]
  /\ PythonGenerator.visit
       (PythonParser.parse_python
          (txt "def f(a, b):" ++ [nl] ++ txt "  x = a" ++ [nl]
           ++ txt "  y = 1 + 2"))
     = Ok (txt "def f(a, b):" ++ [nl] ++ txt "    x = a" ++ [nl]
           ++ txt "    y = (1 + 2)").
Proof.
  exact (@X23_function_definition_with_a_body (txt "f") [txt "a"; txt "b"] 1
           [(txt "x", Atom (txt "a")); (txt "y", Sum (txt "1") (txt "2"))]
           eq_refl eq_refl eq_refl).
Defined.

(** X24.  A loop header [for i in range(stop):] followed by statements
    [x = value] that are all indented by the same positive number of
    spaces is parsed by [parse_python] into one loop node whose iterable is
    a variable node named by the text of the call; [PythonGenerator]
    writes that node, not the call, into the header. *)
Theorem X24_python_loop_header_is_written_as_a_node
  (iterator stop : text) (width : nat) (body : list assignment) :
  is_name iterator = true -> is_atom stop = true ->
  forallb well_formed body = true ->
  PythonParser.parse_python (block_text (for_header iterator stop) (S width) body)
  = ProgramNode
      [ForLoopNode iterator
         (inr (VariableNode (txt "range(" ++ stop ++ txt ")")))
         (map node_of body)]
  /\ PythonGenerator.visit
       (PythonParser.parse_python
          (block_text (for_header iterator stop) (S width) body))
     = Ok (txt "for " ++ iterator ++ txt " in VariableNode({'name': 'range("
           ++ stop ++ txt ")'}):" ++ [nl] ++ rendered_body body).
Proof.
  intros Hname Hstop Hwf.
  assert (Hparse : PythonParser.parse_python
                     (block_text (for_header iterator stop) (S width) body)
                   = ProgramNode
                       [ForLoopNode iterator
                          (inr (VariableNode (txt "range(" ++ stop ++ txt ")")))
                          (map node_of body)]).
  { destruct (BlockFacts.for_header_solid iterator stop) as [Hs He].
    apply (@BlockFacts.parse_block (for_header iterator stop)
             (ForLoopNode iterator
                (inr (VariableNode (txt "range(" ++ stop ++ txt ")"))))
             width body Hs He).
    - apply BlockFacts.for_header_no_newline; assumption.
    - intros parse k rest. apply BlockFacts.for_line; assumption.
    - exact Hwf. }
  split; [exact Hparse|]. rewrite Hparse.
  apply BlockFacts.visit_for_block; assumption.
Qed.

Lemma X24_python_loop_header_is_written_as_a_node_witness :
  PythonParser.parse_python
    (txt "for i in range(3):" ++ [nl] ++ txt "    x = i")
  = ProgramNode
      [ForLoopNode (txt "i") (inr (VariableNode (txt "range(3)")))
         [AssignmentNode (VariableNode (txt "x")) (VariableNode (txt "i"))]]
  /\ PythonGenerator.visit
       (PythonParser.parse_python
          (txt "for i in range(3):" ++ [nl] ++ txt "    x = i"))
     = Ok (txt "for i in VariableNode({'name': 'range(3)'}):" ++ [nl]
           ++ txt "    x = i").
Proof.
  exact (@X24_python_loop_header_is_written_as_a_node (txt "i") (txt "3") 3
           [(txt "x", Atom (txt "i"))] eq_refl eq_refl eq_refl).
Defined.

(** X25.  From the loop [for i in range(stop):] with a body of statements
    [JavaGenerator] writes a counted loop from 0 below [stop] inside
    [main]: the header after eight spaces, the statements as [int]
    declarations after four, and a semicolon after the closing brace, which
    has no indentation. *)
Theorem X25_python_loop_in_java
  (iterator stop : text) (width : nat) (body : list assignment) :
  is_name iterator = true -> is_atom stop = true ->
  forallb well_formed body = true ->
  render JavaGenerator
    (PythonParser.parse_python
       (block_text (for_header iterator stop) (S width) body))
  = txt "public class ConvertedCode {" ++ [nl]
    ++ txt "    public static void main(String[] args) {" ++ [nl]
    ++ txt "        for (int " ++ iterator ++ txt " = 0; " ++ iterator
    ++ txt " < " ++ stop ++ txt "; " ++ iterator ++ txt "++) {" ++ [nl]
    ++ java_block_body body ++ [nl] ++ txt "};" ++ [nl]
    ++ txt "    }" ++ [nl] ++ txt "}".
Proof.
  intros Hname Hstop Hwf.
  destruct (BlockFacts.for_header_solid iterator stop) as [Hs He].
  rewrite (@BlockFacts.parse_block (for_header iterator stop)
             (ForLoopNode iterator
                (inr (VariableNode (txt "range(" ++ stop ++ txt ")"))))
             width body Hs He).
  - apply BlockFacts.java_for_block; assumption.
  - apply BlockFacts.for_header_no_newline; assumption.
  - intros parse k rest. apply BlockFacts.for_line; assumption.
  - exact Hwf.
Qed.

Lemma X25_python_loop_in_java_witness :
  render JavaGenerator
    (PythonParser.parse_python
       (txt "for i in range(n):" ++ [nl] ++ txt "    x = i" ++ [nl]
        ++ txt "    y = 1 + 2"))
  = txt "public class ConvertedCode {" ++ [nl]
    ++ txt "    public static void main(String[] args) {" ++ [nl]
    ++ txt "        for (int i = 0; i < n; i++) {" ++ [nl]
    ++ txt "    int x = i;" ++ [nl]
    ++ txt "    int y = 1 + 2;" ++ [nl]
    ++ txt "};" ++ [nl]
    ++ txt "    }" ++ [nl] ++ txt "}".
Proof.
  exact (@X25_python_loop_in_java (txt "i") (txt "n") 3
           [(txt "x", Atom (txt "i")); (txt "y", Sum (txt "1") (txt "2"))]
           eq_refl eq_refl eq_refl).
Defined.

(** X26.  From a function definition with a body of statements
    [JavaGenerator] writes a static method without indentation whose
    parameters are all of type [String], the statements as [int]
    declarations after four spaces, and no [main] method. *)
Theorem X26_python_function_in_java
  (name : text) (params : list text) (width : nat) (body : list assignment) :
  is_name name = true -> forallb is_name params = true ->
  forallb well_formed body = true ->
  render JavaGenerator
    (PythonParser.parse_python
       (block_text (def_header name params) (S width) body))
  = txt "public class ConvertedCode {" ++ [nl]
    ++ txt "public static void " ++ name ++ txt "("
    ++ join (txt ", ") (map (fun p => txt "String " ++ p) params)
    ++ txt ") {" ++ [nl]
    ++ java_block_body body ++ [nl] ++ txt "}" ++ [nl] ++ txt "}".
Proof.
  intros Hname Hparams Hwf.
  destruct (BlockFacts.def_header_solid name params) as [Hs He].
  rewrite (@BlockFacts.parse_block (def_header name params)
             (FunctionNode name params) width body Hs He).
  - apply BlockFacts.java_function_block; assumption.
  - apply BlockFacts.def_header_no_newline; assumption.
  - intros parse k rest. apply BlockFacts.def_line; assumption.
  - exact Hwf.
Qed.

Lemma X26_python_function_in_java_witness :
  render JavaGenerator
    (PythonParser.parse_python
       (txt "def f(a, b):" ++ [nl] ++ txt "    x = a"))
  = txt "public class ConvertedCode {" ++ [nl]
    ++ txt "public static void f(String a, String b) {" ++ [nl]
    ++ txt "    int x = a;" ++ [nl]
    ++ txt "}" ++ [nl] ++ txt "}".
Proof.
  exact (@X26_python_function_in_java (txt "f") [txt "a"; txt "b"] 3
           [(txt "x", Atom (txt "a"))] eq_refl eq_refl eq_refl).
Defined.

(** X27.  A loop header [while condition:] whose condition is an operand, a
    comparison of two operands or a sum of two integer literals, followed
    by indented statements, is parsed by [parse_python] into one loop node
    with the node of the condition and the nodes of the statements.
    [PythonGenerator] writes a comparison or sum in parentheses after
    [while]; [JavaGenerator] writes the text of the condition between
    parentheses, inside [main]. *)
Theorem X27_python_while_loop
  (r : rhs) (width : nat) (body : list assignment) :
  rhs_well_formed r = true -> forallb well_formed body = true ->
  let program :=
    PythonParser.parse_python (block_text (while_header r) (S width) body) in
  program = ProgramNode [WhileLoopNode (rhs_node r) (map node_of body)]
  /\ PythonGenerator.visit program
     = Ok (txt "while " ++ parenthesized_rhs r ++ txt ":" ++ [nl]
           ++ rendered_body body)
  /\ render JavaGenerator program
     = txt "public class ConvertedCode {" ++ [nl]
       ++ txt "    public static void main(String[] args) {" ++ [nl]
       ++ txt "        while (" ++ rhs_text r ++ txt ") {" ++ [nl]
       ++ java_block_body body ++ [nl] ++ txt "};" ++ [nl]
       ++ txt "    }" ++ [nl] ++ txt "}".
Proof.
  intros Hr Hwf program.
  assert (Hparse : program
                   = ProgramNode [WhileLoopNode (rhs_node r) (map node_of body)]).
  { destruct (BlockFacts.while_header_solid r) as [Hs He].
    apply (@BlockFacts.parse_block (while_header r)
             (WhileLoopNode (rhs_node r)) width body Hs He).
    - apply BlockFacts.while_header_no_newline; assumption.
    - intros parse k rest. apply BlockFacts.while_line; assumption.
    - exact Hwf. }
  split; [exact Hparse|]. rewrite Hparse. split.
  - apply BlockFacts.visit_while_block; assumption.
  - apply BlockFacts.java_while_block; assumption.
Qed.

Lemma X27_python_while_loop_witness :
  let program :=
    PythonParser.parse_python
      (txt "while i <= n:" ++ [nl] ++ txt "  x = i") in
  program
  = ProgramNode
      [WhileLoopNode
         (ComparisonNode (txt "<=") (VariableNode (txt "i"))
            (VariableNode (txt "n")))
         [AssignmentNode (VariableNode (txt "x")) (VariableNode (txt "i"))]]
  /\ PythonGenerator.visit program
     = Ok (txt "while (i <= n):" ++ [nl] ++ txt "    x = i")
  /\ render JavaGenerator program
     = txt "public class ConvertedCode {" ++ [nl]
       ++ txt "    public static void main(String[] args) {" ++ [nl]
       ++ txt "        while (i <= n) {" ++ [nl]
       ++ txt "    int x = i;" ++ [nl] ++ txt "};" ++ [nl]
       ++ txt "    }" ++ [nl] ++ txt "}".
Proof.
  exact (@X27_python_while_loop (Compare (txt "<=") (txt "i") (txt "n")) 1
           [(txt "x", Atom (txt "i"))] eq_refl eq_refl).
Defined.

End PythonBlocks.

(** ** Functions of the brace languages *)

Section BraceFunctions.
Import Reference Blocks Methods.

(** X28.  A Java class of one method [public static void] whose body is a
    list of declarations [int x = a;] on lines indented more than the
    method is parsed by [parse_java] into one function node: the line of
    the class and the closing braces give nothing, the parameters lose
    their types and every operand keeps its semicolon.  [PythonGenerator]
    writes a definition with the parameter names and the assignments with
    their semicolons; [JavaGenerator] writes a method whose parameters are
    all of type [String] and whose declarations end in two semicolons. *)
Theorem X28_java_class_with_one_method
  (cls name : text) (params : list parameter) (margin deeper : nat)
  (body : list declaration) :
  is_name cls = true -> is_name name = true ->
  forallb parameter_ok params = true -> forallb declaration_ok body = true ->
  let program :=
    JavaParser.parse_java
      (join [nl] (class_lines cls name params margin deeper body)) in
  program
  = ProgramNode [FunctionNode name (map snd params) (map declaration_node body)]
  /\ PythonGenerator.visit program
     = Ok (txt "def " ++ name ++ txt "(" ++ join (txt ", ") (map snd params)
           ++ txt "):" ++ [nl] ++ python_method_body body)
  /\ render JavaGenerator program
     = txt "public class ConvertedCode {" ++ [nl]
       ++ txt "public static void " ++ name ++ txt "("
       ++ join (txt ", ") (map (fun p => txt "String " ++ snd p) params)
       ++ txt ") {" ++ [nl]
       ++ java_method_body body ++ [nl] ++ txt "}" ++ [nl] ++ txt "}".
Proof.
  intros Hcls Hname Hparams Hbody program.
  assert (Hparse : program
                   = ProgramNode [FunctionNode name (map snd params)
                                    (map declaration_node body)])
    by (apply MethodFacts.java_parse_class; assumption).
  split; [exact Hparse|]. rewrite Hparse. split.
  - apply MethodFacts.visit_method.
  - rewrite MethodFacts.java_visit_method, map_map. reflexivity.
Qed.

Lemma X28_java_class_with_one_method_witness :
  let program :=
    JavaParser.parse_java
      (txt "public class Main {" ++ [nl]
       ++ txt "    public static void main(String[] args) {" ++ [nl]
       ++ txt "        int x = 1;" ++ [nl]
       ++ txt "    }" ++ [nl] ++ txt "}") in
  program
  = ProgramNode
      [FunctionNode (txt "main") [txt "args"]
         [AssignmentNode (VariableNode (txt "x")) (VariableNode (txt "1;"))]]
  /\ PythonGenerator.visit program
     = Ok (txt "def main(args):" ++ [nl] ++ txt "    x = 1;")
  /\ render JavaGenerator program
     = txt "public class ConvertedCode {" ++ [nl]
       ++ txt "public static void main(String args) {" ++ [nl]
       ++ txt "    int x = 1;;" ++ [nl] ++ txt "}" ++ [nl] ++ txt "}".
Proof.
  exact (@X28_java_class_with_one_method (txt "Main") (txt "main")
           [(txt "String[]", txt "args")] 4 3 [(txt "x", txt "1")]
           eq_refl eq_refl eq_refl eq_refl).
Defined.

(** X29.  A C++ function with a return type [void], [int] or [string],
    typed parameters and a body of declarations [int x = a;] on indented
    lines, closed by a brace on a line of its own, is parsed by
    [parse_cpp] into one function node: the return type and the types of
    the parameters are dropped, every operand keeps its semicolon and the
    brace gives nothing.  [PythonGenerator] writes a definition with the
    parameter names; [JavaGenerator] writes a [void] method with [String]
    parameters. *)
Theorem X29_cpp_function_with_declarations
  (ret name : text) (params : list parameter) (deeper : nat)
  (body : list declaration) :
  cpp_return_type ret = true -> is_name name = true ->
  forallb parameter_ok params = true -> forallb declaration_ok body = true ->
  let program :=
    CppParser.parse_cpp
      (join [nl] (function_lines ret name params deeper body)) in
  program
  = ProgramNode [FunctionNode name (map snd params) (map declaration_node body)]
  /\ PythonGenerator.visit program
     = Ok (txt "def " ++ name ++ txt "(" ++ join (txt ", ") (map snd params)
           ++ txt "):" ++ [nl] ++ python_method_body body)
  /\ render JavaGenerator program
     = txt "public class ConvertedCode {" ++ [nl]
       ++ txt "public static void " ++ name ++ txt "("
       ++ join (txt ", ") (map (fun p => txt "String " ++ snd p) params)
       ++ txt ") {" ++ [nl]
       ++ java_method_body body ++ [nl] ++ txt "}" ++ [nl] ++ txt "}".
Proof.
  intros Hret Hname Hparams Hbody program.
  assert (Hparse : program
                   = ProgramNode [FunctionNode name (map snd params)
                                    (map declaration_node body)])
    by (apply MethodFacts.cpp_parse_function; assumption).
  split; [exact Hparse|]. rewrite Hparse. split.
  - apply MethodFacts.visit_method.
  - rewrite MethodFacts.java_visit_method, map_map. reflexivity.
Qed.

Lemma X29_cpp_function_with_declarations_witness :
  let program :=
    CppParser.parse_cpp
      (txt "int add(int a, int b) {" ++ [nl]
       ++ txt "    int sum = a;" ++ [nl]
       ++ txt "    int twice = sum;" ++ [nl] ++ txt "}") in
  program
  = ProgramNode
      [FunctionNode (txt "add") [txt "a"; txt "b"]
         [AssignmentNode (VariableNode (txt "sum")) (VariableNode (txt "a;"));
          AssignmentNode (VariableNode (txt "twice"))
            (VariableNode (txt "sum;"))]]
  /\ PythonGenerator.visit program
     = Ok (txt "def add(a, b):" ++ [nl] ++ txt "    sum = a;" ++ [nl]
           ++ txt "    twice = sum;")
  /\ render JavaGenerator program
     = txt "public class ConvertedCode {" ++ [nl]
       ++ txt "public static void add(String a, String b) {" ++ [nl]
       ++ txt "    int sum = a;;" ++ [nl]
       ++ txt "    int twice = sum;;" ++ [nl] ++ txt "}" ++ [nl] ++ txt "}".
Proof.
  exact (@X29_cpp_function_with_declarations (txt "int") (txt "add")
           [(txt "int", txt "a"); (txt "int", txt "b")] 3
           [(txt "sum", txt "a"); (txt "twice", txt "sum")]
           eq_refl eq_refl eq_refl eq_refl).
Defined.

End BraceFunctions.
